(* ===== verification/_CoqProject ===== *)
-Q . S2P
Prelude.v
GoStrings.v
GoFloat.v
GoStrconv.v
Json.v
Struct.v
GoSort.v
HttpApi.v
Authz.v
Wire.v
ScopeKeys.v
GoPath.v
Contract.v
RecallCache.v
Sessions.v
SessionProps.v
SessionReplicas.v
ScopeVersions.v
RecallSelection.v
HybridRecall.v
Service.v
ServiceFootprint.v
ServiceCalls.v
RefWorld.v
ServiceRuns.v
Isolation.v
Lifecycle.v
Freshness.v
ReplicaCache.v
Selection.v
Mutations.v
SessionCloser.v
Vector.v
Outbox.v
Metrics.v
MetricsRace.v
TraceSink.v
TraceEmitter.v
Crons.v
Config.v
Transport.v
HttpWire.v
RelayWorker.v
Lexical.v
Migrations.v
Wiring.v
Process.v
Findings.v
