(* ===== verification/Prelude.v ===== *)
(** * Verification of the memory gateway

    The gateway is an HTTP service in front of a durable memory store: agents
    write, patch, pin, disable and delete memories and recall them by query,
    under a scope (tenant, user, project, session) that the headers of each
    request authorise.  This development models its Go code (src/internal and
    the wiring of src/cmd/memory-gateway) as executable definitions and proves
    what each part promises and what the parts guarantee together.

    ** How the parts interact

    [Process.run] reads the settings ([Config]) and builds the handler
    ([Wiring]).  [Transport.handle_http] routes a request as Go's ServeMux
    does, redirects included ([GoPath]), reads the scope of the headers
    ([Authz]), decodes a JSON body ([HttpWire]) into a request ([HttpApi]) and
    makes one call of the service ([Service]).  A method
    of the service merges the claimed scope with the authorised one
    ([ScopeKeys.mergeScope]), asks the session registry whether the session is
    open ([Sessions]), and then either recalls or mutates.  A recall looks in
    the process's cache ([RecallCache]) under the version of the scope
    ([ScopeVersions]) and falls back on a recall backend ([HybridRecall]) whose
    records it ranks and fits into a token budget ([RecallSelection]).  A
    mutation goes to the durable store and then drops the scope's cached
    recalls and bumps its version.  A close runs the session closer
    ([SessionCloser]).  Beside the requests, the outbox publisher ([Outbox])
    keeps the vector store ([Vector]) in step with the truth source, the trace
    sink ([TraceSink], fed by [TraceEmitter]) persists decision traces, the
    metrics ([Metrics]) count, and three jobs ([Crons]) reap idle sessions,
    remove old tombstones and measure storage over the queries of [Wiring].
    [Config] reads the settings all of them run with.

    ** Conventions

    A Go function that may fail is a program of the state and error monad
    [M]: it maps a state to a new state and to [Ok] or [Fail], and a failure
    keeps the changes made before it, as in Go.  [zoom] runs a program of a
    component on its part of a larger state, [attempt] inspects an error the
    way [if err != nil] does, [keeps] is the frame relation of a program.  Go
    [int] and [int64] are [Z] with [wrap64], [uint64] with [wrapu64]; [float64]
    is IEEE binary64 ([GoFloat]); a [string] is a sequence of bytes
    ([GoStrings]); a map read in Go's unspecified order is a [gmap] with the
    order as an argument; [sort.SliceStable] is [GoSort.SliceStable].  Pointers
    matter in two places and are addresses of a heap there: the traces shared
    by responses and the cache (the heap of [Service.St]) and the counters
    behind the metric buckets ([MetricsRace]).  Time is a number of
    nanoseconds; [time.Now()] is a clock indexed by the number of readings, of
    which nothing is assumed, or an argument.

    Code of other modules (the memory contract, the Postgres store and relay,
    the vector store and embedder, pgx) and SHA-256 are parameters:
    [Contract] gives its interfaces as records of operations over an abstract
    external world, and a theorem that relies on a documented behaviour states
    it as a class of laws ([Contract.RecordStoreReads]: reads do not write;
    [Contract.IdempotencyLaws]: a table whose saves set their key unless they
    answer with an error; [Isolation.Ledger]: a store that answers with the
    records a tenant holds).  [RefWorld]
    instantiates them with small executable functions, on which the witnesses
    run.  SQL statements of the gateway itself are functions on rows, and
    their execution may fail before or after it commits, in the scan of a row
    or between two rows.

    ** Files, in order

    - [Prelude]: integers, results, the monad and its frame rules, sums.
    - [GoStrings], [GoFloat], [GoStrconv], [GoSort]: what the code uses of the
      Go library; [Json] is the syntax of encoding/json, [Struct] its treatment
      of structs, tags and values already there.
    - [HttpApi]: internal/httpapi; [Authz]: internal/authz; [Wire]: the JSON of
      httpapi/types.go, and of the payloads hashWriteRequest and
      hashPatchRequest of service.go digest.
    - [ScopeKeys]: the string keys built from scopes; for scopes free of the
      separator they are injective.
    - [GoPath]: the paths of net/http: cleaning, escapes, patterns.
    - [Contract]: the interfaces of other modules.
    - [RecallCache]: service/recall_cache.go.
    - [Sessions], [SessionProps]: service/session_registry.go,
      postgres_session_store.go; the abstract session machine, the contract
      [SessionStoreLaws] that both stores discharge, and the refinement of the
      registry.  The registry's methods are written once over the accesses to
      the cache and the store ([Sessions.RegistryAccess]): [SessionProps] runs
      them alone, [SessionReplicas] interleaves those of any number of
      replicas, access by access.
    - [ScopeVersions]: scope_version_store.go, postgres_scope_version_store.go,
      both under [ScopeVersionLaws].
    - [RecallSelection]: recall_selection.go, token_budget.go;
      [HybridRecall]: hybrid_recaller.go, vector_candidate_source.go and the
      hydrator of postgres_recall_store.go.
    - [Service]: service.go, one definition per method.
    - [ServiceFootprint], [ServiceCalls], [ServiceRuns]: what a method may
      touch, sequences of calls, runs taken apart; the lemmas the next files
      share.
    - [RefWorld]: the concrete world of the witnesses.
    - [Isolation], [Lifecycle], [Freshness], [ReplicaCache], [Selection],
      [Mutations]: the properties of the service.
    - [SessionCloser]: durable_session_closer.go and its working store.
    - [Vector]: tenant_bucket.go, embedding_metrics.go,
      rag_vector_candidate_source.go, vector_projector.go and the Go side of
      postgres_recall_store.go, whose statement is in [Lexical]; [Outbox]: outbox_vector_publisher.go, outbox_observer.go.
    - [Metrics], [MetricsRace]: observability/metrics.go, sequentially and
      under interleaving.
    - [TraceSink]: trace_sink.go, trace_sink_postgres.go; [TraceEmitter]:
      observability/trace_sink_emitter.go.
    - [Crons]: session_reaper_cron.go, hard_delete_gc_cron.go,
      storage_metrics_cron.go.
    - [Config]: internal/config; [Transport]: internal/transport over any
      decoder, [HttpWire]: the same with JSON bodies.
    - cmd/memory-gateway/main.go: [RelayWorker] (startOutboxRelayWorker),
      [Wiring] (the closures over SQL, buildHandler), [Process] (run, main, the
      vector store and the slog emitters).
    - [Migrations]: postgres_migrator.go, and what the stores' queries need of
      the schema; cmd/memory-gateway-migrate is [Process.migrate_main].
    - [Findings]: behaviours that depart from the code's intent.

    ** What the theorems show

    Isolation: whatever bodies claim, calls of a tenant act on the world as the
    backend acts for that tenant, and every hit, cached or not, is made of a
    record that the caller's tenant holds and the caller's scope owns.  Sessions: the registry refines a machine in which a closed session
    is final; a closed session refuses every fenced call ever after, a close
    runs its closer before it records the state, and a heartbeat opens a window
    of exactly the idle TTL.  Freshness: where the hits of a recall come from at
    each level, that a caller reads its own writes, and that a bounded answer
    of any replica has seen every announced write.  Selection: the ranked
    candidates are sorted and unique as a list, the best identifiers are taken,
    the budget is kept and used greedily.  Mutations: the behaviour of the flag
    mutations on every branch, keyed patches applied once when their key was
    saved, the read-only freeze, and typed errors only.  The remaining groups give each component
    its contract: the closer, the publisher, the metrics (also under races),
    the trace sink (conservation, order and duplicates, bounds, termination of
    the drain), the
    emitter, the jobs, the settings, the lexical recall against its meaning, the
    relay worker's stop, migrations interrupted and repeated, and the resources
    of the process.  HTTP: the surface refines the service; requests and answers
    survive JSON, and so every call of the service can be made by a client;
    whatever bytes arrive, a call that is made is well formed; and the digests
    of idempotent requests tell payloads apart.

    Theorems about cached state speak of scopes free of "|", the separator of
    the keys; [Isolation.recall_cache_leaks_across_pipes] shows why.

    ** Bounds and fuel

    Recursion on fuel is in [Config.ParseDuration], with the length of the
    string, enough because every group consumes a byte
    ([Config.duration_groups_fuel]); in [Json.read_json], with twice the length
    of the input and two ([Json.read_json_fuel]: more changes nothing); and in
    [GoStrconv]: the digits of a number and its trailing zeros take at most its
    bits ([digits_fuel_spec], [strip_last_step]), and the search for the
    shortest decimal of a float as many steps as its exact expansion has digits
    ([shortest_found]).  The loops of the trace sink, the jobs and the relay
    worker are event systems without fuel; [TraceSink.drain_terminates] and
    [RelayWorker.relay_stop_returns] bound them by explicit measures.
    Everything else is structural.

    ** Not modelled

    The listener of [Process.run] only returns (the code handles no signal),
    and pgmemory's relay is only seen to publish and to return; the texts of the
    errors of [encoding/json], a parameter like the status of ServeMux's
    redirects (it depends on the Go release), and of [strconv] and [time], without
    the quoted input; the locale of Postgres, a parameter of [Lexical];
    cancellation of request contexts inside the service. *)

From stdpp Require Export base tactics list list_numbers option numbers strings gmap fin_maps.
From Stdlib Require Export ZArith Lia.

#[global] Set Default Proof Using "Type".

(** [gateway] rewrites scope projections, [gateway_errors] builds the errors of
    the HTTP contract, [go_keeps] proves frames of monadic programs and
    [go_typed] that their errors are typed. *)
Create Rewrite HintDb gateway.
Create HintDb gateway_errors discriminated.
Create HintDb go_keeps discriminated.
Create HintDb go_typed.

(** ** Machine integers

    Go's [int] and [int64] are 64-bit two's complement, [uint64] is modulo
    [2^64].  Both are kept as [Z] with the wrap-around written out. *)
Definition max_int64 : Z := 9223372036854775807.
Definition min_int64 : Z := -9223372036854775808.
Definition two64 : Z := 18446744073709551616.

Definition wrap64 (z : Z) : Z := (z - min_int64) `mod` two64 + min_int64.
Definition wrapu64 (z : Z) : Z := z `mod` two64.

Definition int64_range (z : Z) : Prop := (min_int64 <= z <= max_int64)%Z.

Lemma wrap64_id z : int64_range z -> wrap64 z = z.
Proof.
  unfold int64_range, wrap64, min_int64, max_int64, two64. intros H.
  rewrite Z.mod_small; lia.
Qed.

Lemma wrap64_range z : int64_range (wrap64 z).
Proof.
  unfold int64_range, wrap64, min_int64, max_int64, two64.
  pose proof (Z.mod_pos_bound (z - -9223372036854775808) 18446744073709551616).
  lia.
Qed.

Lemma wrapu64_range z : (0 <= wrapu64 z < two64)%Z.
Proof. apply Z.mod_pos_bound. done. Qed.

Lemma wrapu64_id z : (0 <= z < two64)%Z -> wrapu64 z = z.
Proof. apply Z.mod_small. Qed.

Lemma wrapu64_add_l a b : wrapu64 (wrapu64 a + b) = wrapu64 (a + b).
Proof. apply Zplus_mod_idemp_l. Qed.

Lemma wrapu64_add_r a b : wrapu64 (a + wrapu64 b) = wrapu64 (a + b).
Proof. apply Zplus_mod_idemp_r. Qed.

(** Congruence modulo [2^64]: [setoid_rewrite] with [wrapu64_eqm] erases the
    wrap-arounds of a sum of counters. *)
Definition eqm64 (a b : Z) : Prop := wrapu64 a = wrapu64 b.

#[export] Instance eqm64_equiv : Equivalence eqm64.
Proof. split; repeat intro; unfold eqm64 in *; congruence. Qed.

#[export] Instance eqm64_add : Proper (eqm64 ==> eqm64 ==> eqm64) Z.add.
Proof.
  intros a b H c d H'. unfold eqm64 in *.
  by rewrite <-(wrapu64_add_l a), <-(wrapu64_add_r _ c), H, H', wrapu64_add_l, wrapu64_add_r.
Qed.

Lemma wrapu64_eqm z : eqm64 (wrapu64 z) z.
Proof. apply Zmod_mod. Qed.

Lemma eqm64_eq a b : a = b -> eqm64 a b.
Proof. by intros ->. Qed.

(** ** Results and the state-and-error monad

    A Go function [func (...) (A, error)] that may change state is a function
    [S -> S * result A]: the state reached is kept on the error path too,
    because Go does not roll back.  [goerror] is defined in [HttpApi.v]; the
    monad is generic in the error type. *)
Inductive result (Err A : Type) : Type :=
| Ok (a : A)
| Fail (e : Err).
Arguments Ok {Err A} a.
Arguments Fail {Err A} e.

Definition is_ok {Err A} (r : result Err A) : bool :=
  match r with Ok _ => true | Fail _ => false end.

(** The value of a run that succeeds, as a witness reads it. *)
Definition ok_and {S Err A} (p : S * result Err A) (P : S -> A -> Prop) : Prop :=
  match p with (s, Ok a) => P s a | (_, Fail _) => False end.

Lemma ok_and_intro {S Err A} (p : S * result Err A) (P : S -> A -> Prop) :
  is_ok p.2 = true -> (forall s a, p = (s, Ok a) -> P s a) -> ok_and p P.
Proof. destruct p as [s [a|e]]; cbn; [auto|done]. Defined.

(** The same for a run that can be stuck. *)
Definition some_and {A} (o : option A) (P : A -> Prop) : Prop :=
  match o with Some a => P a | None => False end.

Lemma some_and_intro {A} (o : option A) (P : A -> Prop) :
  match o with Some _ => true | None => false end = true -> (forall a, o = Some a -> P a) -> some_and o P.
Proof. destruct o; cbn; [auto|done]. Defined.

Definition result_map {Err A B} (f : A -> B) (r : result Err A) : result Err B :=
  match r with Ok a => Ok (f a) | Fail e => Fail e end.

Definition M (Err S A : Type) : Type := S -> S * result Err A.

#[export] Instance M_ret Err S : MRet (M Err S) := fun A a s => (s, Ok a).
#[export] Instance M_bind Err S : MBind (M Err S) := fun A B f m s =>
  match m s with
  | (s', Ok a) => f a s'
  | (s', Fail e) => (s', Fail e)
  end.

(** [return ..., err] *)
Definition throw {Err S A} (e : Err) : M Err S A := fun s => (s, Fail e).
(** A pure [(A, error)] value returned as it is. *)
Definition of_result {Err S A} (r : result Err A) : M Err S A := fun s => (s, r).
(** [x, err := f()] with the error inspected instead of returned. *)
Definition attempt {Err S A} (m : M Err S A) : M Err S (result Err A) :=
  fun s => let '(s', r) := m s in (s', Ok r).
Definition gets {Err S A} (f : S -> A) : M Err S A := fun s => (s, Ok (f s)).
Definition modify {Err S} (f : S -> S) : M Err S unit := fun s => (f s, Ok tt).
(** A call on a component of the state, seen from the whole state. *)
Definition zoom {Err S T A} (get : S -> T) (set : T -> S -> S) (m : M Err T A)
  : M Err S A :=
  fun s => let '(t, r) := m (get s) in (set t s, r).

Section monad_runs.
Context {Err S : Type}.

Lemma run_ret {A} (a : A) (s : S) : (mret a : M Err S A) s = (s, Ok a).
Proof. done. Qed.

Lemma run_bind {A B} (m : M Err S A) (f : A -> M Err S B) s :
  (m ≫= f) s = match m s with
               | (s', Ok a) => f a s'
               | (s', Fail e) => (s', Fail e)
               end.
Proof. done. Qed.

Lemma bind_ok_inv {A B} (m : M Err S A) (f : A -> M Err S B) s s' b :
  (m ≫= f) s = (s', Ok b) -> exists s1 a, m s = (s1, Ok a) /\ f a s1 = (s', Ok b).
Proof. rewrite run_bind. destruct (m s) as [s1 [a|e]]; naive_solver. Qed.

Lemma bind_fail_inv {A B} (m : M Err S A) (f : A -> M Err S B) s s' e :
  (m ≫= f) s = (s', Fail e) ->
  m s = (s', Fail e) \/ exists s1 a, m s = (s1, Ok a) /\ f a s1 = (s', Fail e).
Proof. rewrite run_bind. destruct (m s) as [s1 [a|e1]]; naive_solver. Qed.

Lemma bind_assoc_run {A B C} (m : M Err S A) (f : A -> M Err S B)
    (g : B -> M Err S C) s :
  ((m ≫= f) ≫= g) s = (m ≫= (fun a => f a ≫= g)) s.
Proof. rewrite !run_bind. destruct (m s) as [s1 [a|e]]; done. Qed.
End monad_runs.

(** ** Frames

    [keeps R m]: running [m] moves the state along the relation [R], on the
    success path and on the error path.  For a preorder [R] the rules below
    follow the shape of the program, so [solve_keeps] proves most frames. *)
Definition keeps {Err S A} (R : relation S) (m : M Err S A) : Prop :=
  forall s, R s (m s).1.

Section keeps_rules.
Context {Err S : Type} (R : relation S) {HR : PreOrder R}.

Lemma keeps_ret {A} (a : A) : keeps R (mret a : M Err S A).
Proof using HR. intros s. cbn. reflexivity. Qed.

Lemma keeps_throw {A} (e : Err) : keeps R (throw e : M Err S A).
Proof using HR. intros s. cbn. reflexivity. Qed.

Lemma keeps_of_result {A} (r : result Err A) : keeps R (of_result r : M Err S A).
Proof using HR. intros s. cbn. reflexivity. Qed.

Lemma keeps_gets {A} (f : S -> A) : keeps R (gets f : M Err S A).
Proof using HR. intros s. cbn. reflexivity. Qed.

Lemma keeps_modify (f : S -> S) :
  (forall s, R s (f s)) -> keeps R (modify f : M Err S unit).
Proof. intros H s. cbn. apply H. Qed.

Lemma keeps_bind {A B} (m : M Err S A) (f : A -> M Err S B) :
  keeps R m -> (forall a, keeps R (f a)) -> keeps R (m ≫= f).
Proof using HR.
  intros Hm Hf s. rewrite run_bind. specialize (Hm s).
  destruct (m s) as [s1 [a|e]]; cbn in *; [|done].
  etransitivity; [exact Hm | apply Hf].
Qed.

(** The continuation may rely on what the first part returned. *)
Lemma keeps_bind_post {A B} (P : A -> Prop) (m : M Err S A) (f : A -> M Err S B) :
  keeps R m -> (forall s s' a, m s = (s', Ok a) -> P a) -> (forall a, P a -> keeps R (f a)) ->
  keeps R (m ≫= f).
Proof using HR.
  intros Hm HP Hf s. rewrite run_bind. specialize (Hm s). specialize (HP s).
  destruct (m s) as [s1 [a|e]]; cbn in *; [|done].
  etransitivity; [exact Hm | apply Hf; eauto].
Qed.

Lemma keeps_attempt {A} (m : M Err S A) : keeps R m -> keeps R (attempt m).
Proof. intros Hm s. unfold attempt. specialize (Hm s). by destruct (m s). Qed.

Lemma keeps_zoom {T A} (get : S -> T) (set : T -> S -> S) (m : M Err T A) :
  (forall s t, R s (set t s)) -> keeps R (zoom get set m).
Proof. intros H s. unfold zoom. destruct (m (get s)); cbn. apply H. Qed.
End keeps_rules.

#[export] Hint Resolve keeps_ret keeps_throw keeps_of_result keeps_gets : go_keeps.
#[export] Hint Extern 0 (PreOrder _) => apply _ : go_keeps.

(** Follow the program: split binds, conditionals and matches, and close the
    leaves with the [go_keeps] hints and the relation at the leaf. *)
Ltac keeps_step :=
  match goal with
  | |- keeps _ (_ ≫= _) => apply keeps_bind; [ apply _ | | intros ? ]
  | |- keeps _ (attempt _) => apply keeps_attempt
  | |- keeps _ (if ?b then _ else _) => destruct b
  | |- keeps _ (match ?x with _ => _ end) => destruct x
  | |- keeps _ (let _ := _ in _) => cbv zeta
  end.

Ltac solve_keeps :=
  repeat first [ solve [eauto 8 with go_keeps] | keeps_step ].

(** Invert a successful run through the binds of a handler. *)
Ltac run_inv :=
  repeat match goal with
  | H : (_ ≫= _) _ = (_, Ok _) |- _ =>
      apply bind_ok_inv in H; destruct H as (? & ? & ? & H)
  | H : (mret _) _ = _ |- _ => cbn in H
  | H : (_, Ok _) = (_, Ok _) |- _ => injection H as ? ?
  | H : (_, Ok _) = (_, Fail _) |- _ => discriminate H
  | H : (_, Fail _) = (_, Ok _) |- _ => discriminate H
  end; subst.

(** A run from its two halves. *)
Lemma run_eq {A B} (p : A * B) a b : p.1 = a -> p.2 = b -> p = (a, b).
Proof. destruct p. by intros <- <-. Qed.

(** ** List lemmas shared by the components *)
Definition sum_Z (l : list Z) : Z := foldr Z.add 0%Z l.

Lemma sum_Z_app l1 l2 : sum_Z (l1 ++ l2) = (sum_Z l1 + sum_Z l2)%Z.
Proof. induction l1 as [|x l1 IH]; cbn; [done|]. unfold sum_Z in *. lia. Qed.

Lemma sum_Z_nonneg l : Forall (fun z => 0 <= z)%Z l -> (0 <= sum_Z l)%Z.
Proof. induction 1; cbn; [done|]. unfold sum_Z in *. lia. Qed.

#[export] Instance sum_Z_perm : Proper ((≡ₚ) ==> (=)) sum_Z.
Proof. induction 1; unfold sum_Z in *; cbn in *; lia. Qed.

Lemma map_sublist {A B} (f : A -> B) l1 l2 : l1 `sublist_of` l2 -> map f l1 `sublist_of` map f l2.
Proof. induction 1; cbn; by constructor. Qed.
