(* ===== verification/GoStrings.v ===== *)
(** * Go strings

    A Go [string] is a sequence of bytes: here [string] over [ascii], one
    [ascii] per byte.  This file models what the gateway uses of the packages
    [strings], [unicode], [unicode/utf8] and [strconv]/[fmt]: rune decoding,
    [TrimSpace], the number of [Fields], [RuneCountInString], [HasPrefix], the
    byte order used by [sort], and decimal formatting. *)
From S2P Require Import Prelude.
From stdpp Require Export pretty.
From Stdlib Require Import Ascii.
Open Scope string_scope.

Definition byte_val (c : ascii) : Z := Z.of_N (N_of_ascii c).

(** ** UTF-8 ([unicode/utf8]) *)
Definition RuneError : Z := 65533.

Definition in_range (lo hi : Z) (c : ascii) : bool :=
  (lo <=? byte_val c)%Z && (byte_val c <=? hi)%Z.

(** Continuation bytes: [0x80..0xBF]. *)
Definition cont (c : ascii) : bool := in_range 128 191 c.
Definition low6 (c : ascii) : Z := Z.land (byte_val c) 63.

(** [utf8.DecodeRuneInString] on a non-empty string [String c0 s]: the rune
    and its width; an invalid or short sequence is [(RuneError, 1)]. *)
Definition decode_rune (c0 : ascii) (s : string) : Z * nat :=
  let b0 := byte_val c0 in
  if (b0 <? 128)%Z then (b0, 1)
  else if in_range 194 223 c0 then
    match s with
    | String c1 _ =>
        if cont c1 then (Z.lor (Z.shiftl (Z.land b0 31) 6) (low6 c1), 2) else (RuneError, 1)
    | _ => (RuneError, 1)
    end
  else if in_range 224 239 c0 then
    match s with
    | String c1 (String c2 _) =>
        let lo := if (b0 =? 224)%Z then 160%Z else 128%Z in
        let hi := if (b0 =? 237)%Z then 159%Z else 191%Z in
        if in_range lo hi c1 && cont c2
        then (Z.lor (Z.shiftl (Z.land b0 15) 12)
                (Z.lor (Z.shiftl (low6 c1) 6) (low6 c2)), 3)
        else (RuneError, 1)
    | _ => (RuneError, 1)
    end
  else if in_range 240 244 c0 then
    match s with
    | String c1 (String c2 (String c3 _)) =>
        let lo := if (b0 =? 240)%Z then 144%Z else 128%Z in
        let hi := if (b0 =? 244)%Z then 143%Z else 191%Z in
        if in_range lo hi c1 && cont c2 && cont c3
        then (Z.lor (Z.shiftl (Z.land b0 7) 18)
               (Z.lor (Z.shiftl (low6 c1) 12)
                 (Z.lor (Z.shiftl (low6 c2) 6) (low6 c3))), 4)
        else (RuneError, 1)
    | _ => (RuneError, 1)
    end
  else (RuneError, 1).

(** The runes of a string, as [for _, r := range s] yields them.  [skip] is
    the number of bytes of the current rune still to pass over. *)
Fixpoint runes_from (skip : nat) (s : string) : list Z :=
  match s with
  | EmptyString => []
  | String c s' =>
      match skip with
      | S k => runes_from k s'
      | O => let '(r, n) := decode_rune c s' in r :: runes_from (n - 1) s'
      end
  end.
Definition runes (s : string) : list Z := runes_from 0 s.

(** [utf8.ValidString]: an ill-formed byte decodes to [RuneError] of width 1. *)
Fixpoint utf8_valid_from (skip : nat) (s : string) : bool :=
  match s with
  | EmptyString => true
  | String c s' =>
      match skip with
      | S k => utf8_valid_from k s'
      | O => let '(r, n) := decode_rune c s' in
             negb ((r =? RuneError)%Z && Nat.eqb n 1) && utf8_valid_from (n - 1) s'
      end
  end.
Definition utf8_valid (s : string) : bool := utf8_valid_from 0 s.

Definition RuneCountInString (s : string) : Z := Z.of_nat (length (runes s)).

(** ** [unicode.IsSpace] (the White_Space property) *)
Definition IsSpace (r : Z) : bool :=
  ((9 <=? r) && (r <=? 13) || (r =? 32) || (r =? 133) || (r =? 160)
   || (r =? 5760) || ((8192 <=? r) && (r <=? 8202)) || (r =? 8232) || (r =? 8233)
   || (r =? 8239) || (r =? 8287) || (r =? 12288))%Z.

(** ** [strings.TrimSpace] *)
Fixpoint trim_left_from (skip : nat) (s : string) : string :=
  match s with
  | EmptyString => EmptyString
  | String c s' =>
      match skip with
      | S k => trim_left_from k s'
      | O => let '(r, n) := decode_rune c s' in
             if IsSpace r then trim_left_from (n - 1) s' else s
      end
  end.

Definition rune_start (c : ascii) : bool := negb (cont c).

(** [utf8.DecodeLastRuneInString] on the reversed bytes [c0 :: l]: the last
    rune and its width. *)
Definition decode_last_rune (c0 : ascii) (l : list ascii) : Z * nat :=
  if (byte_val c0 <? 128)%Z then (byte_val c0, 1) else
  let try_at (c : ascii) (rest : string) (k : nat) : Z * nat :=
    let '(r, n) := decode_rune c rest in
    if Nat.eqb n k then (r, k) else (RuneError, 1) in
  match l with
  | [] => (RuneError, 1)
  | c1 :: l1 =>
      if rune_start c1 then try_at c1 (String c0 EmptyString) 2 else
      match l1 with
      | [] => (RuneError, 1)
      | c2 :: l2 =>
          if rune_start c2 then try_at c2 (String c1 (String c0 EmptyString)) 3 else
          match l2 with
          | [] => (RuneError, 1)
          | c3 :: _ =>
              if rune_start c3
              then try_at c3 (String c2 (String c1 (String c0 EmptyString))) 4
              else (RuneError, 1)
          end
      end
  end.

Fixpoint trim_right_rev (skip : nat) (l : list ascii) : list ascii :=
  match l with
  | [] => []
  | c :: l' =>
      match skip with
      | S k => trim_right_rev k l'
      | O => let '(r, n) := decode_last_rune c l' in
             if IsSpace r then trim_right_rev (n - 1) l' else l
      end
  end.

Definition trim_right (s : string) : string :=
  String.string_of_list_ascii (reverse (trim_right_rev 0 (reverse (String.list_ascii_of_string s)))).

Definition TrimSpace (s : string) : string := trim_right (trim_left_from 0 s).

(** ** [len(strings.Fields(s))]: maximal runs of non-space runes *)
Fixpoint count_fields (in_field : bool) (rs : list Z) : Z :=
  match rs with
  | [] => 0
  | r :: rs' =>
      if IsSpace r then count_fields false rs'
      else (if in_field then 0 else 1) + count_fields true rs'
  end%Z.
Definition FieldsCount (s : string) : Z := count_fields false (runes s).

(** ** Formatting *)
Definition fmt_d (z : Z) : string := pretty z.
Definition fmt_t (b : bool) : string := if b then "true" else "false".
(** [%02d] for a non-negative number. *)
Definition fmt_02d (z : Z) : string := if (z <? 10)%Z then "0" ++ fmt_d z else fmt_d z.

(** ** Byte order on strings ([s < t] in Go) *)
Definition str_ltb (s t : string) : bool := String.ltb s t.

(** ** Evaluation checks *)
Example trim_space_ascii : TrimSpace " 	 a b
" = "a b".
Proof. reflexivity. Qed.
Example rune_count_utf8 :
  RuneCountInString (String "195"%char (String "169"%char "a")) = 2%Z.
Proof. reflexivity. Qed.
Example fields_count_ex : FieldsCount "  two  words " = 2%Z.
Proof. reflexivity. Qed.

(** ** Lemmas *)
Lemma runes_from_length skip s : (length (runes_from skip s) <= String.length s)%nat.
Proof.
  revert skip; induction s as [|c s IH]; intros skip; cbn; [lia|].
  destruct skip as [|k]; [|specialize (IH k); lia].
  destruct (decode_rune c s) as [r n]; cbn. specialize (IH (n - 1)%nat). lia.
Qed.

Lemma RuneCountInString_bounds s :
  (0 <= RuneCountInString s <= Z.of_nat (String.length s))%Z.
Proof. unfold RuneCountInString, runes. pose proof (runes_from_length 0 s). lia. Qed.

Lemma RuneCountInString_pos s : s <> "" -> (1 <= RuneCountInString s)%Z.
Proof.
  destruct s as [|c s]; [done|]. intros _.
  unfold RuneCountInString, runes; cbn.
  destruct (decode_rune c s) as [r n]; cbn. lia.
Qed.

Lemma count_fields_bounds b rs : (0 <= count_fields b rs <= Z.of_nat (length rs))%Z.
Proof.
  revert b; induction rs as [|r rs IH]; intros b; cbn -[Z.of_nat]; [lia|].
  destruct (IsSpace r); [specialize (IH false) | specialize (IH true)]; destruct b; lia.
Qed.

Lemma FieldsCount_bounds s : (0 <= FieldsCount s <= Z.of_nat (String.length s))%Z.
Proof.
  unfold FieldsCount. pose proof (count_fields_bounds false (runes s)).
  pose proof (runes_from_length 0 s). unfold runes in *. lia.
Qed.

(** *** The byte order is a strict total order *)
Lemma ascii_compare_lt_trans a b c :
  Ascii.compare a b = Lt -> Ascii.compare b c = Lt -> Ascii.compare a c = Lt.
Proof. unfold Ascii.compare. rewrite !N.compare_lt_iff. lia. Qed.

Lemma string_compare_lt_trans s t u :
  (s ?= t) = Lt -> (t ?= u) = Lt -> (s ?= u) = Lt.
Proof.
  revert t u; induction s as [|a s IH]; intros [|b t] [|c u]; cbn; try done.
  destruct (Ascii.compare a b) eqn:Hab; try done;
  destruct (Ascii.compare b c) eqn:Hbc; try done; intros H1 H2.
  - apply Ascii.compare_eq_iff in Hab as ->. rewrite Hbc. eauto.
  - apply Ascii.compare_eq_iff in Hab as ->. by rewrite Hbc.
  - apply Ascii.compare_eq_iff in Hbc as ->. by rewrite Hab.
  - by rewrite (ascii_compare_lt_trans a b c).
Qed.

Lemma string_compare_refl s : (s ?= s) = Eq.
Proof.
  pose proof (String.compare_antisym s s) as H.
  destruct (s ?= s); cbn in H; done.
Qed.

Lemma str_ltb_irrefl s : str_ltb s s = false.
Proof. unfold str_ltb, String.ltb. by rewrite string_compare_refl. Qed.

Lemma str_ltb_trans s t u : str_ltb s t = true -> str_ltb t u = true -> str_ltb s u = true.
Proof.
  unfold str_ltb, String.ltb.
  destruct (s ?= t) eqn:H1; try done. destruct (t ?= u) eqn:H2; try done.
  by rewrite (string_compare_lt_trans s t u).
Qed.

Lemma str_ltb_total s t : str_ltb s t = false -> str_ltb t s = false -> s = t.
Proof.
  unfold str_ltb, String.ltb. rewrite (String.compare_antisym t s).
  destruct (s ?= t) eqn:H1; cbn; try done.
  intros _ _. by apply String.compare_eq_iff.
Qed.

Lemma str_ltb_asym s t : str_ltb s t = true -> str_ltb t s = false.
Proof.
  intros H. destruct (str_ltb t s) eqn:H'; [|done].
  pose proof (str_ltb_trans _ _ _ H H'). by rewrite str_ltb_irrefl in *.
Qed.

(** *** Well-formed UTF-8 and concatenation *)
Definition bad_rune (p : Z * nat) : bool := (p.1 =? RuneError)%Z && Nat.eqb p.2 1.

Lemma append_cons c s t : String c s +:+ t = String c (s +:+ t).
Proof. done. Qed.

Lemma decode_rune_app c s t :
  bad_rune (decode_rune c s) = false ->
  decode_rune c (s +:+ t) = decode_rune c s /\ (1 <= (decode_rune c s).2 <= S (String.length s))%nat.
Proof.
  unfold decode_rune.
  destruct (byte_val c <? 128)%Z; [intros _; split; [done|cbn; lia]|].
  destruct (in_range 194 223 c).
  { destruct s as [|c1 s]; [intros H; discriminate H|]. rewrite append_cons.
    destruct (cont c1); [intros _; split; [done|cbn; lia]|intros H; discriminate H]. }
  destruct (in_range 224 239 c).
  { destruct s as [|c1 [|c2 s]]; [intros H; discriminate H..|]. rewrite !append_cons.
    destruct (in_range _ _ c1 && cont c2); [intros _; split; [done|cbn; lia]|intros H; discriminate H]. }
  destruct (in_range 240 244 c); [|intros H; discriminate H].
  destruct s as [|c1 [|c2 [|c3 s]]]; [intros H; discriminate H..|]. rewrite !append_cons.
  destruct (in_range _ _ c1 && cont c2 && cont c3); [intros _; split; [done|cbn; lia]|intros H; discriminate H].
Qed.

Lemma utf8_valid_cons c s :
  utf8_valid_from 0 (String c s) = negb (bad_rune (decode_rune c s)) && utf8_valid_from ((decode_rune c s).2 - 1) s.
Proof. cbn. by destruct (decode_rune c s). Qed.

Lemma runes_cons c s :
  runes_from 0 (String c s) = (decode_rune c s).1 :: runes_from ((decode_rune c s).2 - 1) s.
Proof. cbn. by destruct (decode_rune c s). Qed.

Lemma utf8_app_from k s t :
  (k <= String.length s)%nat -> utf8_valid_from k s = true ->
  runes_from k (s +:+ t) = (runes_from k s ++ runes_from 0 t)%list /\
  utf8_valid_from k (s +:+ t) = utf8_valid_from 0 t.
Proof.
  revert k. induction s as [|c s IH]; intros k Hk.
  - cbn in Hk. assert (k = 0)%nat as -> by lia. done.
  - destruct k as [|k]; [|cbn in *; apply IH; lia].
    change (String c s +:+ t) with (String c (s +:+ t)).
    rewrite !utf8_valid_cons, !runes_cons, andb_true_iff, negb_true_iff. intros [Hd Hv].
    destruct (decode_rune_app c s t Hd) as [-> Hn].
    destruct (IH ((decode_rune c s).2 - 1)%nat ltac:(lia) Hv) as [-> ->]. by rewrite Hd.
Qed.

Lemma runes_app s t : utf8_valid s = true -> runes (s +:+ t) = (runes s ++ runes t)%list.
Proof. intros H. by apply utf8_app_from; [lia|]. Qed.

Lemma utf8_valid_app s t : utf8_valid s = true -> utf8_valid (s +:+ t) = utf8_valid t.
Proof. intros H. by apply utf8_app_from; [lia|]. Qed.
