(* ===== verification/GoFloat.v ===== *)
(** * Go [float64]

    IEEE 754 binary64 as the executable [spec_float] of the Standard Library,
    at precision 53 and maximal exponent 1024: the operations the gateway
    applies to scores, and the facts the sorting proofs need, namely that
    away from NaN the comparison is a total preorder. *)
From S2P Require Import Prelude.
From Stdlib Require Export SpecFloat.
Open Scope Z_scope.

Abbreviation float64 := spec_float.

Definition f_add (x y : float64) : float64 := SFadd 53 1024 x y.
Definition f_div (x y : float64) : float64 := SFdiv 53 1024 x y.
Definition f_ltb (x y : float64) : bool := SFltb x y.
Definition f_gtb (x y : float64) : bool := SFltb y x.
Definition f_geb (x y : float64) : bool := SFleb y x.
Definition f_eqb (x y : float64) : bool := SFeqb x y.
Definition f_neqb (x y : float64) : bool := negb (SFeqb x y).
(** [float64(n)] for an [int]. *)
Definition f_of_Z (z : Z) : float64 := binary_normalize 53 1024 z 0 false.

Definition f_zero : float64 := S754_zero false.
Definition f_one : float64 := f_of_Z 1.
Definition f_two : float64 := f_of_Z 2.
Definition f_half : float64 := f_div f_one f_two.

Definition is_nan_f (x : float64) : bool :=
  match x with S754_nan => true | _ => false end.
Definition not_nan (x : float64) : Prop := is_nan_f x = false.

#[export] Instance spec_float_eq_dec : EqDecision spec_float.
Proof. solve_decision. Defined.

Example f_half_value : f_half = S754_finite false 4503599627370496 (-53).
Proof. reflexivity. Qed.
Example f_add_value : f_add f_half f_two = f_div (f_of_Z 5) f_two.
Proof. reflexivity. Qed.

(** ** The order

    Off NaN a float is ordered as the triple of its class, its signed exponent
    and its signed mantissa, lexicographically. *)
Definition f_class (x : float64) : Z :=
  match x with
  | S754_nan => 3
  | S754_infinity true => -2
  | S754_infinity false => 2
  | S754_zero _ => 0
  | S754_finite true _ _ => -1
  | S754_finite false _ _ => 1
  end.
Definition f_exp (x : float64) : Z :=
  match x with
  | S754_finite true _ e => - e
  | S754_finite false _ e => e
  | _ => 0
  end.
Definition f_man (x : float64) : Z :=
  match x with
  | S754_finite true m _ => Zneg m
  | S754_finite false m _ => Zpos m
  | _ => 0
  end.

Definition f_key_lt (x y : float64) : Prop :=
  f_class x < f_class y \/
  (f_class x = f_class y /\
   (f_exp x < f_exp y \/ (f_exp x = f_exp y /\ f_man x < f_man y))).

Definition f_key_eq (x y : float64) : Prop :=
  f_class x = f_class y /\ f_exp x = f_exp y /\ f_man x = f_man y.

Lemma pos_cmp_spec (m n : positive) :
  match PosDef.Pos.compare_cont Eq m n with
  | Eq => m = n | Lt => Zpos m < Zpos n | Gt => Zpos m > Zpos n
  end.
Proof.
  change (PosDef.Pos.compare_cont Eq m n) with (Pos.compare m n).
  destruct (Pos.compare_spec m n); subst; lia.
Qed.

Lemma SFcompare_key x y :
  not_nan x -> not_nan y ->
  match SFcompare x y with
  | Some Lt => f_key_lt x y
  | Some Eq => f_key_eq x y
  | Some Gt => f_key_lt y x
  | None => False
  end.
Proof.
  unfold not_nan, f_key_lt, f_key_eq.
  destruct x as [sx|sx| |sx mx ex], y as [sy|sy| |sy my ey]; try done; intros _ _;
    repeat match goal with b : bool |- _ => destruct b end; cbn; try lia;
    pose proof (pos_cmp_spec mx my) as Hp;
    destruct (Z.compare_spec ex ey); cbn; try lia;
    destruct (PosDef.Pos.compare_cont Eq mx my); cbn; subst; lia.
Qed.

Lemma f_ltb_key x y : not_nan x -> not_nan y -> f_ltb x y = true <-> f_key_lt x y.
Proof.
  intros Hx Hy. pose proof (SFcompare_key x y Hx Hy) as H.
  unfold f_ltb, SFltb. destruct (SFcompare x y) as [[]|]; try done;
    unfold f_key_lt, f_key_eq in *; split; intros; try done; lia.
Qed.

Lemma f_eqb_key x y : not_nan x -> not_nan y -> f_eqb x y = true <-> f_key_eq x y.
Proof.
  intros Hx Hy. pose proof (SFcompare_key x y Hx Hy) as H.
  unfold f_eqb, SFeqb. destruct (SFcompare x y) as [[]|]; try done;
    unfold f_key_lt, f_key_eq in *; split; intros; try done; lia.
Qed.

Close Scope Z_scope.
