(* ===== verification/GoStrconv.v ===== *)
(** * Decimal numbers: [strconv] as [encoding/json] uses it

    The number of a JSON document with its digits, [ParseInt] and [ParseFloat]
    on it, and [AppendFloat] with the shortest digits that read back, in the
    two layouts of [encoding/json].  A float read from a decimal is the
    quotient of two integers rounded once. *)
From S2P Require Import Prelude GoStrings GoFloat.
Open Scope Z_scope.

(** ** Digits *)
Definition digits_val (ds : list Z) : Z := foldl (fun a d => 10 * a + d) 0 ds.
Definition is_digit (d : Z) : Prop := 0 <= d < 10.

Fixpoint digits_fuel (fuel : nat) (n : Z) (acc : list Z) : list Z :=
  match fuel with
  | O => acc
  | S k => if n <? 10 then n :: acc else digits_fuel k (n / 10) (n mod 10 :: acc)
  end.
Definition digits (n : Z) : list Z := digits_fuel (S (Z.to_nat (Z.log2 n))) n [].

(** ** Numbers

    The sign of an exponent can be absent, ['+'] ([Some false]) or ['-']. *)
Record number := mkNumber {
  nm_neg : bool;
  nm_int : list Z;
  nm_frac : list Z;
  nm_exp : option (option bool * list Z)
}.

#[export] Instance number_eq_dec : EqDecision number.
Proof. solve_decision. Defined.

Definition signed (neg : bool) (z : Z) : Z := if neg then - z else z.

(** [ParseInt] at base 10 and 64 bits: a fraction or an exponent is a syntax
    error. *)
Definition ParseInt (n : number) : option Z :=
  match nm_frac n, nm_exp n with
  | [], None =>
      let z := signed (nm_neg n) (digits_val (nm_int n)) in
      if (min_int64 <=? z) && (z <=? max_int64) then Some z else None
  | _, _ => None
  end.

(** The mantissa and the decimal exponent. *)
Definition exponent (n : number) : Z :=
  match nm_exp n with
  | None => 0
  | Some (sg, ds) => signed (default false sg) (digits_val ds)
  end - Z.of_nat (length (nm_frac n)).
Definition mantissa (n : number) : Z := digits_val (nm_int n ++ nm_frac n).

(** [m * 10^e] with a mantissa that does not end in zero. *)
Fixpoint strip_fuel (fuel : nat) (m e : Z) : Z * Z :=
  match fuel with
  | O => (m, e)
  | S k => if m mod 10 =? 0 then strip_fuel k (m / 10) (e + 1) else (m, e)
  end.
Definition strip (m e : Z) : Z * Z := strip_fuel (Z.to_nat (Z.log2 m)) m e.

(** The float nearest to [m1 / m2]. *)
Definition f_of_ratio (neg : bool) (m1 m2 : Z) : float64 :=
  let '(q, e, loc) := SFdiv_core_binary 53 1024 m1 0 m2 0 in binary_round_aux 53 1024 neg q e loc.

(** The float nearest to [m * 10^e]; [None] is out of range.  A number of
    10^310 or more overflows and one below 10^-330 rounds to zero. *)
Definition f_of_stripped (neg : bool) (m e : Z) : option float64 :=
  let size := Z.of_nat (length (digits m)) + e in
  if size >? 310 then None
  else if size <? -330 then Some (S754_zero neg)
  else match f_of_ratio neg (m * 10 ^ Z.max e 0) (10 ^ Z.max (- e) 0) with
       | S754_infinity _ => None
       | f => Some f
       end.
Definition f_of_decimal (neg : bool) (m e : Z) : option float64 :=
  if m =? 0 then Some (S754_zero neg) else let '(m, e) := strip m e in f_of_stripped neg m e.

Definition ParseFloat (n : number) : option float64 := f_of_decimal (nm_neg n) (mantissa n) (exponent n).

(** ** Formatting *)
Definition int_number (z : Z) : number := mkNumber (z <? 0) (digits (Z.abs z)) [] None.

(** [m * 2^e] in decimal: an integer and a number of decimals. *)
Definition exact_decimal (m e : Z) : Z * Z :=
  if 0 <=? e then (m * 2 ^ e, 0) else (m * 5 ^ (- e), - e).

(** The multiples of [u] on both sides of [M], the nearer first, the even one
    in a tie. *)
Definition near (M u : Z) : list Z :=
  let lo := M / u * u in
  let r := M mod u in
  if (2 * r <? u) || ((2 * r =? u) && Z.even (M / u)) then [lo; lo + u] else [lo + u; lo].

Definition reads_as (m e k : Z) (c : Z) : bool :=
  bool_decide (f_of_decimal false c (- k) = Some (S754_finite false (Z.to_pos m) e)).

(** The first precision at which a neighbour reads back: [u] is the weight of
    the last digit. *)
Fixpoint shortest (fuel : nat) (reads : Z -> bool) (M u : Z) : option Z :=
  match fuel with
  | O => None
  | S k =>
      match find reads (near M u) with
      | Some c => Some c
      | None => shortest k reads M (u / 10)
      end
  end.

(** [%e] and [%f] of the digits of [m], which weigh [m * 10^e]. *)
Definition sci_number (neg : bool) (m e : Z) : number :=
  let ds := digits m in
  let x := Z.of_nat (length ds) + e - 1 in
  mkNumber neg (take 1 ds) (drop 1 ds) (Some (Some (x <? 0), digits (Z.abs x))).
Definition fixed_number (neg : bool) (m e : Z) : number :=
  let ds := digits m in
  let n := Z.of_nat (length ds) in
  let point := n + e in
  if point <=? 0 then mkNumber neg [0] (replicate (Z.to_nat (- point)) 0 ++ ds) None
  else mkNumber neg (take (Z.to_nat point) ds ++ replicate (Z.to_nat e) 0) (drop (Z.to_nat point) ds) None.

Definition f_micro : float64 := f_of_ratio false 1 (10 ^ 6).
Definition f_sextillion : float64 := f_of_ratio false (10 ^ 21) 1.

(** The number [encoding/json] writes for a float; it refuses NaN and the
    infinities. *)
Definition float_number (f : float64) : option number :=
  match f with
  | S754_nan | S754_infinity _ => None
  | S754_zero neg => Some (mkNumber neg [0] [] None)
  | S754_finite neg m e =>
      let '(M, k) := exact_decimal (Zpos m) e in
      let n := length (digits M) in
      let abs := S754_finite false m e in
      c ← shortest n (reads_as (Zpos m) e k) M (10 ^ (Z.of_nat n - 1));
      let '(c, x) := strip c (- k) in
      Some (if f_ltb abs f_micro || f_geb abs f_sextillion then sci_number neg c x else fixed_number neg c x)
  end.

(** ** Digits and integers *)
Lemma digits_val_from a ds : foldl (fun a d => 10 * a + d) a ds = a * 10 ^ Z.of_nat (length ds) + digits_val ds.
Proof.
  unfold digits_val. revert a. induction ds as [|d ds IH]; intros a; cbn [foldl length]; [lia|].
  rewrite IH, (IH (10 * 0 + d)). rewrite Nat2Z.inj_succ, Z.pow_succ_r by lia. lia.
Qed.

Lemma digits_val_app xs ys :
  digits_val (xs ++ ys) = digits_val xs * 10 ^ Z.of_nat (length ys) + digits_val ys.
Proof. unfold digits_val at 1. rewrite foldl_app. apply digits_val_from. Qed.

Lemma digits_val_cons d ds : digits_val (d :: ds) = d * 10 ^ Z.of_nat (length ds) + digits_val ds.
Proof. change (d :: ds) with ([d] ++ ds)%list. rewrite digits_val_app. cbn [digits_val foldl]. lia. Qed.

Lemma digits_val_zeros n : digits_val (replicate n 0) = 0.
Proof. induction n as [|n IH]; [done|]. cbn [replicate]. rewrite digits_val_cons, IH. lia. Qed.

Lemma digits_val_bounds ds : Forall is_digit ds -> 0 <= digits_val ds < 10 ^ Z.of_nat (length ds).
Proof.
  induction 1 as [|d ds Hd _ IH]; [by cbn|]. rewrite digits_val_cons. cbn [length].
  rewrite Nat2Z.inj_succ, Z.pow_succ_r by lia. unfold is_digit in Hd. nia.
Qed.

(** The digits of [n]: digits, without a leading zero unless [n] is 0. *)
Record digits_of (n : Z) (ds : list Z) : Prop := {
  do_val : digits_val ds = n;
  do_digit : Forall is_digit ds;
  do_head : head ds <> Some 0 \/ n = 0 /\ ds = [0]
}.

Lemma digits_fuel_spec fuel n acc :
  (0 < fuel)%nat -> 0 <= n < 2 ^ Z.of_nat fuel ->
  exists ds, digits_fuel fuel n acc = (ds ++ acc)%list /\ digits_of n ds.
Proof.
  revert n acc. induction fuel as [|fuel IH]; intros n acc Hf Hn; [lia|]. cbn [digits_fuel].
  destruct (Z.ltb_spec n 10) as [Hlt|Hge].
  - exists [n]. split; [done|]. split; [by cbn; lia|apply Forall_singleton; unfold is_digit; lia|].
    destruct (decide (n = 0)) as [->|Hz]; [by right|left; cbn; congruence].
  - rewrite Nat2Z.inj_succ, Z.pow_succ_r in Hn by lia.
    pose proof (Z.div_mod n 10 ltac:(lia)) as Hdm. pose proof (Z.mod_pos_bound n 10 ltac:(lia)) as Hmod.
    assert (fuel <> 0)%nat by (intros ->; change (2 ^ Z.of_nat 0) with 1 in Hn; lia).
    destruct (IH (n / 10) (n mod 10 :: acc)) as (ds & -> & [H1 H2 H3]); [lia|lia|].
    exists (ds ++ [n mod 10])%list. split; [by rewrite <-app_assoc|]. split.
    + rewrite digits_val_app, H1. cbn. lia.
    + apply Forall_app. split; [done|apply Forall_singleton; unfold is_digit; lia].
    + left. destruct H3 as [H3|[H3 _]]; [|lia]. destruct ds as [|d ds]; [|done].
      cbn in H1. lia.
Qed.

Lemma digits_spec n : 0 <= n -> digits_of n (digits n).
Proof.
  intros Hn. unfold digits. destruct (digits_fuel_spec (S (Z.to_nat (Z.log2 n))) n []) as (ds & Hds & H).
  - lia.
  - rewrite Nat2Z.inj_succ, Z2Nat.id by apply Z.log2_nonneg. destruct (decide (n = 0)) as [->|]; [by cbn|].
    pose proof (Z.log2_spec n ltac:(lia)). lia.
  - by rewrite Hds, app_nil_r.
Qed.

Lemma digits_length n : 0 < n -> 10 ^ (Z.of_nat (length (digits n)) - 1) <= n < 10 ^ Z.of_nat (length (digits n)) /\ (0 < length (digits n))%nat.
Proof.
  intros Hn. destruct (digits_spec n ltac:(lia)) as [Hv Hd Hh].
  pose proof (digits_val_bounds _ Hd) as Hb. rewrite Hv in Hb.
  destruct Hh as [Hh|[-> _]]; [|lia]. destruct (digits n) as [|d ds]; [cbn in *; lia|].
  rewrite digits_val_cons in Hv. apply Forall_cons in Hd as [Hd Hds]. pose proof (digits_val_bounds _ Hds).
  assert (d <> 0) by (intros ->; done). unfold is_digit in Hd. cbn [length] in *. split; [|lia]. split; [|lia].
  replace (Z.of_nat (S (length ds)) - 1) with (Z.of_nat (length ds)) by lia. nia.
Qed.

(** ** Stripping zeros *)
Lemma strip_fuel_spec fuel m e :
  0 < m < 2 ^ Z.of_nat fuel ->
  let '(m', e') := strip_fuel fuel m e in
  e <= e' /\ 0 < m' /\ m = m' * 10 ^ (e' - e) /\ m' mod 10 <> 0.
Proof.
  revert m e. induction fuel as [|fuel IH]; intros m e Hm; [change (2 ^ Z.of_nat 0) with 1 in Hm; lia|]. cbn [strip_fuel].
  destruct (Z.eqb_spec (m mod 10) 0) as [Hz|Hz].
  - rewrite Nat2Z.inj_succ, Z.pow_succ_r in Hm by lia.
    pose proof (Z.div_mod m 10 ltac:(lia)) as Hdm.
    specialize (IH (m / 10) (e + 1) ltac:(lia)). destruct (strip_fuel fuel (m / 10) (e + 1)) as [m' e'].
    destruct IH as (H1 & H2 & H3 & H4). split_and!; [lia|lia| |done].
    replace (e' - e) with (Z.succ (e' - (e + 1))) by lia. rewrite Z.pow_succ_r by lia. lia.
  - rewrite Z.sub_diag. split_and!; lia.
Qed.

Lemma strip_last_step fuel m e :
  0 < m < 2 ^ Z.of_nat (S fuel) -> strip_fuel (S fuel) m e = strip_fuel fuel m e.
Proof.
  revert m e. induction fuel as [|fuel IH]; intros m e Hm.
  - change (2 ^ Z.of_nat 1) with 2 in Hm. assert (m = 1) as -> by lia. done.
  - change (strip_fuel (S (S fuel)) m e) with (if m mod 10 =? 0 then strip_fuel (S fuel) (m / 10) (e + 1) else (m, e)).
    change (strip_fuel (S fuel) m e) with (if m mod 10 =? 0 then strip_fuel fuel (m / 10) (e + 1) else (m, e)).
    destruct (Z.eqb_spec (m mod 10) 0) as [Hz|]; [|done]. apply IH.
    rewrite Nat2Z.inj_succ, Z.pow_succ_r in Hm by lia. pose proof (Z.div_mod m 10 ltac:(lia)) as Hdm. lia.
Qed.

Lemma strip_spec m e :
  0 < m -> let '(m', e') := strip m e in e <= e' /\ 0 < m' /\ m = m' * 10 ^ (e' - e) /\ m' mod 10 <> 0.
Proof.
  intros Hm. unfold strip. rewrite <-strip_last_step.
  - apply strip_fuel_spec. rewrite Nat2Z.inj_succ, Z2Nat.id by apply Z.log2_nonneg.
    pose proof (Z.log2_spec m Hm). lia.
  - rewrite Nat2Z.inj_succ, Z2Nat.id by apply Z.log2_nonneg. pose proof (Z.log2_spec m Hm). lia.
Qed.

Lemma strip_unique m1 e1 m2 e2 :
  0 < m1 -> 0 < m2 -> m1 mod 10 <> 0 -> m2 mod 10 <> 0 -> e1 <= e2 -> m1 = m2 * 10 ^ (e2 - e1) ->
  (m1, e1) = (m2, e2).
Proof.
  intros H1 H2 N1 N2 He Hm. destruct (decide (e1 = e2)) as [->|Hne].
  - rewrite Z.sub_diag in Hm. f_equal. lia.
  - exfalso. apply N1. rewrite Hm. replace (e2 - e1) with (Z.succ (e2 - e1 - 1)) by lia.
    rewrite Z.pow_succ_r by lia. replace (m2 * (10 * 10 ^ (e2 - e1 - 1))) with (m2 * 10 ^ (e2 - e1 - 1) * 10) by lia.
    apply Z_mod_mult.
Qed.

(** Trailing zeros do not change the number. *)
Lemma strip_scale m e j : 0 < m -> 0 <= j -> strip (m * 10 ^ j) (e - j) = strip m e.
Proof.
  intros Hm Hj. pose proof (strip_spec m e Hm) as H. pose proof (strip_spec (m * 10 ^ j) (e - j) ltac:(nia)) as H'.
  destruct (strip m e) as [m1 e1], (strip (m * 10 ^ j) (e - j)) as [m2 e2].
  destruct H as (A1 & A2 & A3 & A4), H' as (B1 & B2 & B3 & B4).
  assert (E : m1 * 10 ^ (e1 - (e - j)) = m2 * 10 ^ (e2 - (e - j))).
  { rewrite <-B3, A3, <-Z.mul_assoc, <-Z.pow_add_r by lia. f_equal. f_equal. lia. }
  destruct (Z.le_gt_cases e1 e2) as [Hle|Hlt].
  - symmetry. apply strip_unique; try done. apply (Z.mul_reg_r _ _ (10 ^ (e1 - (e - j)))); [lia|].
    rewrite E, <-Z.mul_assoc, <-Z.pow_add_r by lia. f_equal. f_equal. lia.
  - apply strip_unique; try done; [lia|]. apply (Z.mul_reg_r _ _ (10 ^ (e2 - (e - j)))); [lia|].
    rewrite <-E, <-Z.mul_assoc, <-Z.pow_add_r by lia. f_equal. f_equal. lia.
Qed.

Lemma f_of_decimal_scale neg m e j :
  0 < m -> 0 <= j -> f_of_decimal neg (m * 10 ^ j) (e - j) = f_of_decimal neg m e.
Proof.
  intros Hm Hj. unfold f_of_decimal. rewrite strip_scale by done.
  destruct (Z.eqb_spec (m * 10 ^ j) 0); [nia|]. by destruct (Z.eqb_spec m 0); [lia|].
Qed.

Lemma f_of_decimal_strip neg m e :
  0 < m -> f_of_decimal neg (strip m e).1 (strip m e).2 = f_of_decimal neg m e.
Proof.
  intros Hm. pose proof (strip_spec m e Hm) as H. destruct (strip m e) as [m' e'] eqn:Es. cbn [fst snd].
  destruct H as (H1 & H2 & H3 & H4). rewrite <-(f_of_decimal_scale neg m' e' (e' - e)) by lia. f_equal; [done|lia].
Qed.

(** ** A float that is the quotient is read exactly *)
Lemma digits2_log2 p : Zpos (digits2_pos p) = Z.log2 (Zpos p) + 1.
Proof.
  induction p as [p IH|p IH|]; cbn [digits2_pos]; [..|done]; rewrite Pos2Z.inj_succ, IH.
  - rewrite (Pos2Z.inj_xI p), Z.log2_succ_double by lia. lia.
  - rewrite (Pos2Z.inj_xO p), Z.log2_double by lia. lia.
Qed.
Lemma Zdigits2_log2 z : 0 < z -> Zdigits2 z = Z.log2 z + 1.
Proof. destruct z as [|p|p]; [lia| |lia]. intros _. apply digits2_log2. Qed.

Lemma iter_pos_add {A} (f : A -> A) p x : iter_pos f p x = Nat.iter (Pos.to_nat p) f x.
Proof.
  revert x. induction p as [p IH|p IH|]; intros x; cbn [iter_pos]; [..|done]; rewrite !IH, <-Nat.iter_add.
  - rewrite <-Nat.iter_succ_r. f_equal. lia.
  - f_equal. lia.
Qed.

Lemma shr_1_double m : 0 <= m -> shr_1 (Build_shr_record (2 * m) false false) = Build_shr_record m false false.
Proof. destruct m as [|p|p]; [done|done|lia]. Qed.

Lemma shr_1_iter n m :
  0 <= m -> Nat.iter n shr_1 (Build_shr_record (m * 2 ^ Z.of_nat n) false false) = Build_shr_record m false false.
Proof.
  intros Hm. induction n as [|n IH]; [cbn; by rewrite Z.mul_1_r|].
  rewrite Nat.iter_succ_r, Nat2Z.inj_succ, Z.pow_succ_r by lia.
  replace (m * (2 * 2 ^ Z.of_nat n)) with (2 * (m * 2 ^ Z.of_nat n)) by lia.
  by rewrite shr_1_double by lia.
Qed.

Lemma shr_fexp_exact m e j :
  0 < m -> 0 <= j -> fexp 53 1024 (Z.log2 m + 1 + e) = e ->
  shr_fexp 53 1024 (m * 2 ^ j) (e - j) loc_Exact = (Build_shr_record m false false, e).
Proof.
  intros Hm Hj He. unfold shr_fexp, shr_record_of_loc.
  rewrite Zdigits2_log2, Z.log2_mul_pow2 by lia.
  replace (j + Z.log2 m + 1 + (e - j)) with (Z.log2 m + 1 + e) by lia. rewrite He.
  replace (e - (e - j)) with j by lia. unfold shr. destruct j as [|p|p]; [| |lia].
  - by rewrite Z.pow_0_r, Z.mul_1_r, Z.sub_0_r.
  - rewrite iter_pos_add. rewrite <-(positive_nat_Z p) at 1. rewrite shr_1_iter by lia. f_equal. lia.
Qed.

Lemma round_exact neg m e j :
  bounded 53 1024 m e = true -> 0 <= j ->
  binary_round_aux 53 1024 neg (Zpos m * 2 ^ j) (e - j) loc_Exact = S754_finite neg m e.
Proof.
  unfold bounded, canonical_mantissa. rewrite andb_true_iff, Z.eqb_eq, digits2_log2. intros [Hc Hb] Hj.
  unfold binary_round_aux. rewrite shr_fexp_exact by done. cbn [shr_m loc_of_shr_record round_nearest_even].
  pose proof (shr_fexp_exact (Zpos m) e 0 ltac:(lia) ltac:(lia) Hc) as H.
  rewrite Z.pow_0_r, Z.mul_1_r, Z.sub_0_r in H. rewrite H. cbn [shr_m]. by rewrite Hb.
Qed.

Lemma f_of_ratio_exact neg m e m1 m2 :
  bounded 53 1024 m e = true -> 0 < m1 -> 0 < m2 ->
  m1 * 2 ^ Z.max (- e) 0 = m2 * Zpos m * 2 ^ Z.max e 0 ->
  f_of_ratio neg m1 m2 = S754_finite neg m e.
Proof.
  intros Hb H1 H2 Hq. unfold f_of_ratio, SFdiv_core_binary. rewrite !Z.add_0_r, Z.sub_0_r.
  rewrite !Zdigits2_log2 by done.
  set (e' := Z.min (fexp 53 1024 (Z.log2 m1 + 1 - (Z.log2 m2 + 1))) 0).
  assert (He : e' <= e).
  { destruct (Z.le_gt_cases 0 e) as [|Hlt]; [lia|].
    rewrite Z.max_l, Z.max_r, Z.pow_0_r, Z.mul_1_r in Hq by lia.
    pose proof (Z.log2_mul_above m2 (Zpos m) ltac:(lia) ltac:(lia)) as Hl.
    rewrite <-Hq, Z.log2_mul_pow2 in Hl by lia.
    unfold bounded, canonical_mantissa in Hb. rewrite andb_true_iff, Z.eqb_eq, digits2_log2 in Hb.
    destruct Hb as [Hc _]. unfold e', fexp in *. lia. }
  assert (Hs : 0 <= - e') by lia.
  assert (Hm' : match 0 - e' with Z0 => m1 | Zpos _ => Z.shiftl m1 (0 - e') | Zneg _ => 0 end = m2 * (Zpos m * 2 ^ (e - e'))).
  { transitivity (m1 * 2 ^ (- e')).
    - destruct (0 - e') as [|p|p] eqn:E; [|rewrite Z.shiftl_mul_pow2 by lia; f_equal; f_equal; lia|lia].
      replace (- e') with 0 by lia. lia.
    - destruct (Z.le_gt_cases 0 e) as [|Hlt].
      + rewrite Z.max_r, Z.max_l, Z.pow_0_r, Z.mul_1_r in Hq by lia. rewrite Hq, <-Z.mul_assoc, <-Z.pow_add_r by lia.
        rewrite Z.mul_assoc. f_equal; f_equal; lia.
      + rewrite Z.max_l, Z.max_r, Z.pow_0_r, Z.mul_1_r in Hq by lia.
        rewrite Z.mul_assoc, <-Hq, <-Z.mul_assoc, <-Z.pow_add_r by lia. f_equal; f_equal; lia. }
  fold e'. rewrite !Z.sub_0_l in *. rewrite Hm'. unfold new_location.
  assert (Hd : Z.div_eucl (m2 * (Zpos m * 2 ^ (e - e'))) m2 = (Zpos m * 2 ^ (e - e'), 0)).
  { rewrite (surjective_pairing (Z.div_eucl _ _)).
    change (fst (Z.div_eucl ?a ?b)) with (a / b). change (snd (Z.div_eucl ?a ?b)) with (a mod b).
    rewrite Z.mul_comm. f_equal; [apply Z.div_mul; lia|apply Z_mod_mult]. }
  rewrite Hd. replace (_ 0) with loc_Exact by (by destruct (Z.even m2)).
  replace e' with (e - (e - e')) at 2 by lia. by apply round_exact; [|lia].
Qed.

(** A value [c * 10^x] that a float has: its number of digits. *)
Lemma size_upper c m n x a b E k :
  0 <= a -> 0 <= b -> x = a - b -> 0 <= E <= 971 -> 0 <= k -> 0 < n -> 0 < m < 2 ^ 53 ->
  10 ^ (n - 1) <= c -> c * 10 ^ a * 2 ^ k = 10 ^ b * m * 2 ^ E -> n + x <= 310.
Proof.
  intros Ha Hb -> HE Hk Hn Hm Hc Hq. destruct (Z.le_gt_cases (n + (a - b)) 310) as [|Hgt]; [done|]. exfalso.
  apply (Z.lt_irrefl (10 ^ 310 * 10 ^ b)). apply Z.le_lt_trans with (c * 10 ^ a).
  { apply Z.le_trans with (10 ^ (n - 1) * 10 ^ a).
    - clear Hq Hc Hm. rewrite <-!Z.pow_add_r by lia. apply Z.pow_le_mono_r; lia.
    - apply Z.mul_le_mono_nonneg_r; [apply Z.pow_nonneg; lia|exact Hc]. }
  apply Z.le_lt_trans with (c * 10 ^ a * 2 ^ k).
  { assert (0 < 2 ^ k) by (apply Z.pow_pos_nonneg; lia). assert (0 <= 10 ^ a) by (apply Z.pow_nonneg; lia).
    assert (0 <= c) by (apply Z.le_trans with (10 ^ (n - 1)); [apply Z.pow_nonneg; lia|done]).
    rewrite <-(Z.mul_1_r (c * 10 ^ a)) at 1. apply Z.mul_le_mono_nonneg_l; [by apply Z.mul_nonneg_nonneg|].
    clear Hq Hc Hm. lia. }
  rewrite Hq, <-Z.mul_assoc, (Z.mul_comm (10 ^ 310)). clear Hq Hc Hgt.
  apply Z.mul_lt_mono_pos_l; [apply Z.pow_pos_nonneg; lia|].
  apply Z.lt_trans with (2 ^ 53 * 2 ^ 971); [|by vm_compute].
  apply Z.lt_le_trans with (2 ^ 53 * 2 ^ E).
  - apply Z.mul_lt_mono_pos_r; [apply Z.pow_pos_nonneg; lia|by destruct Hm].
  - apply Z.mul_le_mono_nonneg_l; [done|]. apply Z.pow_le_mono_r; lia.
Qed.

Lemma size_lower c m n x a b E k :
  a = 0 \/ 0 <= x -> x = a - b -> 0 <= E -> 0 <= k <= 1074 -> 0 < n -> 0 < m -> 0 < c ->
  c < 10 ^ n -> c * 10 ^ a * 2 ^ k = 10 ^ b * m * 2 ^ E -> -330 <= n + x.
Proof.
  intros Ha Hx HE Hk Hn Hm Hc0 Hc Hq. destruct (Z.le_gt_cases (-330) (n + x)) as [|Hgt]; [done|]. exfalso.
  destruct Ha as [->|Ha]; [|lia]. assert (b = - x) as -> by lia. rewrite Z.pow_0_r, Z.mul_1_r in Hq.
  apply (Z.lt_irrefl (c * 10 ^ 331)). apply Z.lt_le_trans with (10 ^ (- x)).
  { apply Z.lt_le_trans with (10 ^ n * 10 ^ 331).
    - apply Z.mul_lt_mono_pos_r; [by vm_compute|exact Hc].
    - clear Hq Hc. rewrite <-Z.pow_add_r by lia. apply Z.pow_le_mono_r; lia. }
  apply Z.le_trans with (c * 2 ^ k).
  { assert (0 < 2 ^ E) by (apply Z.pow_pos_nonneg; lia). rewrite Hq, <-(Z.mul_1_r (10 ^ (- x))) at 1. rewrite <-Z.mul_assoc.
    apply Z.mul_le_mono_nonneg_l; [apply Z.pow_nonneg; lia|]. clear Hq Hc Hgt. nia. }
  apply Z.mul_le_mono_nonneg_l; [lia|]. clear Hq Hc Hgt.
  apply Z.le_trans with (2 ^ 1074); [apply Z.pow_le_mono_r; lia|by vm_compute].
Qed.

Lemma f_of_stripped_exact neg m e M k c x :
  bounded 53 1024 m e = true -> exact_decimal (Zpos m) e = (M, k) -> strip M (- k) = (c, x) ->
  f_of_stripped neg c x = Some (S754_finite neg m e).
Proof.
  intros Hb HM Hs.
  assert (HM0 : 0 < M /\ k = Z.max (- e) 0 /\ M * 2 ^ k = Zpos m * 10 ^ k * 2 ^ Z.max e 0).
  { unfold exact_decimal in HM. destruct (Z.leb_spec 0 e); injection HM as <- <-.
    - split_and!; [nia|lia|]. rewrite Z.max_l by lia. lia.
    - split_and!; [nia|lia|]. rewrite Z.max_r by lia. change 10 with (5 * 2) at 1. rewrite Z.pow_mul_l. lia. }
  destruct HM0 as (HM0 & Hk & HMk). pose proof (strip_spec M (- k) HM0) as H. rewrite Hs in H.
  destruct H as (Hx & Hc & HMc & _).
  (* the value as a quotient *)
  assert (Hq : c * 10 ^ Z.max x 0 * 2 ^ k = 10 ^ Z.max (- x) 0 * Zpos m * 2 ^ Z.max e 0).
  { apply (Z.mul_reg_l _ _ (10 ^ k)); [lia|].
    transitivity (10 ^ Z.max (- x) 0 * (M * 2 ^ k)); [|rewrite HMk; lia].
    rewrite HMc. transitivity (c * 2 ^ k * (10 ^ k * 10 ^ Z.max x 0)); [lia|].
    transitivity (c * 2 ^ k * (10 ^ Z.max (- x) 0 * 10 ^ (x - - k))); [|lia].
    rewrite <-!Z.pow_add_r by lia. f_equal. f_equal. lia. }
  destruct (digits_length c Hc) as [[Hl1 Hl2] Hn]. set (n := Z.of_nat (length (digits c))) in *.
  assert (Hm : Zpos m < 2 ^ 53 /\ -1074 <= e <= 971).
  { pose proof Hb as Hb'. unfold bounded, canonical_mantissa in Hb'.
    rewrite andb_true_iff, Z.eqb_eq, digits2_log2, Z.leb_le in Hb'.
    destruct Hb' as [He1 He2]. unfold fexp, emin in *. split; [|lia]. apply Z.log2_lt_cancel.
    change (Z.log2 (2 ^ 53)) with 53. lia. }
  destruct Hm as [Hm He].
  assert (Hup : n + x <= 310).
  { apply (size_upper c (Zpos m) n x (Z.max x 0) (Z.max (- x) 0) (Z.max e 0) k); first [assumption | clear Hq HMk Hl1 Hl2 HMc; lia]. }
  assert (Hlow : -330 <= n + x).
  { apply (size_lower c (Zpos m) n x (Z.max x 0) (Z.max (- x) 0) (Z.max e 0) k); first [assumption | clear Hq HMk Hl1 Hl2 HMc; lia]. }
  unfold f_of_stripped. fold n.
  destruct (Z.gtb_spec (n + x) 310); [lia|]. destruct (Z.ltb_spec (n + x) (-330)); [lia|].
  rewrite (f_of_ratio_exact neg m e); try done; [lia|lia|]. by rewrite <-Hk.
Qed.

Lemma f_of_decimal_exact neg m e M k :
  bounded 53 1024 m e = true -> exact_decimal (Zpos m) e = (M, k) ->
  f_of_decimal neg M (- k) = Some (S754_finite neg m e).
Proof.
  intros Hb HM. unfold f_of_decimal. destruct (Z.eqb_spec M 0) as [->|_].
  { exfalso. unfold exact_decimal in HM. destruct (Z.leb_spec 0 e); injection HM as HM <-.
    - pose proof (Z.pow_pos_nonneg 2 e). nia.
    - pose proof (Z.pow_pos_nonneg 5 (- e)). nia. }
  destruct (strip M (- k)) as [c x] eqn:Es. by eapply f_of_stripped_exact.
Qed.

(** ** Formatted floats read back *)
Definition set_sign (neg : bool) (f : float64) : float64 :=
  match f with
  | S754_zero _ => S754_zero neg
  | S754_infinity _ => S754_infinity neg
  | S754_nan => S754_nan
  | S754_finite _ m e => S754_finite neg m e
  end.

Lemma binary_round_aux_sign neg q e loc :
  binary_round_aux 53 1024 neg q e loc = set_sign neg (binary_round_aux 53 1024 false q e loc).
Proof.
  unfold binary_round_aux. destruct (shr_fexp 53 1024 q e loc) as [mrs e'].
  destruct (shr_fexp 53 1024 _ e' loc_Exact) as [mrs' e'']. destruct (shr_m mrs'); [done| |done].
  by destruct (e'' <=? 1024 - 53).
Qed.

Lemma f_of_decimal_sign neg m e : f_of_decimal neg m e = set_sign neg <$> f_of_decimal false m e.
Proof.
  unfold f_of_decimal. destruct (m =? 0); [done|]. destruct (strip m e) as [c x]. unfold f_of_stripped.
  destruct (_ >? 310); [done|]. destruct (_ <? -330); [done|].
  unfold f_of_ratio. destruct (SFdiv_core_binary _ _ _ _ _ _) as [[q e'] loc]. rewrite binary_round_aux_sign.
  by destruct (binary_round_aux 53 1024 false q e' loc).
Qed.

Lemma near_nonneg M u : 0 <= M -> 0 <= u -> Forall (fun c => 0 <= c) (near M u).
Proof.
  intros HM Hu. assert (0 <= M / u * u).
  { destruct (decide (u = 0)) as [->|]; [lia|]. apply Z.mul_nonneg_nonneg; [apply Z.div_pos; lia|lia]. }
  unfold near. destruct (_ || _); repeat constructor; lia.
Qed.

Lemma near_one M : near M 1 = [M; M + 1].
Proof. unfold near. rewrite Z.div_1_r, Z.mod_1_r, Z.mul_1_r. done. Qed.

Lemma shortest_spec fuel reads M u c :
  0 <= M -> 0 <= u -> shortest fuel reads M u = Some c -> 0 <= c /\ reads c = true.
Proof.
  intros HM. revert u. induction fuel as [|fuel IH]; intros u Hu; [done|]. cbn [shortest].
  destruct (find reads (near M u)) as [c'|] eqn:E.
  - intros [= ->]. apply find_some in E as [Hin Hr]. split; [|done].
    pose proof (near_nonneg M u HM Hu) as Hf. rewrite Forall_forall in Hf. by apply Hf, list_elem_of_In.
  - apply IH. destruct (decide (u = 0)) as [->|]; [done|]. apply Z.div_pos; lia.
Qed.

Lemma shortest_found j fuel reads M :
  (j < fuel)%nat -> reads M = true -> is_Some (shortest fuel reads M (10 ^ Z.of_nat j)).
Proof.
  intros Hj Hr. revert j Hj. induction fuel as [|fuel IH]; intros j Hj; [lia|]. cbn [shortest].
  destruct (find reads (near M _)) eqn:E; [by eexists|]. destruct j as [|j].
  - change (10 ^ Z.of_nat 0) with 1 in E. rewrite near_one in E. cbn in E. by rewrite Hr in E.
  - rewrite Nat2Z.inj_succ, Z.pow_succ_r, (Z.mul_comm 10), Z.div_mul by lia. apply IH. lia.
Qed.

(** A number as the grammar of JSON has it. *)
Definition int_ok (ds : list Z) : Prop := Forall is_digit ds /\ ds <> [] /\ (head ds <> Some 0 \/ ds = [0]).
Record number_ok (n : number) : Prop := {
  no_int : int_ok (nm_int n);
  no_frac : Forall is_digit (nm_frac n);
  no_exp : match nm_exp n with None => True | Some (_, ds) => Forall is_digit ds /\ ds <> [] end
}.

Lemma digits_ok n : 0 <= n -> int_ok (digits n).
Proof.
  intros Hn. destruct (digits_spec n Hn) as [Hv Hd Hh]. split_and!; [done| |by destruct Hh as [|[_ ?]]; auto].
  destruct Hh as [Hh|[_ ->]]; [|done]. intros E. rewrite E in Hv. cbn in Hv. subst n. by rewrite (eq_refl : digits 0 = [0]) in E.
Qed.

Lemma int_number_ok z : number_ok (int_number z).
Proof. split; cbn; [apply digits_ok; lia|constructor|done]. Qed.

Lemma int_number_reads z : int64_range z -> ParseInt (int_number z) = Some z.
Proof.
  unfold int64_range. intros Hz. unfold ParseInt, int_number. cbn [nm_frac nm_exp nm_neg nm_int].
  rewrite (do_val _ _ (digits_spec (Z.abs z) ltac:(lia))).
  assert (signed (z <? 0) (Z.abs z) = z) as -> by (unfold signed; destruct (Z.ltb_spec z 0); lia).
  destruct (Z.leb_spec min_int64 z), (Z.leb_spec z max_int64); try lia. done.
Qed.

Lemma is_digit_zeros n : Forall is_digit (replicate n 0).
Proof. apply Forall_replicate. unfold is_digit. lia. Qed.
#[local] Hint Resolve is_digit_zeros : core.

Lemma sci_number_spec neg m e :
  0 < m -> number_ok (sci_number neg m e) /\ ParseFloat (sci_number neg m e) = f_of_decimal neg m e.
Proof.
  intros Hm. pose proof (digits_ok m ltac:(lia)) as (Hd & Hne & Hh). pose proof (do_val _ _ (digits_spec m ltac:(lia))) as Hv.
  unfold sci_number. set (ds := digits m) in *. clearbody ds.
  set (x := Z.of_nat (length ds) + e - 1). pose proof (digits_ok (Z.abs x) ltac:(lia)) as (Hxd & Hxne & _).
  pose proof (do_val _ _ (digits_spec (Z.abs x) ltac:(lia))) as Hxv. split.
  - split; cbn [nm_int nm_frac nm_exp]; [|by apply Forall_drop|done].
    destruct ds as [|d ds]; [done|]. apply Forall_cons in Hd as [Hd _]. split_and!; [by apply Forall_singleton|done|].
    destruct Hh as [Hh|[= -> ->]]; [by left|by right].
  - unfold ParseFloat, mantissa, exponent. cbn [nm_neg nm_int nm_frac nm_exp]. rewrite take_drop, Hv. f_equal.
    cbn [default from_option id]. rewrite Hxv, length_drop. unfold signed.
    destruct ds as [|d ds]; [done|]. unfold x. cbn [length]. destruct (Z.ltb_spec (Z.of_nat (S (length ds)) + e - 1) 0); lia.
Qed.

Lemma fixed_number_spec neg m e :
  0 < m -> number_ok (fixed_number neg m e) /\ ParseFloat (fixed_number neg m e) = f_of_decimal neg m e.
Proof.
  intros Hm. pose proof (digits_ok m ltac:(lia)) as (Hd & Hne & Hh). pose proof (do_val _ _ (digits_spec m ltac:(lia))) as Hv.
  assert (Hz : head (digits m) <> Some 0).
  { destruct (do_head _ _ (digits_spec m ltac:(lia))) as [|[? _]]; [done|lia]. }
  unfold fixed_number. set (ds := digits m) in *. clearbody ds. set (n := Z.of_nat (length ds)).
  assert (Hn : 0 < n) by (destruct ds; [done|unfold n; cbn; lia]).
  destruct (Z.leb_spec (n + e) 0) as [Hle|Hgt].
  - split.
    + split; cbn [nm_int nm_frac nm_exp]; [|apply Forall_app; split; auto|done].
      split_and!; [apply Forall_singleton; unfold is_digit; lia|done|by right].
    + unfold ParseFloat, mantissa, exponent. cbn [nm_neg nm_int nm_frac nm_exp].
      rewrite !digits_val_app, digits_val_zeros, Hv, length_app, length_replicate. f_equal.
      unfold n in *. lia.
  - destruct (Z.leb_spec 0 e) as [He|He].
    + assert (Hp : (length ds <= Z.to_nat (n + e))%nat) by lia.
      rewrite take_ge, drop_ge by done. split.
      * split; cbn [nm_int nm_frac nm_exp]; [|done|done]. split_and!; [by apply Forall_app|by destruct ds|].
        left. by destruct ds.
      * unfold ParseFloat, mantissa, exponent. cbn [nm_neg nm_int nm_frac nm_exp length]. rewrite app_nil_r.
        rewrite digits_val_app, digits_val_zeros, Hv, length_replicate, Z2Nat.id, Z.add_0_r by done.
        rewrite <-(f_of_decimal_scale neg m e e) by done. f_equal. lia.
    + replace (Z.to_nat e) with 0%nat by lia. cbn [replicate]. rewrite app_nil_r. split.
      * split; cbn [nm_int nm_frac nm_exp]; [|by apply Forall_drop|done].
        destruct (Z.to_nat (n + e)) as [|p] eqn:Ep; [lia|]. destruct ds as [|d ds]; [done|].
        split_and!; [by apply Forall_take|done|by left].
      * unfold ParseFloat, mantissa, exponent. cbn [nm_neg nm_int nm_frac nm_exp].
        rewrite take_drop, Hv, length_drop. f_equal. lia.
Qed.

(** What [encoding/json] accepts to write, and what it then reads. *)
Definition finite_float (f : float64) : bool :=
  match f with
  | S754_nan | S754_infinity _ => false
  | S754_zero _ => true
  | S754_finite _ m e => bounded 53 1024 m e
  end.

Lemma float_number_reads f :
  finite_float f = true ->
  exists n, float_number f = Some n /\ number_ok n /\ ParseFloat n = Some f.
Proof.
  destruct f as [neg| | |neg m e]; try done; intros Hb.
  { eexists. split; [done|]. split; [|done].
    split; cbn; [split_and!; [apply Forall_singleton; unfold is_digit; lia|done|by right]|constructor|done]. }
  cbn [finite_float] in Hb. unfold float_number. destruct (exact_decimal (Zpos m) e) as [M k] eqn:HM.
  pose proof (f_of_decimal_exact false m e M k Hb HM) as Hex.
  assert (HM0 : 0 < M).
  { unfold exact_decimal in HM. destruct (Z.leb_spec 0 e); injection HM as <- <-.
    - pose proof (Z.pow_pos_nonneg 2 e). nia.
    - pose proof (Z.pow_pos_nonneg 5 (- e)). nia. }
  destruct (digits_length M HM0) as [_ Hlen]. set (n := length (digits M)) in *. clearbody n.
  set (reads := reads_as (Zpos m) e k).
  assert (Hr : reads M = true) by (unfold reads, reads_as; by rewrite bool_decide_eq_true).
  destruct (shortest_found (n - 1) n reads M) as [c Hc]; [lia|done|].
  replace (Z.of_nat (n - 1)) with (Z.of_nat n - 1) in Hc by lia. rewrite Hc. cbn [mbind option_bind].
  apply shortest_spec in Hc as [Hc0 Hc]; [|lia|apply Z.pow_nonneg; lia].
  unfold reads, reads_as in Hc. rewrite bool_decide_eq_true in Hc. cbn [Z.to_pos] in Hc.
  assert (0 < c) as Hcp by (destruct (decide (c = 0)) as [->|]; [done|lia]).
  assert (Hneg : f_of_decimal neg c (- k) = Some (S754_finite neg m e)) by (by rewrite f_of_decimal_sign, Hc).
  pose proof (strip_spec c (- k) Hcp) as Hs. rewrite <-f_of_decimal_strip in Hneg by done.
  destruct (strip c (- k)) as [c' x]. cbn [fst snd] in Hneg. destruct Hs as (_ & Hc' & _ & _).
  eexists. split; [done|]. rewrite <-Hneg. destruct (f_ltb _ _ || f_geb _ _); [by apply sci_number_spec|by apply fixed_number_spec].
Qed.

(** ** A number that is accepted is a finite float *)
Definition canonical (m e : Z) : Prop := fexp 53 1024 (Z.log2 m + 1 + e) = e.

Lemma shr_1_half r : 0 <= shr_m r -> shr_m (shr_1 r) = shr_m r / 2.
Proof.
  destruct r as [m r s]. cbn [shr_m]. intros Hm. destruct m as [|[p|p|]|p]; try done; cbn [shr_1 shr_m].
  - rewrite (Pos2Z.inj_xI p), Z.mul_comm, Z.div_add_l by lia. change (1 / 2) with 0. lia.
  - rewrite (Pos2Z.inj_xO p), Z.mul_comm, Z.div_mul by lia. done.
Qed.

Lemma shr_1_iter_div n r :
  0 <= shr_m r -> shr_m (Nat.iter n shr_1 r) = shr_m r / 2 ^ Z.of_nat n.
Proof.
  intros Hr. induction n as [|n IH]; [by rewrite Z.div_1_r|].
  assert (0 < 2 ^ Z.of_nat n) by (apply Z.pow_pos_nonneg; lia).
  change (Nat.iter (S n) shr_1 r) with (shr_1 (Nat.iter n shr_1 r)). rewrite shr_1_half, IH by (rewrite IH; by apply Z.div_pos).
  rewrite Z.div_div, Nat2Z.inj_succ, Z.pow_succ_r by lia. f_equal. lia.
Qed.

Lemma shr_fexp_div m e loc :
  0 <= m -> let x := fexp 53 1024 (Zdigits2 m + e) in
  e <= x -> exists r, shr_fexp 53 1024 m e loc = (r, x) /\ shr_m r = m / 2 ^ (x - e).
Proof.
  intros Hm x Hx. unfold shr_fexp, shr. fold x.
  assert (Hr : shr_m (shr_record_of_loc m loc) = m) by (by destruct loc as [|[]]).
  destruct (x - e) as [|p|p] eqn:E; [| |lia].
  - eexists. split; [f_equal; lia|]. by rewrite Z.div_1_r.
  - eexists. split; [f_equal; lia|]. rewrite iter_pos_add, shr_1_iter_div, Hr, positive_nat_Z by (by rewrite Hr). done.
Qed.

(** The second rounding step, after the first has reached the exponent. *)
Lemma round_up_canonical m e m' :
  0 <= m -> (0 < m -> canonical m e) -> (m = 0 -> e = -1074) -> m' = m \/ m' = m + 1 ->
  exists r e', shr_fexp 53 1024 m' e loc_Exact = (r, e') /\ 0 <= shr_m r /\ (0 < shr_m r -> canonical (shr_m r) e').
Proof.
  intros Hm Hc He Hm'.
  assert (Hstay : forall k, 0 <= k -> fexp 53 1024 (Zdigits2 k + e) = e ->
            exists r, shr_fexp 53 1024 k e loc_Exact = (r, e) /\ shr_m r = k).
  { intros k Hk Hf. destruct (shr_fexp_div k e loc_Exact Hk) as (r & Hr & Hv); rewrite Hf in *; [lia|].
    exists r. split; [done|]. by rewrite Hv, Z.sub_diag, Z.div_1_r. }
  destruct (decide (m' = 0)) as [->|Hnz].
  { destruct (Hstay 0) as (r & Hr & Hv); [done| |exists r, e; rewrite Hv; by split_and!].
    rewrite He by lia. done. }
  assert (Hkeep : canonical m' e -> exists r e', shr_fexp 53 1024 m' e loc_Exact = (r, e') /\ 0 <= shr_m r /\ (0 < shr_m r -> canonical (shr_m r) e')).
  { intros Hk. destruct (Hstay m') as (r & Hr & Hv); [lia|by rewrite Zdigits2_log2 by lia|].
    exists r, e. rewrite Hv. split_and!; [done|lia|done]. }
  destruct Hm' as [-> | ->]; [apply Hkeep, Hc; lia|].
  destruct (decide (m = 0)) as [->|Hm0].
  { apply Hkeep. rewrite He by done. done. }
  destruct (Z.log2_succ_or m) as [Hl|Hl]; rewrite Z.add_1_r in *; [|apply Hkeep; unfold canonical; rewrite Hl; apply Hc; lia].
  destruct (decide (fexp 53 1024 (Z.log2 (Z.succ m) + 1 + e) = e)) as [Hk|Hk]; [by apply Hkeep|].
  assert (Hp : Z.succ m = 2 ^ Z.succ (Z.log2 m)).
  { pose proof (Z.log2_spec m ltac:(lia)). pose proof (Z.log2_spec (Z.succ m) ltac:(lia)) as Hs. rewrite Hl in Hs. lia. }
  specialize (Hc ltac:(lia)). unfold canonical in *.
  assert (Hx : fexp 53 1024 (Zdigits2 (Z.succ m) + e) = e + 1).
  { rewrite Zdigits2_log2 by lia. rewrite Hl in Hk |- *. unfold fexp, emin in *. lia. }
  destruct (shr_fexp_div (Z.succ m) e loc_Exact) as (r & Hr & Hv); [lia|lia|]. rewrite Hx in Hr, Hv.
  assert (Hrv : shr_m r = 2 ^ Z.log2 m).
  { rewrite Hv, Hp. replace (e + 1 - e) with 1 by lia. rewrite Z.pow_succ_r, Z.mul_comm, Z.pow_1_r by apply Z.log2_nonneg.
    by rewrite Z.div_mul. }
  exists r, (e + 1). rewrite Hrv. split_and!; [done|apply Z.pow_nonneg; lia|]. intros _.
  rewrite Z.log2_pow2 by apply Z.log2_nonneg. rewrite <-Hx at 2. rewrite Zdigits2_log2, Hl by lia. f_equal. lia.
Qed.

Lemma round_nearest_even_or m loc : round_nearest_even m loc = m \/ round_nearest_even m loc = m + 1.
Proof. destruct loc as [|[]]; cbn; auto. destruct (Z.even m); auto. Qed.

Lemma round_aux_finite neg q e loc :
  0 <= q -> (q = 0 -> e = -1074) -> e <= fexp 53 1024 (Zdigits2 q + e) ->
  match binary_round_aux 53 1024 neg q e loc with
  | S754_infinity _ => True
  | f => finite_float f = true
  end.
Proof.
  intros Hq Hq0 He. unfold binary_round_aux.
  destruct (shr_fexp_div q e loc Hq He) as (r & -> & Hv). set (x := fexp 53 1024 (Zdigits2 q + e)) in *.
  assert (Hpow : 0 < 2 ^ (x - e)) by (apply Z.pow_pos_nonneg; lia).
  destruct (round_up_canonical (shr_m r) x (round_nearest_even (shr_m r) (loc_of_shr_record r))) as (r' & e' & -> & Hp & Hc).
  - rewrite Hv. by apply Z.div_pos.
  - rewrite Hv. intros Hd. assert (Hle : 2 ^ (x - e) <= q) by (destruct (Z.le_gt_cases (2 ^ (x - e)) q); [done|rewrite Z.div_small in Hd; lia]).
    unfold canonical. rewrite <-Z.shiftr_div_pow2, Z.log2_shiftr by lia.
    pose proof (Z.log2_le_mono _ _ Hle) as Hl. rewrite Z.log2_pow2 in Hl by lia.
    rewrite Z.max_r by lia. transitivity (fexp 53 1024 (Zdigits2 q + e)); [|done]. rewrite Zdigits2_log2 by lia. f_equal. lia.
  - rewrite Hv. intros Hd. destruct (decide (q = 0)) as [->|Hnz].
    + unfold x. rewrite Hq0 by done. done.
    + apply Z.div_small_iff in Hd as [Hd|Hd]; [|lia|lia].
      destruct Hd as [_ Hd]. apply (Z.log2_lt_pow2 q) in Hd; [|lia].
      unfold x in *. rewrite Zdigits2_log2 in * by lia. unfold fexp, emin in *. lia.
  - apply round_nearest_even_or.
  - destruct (shr_m r') as [|p|p]; [done| |lia]. destruct (e' <=? 1024 - 53) eqn:Eb; [|done].
    cbn [finite_float]. unfold bounded, canonical_mantissa. rewrite Eb, andb_true_r, Z.eqb_eq, digits2_log2. apply Hc. lia.
Qed.

Lemma f_of_ratio_finite neg m1 m2 :
  0 < m1 -> 0 < m2 -> match f_of_ratio neg m1 m2 with S754_infinity _ => True | f => finite_float f = true end.
Proof.
  intros H1 H2. unfold f_of_ratio, SFdiv_core_binary. rewrite !Z.add_0_r, Z.sub_0_r.
  rewrite !Zdigits2_log2 by done.
  set (e := Z.min (fexp 53 1024 (Z.log2 m1 + 1 - (Z.log2 m2 + 1))) 0).
  assert (He : e <= fexp 53 1024 (Z.log2 m1 - Z.log2 m2) /\ -1074 <= e <= 0).
  { unfold e. replace (Z.log2 m1 + 1 - (Z.log2 m2 + 1)) with (Z.log2 m1 - Z.log2 m2) by lia. unfold fexp, emin. lia. }
  clearbody e.
  assert (Hm' : match 0 - e with Z0 => m1 | Zpos _ => Z.shiftl m1 (0 - e) | Zneg _ => 0 end = m1 * 2 ^ (- e)).
  { destruct (0 - e) as [|p|p] eqn:E; [|rewrite Z.shiftl_mul_pow2 by lia; f_equal; f_equal; lia|lia].
    replace (- e) with 0 by lia. lia. }
  rewrite Hm'. rewrite (surjective_pairing (Z.div_eucl _ _)). change (fst (Z.div_eucl ?a ?b)) with (a / b).
  set (q := m1 * 2 ^ (- e) / m2).
  assert (Hpow : 0 < 2 ^ (- e)) by (apply Z.pow_pos_nonneg; lia).
  assert (Hq : 0 <= q) by (apply Z.div_pos; nia).
  assert (Hbig : 0 <= Z.log2 m1 - Z.log2 m2 - 1 - e -> 0 < q /\ Z.log2 m1 - Z.log2 m2 - 1 - e <= Z.log2 q).
  { intros Hx. set (y := Z.log2 m1 - Z.log2 m2 - 1 - e) in *.
    assert (Hy : 2 ^ y <= q).
    { apply Z.div_le_lower_bound; [lia|]. pose proof (Z.log2_spec m1 H1) as [Hl1 _]. pose proof (Z.log2_spec m2 H2) as [_ Hl2].
      apply Z.le_trans with (2 ^ Z.succ (Z.log2 m2) * 2 ^ y); [apply Z.mul_le_mono_nonneg_r; lia|].
      rewrite <-Z.pow_add_r by (pose proof (Z.log2_nonneg m2); lia).
      apply Z.le_trans with (2 ^ Z.log2 m1 * 2 ^ (- e)); [|apply Z.mul_le_mono_nonneg_r; lia].
      rewrite <-Z.pow_add_r by (pose proof (Z.log2_nonneg m1); lia). apply Z.pow_le_mono_r; lia. }
    assert (0 < 2 ^ y) by (apply Z.pow_pos_nonneg; lia). split; [lia|].
    rewrite <-(Z.log2_pow2 y) by lia. by apply Z.log2_le_mono. }
  assert (Hsmall : Z.log2 m1 - Z.log2 m2 - 1 - e < 0 -> e = -1074) by (unfold fexp, emin in He; lia).
  apply round_aux_finite; [done| |].
  - intros Hq0. destruct (Z.le_gt_cases 0 (Z.log2 m1 - Z.log2 m2 - 1 - e)) as [Hx|Hx]; [|by apply Hsmall].
    destruct (Hbig Hx). lia.
  - destruct (Z.le_gt_cases 0 (Z.log2 m1 - Z.log2 m2 - 1 - e)) as [Hx|Hx].
    + destruct (Hbig Hx) as [Hq1 Hl]. rewrite Zdigits2_log2 by done. unfold fexp, emin in *. lia.
    + rewrite (Hsmall Hx). unfold fexp, emin. lia.
Qed.

Lemma ParseFloat_finite n f : Forall is_digit (nm_int n ++ nm_frac n) -> ParseFloat n = Some f -> finite_float f = true.
Proof.
  intros Hd. unfold ParseFloat, f_of_decimal. pose proof (digits_val_bounds _ Hd) as [Hm _]. fold (mantissa n) in Hm.
  destruct (Z.eqb_spec (mantissa n) 0) as [|Hnz]; [by intros [= <-]|].
  pose proof (strip_spec (mantissa n) (exponent n) ltac:(lia)) as Hs.
  destruct (strip (mantissa n) (exponent n)) as [m e]. destruct Hs as (_ & Hm' & _ & _). unfold f_of_stripped.
  destruct (_ >? 310); [done|]. destruct (_ <? -330); [by intros [= <-]|].
  pose proof (f_of_ratio_finite (nm_neg n) (m * 10 ^ Z.max e 0) (10 ^ Z.max (- e) 0)) as H.
  assert (0 < 10 ^ Z.max e 0 /\ 0 < 10 ^ Z.max (- e) 0) by (split; apply Z.pow_pos_nonneg; lia).
  specialize (H ltac:(nia) ltac:(lia)). destruct (f_of_ratio _ _ _); [| | |]; intros [= <-]; exact H.
Qed.

Lemma ParseInt_range n z : ParseInt n = Some z -> int64_range z.
Proof.
  unfold ParseInt, int64_range. destruct (nm_frac n); [|done]. destruct (nm_exp n); [done|].
  destruct (Z.leb_spec min_int64 (signed (nm_neg n) (digits_val (nm_int n)))); [|done].
  destruct (Z.leb_spec (signed (nm_neg n) (digits_val (nm_int n))) max_int64); [|done]. by intros [= <-].
Qed.
Close Scope Z_scope.
