(* ===== verification/Json.v ===== *)
(** * JSON documents: the syntax that [encoding/json] reads and writes

    A document is read in one pass: the scanner of the package and the
    unquoting of strings together, with its limit on nesting.  The printer
    writes what [json.Marshal] does: no white space, and strings escaped for
    HTML.  A quote inside a string is the character [dquote]. *)
From Stdlib Require Import Ascii.
From S2P Require Import Prelude GoStrings GoStrconv.
Open Scope Z_scope.

Definition byte (z : Z) : ascii := ascii_of_N (Z.to_N z).
Definition dquote : ascii := "034"%char.
Definition bslash : ascii := "092"%char.

Abbreviation parsed A := (option (A * string)).

(** ** Strings *)
Definition hex_char (n : Z) : ascii := byte (if n <? 10 then 48 + n else 87 + n).
Definition hex_val (c : ascii) : option Z :=
  if in_range 48 57 c then Some (byte_val c - 48)
  else if in_range 97 102 c then Some (byte_val c - 87)
  else if in_range 65 70 c then Some (byte_val c - 55)
  else None.
Definition hex4 (a b c d : ascii) : option Z :=
  a ← hex_val a; b ← hex_val b; c ← hex_val c; d ← hex_val d;
  Some (((a * 16 + b) * 16 + c) * 16 + d).

(** [utf8.AppendRune] of a rune that is no surrogate. *)
Definition encode_rune (r : Z) : string :=
  if r <? 128 then String (byte r) EmptyString
  else if r <? 2048 then String (byte (192 + r / 64)) (String (byte (128 + r mod 64)) EmptyString)
  else if r <? 65536 then
    String (byte (224 + r / 4096)) (String (byte (128 + r / 64 mod 64)) (String (byte (128 + r mod 64)) EmptyString))
  else
    String (byte (240 + r / 262144)) (String (byte (128 + r / 4096 mod 64))
      (String (byte (128 + r / 64 mod 64)) (String (byte (128 + r mod 64)) EmptyString))).
(** U+FFFD in UTF-8. *)
Definition replacement : string := String "239" (String "191" (String "189" EmptyString)).

Definition escape_unit (hi lo : Z) : string :=
  String bslash (String "u" (String "0" (String "0" (String (hex_char hi) (String (hex_char lo) EmptyString))))).
(** A byte below 128: the two-character escapes, [\u00XX] for the other control
    characters and for [<], [>] and [&]. *)
Definition escape_byte (c : ascii) : string :=
  let b := byte_val c in
  if (b =? 34) || (b =? 92) then String bslash (String c EmptyString)
  else if b =? 8 then String bslash "b"
  else if b =? 9 then String bslash "t"
  else if b =? 10 then String bslash "n"
  else if b =? 12 then String bslash "f"
  else if b =? 13 then String bslash "r"
  else if (b <? 32) || (b =? 60) || (b =? 62) || (b =? 38) then escape_unit (b / 16) (b mod 16)
  else String c EmptyString.

(** U+2028 and U+2029, by their three bytes. *)
Definition line_separator (c : ascii) (s : string) : option Z :=
  match s with
  | String c1 (String c2 _) =>
      if (byte_val c =? 226) && (byte_val c1 =? 128) then
        if byte_val c2 =? 168 then Some 8 else if byte_val c2 =? 169 then Some 9 else None
      else None
  | _ => None
  end.

(** [appendString]: [k] bytes of the current rune are still to write as they
    are ([keep]) or to pass over. *)
Fixpoint quote_body (keep : bool) (k : nat) (s : string) : string :=
  match s with
  | EmptyString => EmptyString
  | String c s' =>
      match k with
      | S k => if keep then String c (quote_body keep k s') else quote_body keep k s'
      | O =>
          if byte_val c <? 128 then escape_byte c +:+ quote_body true 0 s'
          else if bad_rune (decode_rune c s') then String bslash "ufffd" +:+ quote_body true 0 s'
          else match line_separator c s' with
               | Some d => String bslash "u202" +:+ String (hex_char d) (quote_body false 2 s')
               | None => String c (quote_body true ((decode_rune c s').2 - 1) s')
               end
      end
  end.
Definition quote (s : string) : string := String dquote (quote_body true 0 s +:+ String dquote EmptyString).

(** ** Numbers *)
Definition digit_char (d : Z) : ascii := byte (48 + d).
Definition print_digits (ds : list Z) (rest : string) : string := foldr (fun d s => String (digit_char d) s) rest ds.
Definition print_number (n : number) (rest : string) : string :=
  let exp := match nm_exp n with
             | None => rest
             | Some (sg, ds) =>
                 String "e" (match sg with None => print_digits ds rest
                             | Some neg => String (if neg then "-" else "+")%char (print_digits ds rest) end)
             end in
  let frac := match nm_frac n with [] => exp | ds => String "." (print_digits ds exp) end in
  let int := print_digits (nm_int n) frac in
  if nm_neg n then String "-" int else int.

Definition digit_of (c : ascii) : option Z := if in_range 48 57 c then Some (byte_val c - 48) else None.
Fixpoint take_digits (s : string) : list Z * string :=
  match s with
  | EmptyString => ([], s)
  | String c s' =>
      match digit_of c with
      | Some d => let '(ds, rest) := take_digits s' in (d :: ds, rest)
      | None => ([], s)
      end
  end.
Definition some_digits (s : string) : parsed (list Z) :=
  match take_digits s with ([], _) => None | (ds, rest) => Some (ds, rest) end.

Definition is_char (c x : ascii) : bool := byte_val c =? byte_val x.

Definition parse_frac (s : string) : parsed (list Z) :=
  match s with
  | String c s' => if is_char c "." then some_digits s' else Some ([], s)
  | EmptyString => Some ([], s)
  end.
Definition parse_exp (s : string) : parsed (option (option bool * list Z)) :=
  match s with
  | String c s' =>
      if is_char c "e" || is_char c "E" then
        let '(sg, s2) := match s' with
                         | String x s2 => if is_char x "-" then (Some true, s2)
                                          else if is_char x "+" then (Some false, s2) else (None, s')
                         | EmptyString => (None, s')
                         end in
        '(ds, rest) ← some_digits s2; Some (Some (sg, ds), rest)
      else Some (None, s)
  | EmptyString => Some (None, s)
  end.
(** The digits before the point: a zero stands alone. *)
Definition parse_int (s : string) : parsed (list Z) :=
  match s with
  | EmptyString => None
  | String c s' =>
      d ← digit_of c;
      if d =? 0 then Some ([0], s') else let '(ds, rest) := take_digits s' in Some (d :: ds, rest)
  end.
Definition parse_number (s : string) : parsed number :=
  let '(neg, s) := match s with
                   | String c s' => if is_char c "-" then (true, s') else (false, s)
                   | EmptyString => (false, s)
                   end in
  '(int, s) ← parse_int s;
  '(frac, s) ← parse_frac s;
  '(exp, s) ← parse_exp s;
  Some (mkNumber neg int frac exp, s).

(** ** Reading strings *)
Definition is_high (r : Z) : bool := (55296 <=? r) && (r <? 56320).
Definition is_low (r : Z) : bool := (56320 <=? r) && (r <? 57344).
Definition prefixed (w : string) (p : parsed string) : parsed string := '(s, rest) ← p; Some (w +:+ s, rest).

Definition simple_escape (e : ascii) : option ascii :=
  if is_char e dquote || is_char e bslash || is_char e "/" then Some e
  else if is_char e "b" then Some "008"%char
  else if is_char e "f" then Some "012"%char
  else if is_char e "n" then Some "010"%char
  else if is_char e "r" then Some "013"%char
  else if is_char e "t" then Some "009"%char
  else None.

(** The string after its opening quote, and what follows the closing one; [k]
    bytes of the current rune are still to copy.  A surrogate that is no half
    of a pair and a byte that is no UTF-8 become U+FFFD. *)
Fixpoint unquote (k : nat) (s : string) : parsed string :=
  match s with
  | EmptyString => None
  | String c s' =>
      match k with
      | S k => prefixed (String c EmptyString) (unquote k s')
      | O =>
          if is_char c dquote then Some (EmptyString, s')
          else if is_char c bslash then
            match s' with
            | EmptyString => None
            | String e s1 =>
                if is_char e "u" then
                  match s1 with
                  | String a (String b (String x (String y s2))) =>
                      r ← hex4 a b x y;
                      if is_high r || is_low r then
                        match s2 with
                        | String c2 (String e2 (String a (String b (String x (String y s3))))) =>
                            match (if is_char c2 bslash && is_char e2 "u" then hex4 a b x y else None) with
                            | Some r2 =>
                                if is_high r && is_low r2
                                then prefixed (encode_rune ((r - 55296) * 1024 + (r2 - 56320) + 65536)) (unquote 0 s3)
                                else prefixed replacement (unquote 0 s2)
                            | None => prefixed replacement (unquote 0 s2)
                            end
                        | _ => prefixed replacement (unquote 0 s2)
                        end
                      else prefixed (encode_rune r) (unquote 0 s2)
                  | _ => None
                  end
                else c' ← simple_escape e; prefixed (String c' EmptyString) (unquote 0 s1)
            end
          else if byte_val c <? 32 then None
          else if byte_val c <? 128 then prefixed (String c EmptyString) (unquote 0 s')
          else if bad_rune (decode_rune c s') then prefixed replacement (unquote 0 s')
          else prefixed (String c EmptyString) (unquote ((decode_rune c s').2 - 1) s')
      end
  end.

(** ** Documents *)
#[warnings="-register-all"]
Inductive json :=
| JNull
| JBool (b : bool)
| JNum (n : number)
| JStr (s : string)
| JArr (l : list json)
| JObj (l : list (string * json)).

(** [json.Marshal] of a document; the members keep their order. *)
Fixpoint print (j : json) (rest : string) : string :=
  match j with
  | JNull => "null" +:+ rest
  | JBool b => (if b then "true" else "false") +:+ rest
  | JNum n => print_number n rest
  | JStr s => quote s +:+ rest
  | JArr [] => "[]" +:+ rest
  | JArr (j :: l) =>
      String "[" (print j ((fix items (l : list json) : string :=
        match l with [] => String "]" rest | j :: l => String "," (print j (items l)) end) l))
  | JObj [] => "{}" +:+ rest
  | JObj (m :: l) =>
      String "{" (quote m.1 +:+ String ":" (print m.2 ((fix members (l : list (string * json)) : string :=
        match l with [] => String "}" rest
        | m :: l => String "," (quote m.1 +:+ String ":" (print m.2 (members l))) end) l)))
  end.

Definition is_ws (c : ascii) : bool := is_char c " " || is_char c "009" || is_char c "010" || is_char c "013".
Fixpoint skip_ws (s : string) : string :=
  match s with
  | String c s' => if is_ws c then skip_ws s' else s
  | EmptyString => s
  end.

Fixpoint strip_prefix (p s : string) : option string :=
  match p, s with
  | EmptyString, _ => Some s
  | String c p, String x s => if is_char c x then strip_prefix p s else None
  | _, EmptyString => None
  end.
Definition parse_literal (p : string) (j : json) (s : string) : parsed json := rest ← strip_prefix p s; Some (j, rest).

Definition starts_number (c : ascii) : bool := is_char c "-" || in_range 48 57 c.

(** A character after white space. *)
Definition expect (c : ascii) (s : string) : option string :=
  match skip_ws s with String x s' => if is_char x c then Some s' else None | EmptyString => None end.

(** After an element or a member: the container goes on or ends with [close]. *)
Definition next (close : ascii) (s : string) : option (bool * string) :=
  match expect "," s with
  | Some s' => Some (true, s')
  | None => (fun rest => (false, rest)) <$> expect close s
  end.

(** [depth] more levels may be opened. *)
Fixpoint parse (fuel : nat) (depth : Z) (s : string) : parsed json :=
  match fuel with
  | O => None
  | S fuel =>
      match skip_ws s with
      | EmptyString => None
      | String c s' =>
          if is_char c "{" then
            if depth <=? 0 then None else
            match expect "}" s' with
            | Some rest => Some (JObj [], rest)
            | None => '(ms, rest) ← parse_members fuel (depth - 1) s'; Some (JObj ms, rest)
            end
          else if is_char c "[" then
            if depth <=? 0 then None else
            match expect "]" s' with
            | Some rest => Some (JArr [], rest)
            | None => '(js, rest) ← parse_items fuel (depth - 1) s'; Some (JArr js, rest)
            end
          else if is_char c dquote then '(w, rest) ← unquote 0 s'; Some (JStr w, rest)
          else if starts_number c then '(n, rest) ← parse_number (String c s'); Some (JNum n, rest)
          else if is_char c "t" then parse_literal "true" (JBool true) (String c s')
          else if is_char c "f" then parse_literal "false" (JBool false) (String c s')
          else parse_literal "null" JNull (String c s')
      end
  end
with parse_items (fuel : nat) (depth : Z) (s : string) : parsed (list json) :=
  match fuel with
  | O => None
  | S fuel =>
      '(j, s) ← parse fuel depth s;
      match next "]" s with
      | Some (true, s) => '(js, rest) ← parse_items fuel depth s; Some (j :: js, rest)
      | Some (false, rest) => Some ([j], rest)
      | None => None
      end
  end
with parse_members (fuel : nat) (depth : Z) (s : string) : parsed (list (string * json)) :=
  match fuel with
  | O => None
  | S fuel =>
      s ← expect dquote s;
      '(key, s) ← unquote 0 s;
      s ← expect ":" s;
      '(j, s) ← parse fuel depth s;
      match next "}" s with
      | Some (true, s) => '(ms, rest) ← parse_members fuel depth s; Some ((key, j) :: ms, rest)
      | Some (false, rest) => Some ([(key, j)], rest)
      | None => None
      end
  end.

Definition maxNestingDepth : Z := 10000.
(** The first document of the input and what follows it. *)
Definition read_json (s : string) : parsed json := parse (2 * String.length s + 2) maxNestingDepth s.
(** [Decoder.More] on what follows. *)
Definition more (s : string) : bool :=
  match skip_ws s with
  | EmptyString => false
  | String c _ => negb (is_char c "]" || is_char c "}")
  end.

(** ** Characters *)
Lemma byte_val_bounds c : 0 <= byte_val c < 256.
Proof. unfold byte_val. pose proof (N_ascii_bounded c). lia. Qed.

Lemma byte_val_byte z : 0 <= z < 256 -> byte_val (byte z) = z.
Proof. intros H. unfold byte_val, byte. rewrite N_ascii_embedding by lia. lia. Qed.

Lemma is_char_spec c x : is_char c x = true <-> c = x.
Proof.
  unfold is_char, byte_val. rewrite Z.eqb_eq. split; [|by intros ->]. intros H.
  rewrite <-(ascii_N_embedding c), <-(ascii_N_embedding x). f_equal. lia.
Qed.

Lemma hex_val_char n : 0 <= n < 16 -> hex_val (hex_char n) = Some n.
Proof.
  intros H. unfold hex_val, hex_char, in_range. rewrite !byte_val_byte by (destruct (n <? 10) eqn:?; lia).
  destruct (Z.ltb_spec n 10).
  - destruct (Z.leb_spec 48 (48 + n)), (Z.leb_spec (48 + n) 57); try lia. cbn. f_equal. lia.
  - destruct (Z.leb_spec (87 + n) 57), (Z.leb_spec 97 (87 + n)), (Z.leb_spec (87 + n) 102); try lia.
    rewrite andb_false_r. cbn. f_equal. lia.
Qed.

Lemma digit_of_char d : is_digit d -> digit_of (digit_char d) = Some d.
Proof.
  unfold is_digit. intros H. unfold digit_of, digit_char, in_range. rewrite byte_val_byte by lia.
  destruct (Z.leb_spec 48 (48 + d)), (Z.leb_spec (48 + d) 57); try lia. cbn. f_equal. lia.
Qed.

Lemma digit_of_range c d : digit_of c = Some d -> is_digit d.
Proof. unfold digit_of, in_range, is_digit. destruct (_ && _) eqn:E; [|done]. intros [= <-]. lia. Qed.

Lemma append_assoc s t u : ((s +:+ t) +:+ u) = (s +:+ (t +:+ u)).
Proof. induction s as [|c s IH]; [done|]. rewrite !append_cons. by rewrite IH. Qed.
Lemma append_length s t : String.length (s +:+ t) = (String.length s + String.length t)%nat.
Proof. induction s as [|c s IH]; [done|]. rewrite append_cons. cbn. by rewrite IH. Qed.
Lemma append_nil s : (s +:+ EmptyString) = s.
Proof. induction s as [|c s IH]; [done|]. by rewrite append_cons, IH. Qed.

(** ** Strings read back *)
Lemma prefixed_app a b p : prefixed a (prefixed b p) = prefixed (a +:+ b) p.
Proof. destruct p as [[s rest]|]; [|done]. cbn. by rewrite append_assoc. Qed.

Lemma unquote_copy p s : unquote (String.length p) (p +:+ s) = prefixed p (unquote 0 s).
Proof.
  induction p as [|c p IH]; [change (unquote 0 s = prefixed EmptyString (unquote 0 s)); by destruct (unquote 0 s) as [[]|]|].
  rewrite append_cons. cbn [String.length unquote].
  rewrite IH, prefixed_app. done.
Qed.

Lemma quote_body_copy p s : quote_body true (String.length p) (p +:+ s) = (p +:+ quote_body true 0 s).
Proof. induction p as [|c p IH]; [done|]. rewrite !append_cons. cbn [String.length quote_body]. by rewrite IH. Qed.

Lemma utf8_valid_copy p s : utf8_valid_from (String.length p) (p +:+ s) = utf8_valid_from 0 s.
Proof. induction p as [|c p IH]; [done|]. rewrite append_cons. exact IH. Qed.

(** The bytes of a well-formed rune decide it. *)
Lemma decode_rune_split c s :
  bad_rune (decode_rune c s) = false ->
  exists p s', s = (p +:+ s') /\ String.length p = ((decode_rune c s).2 - 1)%nat /\
    forall t, decode_rune c (p +:+ t) = decode_rune c s.
Proof.
  unfold decode_rune.
  destruct (byte_val c <? 128); [intros _; by exists EmptyString, s|].
  destruct (in_range 194 223 c).
  { destruct s as [|c1 s]; [intros H; discriminate H|].
    destruct (cont c1) eqn:E1; [|intros H; discriminate H]. intros _. exists (String c1 EmptyString), s.
    split_and!; [done|done|]. intros t. rewrite !append_cons. by rewrite E1. }
  destruct (in_range 224 239 c).
  { destruct s as [|c1 [|c2 s]]; [intros H; discriminate H..|].
    destruct (in_range _ _ c1 && cont c2) eqn:E1; [|intros H; discriminate H].
    intros _. exists (String c1 (String c2 EmptyString)), s.
    split_and!; [done|done|]. intros t. rewrite !append_cons. by rewrite E1. }
  destruct (in_range 240 244 c); [|intros H; discriminate H].
  destruct s as [|c1 [|c2 [|c3 s]]]; [intros H; discriminate H..|].
  destruct (in_range _ _ c1 && cont c2 && cont c3) eqn:E1; [|intros H; discriminate H].
  intros _. exists (String c1 (String c2 (String c3 EmptyString))), s.
  split_and!; [done|done|]. intros t. rewrite !append_cons. by rewrite E1.
Qed.

Lemma unquote_escape c s :
  (byte_val c <? 128) = true -> unquote 0 (escape_byte c +:+ s) = prefixed (String c EmptyString) (unquote 0 s).
Proof. destruct c as [[] [] [] [] [] [] [] []]; intros H; try discriminate H; reflexivity. Qed.

Lemma line_separator_spec c s d :
  line_separator c s = Some d ->
  (d = 8 \/ d = 9) /\ exists s3, s = String "128" (String (byte (160 + d)) s3) /\ c = "226"%char.
Proof.
  unfold line_separator. destruct s as [|c1 [|c2 s]]; try done.
  change (byte_val c =? 226) with (is_char c "226"). change (byte_val c1 =? 128) with (is_char c1 "128").
  change (byte_val c2 =? 168) with (is_char c2 "168"). change (byte_val c2 =? 169) with (is_char c2 "169").
  destruct (is_char c _) eqn:E; [|done]. destruct (is_char c1 _) eqn:E1; [|done]. apply is_char_spec in E, E1. subst.
  destruct (is_char c2 "168") eqn:E2.
  - apply is_char_spec in E2. subst. intros [= <-]. split; [by left|]. by exists s.
  - destruct (is_char c2 "169") eqn:E3; [|done]. apply is_char_spec in E3. subst.
    intros [= <-]. split; [by right|]. by exists s.
Qed.

Lemma unquote_other c s :
  (byte_val c <? 128) = false -> bad_rune (decode_rune c s) = false ->
  unquote 0 (String c s) = prefixed (String c EmptyString) (unquote ((decode_rune c s).2 - 1) s).
Proof.
  intros Hc Hb. cbn [unquote].
  destruct (is_char c dquote) eqn:E; [apply is_char_spec in E; subst; done|].
  destruct (is_char c bslash) eqn:E'; [apply is_char_spec in E'; subst; done|].
  destruct (byte_val c <? 32) eqn:E3; [lia|]. by rewrite Hc, Hb.
Qed.

Lemma decode_rune_ascii c s : (byte_val c <? 128) = true -> decode_rune c s = (byte_val c, 1%nat).
Proof. intros H. unfold decode_rune. by rewrite H. Qed.

Lemma unquote_quote s rest :
  utf8_valid s = true -> unquote 0 (quote_body true 0 s +:+ String dquote rest) = Some (s, rest).
Proof.
  unfold utf8_valid. remember (String.length s) as n eqn:Hn. revert s Hn.
  induction n as [n IH] using lt_wf_ind. intros s -> Hv. destruct s as [|c s]; [done|].
  rewrite utf8_valid_cons, andb_true_iff, negb_true_iff in Hv. destruct Hv as [Hb Hv]. cbn [quote_body].
  destruct (byte_val c <? 128) eqn:Ec.
  - rewrite append_assoc, unquote_escape by done. rewrite decode_rune_ascii in Hv by done.
    rewrite (IH (String.length s)); [done|cbn; lia|done|done].
  - rewrite Hb. destruct (line_separator c s) as [d|] eqn:El.
    + apply line_separator_spec in El as (Hd & s3 & -> & ->).
      assert (Hv3 : utf8_valid_from 0 s3 = true) by (by destruct Hd as [-> | ->]).
      assert (Hq : quote_body false 2 (String "128" (String (byte (160 + d)) s3)) = quote_body true 0 s3) by (by destruct s3).
      rewrite Hq, append_assoc, append_cons. specialize (IH (String.length s3) ltac:(cbn; lia) s3 eq_refl Hv3).
      destruct Hd as [-> | ->].
      * transitivity (prefixed (encode_rune 8232) (unquote 0 (quote_body true 0 s3 +:+ String dquote rest))); [done|].
        by rewrite IH.
      * transitivity (prefixed (encode_rune 8233) (unquote 0 (quote_body true 0 s3 +:+ String dquote rest))); [done|].
        by rewrite IH.
    + destruct (decode_rune_split c s Hb) as (p & s' & -> & Hp & Hd). rewrite <-Hp in Hv |- *.
      rewrite utf8_valid_copy in Hv. rewrite quote_body_copy, append_cons, append_assoc.
      rewrite unquote_other, Hd by (by rewrite ?Hd). rewrite <-Hp, unquote_copy, prefixed_app.
      rewrite (IH (String.length s')); [done|cbn; rewrite append_length; lia|done|done].
Qed.

(** ** Numbers read back *)
Definition no_digit (s : string) : Prop := match s with EmptyString => True | String c _ => digit_of c = None end.
(** What may follow a number. *)
Definition stops (s : string) : Prop :=
  match s with
  | EmptyString => True
  | String c _ => digit_of c = None /\ is_char c "." = false /\ is_char c "e" = false /\ is_char c "E" = false
  end.
Lemma stops_no_digit s : stops s -> no_digit s.
Proof. destruct s; [done|]. by intros [? _]. Qed.

Lemma take_digits_print ds rest :
  Forall is_digit ds -> no_digit rest -> take_digits (print_digits ds rest) = (ds, rest).
Proof.
  intros Hd Hr. induction Hd as [|d ds Hd _ IH]; cbn [print_digits foldr].
  - destruct rest as [|c rest]; [done|]. cbn in Hr |- *. by rewrite Hr.
  - fold (print_digits ds rest). cbn [take_digits]. by rewrite digit_of_char, IH.
Qed.

Lemma some_digits_print ds rest :
  Forall is_digit ds -> ds <> [] -> no_digit rest -> some_digits (print_digits ds rest) = Some (ds, rest).
Proof. intros Hd Hn Hr. unfold some_digits. rewrite take_digits_print by done. by destruct ds. Qed.

Lemma digit_char_other d c : is_digit d -> digit_of c = None -> is_char (digit_char d) c = false.
Proof.
  intros Hd Hc. destruct (is_char (digit_char d) c) eqn:E; [|done]. apply is_char_spec in E. subst c.
  by rewrite digit_of_char in Hc.
Qed.

Definition exp_ok (e : option (option bool * list Z)) : Prop :=
  match e with None => True | Some (_, ds) => Forall is_digit ds /\ ds <> [] end.
Definition print_exp (e : option (option bool * list Z)) (rest : string) : string :=
  match e with
  | None => rest
  | Some (sg, ds) =>
      String "e" (match sg with None => print_digits ds rest
                  | Some neg => String (if neg then "-" else "+")%char (print_digits ds rest) end)
  end.
Definition print_frac (ds : list Z) (rest : string) : string :=
  match ds with [] => rest | ds => String "." (print_digits ds rest) end.

Lemma print_number_eq n rest :
  print_number n rest =
  (if nm_neg n then String "-" else id) (print_digits (nm_int n) (print_frac (nm_frac n) (print_exp (nm_exp n) rest))).
Proof. unfold print_number, print_frac, print_exp. by destruct (nm_neg n), (nm_frac n). Qed.

Lemma parse_exp_print e rest :
  exp_ok e -> stops rest -> parse_exp (print_exp e rest) = Some (e, rest) /\ no_digit (print_exp e rest) /\
  (forall c s, print_exp e rest = String c s -> is_char c "." = false).
Proof.
  intros He Hr. destruct e as [[sg ds]|]; cbn [print_exp].
  - destruct He as [Hd Hn]. pose proof (stops_no_digit _ Hr) as Hr'. split_and!; [|done|by intros c s [= <- _]].
    unfold parse_exp. cbn [is_char]. destruct sg as [neg|].
    + transitivity ('(ds, rest) ← some_digits (print_digits ds rest); Some (Some (Some neg, ds), rest)); [by destruct neg|].
      by rewrite some_digits_print.
    + destruct ds as [|d ds]; [done|]. apply Forall_cons in Hd as [Hd Hds]. cbn [print_digits foldr].
      fold (print_digits ds rest). cbn -[is_char digit_char]. rewrite !digit_char_other by done.
      change (String (digit_char d) (print_digits ds rest)) with (print_digits (d :: ds) rest).
      rewrite some_digits_print; [done|by apply Forall_cons|done|done].
  - split_and!; [|by apply stops_no_digit|].
    + destruct rest as [|c rest]; [done|]. destruct Hr as (_ & _ & H1 & H2). unfold parse_exp. by rewrite H1, H2.
    + intros c s ->. by destruct Hr as (_ & H & _).
Qed.

Lemma parse_frac_print ds rest :
  Forall is_digit ds -> no_digit rest -> (forall c s, rest = String c s -> is_char c "." = false) ->
  parse_frac (print_frac ds rest) = Some (ds, rest) /\ no_digit (print_frac ds rest).
Proof.
  intros Hd Hr Hp. destruct ds as [|d ds]; cbn [print_frac].
  - split; [|done]. destruct rest as [|c rest]; [done|]. unfold parse_frac. by rewrite (Hp c rest eq_refl).
  - split; [|done]. unfold parse_frac. cbn [is_char]. change (is_char "." ".") with true. cbn match.
    by apply some_digits_print.
Qed.

Lemma parse_int_print ds rest : int_ok ds -> no_digit rest -> parse_int (print_digits ds rest) = Some (ds, rest).
Proof.
  intros (Hd & Hn & Hz) Hr. destruct ds as [|d ds]; [done|]. apply Forall_cons in Hd as [Hd Hds].
  cbn [print_digits foldr]. fold (print_digits ds rest). unfold parse_int. rewrite digit_of_char by done. cbn [mbind option_bind].
  destruct (Z.eqb_spec d 0) as [->|Hd0].
  - destruct Hz as [Hz|[= ->]]; [done|]. done.
  - by rewrite take_digits_print.
Qed.

Lemma parse_number_print n rest : number_ok n -> stops rest -> parse_number (print_number n rest) = Some (n, rest).
Proof.
  intros [Hi Hf He] Hr. change (exp_ok (nm_exp n)) in He.
  destruct (parse_exp_print _ _ He Hr) as (He1 & He2 & He3).
  destruct (parse_frac_print _ _ Hf He2 He3) as (Hf1 & Hf2).
  pose proof (parse_int_print _ _ Hi Hf2) as Hi1.
  rewrite print_number_eq. unfold parse_number. destruct (nm_neg n) eqn:En; cbn match; unfold id.
  - change (is_char "-" "-") with true. cbn match. rewrite Hi1. cbn [mbind option_bind]. rewrite Hf1. cbn [mbind option_bind].
    rewrite He1. cbn. rewrite <-En. by destruct n.
  - destruct (nm_int n) as [|d ds] eqn:Ei; [by destruct Hi as (_ & [] & _)|].
    cbn [print_digits foldr]. rewrite digit_char_other; [|by destruct Hi as (Hd & _); apply Forall_cons in Hd as [? _]|done].
    cbn match. fold (print_digits ds (print_frac (nm_frac n) (print_exp (nm_exp n) rest))).
    change (String (digit_char d) (print_digits ds ?r)) with (print_digits (d :: ds) r).
    rewrite Hi1. cbn [mbind option_bind]. rewrite Hf1. cbn [mbind option_bind]. rewrite He1. cbn. rewrite <-En, <-Ei. by destruct n.
Qed.

(** ** Documents read back *)
Section json_induction.
Context (P : json -> Prop) (HNull : P JNull) (HBool : forall b, P (JBool b)) (HNum : forall n, P (JNum n))
  (HStr : forall s, P (JStr s)) (HArr : forall l, Forall P l -> P (JArr l))
  (HObj : forall l, Forall (fun m => P m.2) l -> P (JObj l)).
Fixpoint json_ind_nested (j : json) : P j :=
  match j with
  | JNull => HNull
  | JBool b => HBool b
  | JNum n => HNum n
  | JStr s => HStr s
  | JArr l => HArr l ((fix all (l : list json) : Forall P l :=
      match l with [] => List.Forall_nil _ | j :: l => List.Forall_cons _ _ _ (json_ind_nested j) (all l) end) l)
  | JObj l => HObj l ((fix all (l : list (string * json)) : Forall (fun m => P m.2) l :=
      match l with [] => List.Forall_nil _ | m :: l => List.Forall_cons _ _ _ (json_ind_nested m.2) (all l) end) l)
  end.
End json_induction.

(** Strings are UTF-8 and numbers have the shape of JSON's. *)
Fixpoint json_ok (j : json) : Prop :=
  match j with
  | JNull | JBool _ => True
  | JNum n => number_ok n
  | JStr s => utf8_valid s = true
  | JArr l => foldr (fun j P => json_ok j /\ P) True l
  | JObj l => foldr (fun m P => (utf8_valid m.1 = true /\ json_ok m.2) /\ P) True l
  end.
Fixpoint nesting (j : json) : Z :=
  match j with
  | JArr l => 1 + foldr (fun j d => Z.max (nesting j) d) 0 l
  | JObj l => 1 + foldr (fun m d => Z.max (nesting m.2) d) 0 l
  | _ => 0
  end.

(** The rest of an array or an object after its first element. *)
Fixpoint print_items (l : list json) (rest : string) : string :=
  match l with [] => String "]" rest | j :: l => String "," (print j (print_items l rest)) end.
Definition print_member (m : string * json) (rest : string) : string := quote m.1 +:+ String ":" (print m.2 rest).
Fixpoint print_members (l : list (string * json)) (rest : string) : string :=
  match l with [] => String "}" rest | m :: l => String "," (print_member m (print_members l rest)) end.

Lemma print_arr j l rest : print (JArr (j :: l)) rest = String "[" (print j (print_items l rest)).
Proof. cbn [print]. do 2 f_equal. induction l as [|j' l IH]; [done|]. cbn [print_items]. by rewrite <-IH. Qed.
Lemma print_obj m l rest : print (JObj (m :: l)) rest = String "{" (print_member m (print_members l rest)).
Proof.
  cbn [print]. unfold print_member. do 4 f_equal. induction l as [|m' l IH]; [done|]. cbn [print_members].
  unfold print_member. by rewrite <-IH.
Qed.

(** The first character of a document. *)
Definition value_start (c : ascii) : bool :=
  starts_number c || is_char c dquote || is_char c "[" || is_char c "{" || is_char c "t" || is_char c "f" || is_char c "n".

Lemma value_start_facts c :
  value_start c = true -> is_ws c = false /\ is_char c "]" = false /\ is_char c "}" = false /\ is_char c "," = false.
Proof. destruct c as [[] [] [] [] [] [] [] []]; vm_compute; intros H; try discriminate H; by repeat split. Qed.

Lemma number_start n rest : number_ok n -> exists c s, print_number n rest = String c s /\ starts_number c = true.
Proof.
  intros [(Hd & Hn & _) _ _]. unfold print_number. destruct (nm_neg n); [by eexists _, _|].
  destruct (nm_int n) as [|d ds]; [done|]. apply Forall_cons in Hd as [Hd _]. eexists _, _. split; [done|].
  apply digit_of_char in Hd. unfold digit_of in Hd. unfold starts_number. destruct (in_range 48 57 _); [apply orb_true_r|done].
Qed.

Lemma print_start j rest : json_ok j -> exists c s, print j rest = String c s /\ value_start c = true.
Proof.
  destruct j as [|[]|n|s|[|j l]|[|m l]]; intros Hj; try (by eexists _, _).
  destruct (number_start n rest Hj) as (c & s & Hc & Hs). exists c, s. split; [done|]. unfold value_start. by rewrite Hs.
Qed.

Lemma skip_ws_print j rest : json_ok j -> skip_ws (print j rest) = print j rest.
Proof.
  intros Hj. destruct (print_start j rest Hj) as (c & s & -> & Hc). apply value_start_facts in Hc as (Hc & _).
  cbn. by rewrite Hc.
Qed.

Lemma expect_print x j rest :
  json_ok j -> x ∈ ["]"; "}"]%char -> expect x (print j rest) = None.
Proof.
  intros Hj Hx. unfold expect. rewrite skip_ws_print by done.
  destruct (print_start j rest Hj) as (c & s & -> & Hc). apply value_start_facts in Hc as (_ & H1 & H2 & _).
  rewrite !elem_of_cons in Hx. destruct Hx as [-> | [-> |Hx]]; [by rewrite H1|by rewrite H2|by apply not_elem_of_nil in Hx].
Qed.

Lemma stops_items l rest : stops (print_items l rest).
Proof. by destruct l. Qed.
Lemma stops_members l rest : stops (print_members l rest).
Proof. by destruct l. Qed.

Lemma print_digits_length ds rest : (String.length rest <= String.length (print_digits ds rest))%nat.
Proof. induction ds as [|d ds IH]; [done|]. cbn. fold (print_digits ds rest). lia. Qed.

Lemma print_number_length n rest : (String.length rest <= String.length (print_number n rest))%nat.
Proof.
  assert (H1 : (String.length rest <= String.length (print_exp (nm_exp n) rest))%nat).
  { destruct (nm_exp n) as [[sg ds]|]; [|done]. cbn [print_exp]. pose proof (print_digits_length ds rest).
    destruct sg; cbn; lia. }
  assert (H2 : (String.length rest <= String.length (print_frac (nm_frac n) (print_exp (nm_exp n) rest)))%nat).
  { destruct (nm_frac n) as [|d ds]; [done|]. cbn [print_frac String.length].
    pose proof (print_digits_length (d :: ds) (print_exp (nm_exp n) rest)). lia. }
  pose proof (print_digits_length (nm_int n) (print_frac (nm_frac n) (print_exp (nm_exp n) rest))) as H3.
  rewrite print_number_eq. destruct (nm_neg n); cbn match; unfold id; cbn [String.length]; lia.
Qed.

Lemma print_length j rest : (String.length rest <= String.length (print j rest))%nat.
Proof.
  revert rest. induction j as [|b|n|s|l IH|l IH] using json_ind_nested; intros rest.
  - cbn [print]. rewrite append_length. lia.
  - cbn [print]. rewrite append_length. lia.
  - apply print_number_length.
  - cbn [print]. rewrite append_length. lia.
  - destruct IH as [|j l Hj Hl]; [cbn [print]; rewrite append_length; lia|]. rewrite print_arr. cbn [String.length].
    assert (H : (String.length rest <= String.length (print_items l rest))%nat).
    { induction Hl as [|j' l Hj' _ IHl]; cbn; [lia|]. specialize (Hj' (print_items l rest)). lia. }
    specialize (Hj (print_items l rest)). lia.
  - destruct IH as [|m l Hj Hl]; [cbn [print]; rewrite append_length; lia|]. rewrite print_obj. unfold print_member. cbn [String.length].
    assert (H : (String.length rest <= String.length (print_members l rest))%nat).
    { induction Hl as [|m' l Hj' _ IHl]; cbn; [lia|]. unfold print_member. rewrite append_length. cbn.
      specialize (Hj' (print_members l rest)). lia. }
    rewrite append_length. cbn. specialize (Hj (print_members l rest)). lia.
Qed.

Lemma expect_here x s : is_ws x = false -> expect x (String x s) = Some s.
Proof. intros H. unfold expect. cbn [skip_ws]. rewrite H. unfold is_char. by rewrite Z.eqb_refl. Qed.

Lemma next_items l rest :
  next "]" (print_items l rest) =
  match l with [] => Some (false, rest) | j :: l => Some (true, print j (print_items l rest)) end.
Proof. by destruct l. Qed.
Lemma next_members l rest :
  next "}" (print_members l rest) =
  match l with [] => Some (false, rest) | m :: l => Some (true, print_member m (print_members l rest)) end.
Proof. by destruct l. Qed.

(** Only a number needs to see where it ends. *)
Definition ends (j : json) (rest : string) : Prop := match j with JNum _ => stops rest | _ => True end.
Lemma stops_ends j rest : stops rest -> ends j rest.
Proof. by destruct j. Qed.

(** What the induction hypothesis says of one document. *)
Definition reads (j : json) : Prop :=
  forall fuel depth rest, json_ok j -> ends j rest -> nesting j <= depth ->
    (2 * String.length (print j rest) + 1 <= fuel)%nat -> parse fuel depth (print j rest) = Some (j, rest).

Lemma parse_items_print l j fuel depth rest :
  Forall reads (j :: l) -> json_ok (JArr (j :: l)) -> nesting (JArr (j :: l)) <= depth + 1 ->
  (2 * String.length (print j (print_items l rest)) + 2 <= fuel)%nat ->
  parse_items fuel depth (print j (print_items l rest)) = Some (j :: l, rest).
Proof.
  revert j fuel. induction l as [|j' l IH]; intros j fuel Hr [Hj Hl] Hn Hf;
    apply Forall_cons in Hr as [Hr1 Hr]; (destruct fuel as [|fuel]; [lia|]); cbn [parse_items];
    cbn [nesting foldr] in Hn; rewrite Hr1 by (try apply stops_ends, stops_items; try done; lia); cbn [mbind option_bind];
    rewrite next_items; [done|].
  rewrite (IH j'); [done|done|done|cbn [nesting foldr]; lia|].
  pose proof (print_length j (print_items (j' :: l) rest)). cbn [print_items String.length] in *. lia.
Qed.

Lemma parse_member_print (m : string * json) fuel depth rest :
  reads m.2 -> utf8_valid m.1 = true -> json_ok m.2 -> nesting m.2 <= depth -> stops rest ->
  (2 * String.length (print_member m rest) <= fuel)%nat ->
  exists s1 s2 s3, expect dquote (print_member m rest) = Some s1 /\ unquote 0 s1 = Some (m.1, s2) /\
    expect ":" s2 = Some s3 /\ parse fuel depth s3 = Some (m.2, rest).
Proof.
  intros Hr Hk Hj Hn Hs Hf. unfold print_member, quote in *. rewrite append_cons in *.
  eexists _, _, _. split; [by apply expect_here|]. rewrite append_assoc, append_cons in *.
  split; [by apply unquote_quote|]. split; [by apply expect_here|]. apply Hr; try done; [by apply stops_ends|].
  cbn [String.length] in Hf. rewrite append_length in Hf. cbn [String.length] in Hf.
  change (EmptyString +:+ ?x) with x in Hf. cbn [String.length] in Hf. lia.
Qed.

Lemma parse_members_print l (m : string * json) fuel depth rest :
  Forall (fun m => reads m.2) (m :: l) -> json_ok (JObj (m :: l)) -> nesting (JObj (m :: l)) <= depth + 1 ->
  (2 * String.length (print_member m (print_members l rest)) + 2 <= fuel)%nat ->
  parse_members fuel depth (print_member m (print_members l rest)) = Some (m :: l, rest).
Proof.
  revert m fuel. induction l as [|m' l IH]; intros m fuel Hr [[Hk Hj] Hl] Hn Hf;
    apply Forall_cons in Hr as [Hr1 Hr]; (destruct fuel as [|fuel]; [lia|]); cbn [parse_members];
    cbn [nesting foldr] in Hn.
  - destruct (parse_member_print m fuel depth (print_members [] rest)) as (s1 & s2 & s3 & -> & H2 & H3 & H4);
      [done..|lia|done|lia|]. cbn [mbind option_bind]. rewrite H2. cbn [mbind option_bind]. rewrite H3. cbn [mbind option_bind].
    rewrite H4. cbn [mbind option_bind]. rewrite next_members. by destruct m.
  - destruct (parse_member_print m fuel depth (print_members (m' :: l) rest)) as (s1 & s2 & s3 & -> & H2 & H3 & H4);
      [done..|lia|done|lia|]. cbn [mbind option_bind]. rewrite H2. cbn [mbind option_bind]. rewrite H3. cbn [mbind option_bind].
    rewrite H4. cbn [mbind option_bind]. rewrite next_members, (IH m'); [by destruct m|done|done|cbn [nesting foldr]; lia|].
    unfold print_member in Hf at 1. rewrite append_length in Hf. cbn [String.length] in Hf.
    pose proof (print_length m.2 (print_members (m' :: l) rest)) as Hlen.
    cbn [print_members String.length] in Hlen, Hf. lia.
Qed.

Lemma reads_scalar j rest fuel depth :
  match j with JArr _ | JObj _ => False | _ => True end ->
  json_ok j -> ends j rest -> parse (S fuel) depth (print j rest) = Some (j, rest).
Proof.
  intros Hj Hok Hs. cbn [parse]. rewrite skip_ws_print by done.
  destruct j as [|[]|n|s|l|l]; try done.
  - destruct (number_start n rest Hok) as (c & s & Hc & Hst). cbn [print] in *. rewrite Hc.
    assert (H : is_char c "{" = false /\ is_char c "[" = false /\ is_char c dquote = false).
    { revert Hst. clear. destruct c as [[] [] [] [] [] [] [] []]; vm_compute; intros H; try discriminate H; by repeat split. }
    destruct H as (-> & -> & ->). rewrite Hst, <-Hc, parse_number_print by done. done.
  - cbn [print]. unfold quote. rewrite append_cons. change (is_char dquote "{") with false. change (is_char dquote "[") with false.
    change (is_char dquote dquote) with true. cbn match. rewrite append_assoc, append_cons.
    change (EmptyString +:+ rest) with rest. by rewrite unquote_quote.
Qed.

Lemma parse_print j : reads j.
Proof.
  induction j as [|b|n|s|l IH|l IH] using json_ind_nested; intros fuel depth rest Hok Hs Hn Hf;
    (destruct fuel as [|fuel]; [lia|]); try (by apply reads_scalar); cbn [parse]; rewrite skip_ws_print by done.
  - assert (Hd : (depth <=? 0) = false).
    { cbn [nesting] in Hn. assert (0 <= foldr (fun j d => Z.max (nesting j) d) 0 l) by (clear; induction l; cbn; lia). lia. }
    destruct l as [|j l].
    + cbn [print]. rewrite append_cons. change (is_char "[" "{") with false. change (is_char "[" "[") with true. by rewrite Hd.
    + rewrite print_arr in *. change (is_char "[" "{") with false. change (is_char "[" "[") with true. cbn match. rewrite Hd.
      rewrite expect_print; [|by destruct Hok|repeat constructor].
      cbn [String.length] in Hf. rewrite parse_items_print; [done|done|done|lia|lia].
  - assert (Hd : (depth <=? 0) = false).
    { cbn [nesting] in Hn. assert (0 <= foldr (fun (m : string * json) d => Z.max (nesting m.2) d) 0 l) by (clear; induction l; cbn; lia). lia. }
    destruct l as [|m l].
    + cbn [print]. rewrite append_cons. change (is_char "{" "{") with true. by rewrite Hd.
    + rewrite print_obj in *. change (is_char "{" "{") with true. cbn match. rewrite Hd.
      assert (expect "}" (print_member m (print_members l rest)) = None) as ->
        by (unfold print_member, quote; by rewrite append_cons).
      cbn [String.length] in Hf. rewrite parse_members_print; [done|done|done|lia|lia].
Qed.

Theorem read_json_print j rest :
  json_ok j -> ends j rest -> nesting j <= maxNestingDepth -> read_json (print j rest) = Some (j, rest).
Proof. intros Hok Hs Hn. apply parse_print; [done..|lia]. Qed.

(** The text after a document is only appended. *)
Lemma print_digits_app ds s rest : print_digits ds (s +:+ rest) = (print_digits ds s +:+ rest).
Proof. induction ds as [|d ds IH]; [done|]. cbn [print_digits foldr]. fold (print_digits ds (s +:+ rest)). by rewrite IH. Qed.

Lemma print_number_app n s rest : print_number n (s +:+ rest) = (print_number n s +:+ rest).
Proof.
  rewrite !print_number_eq.
  assert (E : print_exp (nm_exp n) (s +:+ rest) = (print_exp (nm_exp n) s +:+ rest)).
  { destruct (nm_exp n) as [[[neg|] xs]|]; [| |done]; cbn [print_exp]; rewrite print_digits_app; by rewrite !append_cons. }
  assert (F : forall t, print_frac (nm_frac n) (t +:+ rest) = (print_frac (nm_frac n) t +:+ rest)).
  { intros t. destruct (nm_frac n) as [|d ds]; [done|]. cbn [print_frac]. by rewrite print_digits_app, append_cons. }
  rewrite E, F, print_digits_app. by destruct (nm_neg n).
Qed.

Lemma print_app j s rest : print j (s +:+ rest) = (print j s +:+ rest).
Proof.
  revert s. induction j as [|b|n|w|l IH|l IH] using json_ind_nested; intros s; cbn [print]; rewrite ?append_assoc; try done.
  - apply print_number_app.
  - destruct IH as [|j l Hj Hl]; [by rewrite append_assoc|]. change (print (JArr (j :: l)) (s +:+ rest) = (print (JArr (j :: l)) s +:+ rest)).
    rewrite !print_arr, append_cons. f_equal. rewrite <-Hj. f_equal.
    induction Hl as [|j' l Hj' _ IHl]; [done|]. cbn [print_items]. by rewrite IHl, Hj', append_cons.
  - destruct IH as [|m l Hj Hl]; [by rewrite append_assoc|]. change (print (JObj (m :: l)) (s +:+ rest) = (print (JObj (m :: l)) s +:+ rest)).
    rewrite !print_obj, append_cons. f_equal. unfold print_member. rewrite append_assoc, append_cons, <-Hj. do 3 f_equal.
    induction Hl as [|m' l Hj' _ IHl]; [done|]. cbn [print_members]. unfold print_member.
    by rewrite IHl, Hj', append_cons, append_assoc, append_cons.
Qed.

(** ** The fuel is enough *)
Lemma skip_ws_length s : (String.length (skip_ws s) <= String.length s)%nat.
Proof. induction s as [|c s IH]; cbn; [done|]. destruct (is_ws c); cbn; lia. Qed.

Lemma expect_length c s s' : expect c s = Some s' -> (String.length s' < String.length s)%nat.
Proof.
  unfold expect. pose proof (skip_ws_length s). destruct (skip_ws s) as [|x t]; [done|].
  destruct (is_char x c); [|done]. intros [= ->]. cbn in *. lia.
Qed.

Lemma next_length c s b s' : next c s = Some (b, s') -> (String.length s' < String.length s)%nat.
Proof.
  unfold next. destruct (expect "," s) as [t|] eqn:E; [intros [= <- <-]; by eapply expect_length|].
  destruct (expect c s) as [t|] eqn:E'; [|done]. intros [= <- <-]. by eapply expect_length.
Qed.

Lemma prefixed_inv w p s rest : prefixed w p = Some (s, rest) -> exists s', p = Some (s', rest) /\ s = (w +:+ s').
Proof. destruct p as [[s' r]|]; [|done]. intros [= <- <-]. by exists s'. Qed.

Lemma unquote_length_le n s : (String.length s <= n)%nat -> forall k w rest, unquote k s = Some (w, rest) -> (String.length rest < String.length s)%nat.
Proof.
  revert s. induction n as [|n IH]; intros s Hn k w rest H; [destruct s; [done|cbn in Hn; lia]|].
  destruct s as [|c s]; [done|]. cbn [String.length] in Hn |- *.
  assert (G : forall v k t, (String.length t <= String.length s)%nat -> prefixed v (unquote k t) = Some (w, rest) ->
              (String.length rest < S (String.length s))%nat).
  { intros v k' t Ht Hp. apply prefixed_inv in Hp as (s' & Hu & _). apply IH in Hu; lia. }
  destruct k as [|k]; cbn [unquote] in H; [|by eapply G in H].
  destruct (is_char c dquote); [injection H as <- <-; lia|].
  destruct (is_char c bslash).
  - destruct s as [|e s1]; [done|]. cbn [String.length] in *.
    destruct (is_char e "u"); [|apply bind_Some in H as (c' & _ & H); eapply G in H; [exact H|lia]].
    destruct s1 as [|a [|b [|x [|y s2]]]]; try done. cbn [String.length] in *.
    apply bind_Some in H as (r & _ & H).
    destruct (is_high r || is_low r); [|eapply G in H; [exact H|lia]].
    destruct s2 as [|c2 [|e2 [|a' [|b' [|x' [|y' s3]]]]]];
      try (eapply G in H; [exact H|cbn [String.length]; lia]).
    destruct (if is_char c2 bslash && is_char e2 "u" then hex4 a' b' x' y' else None) as [r2|];
      [destruct (is_high r && is_low r2)|]; (eapply G in H; [exact H|cbn [String.length]; lia]).
  - destruct (byte_val c <? 32); [done|]. destruct (byte_val c <? 128); [by eapply G in H|].
    destruct (bad_rune (decode_rune c s)); by eapply G in H.
Qed.
Lemma unquote_length k s w rest : unquote k s = Some (w, rest) -> (String.length rest < String.length s)%nat.
Proof. by apply (unquote_length_le (String.length s)). Qed.

Lemma take_digits_spec s :
  (String.length (take_digits s).2 <= String.length s)%nat /\ Forall is_digit (take_digits s).1.
Proof.
  induction s as [|c s [IH1 IH2]]; [split; [done|constructor]|]. cbn [take_digits].
  destruct (digit_of c) as [d|] eqn:Ed; [|split; [done|constructor]].
  destruct (take_digits s) as [ds rest]. cbn [fst snd String.length] in *. split; [lia|].
  apply Forall_cons. split; [by eapply digit_of_range|done].
Qed.

Lemma some_digits_spec s ds rest :
  some_digits s = Some (ds, rest) -> (String.length rest <= String.length s)%nat /\ Forall is_digit ds /\ ds <> [].
Proof.
  unfold some_digits. pose proof (take_digits_spec s) as [H1 H2]. destruct (take_digits s) as [[|d l] r]; [done|].
  intros [= <- <-]. by split_and!.
Qed.

Lemma parse_number_spec s n rest :
  parse_number s = Some (n, rest) -> (String.length rest < String.length s)%nat /\ number_ok n.
Proof.
  unfold parse_number. destruct s as [|c s]; [done|].
  destruct (if is_char c "-" then (true, s) else (false, String c s)) as [neg t] eqn:Et.
  assert (Hlen : (String.length t <= String.length (String c s))%nat).
  { destruct (is_char c "-"); injection Et as <- <-; cbn [String.length]; lia. }
  intros H. apply bind_Some in H as ([int s1] & Hi & H). apply bind_Some in H as ([frac s2] & Hf & H).
  apply bind_Some in H as ([exp s3] & He & H). injection H as <- <-.
  assert (Hi' : (String.length s1 < String.length t)%nat /\ int_ok int).
  { unfold parse_int in Hi. destruct t as [|x t]; [done|]. apply bind_Some in Hi as (d & Hd & Hi).
    apply digit_of_range in Hd. destruct (Z.eqb_spec d 0) as [->|Hd0].
    - injection Hi as <- <-. split; [cbn; lia|]. split_and!; [by apply Forall_singleton|done|by right].
    - pose proof (take_digits_spec t) as [H1 H2]. destruct (take_digits t) as [ds r]. injection Hi as <- <-.
      cbn [fst snd String.length] in *. split; [lia|]. split_and!; [by apply Forall_cons|done|left; by intros [= ?]]. }
  assert (Hf' : (String.length s2 <= String.length s1)%nat /\ Forall is_digit frac).
  { unfold parse_frac in Hf. destruct s1 as [|x s1]; [injection Hf as <- <-; by split; [|constructor]|].
    destruct (is_char x "."); [|injection Hf as <- <-; by split; [|constructor]].
    apply some_digits_spec in Hf as (H1 & H2 & _). cbn [String.length]. split; [lia|done]. }
  assert (He' : (String.length s3 <= String.length s2)%nat /\ exp_ok exp).
  { unfold parse_exp in He. destruct s2 as [|x s2]; [by injection He as <- <-|].
    destruct (is_char x "e" || is_char x "E"); [|by injection He as <- <-].
    destruct (match s2 with String y u => _ | EmptyString => _ end) as [sg u] eqn:Eu.
    assert (Hu : (String.length u <= String.length s2)%nat).
    { destruct s2 as [|y s2]; [by injection Eu as <- <-|].
      destruct (is_char y "-"); [injection Eu as <- <-; cbn; lia|].
      destruct (is_char y "+"); injection Eu as <- <-; cbn; lia. }
    apply bind_Some in He as ([ds r] & Hd & He). injection He as <- <-.
    apply some_digits_spec in Hd as (H1 & H2 & H3). cbn [String.length]. split; [lia|done]. }
  destruct Hi' as [? ?], Hf' as [? ?], He' as [? ?]. split; [cbn [String.length] in *; lia|]. by split.
Qed.

Lemma parse_literal_spec p j s k rest :
  p <> EmptyString -> parse_literal p j s = Some (k, rest) -> (String.length rest < String.length s)%nat /\ k = j.
Proof.
  intros Hp H. unfold parse_literal in H. apply bind_Some in H as (r & Hr & H). injection H as <- <-. split; [|done].
  destruct p as [|c p]; [done|]. destruct s as [|x s]; [done|]. cbn [strip_prefix] in Hr.
  destruct (is_char c x); [|done]. cbn [String.length].
  enough (String.length r <= String.length s)%nat by lia. revert s Hr. clear. induction p as [|c p IH]; intros s Hr.
  - by injection Hr as <-.
  - destruct s as [|x s]; [done|]. cbn in Hr. destruct (is_char c x); [|done]. apply IH in Hr. cbn. lia.
Qed.

Lemma parse_shrinks fuel :
  (forall depth s j rest, parse fuel depth s = Some (j, rest) -> (String.length rest < String.length s)%nat) /\
  (forall depth s l rest, parse_items fuel depth s = Some (l, rest) -> (String.length rest < String.length s)%nat) /\
  (forall depth s l rest, parse_members fuel depth s = Some (l, rest) -> (String.length rest < String.length s)%nat).
Proof.
  induction fuel as [|fuel (IH1 & IH2 & IH3)]; [done|]. split_and!; intros depth s l rest H.
  - cbn [parse] in H. pose proof (skip_ws_length s) as Hws. destruct (skip_ws s) as [|c t]; [done|]. cbn [String.length] in Hws.
    destruct (is_char c "{"); [|destruct (is_char c "[")].
    + destruct (depth <=? 0); [done|]. destruct (expect "}" t) as [r|] eqn:E.
      * injection H as _ <-. apply expect_length in E. lia.
      * apply bind_Some in H as ([ms r] & Hm & H). injection H as _ <-. apply IH3 in Hm. lia.
    + destruct (depth <=? 0); [done|]. destruct (expect "]" t) as [r|] eqn:E.
      * injection H as _ <-. apply expect_length in E. lia.
      * apply bind_Some in H as ([ms r] & Hm & H). injection H as _ <-. apply IH2 in Hm. lia.
    + destruct (is_char c dquote).
      { apply bind_Some in H as ([w r] & Hu & H). injection H as _ <-. apply unquote_length in Hu. lia. }
      destruct (starts_number c).
      { apply bind_Some in H as ([n r] & Hu & H). injection H as _ <-. apply parse_number_spec in Hu as [Hu _]. cbn in Hu. lia. }
      destruct (is_char c "t"); [|destruct (is_char c "f")];
        apply parse_literal_spec in H as [H _]; try done; cbn [String.length] in H; lia.
  - cbn [parse_items] in H. apply bind_Some in H as ([j t] & Hj & H). apply IH1 in Hj.
    destruct (next "]" t) as [[[] u]|] eqn:En; [..|done]; apply next_length in En.
    + apply bind_Some in H as ([js r] & Hi & H). injection H as _ <-. apply IH2 in Hi. lia.
    + injection H as _ <-. lia.
  - cbn [parse_members] in H. apply bind_Some in H as (t & Ht & H). apply expect_length in Ht.
    apply bind_Some in H as ([key u] & Hu & H). apply unquote_length in Hu.
    apply bind_Some in H as (v & Hv & H). apply expect_length in Hv.
    apply bind_Some in H as ([j w] & Hj & H). apply IH1 in Hj.
    destruct (next "}" w) as [[[] x]|] eqn:En; [..|done]; apply next_length in En.
    + apply bind_Some in H as ([js r] & Hi & H). injection H as _ <-. apply IH3 in Hi. lia.
    + injection H as _ <-. lia.
Qed.

(** More fuel changes nothing. *)
Lemma parse_fuel n :
  (forall depth s f, (String.length s <= n)%nat -> (2 * String.length s + 1 <= f)%nat ->
     parse f depth s = parse (2 * String.length s + 1) depth s) /\
  (forall depth s f g, (String.length s <= n)%nat -> (2 * String.length s + 2 <= f)%nat -> (2 * String.length s + 2 <= g)%nat ->
     parse_items f depth s = parse_items g depth s /\ parse_members f depth s = parse_members g depth s).
Proof.
  induction n as [n IH] using lt_wf_ind.
  assert (HP : forall depth s f, (String.length s <= n)%nat -> (2 * String.length s + 1 <= f)%nat ->
     parse f depth s = parse (2 * String.length s + 1) depth s).
  { intros depth s f Hs Hf. destruct f as [|f]; [lia|]. rewrite Nat.add_1_r. cbn [parse].
    pose proof (skip_ws_length s) as Hws. destruct (skip_ws s) as [|c t]; [done|]. cbn [String.length] in Hws.
    destruct (IH (String.length t) ltac:(lia)) as [_ IH2].
    destruct (IH2 (depth - 1) t f (2 * String.length s)%nat) as [-> ->]; [lia..|]. done. }
  split; [done|]. intros depth s f g Hs Hf Hg. destruct f as [|f], g as [|g]; try lia. split.
  - cbn [parse_items]. rewrite (HP depth s f), (HP depth s g) by lia.
    destruct (parse _ depth s) as [[j t]|] eqn:Ej; [|done]. cbn [mbind option_bind].
    apply parse_shrinks in Ej. destruct (next "]" t) as [[[] u]|] eqn:En; try done. apply next_length in En.
    destruct (IH (String.length u) ltac:(lia)) as [_ IH2]. by destruct (IH2 depth u f g) as [-> _]; [lia..|].
  - cbn [parse_members]. destruct (expect dquote s) as [t|] eqn:Et; [|done]. apply expect_length in Et. cbn [mbind option_bind].
    destruct (unquote 0 t) as [[key u]|] eqn:Eu; [|done]. apply unquote_length in Eu. cbn [mbind option_bind].
    destruct (expect ":" u) as [v|] eqn:Ev; [|done]. apply expect_length in Ev. cbn [mbind option_bind].
    rewrite (HP depth v f), (HP depth v g) by lia.
    destruct (parse _ depth v) as [[j w]|] eqn:Ej; [|done]. cbn [mbind option_bind].
    apply parse_shrinks in Ej. destruct (next "}" w) as [[[] x]|] eqn:En; try done. apply next_length in En.
    destruct (IH (String.length x) ltac:(lia)) as [_ IH2]. by destruct (IH2 depth x f g) as [_ ->]; [lia..|].
Qed.

Lemma read_json_fuel s fuel : (2 * String.length s + 1 <= fuel)%nat -> parse fuel maxNestingDepth s = read_json s.
Proof.
  intros Hf. destruct (parse_fuel (String.length s)) as [H _]. unfold read_json.
  rewrite (H maxNestingDepth s fuel), (H maxNestingDepth s (2 * String.length s + 2)%nat) by lia. done.
Qed.

(** ** What is read is well formed *)
Lemma in_range_spec lo hi c : in_range lo hi c = true <-> lo <= byte_val c <= hi.
Proof. unfold in_range. rewrite andb_true_iff, !Z.leb_le. done. Qed.
Lemma in_range_out lo hi c : byte_val c < lo \/ hi < byte_val c -> in_range lo hi c = false.
Proof. unfold in_range. intros H. apply andb_false_iff. rewrite !Z.leb_gt. lia. Qed.
Lemma cont_byte z : 0 <= z < 64 -> cont (byte (128 + z)) = true.
Proof. intros H. apply in_range_spec. rewrite byte_val_byte; lia. Qed.

(** A single rune of [n] bytes. *)
Lemma one_rune_valid c p :
  bad_rune (decode_rune c p) = false -> ((decode_rune c p).2 - 1)%nat = String.length p -> utf8_valid (String c p) = true.
Proof.
  intros Hb Hn. unfold utf8_valid. rewrite utf8_valid_cons, Hb, Hn. cbn [negb andb].
  rewrite <-(append_nil p) at 2. by rewrite utf8_valid_copy.
Qed.

Lemma encode_rune_valid r :
  0 <= r < 1114112 -> is_high r || is_low r = false -> utf8_valid (encode_rune r) = true.
Proof.
  intros Hr Hs. assert (Hsur : r < 55296 \/ 57344 <= r) by (unfold is_high, is_low in Hs; lia). clear Hs.
  unfold encode_rune. pose proof (Z.mod_pos_bound r 64 ltac:(lia)) as H1.
  pose proof (Z.mod_pos_bound (r / 64) 64 ltac:(lia)) as H2. pose proof (Z.mod_pos_bound (r / 4096) 64 ltac:(lia)) as H3.
  pose proof (Z.div_mod r 64 ltac:(lia)) as D1. pose proof (Z.div_mod (r / 64) 64 ltac:(lia)) as D2.
  pose proof (Z.div_mod (r / 4096) 64 ltac:(lia)) as D3.
  rewrite (Z.div_div r 64 64), (Z.div_div r 4096 64) in * by lia. change (64 * 64) with 4096 in D2. change (4096 * 64) with 262144 in D3.
  destruct (Z.ltb_spec r 128); [|destruct (Z.ltb_spec r 2048); [|destruct (Z.ltb_spec r 65536)]].
  - assert (Hd : decode_rune (byte r) EmptyString = (r, 1%nat)).
    { unfold decode_rune. rewrite byte_val_byte by lia. by destruct (Z.ltb_spec r 128); [|lia]. }
    apply one_rune_valid; rewrite Hd; [|done]. unfold bad_rune, RuneError. cbn. lia.
  - assert (Hb : byte_val (byte (192 + r / 64)) = 192 + r / 64) by (apply byte_val_byte; lia).
    assert (Hd : exists x, decode_rune (byte (192 + r / 64)) (String (byte (128 + r mod 64)) EmptyString) = (x, 2%nat)).
    { unfold decode_rune. rewrite Hb, cont_byte by lia. destruct (Z.ltb_spec (192 + r / 64) 128); [lia|].
      rewrite (proj2 (in_range_spec 194 223 _)) by lia. by eexists. }
    destruct Hd as [x Hd]. apply one_rune_valid; rewrite Hd; [|done]. unfold bad_rune. cbn. apply andb_false_r.
  - assert (Hb : byte_val (byte (224 + r / 4096)) = 224 + r / 4096) by (apply byte_val_byte; lia).
    assert (Hb1 : byte_val (byte (128 + r / 64 mod 64)) = 128 + r / 64 mod 64) by (apply byte_val_byte; lia).
    assert (Hd : exists x, decode_rune (byte (224 + r / 4096)) (String (byte (128 + r / 64 mod 64)) (String (byte (128 + r mod 64)) EmptyString)) = (x, 3%nat)).
    { unfold decode_rune. rewrite Hb, !cont_byte by lia. destruct (Z.ltb_spec (224 + r / 4096) 128); [lia|].
      rewrite (in_range_out 194 223) by lia. rewrite (proj2 (in_range_spec 224 239 _)) by lia. cbn match.
      rewrite (proj2 (in_range_spec _ _ _)); [by eexists|]. rewrite Hb1.
      destruct (Z.eqb_spec (224 + r / 4096) 224), (Z.eqb_spec (224 + r / 4096) 237); lia. }
    destruct Hd as [x Hd]. apply one_rune_valid; rewrite Hd; [|done]. unfold bad_rune. cbn. apply andb_false_r.
  - assert (Hb : byte_val (byte (240 + r / 262144)) = 240 + r / 262144) by (apply byte_val_byte; lia).
    assert (Hb1 : byte_val (byte (128 + r / 4096 mod 64)) = 128 + r / 4096 mod 64) by (apply byte_val_byte; lia).
    assert (Hd : exists x, decode_rune (byte (240 + r / 262144)) (String (byte (128 + r / 4096 mod 64)) (String (byte (128 + r / 64 mod 64)) (String (byte (128 + r mod 64)) EmptyString))) = (x, 4%nat)).
    { unfold decode_rune. rewrite Hb, !cont_byte by lia. destruct (Z.ltb_spec (240 + r / 262144) 128); [lia|].
      rewrite (in_range_out 194 223), (in_range_out 224 239) by lia. rewrite (proj2 (in_range_spec 240 244 _)) by lia. cbn match.
      rewrite (proj2 (in_range_spec _ _ _)); [by eexists|]. rewrite Hb1.
      destruct (Z.eqb_spec (240 + r / 262144) 240), (Z.eqb_spec (240 + r / 262144) 244); lia. }
    destruct Hd as [x Hd]. apply one_rune_valid; rewrite Hd; [|done]. unfold bad_rune. cbn. apply andb_false_r.
Qed.

Lemma hex_val_range c n : hex_val c = Some n -> 0 <= n < 16.
Proof.
  unfold hex_val. destruct (in_range 48 57 c) eqn:E1; [|destruct (in_range 97 102 c) eqn:E2; [|destruct (in_range 65 70 c) eqn:E3; [|done]]];
    intros [= <-]; [apply in_range_spec in E1|apply in_range_spec in E2|apply in_range_spec in E3]; lia.
Qed.
Lemma hex4_range a b c d r : hex4 a b c d = Some r -> 0 <= r < 65536.
Proof.
  unfold hex4. intros H. apply bind_Some in H as (x1 & H1 & H). apply bind_Some in H as (x2 & H2 & H).
  apply bind_Some in H as (x3 & H3 & H). apply bind_Some in H as (x4 & H4 & H). injection H as <-.
  apply hex_val_range in H1, H2, H3, H4. lia.
Qed.

Lemma simple_escape_ascii e c : simple_escape e = Some c -> (byte_val c <? 128) = true.
Proof. destruct e as [[] [] [] [] [] [] [] []]; intros H; try discriminate H; by injection H as <-. Qed.

Lemma ascii_valid c : (byte_val c <? 128) = true -> utf8_valid (String c EmptyString) = true.
Proof.
  intros H. apply one_rune_valid; rewrite decode_rune_ascii by done; [|done].
  unfold bad_rune, RuneError. cbn. lia.
Qed.

Lemma unquote_valid s w rest : unquote 0 s = Some (w, rest) -> utf8_valid w = true.
Proof.
  remember (String.length s) as n eqn:Hn. revert s w Hn. induction n as [n IH] using lt_wf_ind. intros s w -> H.
  destruct s as [|c s]; [done|]. cbn [unquote String.length] in *.
  assert (G : forall v t, (String.length t <= String.length s)%nat -> utf8_valid v = true ->
            prefixed v (unquote 0 t) = Some (w, rest) -> utf8_valid w = true).
  { intros v t Ht Hv Hp. apply prefixed_inv in Hp as (s' & Hu & ->). rewrite utf8_valid_app by done.
    eapply IH; [|reflexivity|exact Hu]. lia. }
  destruct (is_char c dquote); [by injection H as <- <-|].
  destruct (is_char c bslash).
  - destruct s as [|e s1]; [done|]. cbn [String.length] in *. destruct (is_char e "u").
    2: { apply bind_Some in H as (c' & He & H). apply simple_escape_ascii, ascii_valid in He. eapply G in H; [done|lia|done]. }
    destruct s1 as [|a [|b [|x [|y s2]]]]; try done. cbn [String.length] in *.
    apply bind_Some in H as (r & Hr & H). apply hex4_range in Hr.
    destruct (is_high r || is_low r) eqn:Esur.
    2: { eapply G in H; [done|lia|by apply encode_rune_valid; [lia|]]. }
    destruct s2 as [|c2 [|e2 [|a' [|b' [|x' [|y' s3]]]]]];
      try (eapply G in H; [done|cbn [String.length]; lia|done]).
    destruct (if is_char c2 bslash && is_char e2 "u" then hex4 a' b' x' y' else None) as [r2|];
      [destruct (is_high r && is_low r2) eqn:Ep|]; (eapply G in H; [exact H|cbn [String.length]; lia|]); try done.
    apply encode_rune_valid; unfold is_high, is_low in *; lia.
  - destruct (byte_val c <? 32); [done|]. destruct (byte_val c <? 128) eqn:Ec.
    { eapply G in H; [done|lia|by apply ascii_valid]. }
    destruct (bad_rune (decode_rune c s)) eqn:Eb; [eapply G in H; [done|lia|done]|].
    destruct (decode_rune_split c s Eb) as (p & s' & -> & Hp & Hd). rewrite <-Hp, unquote_copy, prefixed_app in H.
    rewrite append_length in G. eapply G in H; [done|lia|]. rewrite append_cons.
    change (EmptyString +:+ p) with p. apply one_rune_valid; rewrite <-(append_nil p), Hd; [done|].
    by rewrite append_nil.
Qed.

Lemma parse_ok fuel :
  (forall depth s j rest, parse fuel depth s = Some (j, rest) -> json_ok j) /\
  (forall depth s l rest, parse_items fuel depth s = Some (l, rest) -> json_ok (JArr l)) /\
  (forall depth s l rest, parse_members fuel depth s = Some (l, rest) -> json_ok (JObj l)).
Proof.
  induction fuel as [|fuel (IH1 & IH2 & IH3)]; [done|]. split_and!; intros depth s l rest H.
  - cbn [parse] in H. destruct (skip_ws s) as [|c t]; [done|].
    destruct (is_char c "{"); [|destruct (is_char c "[")].
    + destruct (depth <=? 0); [done|]. destruct (expect "}" t) as [r|]; [by injection H as <- _|].
      apply bind_Some in H as ([ms r] & Hm & H). injection H as <- _. by apply IH3 in Hm.
    + destruct (depth <=? 0); [done|]. destruct (expect "]" t) as [r|]; [by injection H as <- _|].
      apply bind_Some in H as ([ms r] & Hm & H). injection H as <- _. by apply IH2 in Hm.
    + destruct (is_char c dquote).
      { apply bind_Some in H as ([w r] & Hu & H). injection H as <- _. by apply unquote_valid in Hu. }
      destruct (starts_number c).
      { apply bind_Some in H as ([n r] & Hu & H). injection H as <- _. by apply parse_number_spec in Hu as [_ Hu]. }
      destruct (is_char c "t"); [|destruct (is_char c "f")];
        apply parse_literal_spec in H as [_ ->]; done.
  - cbn [parse_items] in H. apply bind_Some in H as ([j t] & Hj & H). apply IH1 in Hj.
    destruct (next "]" t) as [[[] u]|]; [..|done].
    + apply bind_Some in H as ([js r] & Hi & H). injection H as <- _. apply IH2 in Hi. by split.
    + by injection H as <- _.
  - cbn [parse_members] in H. apply bind_Some in H as (t & Ht & H).
    apply bind_Some in H as ([key u] & Hu & H). apply unquote_valid in Hu.
    apply bind_Some in H as (v & Hv & H). apply bind_Some in H as ([j w] & Hj & H). apply IH1 in Hj.
    destruct (next "}" w) as [[[] x]|]; [..|done].
    + apply bind_Some in H as ([js r] & Hi & H). injection H as <- _. apply IH3 in Hi. by split.
    + by injection H as <- _.
Qed.
Lemma read_json_ok s j rest : read_json s = Some (j, rest) -> json_ok j.
Proof. apply parse_ok. Qed.
