(* ===== verification/Struct.v ===== *)
(** * Structs as JSON: the reflection of [encoding/json]

    A type of the wire is a value of [ty]; a struct lists its fields with
    their names and [omitempty].  [enc] is what [json.Marshal] writes and [dec]
    what a [json.Decoder] with [DisallowUnknownFields] does to a variable that
    already holds a value: null leaves scalars as they are, keys match exactly
    or up to case, a key that comes twice is stored twice, and a slice is
    filled in place over the elements its array still holds. *)
From Stdlib Require Import Ascii.
From S2P Require Import Prelude GoStrings GoFloat GoStrconv Json.
Open Scope Z_scope.

Inductive ty :=
| TStr | TInt | TBool | TFloat
| TSlice (t : ty)
| TPtr (t : ty)
| TStruct (fs : fields)
with fields :=
| FNil
| FCons (name : string) (omitempty : bool) (t : ty) (fs : fields).

Scheme ty_mut := Induction for ty Sort Prop with fields_mut := Induction for fields Sort Prop.
Combined Scheme ty_fields_ind from ty_mut, fields_mut.

(** The elements of a slice, and those behind its length that its array still
    holds. *)
Definition slice (A : Type) : Type := list A * list A.

Fixpoint denote (t : ty) : Type :=
  match t with
  | TStr => string
  | TInt => Z
  | TBool => bool
  | TFloat => float64
  | TSlice t => slice (denote t)
  | TPtr t => option (denote t)
  | TStruct fs => denotes fs
  end
with denotes (fs : fields) : Type :=
  match fs with
  | FNil => unit
  | FCons _ _ t fs => denote t * denotes fs
  end.

Fixpoint zero (t : ty) : denote t :=
  match t with
  | TStr => EmptyString
  | TInt => 0
  | TBool => false
  | TFloat => f_zero
  | TSlice _ => ([], [])
  | TPtr _ => None
  | TStruct fs => zeros fs
  end
with zeros (fs : fields) : denotes fs :=
  match fs with
  | FNil => tt
  | FCons _ _ t fs => (zero t, zeros fs)
  end.

(** What [omitempty] leaves out. *)
Definition is_empty (t : ty) : denote t -> bool :=
  match t with
  | TStr => fun s => bool_decide (s = EmptyString)
  | TInt => fun z => z =? 0
  | TBool => negb
  | TFloat => fun f => match f with S754_zero _ => true | _ => false end
  | TSlice _ => fun l => match l.1 with [] => true | _ => false end
  | TPtr _ => fun p => match p with None => true | Some _ => false end
  | TStruct _ => fun _ => false
  end.

(** ** [json.Marshal] *)
Definition all_some {A B} (f : A -> option B) : list A -> option (list B) :=
  fix go l := match l with [] => Some [] | x :: l => y ← f x; ys ← go l; Some (y :: ys) end.

Fixpoint enc (t : ty) : denote t -> option json :=
  match t with
  | TStr => fun s => Some (JStr s)
  | TInt => fun z => Some (JNum (int_number z))
  | TBool => fun b => Some (JBool b)
  | TFloat => fun f => JNum <$> float_number f
  | TSlice t => fun l => JArr <$> all_some (enc t) l.1
  | TPtr t => fun p => match p with None => Some JNull | Some v => enc t v end
  | TStruct fs => fun v => JObj <$> encs fs v
  end
with encs (fs : fields) : denotes fs -> option (list (string * json)) :=
  match fs with
  | FNil => fun _ => Some []
  | FCons name omitempty t fs => fun v =>
      ms ← encs fs v.2;
      if omitempty && is_empty t v.1 then Some ms else j ← enc t v.1; Some ((name, j) :: ms)
  end.

(** ** [Decoder.Decode] *)

(** [foldName], exact for the comparison with names in ASCII: besides the other
    case of a letter only U+212A and U+017F fold to one. *)
Definition fold_rune (r : Z) : Z :=
  if (97 <=? r) && (r <=? 122) then r - 32 else if r =? 8490 then 75 else if r =? 383 then 83 else r.
Definition fold_name (s : string) : list Z := map fold_rune (runes s).

Fixpoint has_field (fs : fields) (key : string) : bool :=
  match fs with FNil => false | FCons name _ _ fs => bool_decide (name = key) || has_field fs key end.
Fixpoint folded_field (fs : fields) (key : string) : option string :=
  match fs with
  | FNil => None
  | FCons name _ _ fs => if bool_decide (fold_name name = fold_name key) then Some name else folded_field fs key
  end.
Definition resolve (fs : fields) (key : string) : option string :=
  if has_field fs key then Some key else folded_field fs key.

(** The elements of an array go over the elements of the slice in turn. *)
Definition fill {A} (zero : A) (dec : json -> A -> option A) : list json -> list A -> option (slice A) :=
  fix go js old :=
    match js with
    | [] => Some ([], old)
    | j :: js =>
        v ← dec j (default zero (head old));
        l ← go js (tail old);
        Some (v :: l.1, l.2)
    end.
Definition members {A} (step : string -> json -> A -> option A) : list (string * json) -> A -> option A :=
  fix go ms v := match ms with [] => Some v | m :: ms => v' ← step m.1 m.2 v; go ms v' end.

Fixpoint dec (t : ty) : json -> denote t -> option (denote t) :=
  match t with
  | TStr => fun j old => match j with JNull => Some old | JStr s => Some s | _ => None end
  | TInt => fun j old => match j with JNull => Some old | JNum n => ParseInt n | _ => None end
  | TBool => fun j old => match j with JNull => Some old | JBool b => Some b | _ => None end
  | TFloat => fun j old => match j with JNull => Some old | JNum n => ParseFloat n | _ => None end
  | TSlice t => fun j old =>
      match j with
      | JNull | JArr [] => Some ([], [])
      | JArr js => fill (zero t) (dec t) js (old.1 ++ old.2)
      | _ => None
      end
  | TPtr t => fun j old =>
      match j with JNull => Some None | _ => Some <$> dec t j (default (zero t) old) end
  | TStruct fs => fun j old =>
      match j with
      | JNull => Some old
      | JObj ms => members (fun key j v => name ← resolve fs key; dec_field fs name j v) ms old
      | _ => None
      end
  end
with dec_field (fs : fields) (name : string) : json -> denotes fs -> option (denotes fs) :=
  match fs with
  | FNil => fun _ _ => None
  | FCons n _ t fs => fun j v =>
      if bool_decide (n = name) then (fun x => (x, v.2)) <$> dec t j v.1
      else (fun xs => (v.1, xs)) <$> dec_field fs name j v.2
  end.

(** ** Types and values that survive the round trip *)

(** Names of fields are in ASCII and differ; a pointer points to no pointer. *)
Fixpoint ty_ok (t : ty) : bool :=
  match t with
  | TSlice t => ty_ok t
  | TPtr t => match t with TPtr _ => false | _ => ty_ok t end
  | TStruct fs => fields_ok fs
  | _ => true
  end
with fields_ok (fs : fields) : bool :=
  match fs with
  | FNil => true
  | FCons name _ t fs => utf8_valid name && negb (has_field fs name) && ty_ok t && fields_ok fs
  end.

Fixpoint depth (t : ty) : Z :=
  match t with
  | TSlice t => 1 + depth t
  | TPtr t => depth t
  | TStruct fs => 1 + depths fs
  | _ => 0
  end
with depths (fs : fields) : Z :=
  match fs with FNil => 0 | FCons _ _ t fs => Z.max (depth t) (depths fs) end.

(** Strings in UTF-8, integers of 64 bits, finite floats. *)
Fixpoint wf (t : ty) : denote t -> Prop :=
  match t with
  | TStr => fun s => utf8_valid s = true
  | TInt => int64_range
  | TBool => fun _ => True
  | TFloat => fun f => finite_float f = true
  | TSlice t => fun l => Forall (wf t) (l.1 ++ l.2)
  | TPtr t => fun p => match p with None => True | Some v => wf t v end
  | TStruct fs => wfs fs
  end
with wfs (fs : fields) : denotes fs -> Prop :=
  match fs with
  | FNil => fun _ => True
  | FCons _ _ t fs => fun v => wf t v.1 /\ wfs fs v.2
  end.

(** What comes back: the elements of slices, and zero values for the fields
    left out, which makes a negative zero positive. *)
Fixpoint canon (t : ty) : denote t -> denote t :=
  match t with
  | TSlice t => fun l => (map (canon t) l.1, [])
  | TPtr t => fun p => match p with None => None | Some v => Some (canon t v) end
  | TStruct fs => canons fs
  | TStr | TInt | TBool | TFloat => fun v => v
  end
with canons (fs : fields) : denotes fs -> denotes fs :=
  match fs with
  | FNil => fun v => v
  | FCons _ omitempty t fs => fun v =>
      (if omitempty && is_empty t v.1 then zero t else canon t v.1, canons fs v.2)
  end.

Definition is_struct (t : ty) : bool := match t with TStruct _ => true | _ => false end.

(** ** Proofs *)
Definition is_ptr (t : ty) : bool := match t with TPtr _ => true | _ => false end.
Abbreviation step fs := (fun key j v => name ← resolve fs key; dec_field fs name j v).
Definition named_in (fs : fields) (ms : list (string * json)) : Prop := Forall (fun m => has_field fs m.1 = true) ms.

(** What the theorem says of a type, and of the fields of a struct. *)
Definition round_trips (t : ty) : Prop :=
  ty_ok t = true -> forall v, wf t v -> exists j, enc t v = Some j /\ json_ok j /\ 0 <= nesting j <= depth t /\
    (is_ptr t = false -> j <> JNull) /\ dec t j (zero t) = Some (canon t v).
Definition fields_round_trip (fs : fields) : Prop :=
  fields_ok fs = true -> forall v, wfs fs v -> exists ms, encs fs v = Some ms /\ json_ok (JObj ms) /\
    0 <= nesting (JObj ms) <= 1 + depths fs /\ named_in fs ms /\
    members (step fs) ms (zeros fs) = Some (canons fs v).

Lemma resolve_named fs key : has_field fs key = true -> resolve fs key = Some key.
Proof. intros H. unfold resolve. by rewrite H. Qed.

Lemma members_cons {A} (f : string -> json -> A -> option A) m ms v :
  members f (m :: ms) v = (v' ← f m.1 m.2 v; members f ms v').
Proof. done. Qed.

(** Members that belong to the later fields do not touch the first. *)
Lemma members_tail name o t fs ms (x : denote t) (v : denotes fs) :
  has_field fs name = false -> named_in fs ms ->
  members (step (FCons name o t fs)) ms (x, v) = (fun v => (x, v)) <$> members (step fs) ms v.
Proof.
  intros Hn Hm. revert v. induction Hm as [|[key j] ms Hk _ IH]; intros v; [done|]. cbn [members fst snd] in *.
  rewrite !resolve_named by (cbn [has_field]; by rewrite ?Hk, ?orb_true_r). cbn [mbind option_bind dec_field].
  rewrite bool_decide_eq_false_2 by (intros ->; congruence). cbn [fst snd].
  destruct (dec_field fs key j v) as [v'|]; [|done]. apply IH.
Qed.

Lemma depth_nonneg : (forall t, 0 <= depth t) /\ (forall fs, 0 <= depths fs).
Proof. apply ty_fields_ind; cbn; lia. Qed.

Lemma enc_slice t l :
  round_trips t -> ty_ok t = true -> Forall (wf t) l ->
  exists js, all_some (enc t) l = Some js /\ json_ok (JArr js) /\ 0 <= nesting (JArr js) <= 1 + depth t /\
    length js = length l /\ fill (zero t) (dec t) js [] = Some (map (canon t) l, []).
Proof.
  intros Ht Hok Hl. induction Hl as [|v l Hv _ (js & E1 & E2 & E3 & E4 & E5)].
  - exists []. split_and!; try done. cbn. pose proof (proj1 depth_nonneg t). lia.
  - destruct (Ht Hok v Hv) as (j & F1 & F2 & F3 & _ & F5). exists (j :: js). cbn [all_some fill].
    fold (all_some (enc t)). fold (fill (zero t) (dec t)). rewrite F1. cbn [mbind option_bind]. rewrite E1. split_and!; try done.
    + cbn [nesting foldr] in *. lia.
    + cbn [nesting foldr] in *. lia.
    + cbn. by rewrite E4.
    + cbn [head default from_option tail]. unfold default, from_option, id. rewrite F5. cbn [mbind option_bind]. by rewrite E5.
Qed.

Lemma round_trip : (forall t, round_trips t) /\ (forall fs, fields_round_trip fs).
Proof.
  apply ty_fields_ind; unfold round_trips, fields_round_trip.
  - intros _ s Hs. by eexists.
  - intros _ z Hz. eexists. split_and!; [done|apply int_number_ok|done|done|done|by apply int_number_reads].
  - intros _ b _. by eexists.
  - intros _ f Hf. destruct (float_number_reads f Hf) as (n & E & Hn & Hr). exists (JNum n). cbn [enc]. by rewrite E.
  - intros t IH Hok l Hl. cbn [ty_ok wf enc depth dec canon] in *. apply Forall_app in Hl as [Hl _].
    destruct (enc_slice t l.1 IH Hok Hl) as (js & E1 & E2 & E3 & E4 & E5). exists (JArr js). rewrite E1. split_and!; try done; try lia.
    destruct js as [|j js]; [|exact E5]. by destruct l.1.
  - intros t IH Hok p Hp. cbn [wf enc depth dec canon] in *. destruct p as [v|].
    + assert (Ht : is_ptr t = false /\ ty_ok t = true) by (by destruct t). destruct Ht as [Ht Hok'].
      destruct (IH Hok' v Hp) as (j & E1 & E2 & E3 & E4 & E5). exists j. split_and!; try done; try lia.
      transitivity (Some <$> dec t j (zero t)); [destruct j; [by destruct E4|done..]|by rewrite E5].
    + exists JNull. pose proof (proj1 depth_nonneg t). by split_and!.
  - intros fs IH Hok v Hv. cbn [ty_ok wf enc depth dec canon] in *.
    destruct (IH Hok v Hv) as (ms & E1 & E2 & E3 & _ & E5). exists (JObj ms). rewrite E1. split_and!; try done; lia.
  - intros _ v _. exists []. destruct v. cbn. split_and!; try done; try lia; constructor.
  - intros name o t IHt fs IHfs Hok [x v] [Hx Hv]. cbn [fields_ok fst snd] in Hok, Hx, Hv.
    rewrite !andb_true_iff, negb_true_iff in Hok. destruct Hok as [[[Hname Hnew] Hok1] Hok2].
    destruct (IHfs Hok2 v Hv) as (ms & E1 & E2 & E3 & E4 & E5).
    assert (E4' : named_in (FCons name o t fs) ms).
    { eapply Forall_impl; [exact E4|]. intros m Hm. cbn [has_field]. by rewrite Hm, orb_true_r. }
    cbn [encs fst snd canons depths zeros]. rewrite E1. cbn [mbind option_bind].
    destruct (o && is_empty t x) eqn:Eo.
    + exists ms. split_and!; try done; try (cbn [nesting] in *; lia). rewrite members_tail by done. by rewrite E5.
    + destruct (IHt Hok1 x Hx) as (j & F1 & F2 & F3 & _ & F5). rewrite F1. cbn [mbind option_bind].
      exists ((name, j) :: ms). split_and!; try done.
      * cbn [nesting foldr snd] in *. lia.
      * cbn [nesting foldr snd] in *. lia.
      * apply Forall_cons. split; [|done]. cbn [has_field fst]. by rewrite bool_decide_eq_true_2.
      * rewrite members_cons.
        assert (E : step (FCons name o t fs) (name, j).1 (name, j).2 (zero t, zeros fs) = Some (canon t x, zeros fs)).
        { cbn [fst snd]. rewrite resolve_named by (cbn [has_field]; by rewrite bool_decide_eq_true_2).
          cbn [mbind option_bind dec_field fst snd]. by rewrite bool_decide_eq_true_2, F5. }
        rewrite E. cbn [mbind option_bind]. rewrite members_tail by done. by rewrite E5.
Qed.

(** ** Decoded values are well formed *)
Lemma zero_wf : (forall t, wf t (zero t)) /\ (forall fs, wfs fs (zeros fs)).
Proof. apply ty_fields_ind; cbn [wf wfs zero zeros fst snd]; try done; auto. Qed.

Definition dec_keeps (t : ty) : Prop := forall j v v', json_ok j -> wf t v -> dec t j v = Some v' -> wf t v'.
Definition dec_field_keeps (fs : fields) : Prop :=
  forall name j v v', json_ok j -> wfs fs v -> dec_field fs name j v = Some v' -> wfs fs v'.

Lemma fill_wf t js old l :
  dec_keeps t -> json_ok (JArr js) -> Forall (wf t) old -> fill (zero t) (dec t) js old = Some l ->
  Forall (wf t) (l.1 ++ l.2).
Proof.
  intros Ht. revert old l. induction js as [|j js IH]; intros old l Hj Ho H; cbn [fill] in H.
  - by injection H as <-.
  - destruct Hj as [Hj Hjs]. apply bind_Some in H as (v & Hv & H). apply bind_Some in H as (l' & Hl & H).
    injection H as <-. cbn [fst snd app]. apply Forall_cons. split.
    + eapply Ht; [exact Hj| |exact Hv]. destruct Ho; [apply zero_wf|done].
    + eapply IH; [exact Hjs| |exact Hl]. by destruct Ho.
Qed.

Lemma dec_wf : (forall t, dec_keeps t) /\ (forall fs, dec_field_keeps fs).
Proof.
  apply ty_fields_ind; unfold dec_field_keeps.
  - intros [|b|n|s|l|l] v v' Hj Hv H; try done; by injection H as <-.
  - intros [|b|n|s|l|l] v v' Hj Hv H; try done; [by injection H as <-|by apply ParseInt_range in H].
  - intros [|b|n|s|l|l] v v' Hj Hv H; try done; by injection H as <-.
  - intros [|b|n|s|l|l] v v' Hj Hv H; try done; [by injection H as <-|]. cbn in H. apply ParseFloat_finite in H; [done|].
    destruct Hj as [(Hi & _) Hf _]. by apply Forall_app.
  - intros t IH j v v' Hj Hv H. cbn [dec wf] in *. destruct j as [| | | |js|]; try done; [by injection H as <-|].
    destruct js as [|j js]; [by injection H as <-|]. by eapply fill_wf.
  - intros t IH j v v' Hj Hv H. cbn [dec wf] in *.
    assert (Hp : Some <$> dec t j (default (zero t) v) = Some v' \/ v' = None) by (destruct j; auto; right; by injection H).
    destruct Hp as [Hp| ->]; [|done]. destruct (dec t j (default (zero t) v)) as [x|] eqn:E; [|done]. injection Hp as <-.
    eapply IH; [exact Hj| |exact E]. destruct v; [done|apply zero_wf].
  - intros fs IH j v v' Hj Hv H. cbn [dec wf] in *. destruct j as [| | | | |ms]; try done; [by injection H as <-|].
    revert v Hv H. induction ms as [|[key j] ms IHms]; intros v Hv H; [by injection H as <-|].
    destruct Hj as [[Hk Hj] Hms]. cbn [members fst snd] in H. apply bind_Some in H as (w & Hw & H).
    apply bind_Some in Hw as (name & _ & Hw). eapply IHms; [exact Hms| |exact H]. by eapply IH.
  - done.
  - intros name o t IHt fs IHfs key j [x v] v' Hj [Hx Hv] H. cbn [dec_field fst snd] in *.
    destruct (bool_decide (name = key)).
    + destruct (dec t j x) as [x'|] eqn:E; [|done]. injection H as <-. split; [by eapply IHt|done].
    + destruct (dec_field fs key j v) as [w|] eqn:E; [|done]. injection H as <-. split; [done|by eapply IHfs].
Qed.

(** A value and its canonical form are written alike, and so are zero. *)
Lemma canon_zero : (forall t, canon t (zero t) = zero t) /\ (forall fs, canons fs (zeros fs) = zeros fs).
Proof.
  apply ty_fields_ind; try done. intros name o t IHt fs IHfs. cbn [canons zeros fst snd]. rewrite IHt, IHfs.
  by destruct (o && is_empty t (zero t)).
Qed.

Lemma is_empty_canon t v : is_empty t (canon t v) = is_empty t v.
Proof.
  destruct t; try done; cbn [is_empty canon].
  - by destruct v as [[|x l] h].
  - by destruct v.
Qed.

Lemma enc_canon : (forall t v, enc t (canon t v) = enc t v) /\ (forall fs v, encs fs (canons fs v) = encs fs v).
Proof.
  apply ty_fields_ind; try done.
  - intros t IH [l h]. cbn [enc canon fst]. f_equal. induction l as [|v l IHl]; [done|]. cbn. by rewrite IH, IHl.
  - intros t IH [v|]; [|done]. apply IH.
  - intros fs IH v. cbn [enc canon]. by rewrite IH.
  - intros name o t IHt fs IHfs [x v]. cbn [encs canons fst snd]. rewrite IHfs. destruct (encs fs v) as [ms|]; [|done]. cbn.
    destruct (o && is_empty t x) eqn:E.
    + apply andb_true_iff in E as [-> E]. cbn [andb].
      assert (Hz : is_empty t (zero t) = true) by (destruct t; done). by rewrite Hz.
    + by rewrite is_empty_canon, E, IHt.
Qed.

Lemma canon_idem : (forall t v, canon t (canon t v) = canon t v) /\ (forall fs v, canons fs (canons fs v) = canons fs v).
Proof.
  apply ty_fields_ind; try done.
  - intros t IH [l h]. cbn [canon fst]. f_equal. rewrite map_map. apply map_ext, IH.
  - intros t IH [v|]; [|done]. cbn [canon]. by rewrite IH.
  - intros name o t IHt fs IHfs [x v]. cbn [canons fst snd]. rewrite IHfs. f_equal.
    destruct (o && is_empty t x) eqn:E.
    + rewrite (proj1 canon_zero). by destruct (o && is_empty t (zero t)).
    + by rewrite is_empty_canon, E, IHt.
Qed.

Lemma canon_wf : (forall t v, wf t v -> wf t (canon t v)) /\ (forall fs v, wfs fs v -> wfs fs (canons fs v)).
Proof.
  apply ty_fields_ind; try done.
  - intros t IH [l h] H. cbn [wf canon fst snd] in *. rewrite app_nil_r. apply Forall_app in H as [H _].
    apply Forall_fmap. eapply Forall_impl; [exact H|]. exact IH.
  - intros t IH [v|] H; [|done]. by apply IH.
  - intros name o t IHt fs IHfs [x v] [Hx Hv]. cbn [wfs canons fst snd] in *. split; [|by apply IHfs].
    destruct (o && is_empty t x); [apply zero_wf|by apply IHt].
Qed.
Close Scope Z_scope.
