(* ===== verification/GoSort.v ===== *)
(** * [sort.SliceStable]

    A stable sort driven by a boolean [less], as Go's [sort.SliceStable] takes
    it.  For a strict weak order every stable sort returns the same list
    ([stable_sort_unique]), so an insertion sort stands for the library's
    block-insertion-and-merge. *)
From S2P Require Import Prelude.
From stdpp Require Export sorting.

Section stable_sort.
Context {A : Type} (less : A -> A -> bool).

(** [x] stood before every element of [l]: it passes only those that are
    strictly less. *)
Fixpoint insert_stable (x : A) (l : list A) : list A :=
  match l with
  | [] => [x]
  | y :: l' => if less y x then y :: insert_stable x l' else x :: y :: l'
  end.

Fixpoint SliceStable (l : list A) : list A :=
  match l with
  | [] => []
  | x :: l' => insert_stable x (SliceStable l')
  end.

Lemma insert_stable_perm x l : insert_stable x l ≡ₚ x :: l.
Proof.
  induction l as [|y l IH]; cbn; [done|].
  destruct (less y x); [|done]. rewrite IH. apply Permutation_swap.
Qed.

Lemma SliceStable_perm l : SliceStable l ≡ₚ l.
Proof. induction l as [|x l IH]; cbn; [done|]. by rewrite insert_stable_perm, IH. Qed.

Lemma SliceStable_length l : length (SliceStable l) = length l.
Proof. by rewrite SliceStable_perm. Qed.

(** [b] may stand after [a]. *)
Definition not_after (a b : A) : Prop := less b a = false.

(** The strict-weak-order laws, on the elements at hand. *)
Class StrictWeak (P : A -> Prop) : Prop := {
  sw_asym a b : P a -> P b -> less a b = true -> less b a = false;
  sw_trans a b c : P a -> P b -> P c ->
    less a b = true -> less b c = true -> less a c = true;
  sw_ntrans a b c : P a -> P b -> P c ->
    less a b = false -> less b c = false -> less a c = false
}.

Section sorted.
Context (P : A -> Prop) {HP : StrictWeak P}.

Lemma insert_stable_sorted x l :
  P x -> Forall P l ->
  StronglySorted not_after l -> StronglySorted not_after (insert_stable x l).
Proof using HP.
  intros Px. induction l as [|y l IH]; intros Hl Hs; cbn.
  - constructor; constructor.
  - apply Forall_cons in Hl as [Py Hl]. inversion Hs as [|? ? Hs' Hy]; subst.
    destruct (less y x) eqn:Hyx.
    + constructor; [auto|]. rewrite insert_stable_perm. constructor; [|done].
      by apply sw_asym.
    + constructor; [done|]. constructor; [done|].
      rewrite Forall_forall in Hy, Hl |- *. intros z Hz.
      apply (sw_ntrans z y x); eauto. by apply Hy.
Qed.

Lemma SliceStable_sorted l :
  Forall P l -> StronglySorted not_after (SliceStable l).
Proof using HP.
  induction l as [|x l IH]; intros Hl; cbn; [constructor|].
  apply Forall_cons in Hl as [Px Hl].
  apply insert_stable_sorted; [done| |auto]. by rewrite SliceStable_perm.
Qed.

(** Stability: elements equivalent to [x] keep their order. *)
Definition equiv_to (x y : A) : bool := negb (less x y) && negb (less y x).

Lemma insert_stable_equiv x l z :
  P x -> P z -> Forall P l ->
  List.filter (equiv_to z) (insert_stable x l) = List.filter (equiv_to z) (x :: l).
Proof using HP.
  intros Px Pz. induction l as [|y l IH]; intros Hl; [done|].
  apply Forall_cons in Hl as [Py Hl]. cbn [insert_stable].
  destruct (less y x) eqn:Hyx; [|done]. cbn [List.filter]. rewrite IH by done.
  cbn [List.filter]. destruct (equiv_to z y) eqn:Hzy, (equiv_to z x) eqn:Hzx; try done.
  exfalso. unfold equiv_to in *.
  destruct (less z y) eqn:E1, (less y z) eqn:E2, (less z x) eqn:E3, (less x z) eqn:E4; try done.
  rewrite (sw_ntrans y z x) in Hyx; done.
Qed.

Lemma SliceStable_stable l z :
  P z -> Forall P l ->
  List.filter (equiv_to z) (SliceStable l) = List.filter (equiv_to z) l.
Proof using HP.
  intros Pz. induction l as [|x l IH]; intros Hl; cbn [SliceStable]; [done|].
  apply Forall_cons in Hl as [Px Hl].
  rewrite insert_stable_equiv; [|done|done|by rewrite SliceStable_perm].
  cbn [List.filter]. by rewrite IH.
Qed.

Lemma less_irrefl x : P x -> less x x = false.
Proof using HP.
  intros Px. destruct (less x x) eqn:E; [|done].
  by rewrite (sw_asym x x Px Px E) in E.
Qed.

Lemma equiv_to_refl x : P x -> equiv_to x x = true.
Proof using HP. intros Px. unfold equiv_to. by rewrite less_irrefl. Qed.

(** Two sorted permutations of each other whose equivalence classes read the
    same are equal. *)
Lemma sorted_equiv_unique l1 l2 :
  Forall P l1 -> l1 ≡ₚ l2 ->
  StronglySorted not_after l1 -> StronglySorted not_after l2 ->
  (forall z, P z -> List.filter (equiv_to z) l1 = List.filter (equiv_to z) l2) ->
  l1 = l2.
Proof using HP.
  revert l2. induction l1 as [|x l1 IH]; intros l2 HP1 Hp Hs1 Hs2 Heq.
  - by apply Permutation_nil in Hp.
  - destruct l2 as [|y l2]; [by apply Permutation_sym, Permutation_nil in Hp|].
    assert (HP2 : Forall P (y :: l2)) by (by rewrite <-Hp).
    apply Forall_cons in HP1 as [Px HP1]. apply Forall_cons in HP2 as [Py HP2].
    inversion Hs1 as [|? ? Hs1' Hx]; subst. inversion Hs2 as [|? ? Hs2' Hy]; subst.
    assert (Hxy : x = y).
    { assert (less y x = false /\ less x y = false) as [H1 H2].
      { split.
        - assert (Hin : y ∈ x :: l1) by (rewrite Hp; by left).
          apply elem_of_cons in Hin as [->|Hin]; [by apply less_irrefl|].
          rewrite Forall_forall in Hx. by apply Hx.
        - assert (Hin : x ∈ y :: l2) by (rewrite <-Hp; by left).
          apply elem_of_cons in Hin as [->|Hin]; [by apply less_irrefl|].
          rewrite Forall_forall in Hy. by apply Hy. }
      specialize (Heq x Px). cbn [List.filter] in Heq.
      rewrite equiv_to_refl in Heq by done.
      assert (equiv_to x y = true) as E by (unfold equiv_to; by rewrite H1, H2).
      rewrite E in Heq. congruence. }
    subst y. f_equal. apply IH; try done.
    + by apply Permutation_cons_inv in Hp.
    + intros z Pz. specialize (Heq z Pz). cbn [List.filter] in Heq.
      destruct (equiv_to z x); congruence.
Qed.

(** Every stable sort of [l] is [SliceStable l]. *)
Lemma stable_sort_unique l l' :
  Forall P l -> l' ≡ₚ l -> StronglySorted not_after l' ->
  (forall z, P z -> List.filter (equiv_to z) l' = List.filter (equiv_to z) l) ->
  l' = SliceStable l.
Proof using HP.
  intros HPl Hp Hs Hst. apply sorted_equiv_unique.
  - by rewrite Hp.
  - by rewrite Hp, SliceStable_perm.
  - done.
  - by apply SliceStable_sorted.
  - intros z Pz. by rewrite Hst, SliceStable_stable.
Qed.

(** When equivalent elements are equal, the order of the input is immaterial. *)
Lemma SliceStable_perm_invariant l1 l2 :
  Forall P l1 -> l1 ≡ₚ l2 ->
  (forall a b, a ∈ l1 -> b ∈ l1 -> equiv_to a b = true -> a = b) ->
  SliceStable l1 = SliceStable l2.
Proof using HP.
  intros HP1 Hp Hanti.
  assert (HP2 : Forall P l2) by (by rewrite <-Hp).
  apply (StronglySorted_unique_strong not_after).
  - intros a b Ha Hb Hab Hba. rewrite SliceStable_perm in Ha.
    rewrite SliceStable_perm, <-Hp in Hb. apply Hanti; [done..|].
    unfold equiv_to. unfold not_after in *. by rewrite Hab, Hba.
  - by apply SliceStable_sorted.
  - by apply SliceStable_sorted.
  - by rewrite !SliceStable_perm.
Qed.
End sorted.
End stable_sort.

(** A sorted list read with another relation on its own elements. *)
Lemma StronglySorted_weaken {A} (R R' : relation A) l :
  (forall a b, a ∈ l -> b ∈ l -> R a b -> R' a b) -> StronglySorted R l -> StronglySorted R' l.
Proof.
  intros Himp Hs. induction Hs as [|a l Hs IH Ha]; constructor.
  - apply IH. intros x y Hx Hy. apply Himp; by right.
  - rewrite Forall_forall in Ha |- *. intros b Hb. apply Himp; [by left|by right|by apply Ha].
Qed.

Lemma StronglySorted_lookup {A} (R : relation A) l i j a b :
  StronglySorted R l -> (i < j)%nat -> l !! i = Some a -> l !! j = Some b -> R a b.
Proof.
  intros Hs. revert i j. induction Hs as [|x l Hs IH Hx]; intros i j Hij Hi Hj; [done|].
  destruct j as [|j]; [lia|]. cbn in Hj. destruct i as [|i]; cbn in Hi.
  - injection Hi as <-. rewrite Forall_forall in Hx. apply Hx. by eapply list_elem_of_lookup_2.
  - apply (IH i j); [lia|done..].
Qed.

(** ** Lexicographic comparison

    [if neq a b { return lt(a, b) }; return less2(a, b)]: a strict weak order
    when both parts are, and [neq] tells the classes of [lt] apart. *)
Definition lex_less {A} (neq lt less2 : A -> A -> bool) (a b : A) : bool :=
  if neq a b then lt a b else less2 a b.

Section lex.
Context {A : Type} (neq lt less2 : A -> A -> bool) (P : A -> Prop)
  {H1 : StrictWeak lt P} {H2 : StrictWeak less2 P}.
Hypothesis neq_lt : forall a b, P a -> P b -> neq a b = lt a b || lt b a.

(** What the laws say of [lt] on three elements; the cases are then boolean. *)
Lemma sw_facts a b c :
  P a -> P b -> P c ->
  (lt a b = true -> lt b a = false) /\
  (lt b c = true -> lt c b = false) /\
  (lt a c = true -> lt c a = false) /\
  (lt a b = false -> lt b c = false -> lt a c = false) /\
  (lt a c = false -> lt c b = false -> lt a b = false) /\
  (lt b a = false -> lt a c = false -> lt b c = false) /\
  (lt b c = false -> lt c a = false -> lt b a = false) /\
  (lt c a = false -> lt a b = false -> lt c b = false) /\
  (lt c b = false -> lt b a = false -> lt c a = false).
Proof using H1.
  intros Pa Pb Pc. pose proof (sw_ntrans lt (P:=P)) as Hn.
  split_and!; solve [by apply (sw_asym lt (P:=P)) | by apply Hn].
Qed.

#[export] Instance StrictWeak_lex : StrictWeak (lex_less neq lt less2) P.
Proof using H1 H2 neq_lt.
  split.
  - intros a b Pa Pb. unfold lex_less. rewrite !neq_lt by done.
    pose proof (sw_asym lt (P:=P) a b Pa Pb). pose proof (sw_asym less2 (P:=P) a b Pa Pb).
    destruct (lt a b), (lt b a); cbn; intuition congruence.
  - intros a b c Pa Pb Pc. unfold lex_less. rewrite !neq_lt by done.
    pose proof (sw_facts a b c Pa Pb Pc) as H. pose proof (sw_trans less2 (P:=P) a b c Pa Pb Pc).
    destruct (lt a b), (lt b a), (lt b c), (lt c b), (lt a c), (lt c a); cbn in *;
      intuition congruence.
  - intros a b c Pa Pb Pc. unfold lex_less. rewrite !neq_lt by done.
    pose proof (sw_facts a b c Pa Pb Pc) as H. pose proof (sw_ntrans less2 (P:=P) a b c Pa Pb Pc).
    destruct (lt a b), (lt b a), (lt b c), (lt c b), (lt a c), (lt c a); cbn in *;
      intuition congruence.
Qed.
End lex.

(** Orders pulled back along a key. *)
Lemma StrictWeak_Z {A} (P : A -> Prop) (f : A -> Z) :
  StrictWeak (fun a b => (f a <? f b)%Z) P.
Proof. split; intros *; intros; lia. Qed.
