(* ===== verification/HttpApi.v ===== *)
(** * The HTTP contract: [internal/httpapi]

    Go error values with [errors.Is] and [errors.As], the gateway's typed
    errors and their status codes ([errors.go]), and the request and response
    records ([types.go]). *)
From S2P Require Import Prelude GoStrings GoFloat.

(** Instants are nanoseconds since the zero [time.Time]; durations are
    nanoseconds. *)
Abbreviation time := Z.
Abbreviation duration := Z.

(** ** Errors

    The sentinels the gateway compares against, its own and those of the
    packages it calls. *)
Inductive sentinel :=
| VersionConflict      (* pgmemory.ErrVersionConflict *)
| IdempotencyConflict  (* pgmemory.ErrIdempotencyConflict *)
| PgNotFound           (* pgmemory.ErrNotFound *)
| RagNotFound          (* ragstore.ErrNotFound *)
| NoRows               (* pgx.ErrNoRows *)
| ContextCanceled      (* context.Canceled *)
| Unauthorized         (* authz.ErrUnauthorized *)
| BackendRequired.     (* service.ErrBackendRequired *)

#[export] Instance sentinel_eq_dec : EqDecision sentinel.
Proof. solve_decision. Defined.

(** A Go [error]: a gateway error, a sentinel, a text, or an [fmt.Errorf]
    wrapper ([%w]).  [value] is the [any] of detail maps and trace fields;
    [VTime] stands for the RFC 3339 text of an instant, [VDuration] for
    [Duration.String] and [VErrText] for [err.Error()]. *)
Inductive goerror : Type :=
| ErrGateway (e : GatewayError)
| ErrSentinel (s : sentinel)
| ErrText (msg : string)
| ErrWrap (msg : string) (inner : goerror)
with GatewayError : Type :=
| mkGatewayError (code message : string) (retryable : bool) (details : list (string * value))
with value : Type :=
| VStr (s : string)
| VInt (z : Z)
| VBool (b : bool)
| VFloat (f : float64)
| VTime (t : time)
| VDuration (d : duration)
| VErrText (e : goerror).

Definition Code (e : GatewayError) : string :=
  let 'mkGatewayError c _ _ _ := e in c.
Definition Message (e : GatewayError) : string :=
  let 'mkGatewayError _ m _ _ := e in m.
Definition Retryable (e : GatewayError) : bool :=
  let 'mkGatewayError _ _ r _ := e in r.
Definition Details (e : GatewayError) : list (string * value) :=
  let 'mkGatewayError _ _ _ d := e in d.

(** [errors.Is] against a sentinel, and [err == sentinel]. *)
Fixpoint errors_Is (e : goerror) (target : sentinel) : bool :=
  match e with
  | ErrSentinel s => bool_decide (s = target)
  | ErrWrap _ inner => errors_Is inner target
  | _ => false
  end.
Definition err_is_exactly (e : goerror) (target : sentinel) : bool :=
  match e with ErrSentinel s => bool_decide (s = target) | _ => false end.

(** [errors.As(err, &gatewayErr)] *)
Fixpoint errors_As_gateway (e : goerror) : option GatewayError :=
  match e with
  | ErrGateway g => Some g
  | ErrWrap _ inner => errors_As_gateway inner
  | _ => None
  end.

Definition newGatewayError (code message : string) (retryable : bool)
    (details : list (string * value)) : goerror :=
  ErrGateway (mkGatewayError code message retryable details).

Definition ErrBadRequest m d := newGatewayError "bad_request" m false d.
Definition ErrUnauthorized m d := newGatewayError "unauthorized" m false d.
Definition ErrForbidden m d := newGatewayError "forbidden" m false d.
Definition ErrSessionExpired m d := newGatewayError "session_expired" m false d.
Definition ErrNotFound m d := newGatewayError "not_found" m false d.
Definition ErrMemoryConflict m d := newGatewayError "memory_conflict" m false d.
Definition ErrIdempotencyConflict m d := newGatewayError "idempotency_conflict" m false d.
Definition ErrReadOnlyMode m d := newGatewayError "read_only_mode" m true d.
Definition ErrUpstreamUnavailable m d := newGatewayError "upstream_unavailable" m true d.

Definition StatusCode (err : goerror) : Z :=
  match errors_As_gateway err with
  | None => 500
  | Some g =>
      let code := Code g in
      if bool_decide (code = "bad_request") then 400
      else if bool_decide (code = "unauthorized") then 401
      else if bool_decide (code = "forbidden") || bool_decide (code = "session_expired") then 403
      else if bool_decide (code = "not_found") then 404
      else if bool_decide (code = "memory_conflict") || bool_decide (code = "idempotency_conflict")
      then 409
      else if bool_decide (code = "read_only_mode") then 503
      else if bool_decide (code = "upstream_unavailable") then 503
      else 500
  end%Z.

(** The body of an error answer ([ErrorBody]) and [WriteError]: status,
    headers and body written for [err]. *)
Record ErrorBody := mkErrorBody {
  eb_Code : string;
  eb_Message : string;
  eb_RequestID : string;
  eb_Retryable : bool;
  eb_Details : list (string * value)
}.

Definition WriteError (requestID : string) (err : goerror) : Z * ErrorBody :=
  let g := match errors_As_gateway err with
           | Some g => g
           | None => mkGatewayError "internal_error" "Internal Server Error" false []
           end in
  (StatusCode err, mkErrorBody (Code g) (Message g) requestID (Retryable g) (Details g)).

(** ** Requests and responses *)
Record ScopePayload := mkScopePayload {
  sp_TenantID : string;
  sp_UserID : string;
  sp_ProjectID : string;
  sp_SessionID : string
}.

Record RecallUnifiedRequest := mkRecallUnifiedRequest {
  rr_Scope : ScopePayload;
  rr_Query : string;
  rr_TopK : Z;
  rr_TokenBudget : Z;
  rr_MemoryTokenBudget : Z;
  rr_ConsistencyLevel : string;
  rr_AllowStaleCache : bool;
  rr_Debug : bool
}.

Record RecallHitMetadata := mkRecallHitMetadata {
  hm_MatchedBy : string;
  hm_TokenCostEstimate : Z
}.

Record RecallHitResponse := mkRecallHitResponse {
  hit_MemoryID : string;
  hit_Kind : string;
  hit_Score : float64;
  hit_Version : Z;
  hit_Content : string;
  hit_Tags : list string;
  hit_Source : string;
  hit_Category : string;
  hit_Pinned : bool;
  hit_Disabled : bool;
  hit_Metadata : RecallHitMetadata
}.

Record RecallTraceResponse := mkRecallTraceResponse {
  tr_CacheLevel : string;
  tr_ConsistencyLevel : string;
  tr_StaleServed : bool;
  tr_MemoryTokenBudget : Z;
  tr_ReturnedTokenEstimate : Z
}.

(** [Trace] is a pointer: the response holds the address of the trace object,
    and the objects live in the heap of the service state. *)
Record RecallUnifiedResponse := mkRecallUnifiedResponse {
  ru_Hits : list RecallHitResponse;
  ru_Trace : option nat
}.

Record WriteRecordPayload := mkWriteRecordPayload {
  wp_Kind : string;
  wp_Source : string;
  wp_Category : string;
  wp_Content : string;
  wp_Tags : list string;
  wp_Importance : float64;
  wp_Pinned : bool
}.

Record WriteMemoryRequest := mkWriteMemoryRequest {
  wr_IdempotencyKey : string;
  wr_Scope : ScopePayload;
  wr_Record : WriteRecordPayload
}.

Record WriteMemoryResult := mkWriteMemoryResult {
  wm_MemoryID : string;
  wm_Version : Z;
  wm_Status : string
}.

Record PatchMemoryFields := mkPatchMemoryFields {
  pf_Content : option string;
  pf_Category : option string;
  pf_Tags : option (list string);
  pf_Importance : option float64
}.

Record PatchMemoryRequest := mkPatchMemoryRequest {
  pr_IdempotencyKey : string;
  pr_Scope : ScopePayload;
  pr_ExpectedVersion : Z;
  pr_Patch : PatchMemoryFields
}.

Record PatchMemoryResponse := mkPatchMemoryResponse {
  pm_MemoryID : string;
  pm_Version : Z
}.

Record PinMemoryRequest := mkPinMemoryRequest {
  pin_Scope : ScopePayload;
  pin_ExpectedVersion : Z
}.

Record PinMemoryResponse := mkPinMemoryResponse {
  pn_MemoryID : string;
  pn_Version : Z;
  pn_Pinned : bool
}.

Record DisableMemoryRequest := mkDisableMemoryRequest {
  dr_Scope : ScopePayload;
  dr_ExpectedVersion : Z
}.

Record DisableMemoryResponse := mkDisableMemoryResponse {
  ds_MemoryID : string;
  ds_Version : Z;
  ds_Disabled : bool
}.

Record DeleteMemoryRequest := mkDeleteMemoryRequest {
  del_Scope : ScopePayload;
  del_ExpectedVersion : Z;
  del_ConsistencyLevel : string
}.

Record DeleteMemoryResponse := mkDeleteMemoryResponse {
  dl_MemoryID : string;
  dl_Deleted : bool;
  dl_Version : Z
}.

Record SessionCloseRequest := mkSessionCloseRequest {
  sc_Scope : ScopePayload;
  sc_Mode : string
}.

Record SessionCloseResponse := mkSessionCloseResponse {
  sr_SessionID : string;
  sr_Status : string
}.

(** [SessionHeartbeatRequest] has the one field [Scope]; the answer has the
    shape of [SessionCloseResponse]. *)
Record SessionHeartbeatRequest := mkSessionHeartbeatRequest { sh_Scope : ScopePayload }.
Record SessionHeartbeatResponse := mkSessionHeartbeatResponse {
  hb_SessionID : string;
  hb_Status : string
}.

Record GetMemoryItemResponse := mkGetMemoryItemResponse {
  gi_MemoryID : string;
  gi_Kind : string;
  gi_Version : Z;
  gi_Content : string;
  gi_Tags : list string;
  gi_Source : string;
  gi_Category : string;
  gi_Importance : float64;
  gi_Pinned : bool;
  gi_Disabled : bool
}.

(** ** Lemmas *)
Lemma errors_Is_exactly e t : err_is_exactly e t = true -> errors_Is e t = true.
Proof. by destruct e. Qed.

(** The errors the service builds, with the constructors of [errors.go]: all
    but the 401, which is the transport's.  Their status codes are a closed
    set, and 503 is exactly the retryable ones. *)
Inductive gateway_built : goerror -> Prop :=
| built_bad_request m d : gateway_built (ErrBadRequest m d)
| built_forbidden m d : gateway_built (ErrForbidden m d)
| built_session_expired m d : gateway_built (ErrSessionExpired m d)
| built_not_found m d : gateway_built (ErrNotFound m d)
| built_memory_conflict m d : gateway_built (ErrMemoryConflict m d)
| built_idempotency_conflict m d : gateway_built (ErrIdempotencyConflict m d)
| built_read_only m d : gateway_built (ErrReadOnlyMode m d)
| built_upstream m d : gateway_built (ErrUpstreamUnavailable m d).
#[export] Hint Constructors gateway_built : gateway_errors.

Lemma gateway_built_status e :
  gateway_built e ->
  (400 <= StatusCode e < 600)%Z /\
  (StatusCode e = 503%Z <-> exists g, errors_As_gateway e = Some g /\ Retryable g = true).
Proof.
  destruct 1; (split; [by vm_compute|split]); first [by intros (g & [= <-] & Hr)|vm_compute; first [discriminate | eauto]].
Qed.

Lemma gateway_built_gateway e : gateway_built e -> exists g, errors_As_gateway e = Some g.
Proof. destruct 1; by eexists. Qed.

Lemma gateway_built_codes e :
  gateway_built e -> StatusCode e ∈ [400; 403; 404; 409; 503]%Z.
Proof.
  destruct 1; vm_compute; repeat first [left; reflexivity | right].
Qed.
