(* ===== verification/Authz.v ===== *)
(** * Authorisation scopes: [internal/authz]

    The scope derived from the request headers, and the merge that lets the
    header-derived scope overrule the one a client claims in its JSON body. *)
From S2P Require Import Prelude GoStrings HttpApi.

Record Scope := mkScope {
  TenantID : string;
  UserID : string;
  ProjectID : string;
  SessionID : string
}.

#[export] Instance Scope_eq_dec : EqDecision Scope.
Proof. solve_decision. Defined.

Definition emptyScope : Scope := mkScope "" "" "" "".

(** [http.Header.Get] is a function from the header name to its first value,
    empty when absent. *)
Definition ScopeFromHeaders (get : string -> string) : result goerror Scope :=
  let scope := {|
    TenantID := TrimSpace (get "X-Tenant-Id");
    UserID := TrimSpace (get "X-User-Id");
    ProjectID := TrimSpace (get "X-Project-Id");
    SessionID := TrimSpace (get "X-Session-Id") |} in
  if bool_decide (TenantID scope = "") || bool_decide (UserID scope = "")
  then Fail (ErrSentinel Unauthorized)
  else Ok scope.

Definition MergeAuthoritativeScope (auth claimed : Scope) : Scope :=
  {| TenantID := TenantID auth;
     UserID := UserID auth;
     ProjectID := if bool_decide (ProjectID auth = "") then ProjectID claimed else ProjectID auth;
     SessionID := if bool_decide (SessionID auth = "") then SessionID claimed else SessionID auth |}.

(** [readAuthoritativeScope] ([transport/router.go]): the header error of the
    gateway is the 401 of the contract. *)
Definition readAuthoritativeScope (get : string -> string) : result goerror Scope :=
  match ScopeFromHeaders get with
  | Ok scope => Ok scope
  | Fail err =>
      if errors_Is err Unauthorized
      then Fail (ErrUnauthorized "missing or invalid auth scope headers" [])
      else Fail err
  end.

(** ** Lemmas *)
Lemma merge_tenant auth claimed : TenantID (MergeAuthoritativeScope auth claimed) = TenantID auth.
Proof. done. Qed.
Lemma merge_user auth claimed : UserID (MergeAuthoritativeScope auth claimed) = UserID auth.
Proof. done. Qed.
Lemma merge_session_auth auth claimed :
  SessionID auth <> "" -> SessionID (MergeAuthoritativeScope auth claimed) = SessionID auth.
Proof. intros H. cbn. by rewrite bool_decide_eq_false_2. Qed.

Lemma merge_claimed_tenant_user auth c c' :
  ProjectID c = ProjectID c' -> SessionID c = SessionID c' ->
  MergeAuthoritativeScope auth c = MergeAuthoritativeScope auth c'.
Proof. unfold MergeAuthoritativeScope. by intros -> ->. Qed.

Lemma merge_idemp auth claimed :
  MergeAuthoritativeScope auth (MergeAuthoritativeScope auth claimed)
  = MergeAuthoritativeScope auth claimed.
Proof.
  unfold MergeAuthoritativeScope; cbn. f_equal; by case_bool_decide.
Qed.
#[export] Hint Rewrite merge_tenant merge_user : gateway.
