(* ===== verification/Wire.v ===== *)
(** * The wire: [httpapi/types.go] and the digests' payloads as JSON

    The struct tags of every request, response and digest payload, with the
    values of the records of [HttpApi] on both sides; [decodeJSON] and
    [writeJSON] of transport/router.go on them. *)
From Stdlib Require Import Ascii.
From S2P Require Import Prelude GoStrings GoFloat GoSort GoStrconv Json Struct HttpApi Authz.
Open Scope Z_scope.

(** ** Types *)
Definition tagged (name : string) (t : ty) : string * bool * ty := (name, false, t).
Definition omitting (name : string) (t : ty) : string * bool * ty := (name, true, t).
Definition struct (l : list (string * bool * ty)) : ty := TStruct (foldr (fun f => FCons f.1.1 f.1.2 f.2) FNil l).

Class Wire (A : Type) := {
  code : ty;
  to_wire : A -> denote code;
  of_wire : denote code -> A
}.
#[global] Arguments code A {_}.
#[global] Arguments of_wire A {_} _.

Definition strings (l : list string) : slice string := (l, []).

(** *** Requests *)
Definition ScopePayload_ty : ty :=
  struct [tagged "tenant_id" TStr; tagged "user_id" TStr; omitting "project_id" TStr; omitting "session_id" TStr].
#[export] Instance ScopePayload_wire : Wire ScopePayload := {
  code := ScopePayload_ty;
  to_wire s := (sp_TenantID s, (sp_UserID s, (sp_ProjectID s, (sp_SessionID s, tt))));
  of_wire '(t, (u, (p, (s, _)))) := mkScopePayload t u p s
}.

Definition RecallUnifiedRequest_ty : ty :=
  struct [tagged "scope" ScopePayload_ty; tagged "query" TStr; omitting "top_k" TInt;
    omitting "token_budget" TInt; omitting "memory_token_budget" TInt;
    omitting "consistency_level" TStr; omitting "allow_stale_cache" TBool; omitting "debug" TBool].
#[export] Instance RecallUnifiedRequest_wire : Wire RecallUnifiedRequest := {
  code := RecallUnifiedRequest_ty;
  to_wire r := (to_wire (rr_Scope r), (rr_Query r, (rr_TopK r, (rr_TokenBudget r, (rr_MemoryTokenBudget r,
               (rr_ConsistencyLevel r, (rr_AllowStaleCache r, (rr_Debug r, tt))))))));
  of_wire '(s, (q, (k, (b, (m, (c, (a, (d, _)))))))) := mkRecallUnifiedRequest (of_wire ScopePayload s) q k b m c a d
}.

Definition WriteRecordPayload_ty : ty :=
  struct [tagged "kind" TStr; tagged "source" TStr; tagged "category" TStr; tagged "content" TStr;
    omitting "tags" (TSlice TStr); omitting "importance" TFloat; tagged "pinned" TBool].
#[export] Instance WriteRecordPayload_wire : Wire WriteRecordPayload := {
  code := WriteRecordPayload_ty;
  to_wire p := (wp_Kind p, (wp_Source p, (wp_Category p, (wp_Content p, (strings (wp_Tags p),
               (wp_Importance p, (wp_Pinned p, tt)))))));
  of_wire '(k, (s, (c, (t, (l, (i, (p, _))))))) := mkWriteRecordPayload k s c t l.1 i p
}.

Definition WriteMemoryRequest_ty : ty :=
  struct [tagged "idempotency_key" TStr; tagged "scope" ScopePayload_ty; tagged "record" WriteRecordPayload_ty].
#[export] Instance WriteMemoryRequest_wire : Wire WriteMemoryRequest := {
  code := WriteMemoryRequest_ty;
  to_wire r := (wr_IdempotencyKey r, (to_wire (wr_Scope r), (to_wire (wr_Record r), tt)));
  of_wire '(k, (s, (r, _))) := mkWriteMemoryRequest k (of_wire ScopePayload s) (of_wire WriteRecordPayload r)
}.

Definition PatchMemoryFields_ty : ty :=
  struct [omitting "content" (TPtr TStr); omitting "category" (TPtr TStr);
    omitting "tags" (TPtr (TSlice TStr)); omitting "importance" (TPtr TFloat)].
#[export] Instance PatchMemoryFields_wire : Wire PatchMemoryFields := {
  code := PatchMemoryFields_ty;
  to_wire f := (pf_Content f, (pf_Category f, (strings <$> pf_Tags f, (pf_Importance f, tt))));
  of_wire '(c, (g, (t, (i, _)))) := mkPatchMemoryFields c g (fst <$> t) i
}.

Definition PatchMemoryRequest_ty : ty :=
  struct [omitting "idempotency_key" TStr; tagged "scope" ScopePayload_ty;
    tagged "expected_version" TInt; tagged "patch" PatchMemoryFields_ty].
#[export] Instance PatchMemoryRequest_wire : Wire PatchMemoryRequest := {
  code := PatchMemoryRequest_ty;
  to_wire r := (pr_IdempotencyKey r, (to_wire (pr_Scope r), (pr_ExpectedVersion r, (to_wire (pr_Patch r), tt))));
  of_wire '(k, (s, (v, (p, _)))) := mkPatchMemoryRequest k (of_wire ScopePayload s) v (of_wire PatchMemoryFields p)
}.

Definition PinMemoryRequest_ty : ty :=
  struct [tagged "scope" ScopePayload_ty; tagged "expected_version" TInt].
#[export] Instance PinMemoryRequest_wire : Wire PinMemoryRequest := {
  code := PinMemoryRequest_ty;
  to_wire r := (to_wire (pin_Scope r), (pin_ExpectedVersion r, tt));
  of_wire '(s, (v, _)) := mkPinMemoryRequest (of_wire ScopePayload s) v
}.

Definition DisableMemoryRequest_ty : ty :=
  struct [tagged "scope" ScopePayload_ty; tagged "expected_version" TInt].
#[export] Instance DisableMemoryRequest_wire : Wire DisableMemoryRequest := {
  code := DisableMemoryRequest_ty;
  to_wire r := (to_wire (dr_Scope r), (dr_ExpectedVersion r, tt));
  of_wire '(s, (v, _)) := mkDisableMemoryRequest (of_wire ScopePayload s) v
}.

Definition DeleteMemoryRequest_ty : ty :=
  struct [tagged "scope" ScopePayload_ty; tagged "expected_version" TInt; omitting "consistency_level" TStr].
#[export] Instance DeleteMemoryRequest_wire : Wire DeleteMemoryRequest := {
  code := DeleteMemoryRequest_ty;
  to_wire r := (to_wire (del_Scope r), (del_ExpectedVersion r, (del_ConsistencyLevel r, tt)));
  of_wire '(s, (v, (c, _))) := mkDeleteMemoryRequest (of_wire ScopePayload s) v c
}.

Definition SessionCloseRequest_ty : ty :=
  struct [tagged "scope" ScopePayload_ty; tagged "mode" TStr].
#[export] Instance SessionCloseRequest_wire : Wire SessionCloseRequest := {
  code := SessionCloseRequest_ty;
  to_wire r := (to_wire (sc_Scope r), (sc_Mode r, tt));
  of_wire '(s, (m, _)) := mkSessionCloseRequest (of_wire ScopePayload s) m
}.

Definition SessionHeartbeatRequest_ty : ty :=
  struct [tagged "scope" ScopePayload_ty].
#[export] Instance SessionHeartbeatRequest_wire : Wire SessionHeartbeatRequest := {
  code := SessionHeartbeatRequest_ty;
  to_wire r := (to_wire (sh_Scope r), tt);
  of_wire '(s, _) := mkSessionHeartbeatRequest (of_wire ScopePayload s)
}.

(** *** Responses *)
Definition RecallHitMetadata_ty : ty :=
  struct [omitting "matched_by" TStr; omitting "token_cost_estimate" TInt].
#[export] Instance RecallHitMetadata_wire : Wire RecallHitMetadata := {
  code := RecallHitMetadata_ty;
  to_wire m := (hm_MatchedBy m, (hm_TokenCostEstimate m, tt));
  of_wire '(b, (c, _)) := mkRecallHitMetadata b c
}.

Definition RecallHitResponse_ty : ty :=
  struct [tagged "memory_id" TStr; tagged "kind" TStr; tagged "score" TFloat; tagged "version" TInt;
    tagged "content" TStr; omitting "tags" (TSlice TStr); tagged "source" TStr; tagged "category" TStr;
    tagged "pinned" TBool; tagged "disabled" TBool; tagged "metadata" RecallHitMetadata_ty].
#[export] Instance RecallHitResponse_wire : Wire RecallHitResponse := {
  code := RecallHitResponse_ty;
  to_wire h := (hit_MemoryID h, (hit_Kind h, (hit_Score h, (hit_Version h, (hit_Content h, (strings (hit_Tags h),
               (hit_Source h, (hit_Category h, (hit_Pinned h, (hit_Disabled h, (to_wire (hit_Metadata h), tt)))))))))));
  of_wire '(i, (k, (s, (v, (c, (t, (o, (g, (p, (d, (m, _))))))))))) := mkRecallHitResponse i k s v c t.1 o g p d (of_wire RecallHitMetadata m)
}.

Definition RecallTraceResponse_ty : ty :=
  struct [omitting "cache_level" TStr; omitting "consistency_level" TStr; tagged "stale_served" TBool;
    omitting "memory_token_budget" TInt; omitting "returned_token_estimate" TInt].
#[export] Instance RecallTraceResponse_wire : Wire RecallTraceResponse := {
  code := RecallTraceResponse_ty;
  to_wire t := (tr_CacheLevel t, (tr_ConsistencyLevel t, (tr_StaleServed t, (tr_MemoryTokenBudget t,
               (tr_ReturnedTokenEstimate t, tt)))));
  of_wire '(l, (c, (s, (m, (e, _))))) := mkRecallTraceResponse l c s m e
}.

(** [RecallUnifiedResponse] with the trace its pointer denotes. *)
Definition RecallUnifiedResponse_ty : ty :=
  struct [tagged "hits" (TSlice RecallHitResponse_ty); omitting "trace" (TPtr RecallTraceResponse_ty)].
#[export] Instance RecallUnifiedResponse_wire : Wire (list RecallHitResponse * option RecallTraceResponse) := {
  code := RecallUnifiedResponse_ty;
  to_wire r := ((map to_wire r.1, []), (to_wire <$> r.2, tt));
  of_wire '(h, (t, _)) := (map (of_wire RecallHitResponse) h.1, of_wire RecallTraceResponse <$> t)
}.

(** [WriteMemoryResponse] around its result. *)
Definition WriteMemoryResult_ty : ty :=
  struct [tagged "memory" (struct [tagged "memory_id" TStr; tagged "version" TInt; tagged "status" TStr])].
#[export] Instance WriteMemoryResult_wire : Wire WriteMemoryResult := {
  code := WriteMemoryResult_ty;
  to_wire r := ((wm_MemoryID r, (wm_Version r, (wm_Status r, tt))), tt);
  of_wire '((i, (v, (s, _))), _) := mkWriteMemoryResult i v s
}.

Definition PatchMemoryResponse_ty : ty :=
  struct [tagged "memory_id" TStr; tagged "version" TInt].
#[export] Instance PatchMemoryResponse_wire : Wire PatchMemoryResponse := {
  code := PatchMemoryResponse_ty;
  to_wire r := (pm_MemoryID r, (pm_Version r, tt));
  of_wire '(i, (v, _)) := mkPatchMemoryResponse i v
}.

Definition PinMemoryResponse_ty : ty :=
  struct [tagged "memory_id" TStr; tagged "version" TInt; tagged "pinned" TBool].
#[export] Instance PinMemoryResponse_wire : Wire PinMemoryResponse := {
  code := PinMemoryResponse_ty;
  to_wire r := (pn_MemoryID r, (pn_Version r, (pn_Pinned r, tt)));
  of_wire '(i, (v, (p, _))) := mkPinMemoryResponse i v p
}.

Definition DisableMemoryResponse_ty : ty :=
  struct [tagged "memory_id" TStr; tagged "version" TInt; tagged "disabled" TBool].
#[export] Instance DisableMemoryResponse_wire : Wire DisableMemoryResponse := {
  code := DisableMemoryResponse_ty;
  to_wire r := (ds_MemoryID r, (ds_Version r, (ds_Disabled r, tt)));
  of_wire '(i, (v, (p, _))) := mkDisableMemoryResponse i v p
}.

Definition DeleteMemoryResponse_ty : ty :=
  struct [tagged "memory_id" TStr; tagged "deleted" TBool; tagged "version" TInt].
#[export] Instance DeleteMemoryResponse_wire : Wire DeleteMemoryResponse := {
  code := DeleteMemoryResponse_ty;
  to_wire r := (dl_MemoryID r, (dl_Deleted r, (dl_Version r, tt)));
  of_wire '(i, (d, (v, _))) := mkDeleteMemoryResponse i d v
}.

Definition SessionCloseResponse_ty : ty :=
  struct [tagged "session_id" TStr; tagged "status" TStr].
#[export] Instance SessionCloseResponse_wire : Wire SessionCloseResponse := {
  code := SessionCloseResponse_ty;
  to_wire r := (sr_SessionID r, (sr_Status r, tt));
  of_wire '(i, (s, _)) := mkSessionCloseResponse i s
}.

Definition SessionHeartbeatResponse_ty : ty :=
  struct [tagged "session_id" TStr; tagged "status" TStr].
#[export] Instance SessionHeartbeatResponse_wire : Wire SessionHeartbeatResponse := {
  code := SessionHeartbeatResponse_ty;
  to_wire r := (hb_SessionID r, (hb_Status r, tt));
  of_wire '(i, (s, _)) := mkSessionHeartbeatResponse i s
}.

Definition GetMemoryItemResponse_ty : ty :=
  struct [tagged "memory_id" TStr; tagged "kind" TStr; tagged "version" TInt; tagged "content" TStr;
    omitting "tags" (TSlice TStr); tagged "source" TStr; tagged "category" TStr;
    omitting "importance" TFloat; tagged "pinned" TBool; tagged "disabled" TBool].
#[export] Instance GetMemoryItemResponse_wire : Wire GetMemoryItemResponse := {
  code := GetMemoryItemResponse_ty;
  to_wire r := (gi_MemoryID r, (gi_Kind r, (gi_Version r, (gi_Content r, (strings (gi_Tags r), (gi_Source r,
               (gi_Category r, (gi_Importance r, (gi_Pinned r, (gi_Disabled r, tt))))))))));
  of_wire '(i, (k, (v, (c, (t, (s, (g, (f, (p, (d, _)))))))))) := mkGetMemoryItemResponse i k v c t.1 s g f p d
}.

(** *** Payloads of the digests; [authz.Scope] has no tags *)
Definition Scope_ty : ty :=
  struct [tagged "TenantID" TStr; tagged "UserID" TStr; tagged "ProjectID" TStr; tagged "SessionID" TStr].
#[export] Instance Scope_wire : Wire Scope := {
  code := Scope_ty;
  to_wire s := (TenantID s, (UserID s, (ProjectID s, (SessionID s, tt))));
  of_wire '(t, (u, (p, (s, _)))) := mkScope t u p s
}.

Definition write_payload_ty : ty :=
  struct [tagged "scope" Scope_ty; tagged "record" WriteRecordPayload_ty].
#[export] Instance write_payload_wire : Wire (Scope * WriteRecordPayload) := {
  code := write_payload_ty;
  to_wire p := (to_wire p.1, (to_wire p.2, tt));
  of_wire '(s, (r, _)) := (of_wire Scope s, of_wire WriteRecordPayload r)
}.

Definition patch_payload_ty : ty :=
  struct [tagged "scope" Scope_ty; tagged "memory_id" TStr; tagged "expected_version" TInt;
    tagged "patch" PatchMemoryFields_ty].
#[export] Instance patch_payload_wire : Wire (Scope * string * Z * PatchMemoryFields) := {
  code := patch_payload_ty;
  to_wire p := (to_wire p.1.1.1, (p.1.1.2, (p.1.2, (to_wire p.2, tt))));
  of_wire '(s, (i, (v, (f, _)))) := (of_wire Scope s, i, v, of_wire PatchMemoryFields f)
}.

(** ** Writing and reading a value *)

(** [json.Marshal]; [None] is the error for a float that JSON has no number
    for.  [Encoder.Encode] adds a newline. *)
Definition Marshal {A} `{Wire A} (a : A) : option string := (fun j => print j EmptyString) <$> enc (code A) (to_wire a).
Definition newline : string := String "010"%char EmptyString.
Definition Encode {A} `{Wire A} (a : A) : string :=
  match Marshal a with Some raw => raw +:+ newline | None => EmptyString end.

(** [Decoder.Decode] into a zero value, and the input it leaves. *)
Definition Decode (A : Type) `{Wire A} (body : string) : option (A * string) :=
  '(j, rest) ← read_json body;
  v ← dec (code A) j (zero (code A));
  Some (of_wire A v, rest).
(** [Decoder.More], after a value has been read. *)
Definition More (body : string) : bool :=
  match read_json body with Some (_, rest) => more rest | None => false end.

(** What a client finds again: zero values for what [omitempty] left out. *)
Definition normal {A} `{Wire A} (a : A) : A := of_wire A (canon (code A) (to_wire a)).
Definition well_formed {A} `{Wire A} (a : A) : Prop := wf (code A) (to_wire a).

Class WireLaws (A : Type) `{Wire A} : Prop := {
  wire_struct : is_struct (code A) = true;
  wire_ok : ty_ok (code A) = true;
  wire_depth : depth (code A) <= maxNestingDepth;
  wire_of_wf v : wf (code A) v -> wf (code A) (to_wire (of_wire A v));
  wire_of_canon v : canon (code A) (to_wire (of_wire A v)) = canon (code A) v
}.

Lemma enc_struct t v j rest : is_struct t = true -> enc t v = Some j -> ends j rest.
Proof. destruct t; try done. intros _. cbn [enc]. destruct (encs fs v); [|done]. by intros [= <-]. Qed.

Lemma Decode_Marshal {A} `{WireLaws A} (a : A) :
  well_formed a ->
  exists raw, Marshal a = Some raw /\ forall rest, Decode A (raw +:+ rest) = Some (normal a, rest).
Proof.
  intros Hw. destruct (proj1 round_trip (code A) wire_ok (to_wire a) Hw) as (j & E1 & E2 & E3 & _ & E5).
  exists (print j EmptyString). unfold Marshal. rewrite E1. split; [done|]. intros rest. rewrite <-print_app.
  change (EmptyString +:+ rest) with rest. unfold Decode.
  rewrite read_json_print; [|done|by eapply enc_struct; [exact wire_struct|]|pose proof wire_depth; lia].
  cbn [mbind option_bind]. by rewrite E5.
Qed.

Lemma Decode_well_formed {A} `{WireLaws A} body (a : A) rest : Decode A body = Some (a, rest) -> well_formed a.
Proof.
  intros Hd. unfold Decode in Hd. apply bind_Some in Hd as ([j r] & Hj & Hd). apply bind_Some in Hd as (v & Hv & Hd).
  injection Hd as <- <-. apply wire_of_wf. eapply (proj1 dec_wf); [by eapply read_json_ok| |exact Hv]. apply zero_wf.
Qed.

(** *** The laws of each type *)
Lemma strings_wf (l h : list string) :
  Forall (fun s => utf8_valid s = true) (l ++ h) -> Forall (fun s => utf8_valid s = true) (l ++ []).
Proof. intros H. rewrite app_nil_r. by apply Forall_app in H as [H _]. Qed.

Ltac wire_fields :=
  repeat match goal with
         | v : prod _ _ |- _ => destruct v
         | v : unit |- _ => destruct v
         | v : option _ |- _ => destruct v
         end;
  cbn in *; repeat match goal with H : _ /\ _ |- _ => destruct H end; split_and!;
  first [done | by eapply strings_wf | idtac].
Ltac wire_laws :=
  split; [reflexivity|vm_compute; reflexivity|vm_compute; discriminate
         |let v := fresh "v" in let Hv := fresh "Hv" in intros v Hv; cbn in v; wire_fields
         |let v := fresh "v" in intros v; cbn in v;
          repeat match goal with
                 | v : prod _ _ |- _ => destruct v
                 | v : unit |- _ => destruct v
                 | v : option _ |- _ => destruct v
                 end; try reflexivity].

#[export] Instance ScopePayload_laws : WireLaws ScopePayload.
Proof. wire_laws. Qed.
#[export] Instance RecallUnifiedRequest_laws : WireLaws RecallUnifiedRequest.
Proof. wire_laws. Qed.
#[export] Instance WriteRecordPayload_laws : WireLaws WriteRecordPayload.
Proof. wire_laws. Qed.
#[export] Instance WriteMemoryRequest_laws : WireLaws WriteMemoryRequest.
Proof. wire_laws. Qed.
#[export] Instance PatchMemoryFields_laws : WireLaws PatchMemoryFields.
Proof. wire_laws. Qed.
#[export] Instance PatchMemoryRequest_laws : WireLaws PatchMemoryRequest.
Proof. wire_laws. Qed.
#[export] Instance PinMemoryRequest_laws : WireLaws PinMemoryRequest.
Proof. wire_laws. Qed.
#[export] Instance DisableMemoryRequest_laws : WireLaws DisableMemoryRequest.
Proof. wire_laws. Qed.
#[export] Instance DeleteMemoryRequest_laws : WireLaws DeleteMemoryRequest.
Proof. wire_laws. Qed.
#[export] Instance SessionCloseRequest_laws : WireLaws SessionCloseRequest.
Proof. wire_laws. Qed.
#[export] Instance SessionHeartbeatRequest_laws : WireLaws SessionHeartbeatRequest.
Proof. wire_laws. Qed.
#[export] Instance RecallHitResponse_laws : WireLaws RecallHitResponse.
Proof. wire_laws. Qed.
#[export] Instance RecallTraceResponse_laws : WireLaws RecallTraceResponse.
Proof. wire_laws. Qed.
#[export] Instance RecallUnifiedResponse_laws : WireLaws (list RecallHitResponse * option RecallTraceResponse).
Proof.
  split; [reflexivity|vm_compute; reflexivity|vm_compute; discriminate| |].
  2: { intros [[l h] [t []]].
       assert (E : map (canon RecallHitResponse_ty) (map (to_wire (A := RecallHitResponse)) (map (of_wire RecallHitResponse) l))
                   = map (canon RecallHitResponse_ty) l).
       { rewrite !map_map. apply map_ext. intros v. exact (wire_of_canon (A := RecallHitResponse) v). }
       assert (F : canon (TPtr RecallTraceResponse_ty) (option_map (to_wire (A := RecallTraceResponse)) (option_map (of_wire RecallTraceResponse) t))
                   = canon (TPtr RecallTraceResponse_ty) t).
       { destruct t as [t|]; [|done]. exact (f_equal Some (wire_of_canon (A := RecallTraceResponse) t)). }
       destruct t as [t|]; exact (f_equal2 (fun a b => ((a, []), (b, tt))) E F). }
  intros [[l h] [t []]] [Hl [Ht _]]. split; [|split; [|done]].
  - change (Forall (wf RecallHitResponse_ty) (l ++ h)) in Hl. apply Forall_app in Hl as [Hl _].
    change (Forall (wf RecallHitResponse_ty) (map (to_wire (A := RecallHitResponse)) (map (of_wire RecallHitResponse) l) ++ [])). rewrite app_nil_r, map_map. apply Forall_fmap.
    eapply Forall_impl; [exact Hl|]. intros v Hv. exact (wire_of_wf (A := RecallHitResponse) v Hv).
  - destruct t as [t|]; [|done]. exact (wire_of_wf (A := RecallTraceResponse) t Ht).
Qed.
#[export] Instance WriteMemoryResult_laws : WireLaws WriteMemoryResult.
Proof. wire_laws. Qed.
#[export] Instance PatchMemoryResponse_laws : WireLaws PatchMemoryResponse.
Proof. wire_laws. Qed.
#[export] Instance PinMemoryResponse_laws : WireLaws PinMemoryResponse.
Proof. wire_laws. Qed.
#[export] Instance DisableMemoryResponse_laws : WireLaws DisableMemoryResponse.
Proof. wire_laws. Qed.
#[export] Instance DeleteMemoryResponse_laws : WireLaws DeleteMemoryResponse.
Proof. wire_laws. Qed.
#[export] Instance SessionCloseResponse_laws : WireLaws SessionCloseResponse.
Proof. wire_laws. Qed.
#[export] Instance SessionHeartbeatResponse_laws : WireLaws SessionHeartbeatResponse.
Proof. wire_laws. Qed.
#[export] Instance GetMemoryItemResponse_laws : WireLaws GetMemoryItemResponse.
Proof. wire_laws. Qed.
#[export] Instance write_payload_laws : WireLaws (Scope * WriteRecordPayload).
Proof. wire_laws. Qed.
#[export] Instance patch_payload_laws : WireLaws (Scope * string * Z * PatchMemoryFields).
Proof. wire_laws. Qed.

(** *** What comes back *)
Lemma omit_string (s : string) : (if bool_decide (s = EmptyString) then EmptyString else s) = s.
Proof. destruct (bool_decide_reflect (s = EmptyString)); by subst. Qed.
Lemma omit_int z : (if z =? 0 then 0 else z) = z.
Proof. destruct (Z.eqb_spec z 0); by subst. Qed.
Lemma omit_bool b : (if negb b then false else b) = b.
Proof. by destruct b. Qed.
Lemma omit_strings (l : list string) :
  (if match l with [] => true | _ => false end then ([], []) else (map (fun s => s) l, @nil string)) = (l, []).
Proof. destruct l as [|s l]; [done|]. by rewrite map_id. Qed.
Lemma omit_string_ptr (p : option string) :
  (if match p with None => true | _ => false end then None else match p with None => None | Some s => Some s end) = p.
Proof. by destruct p. Qed.

(** A zero of either sign comes back as zero. *)
Definition plain_zero (f : float64) : float64 := match f with S754_zero _ => f_zero | _ => f end.
Lemma omit_float f : (if match f with S754_zero _ => true | _ => false end then f_zero else f) = plain_zero f.
Proof. by destruct f. Qed.
Ltac wire_normal :=
  repeat match goal with
         | v : ScopePayload |- _ => destruct v
         | v : WriteRecordPayload |- _ => destruct v
         | v : PatchMemoryFields |- _ => destruct v
         | v : Scope |- _ => destruct v
         | v : option _ |- _ => destruct v
         end;
  unfold normal; cbn; rewrite ?omit_string, ?omit_int, ?omit_bool, ?omit_strings, ?omit_float, ?map_id; try reflexivity.

Definition plain_record (p : WriteRecordPayload) : WriteRecordPayload :=
  mkWriteRecordPayload (wp_Kind p) (wp_Source p) (wp_Category p) (wp_Content p) (wp_Tags p)
    (plain_zero (wp_Importance p)) (wp_Pinned p).

Lemma normal_recall (r : RecallUnifiedRequest) : normal r = r.
Proof. destruct r. wire_normal. Qed.
Lemma normal_write (r : WriteMemoryRequest) :
  normal r = mkWriteMemoryRequest (wr_IdempotencyKey r) (wr_Scope r) (plain_record (wr_Record r)).
Proof. destruct r. wire_normal. Qed.
Lemma normal_patch (r : PatchMemoryRequest) : normal r = r.
Proof. destruct r. wire_normal. Qed.
Lemma normal_pin (r : PinMemoryRequest) : normal r = r.
Proof. destruct r. wire_normal. Qed.
Lemma normal_disable (r : DisableMemoryRequest) : normal r = r.
Proof. destruct r. wire_normal. Qed.
Lemma normal_delete (r : DeleteMemoryRequest) : normal r = r.
Proof. destruct r. wire_normal. Qed.
Lemma normal_close (r : SessionCloseRequest) : normal r = r.
Proof. destruct r. wire_normal. Qed.
Lemma normal_heartbeat (r : SessionHeartbeatRequest) : normal r = r.
Proof. destruct r. wire_normal. Qed.
Lemma normal_write_payload (p : Scope * WriteRecordPayload) : normal p = (p.1, plain_record p.2).
Proof. destruct p. wire_normal. Qed.
Lemma normal_patch_payload (p : Scope * string * Z * PatchMemoryFields) : normal p = p.
Proof. destruct p as [[[] ?] ?]. wire_normal. Qed.

Lemma normal_hit (r : RecallHitResponse) : normal r = r.
Proof. destruct r as [? ? ? ? ? ? ? ? ? ? []]. wire_normal. Qed.
Lemma normal_trace (r : RecallTraceResponse) : normal r = r.
Proof. destruct r. wire_normal. Qed.
Lemma normal_recalled (r : list RecallHitResponse * option RecallTraceResponse) : normal r = r.
Proof.
  destruct r as [l t].
  assert (El : map (fun h : RecallHitResponse => normal h) l = l).
  { rewrite <-(map_id l) at 2. apply map_ext. apply normal_hit. }
  assert (Et : option_map (fun t : RecallTraceResponse => normal t) t = t) by (destruct t as [t|]; [exact (f_equal Some (normal_trace t))|done]).
  transitivity (map (fun h : RecallHitResponse => normal h) l, option_map (fun t : RecallTraceResponse => normal t) t);
    [|by rewrite El, Et].
  assert (Em : map (of_wire RecallHitResponse) (map (canon RecallHitResponse_ty) (map to_wire l))
               = map (fun h : RecallHitResponse => normal h) l) by by rewrite !map_map.
  rewrite <-Em. by destruct t.
Qed.
Lemma normal_written (r : WriteMemoryResult) : normal r = r.
Proof. destruct r. wire_normal. Qed.
Lemma normal_patched (r : PatchMemoryResponse) : normal r = r.
Proof. destruct r. wire_normal. Qed.
Lemma normal_pinned (r : PinMemoryResponse) : normal r = r.
Proof. destruct r. wire_normal. Qed.
Lemma normal_disabled (r : DisableMemoryResponse) : normal r = r.
Proof. destruct r. wire_normal. Qed.
Lemma normal_deleted (r : DeleteMemoryResponse) : normal r = r.
Proof. destruct r. wire_normal. Qed.
Lemma normal_closed (r : SessionCloseResponse) : normal r = r.
Proof. destruct r. wire_normal. Qed.
Lemma normal_beaten (r : SessionHeartbeatResponse) : normal r = r.
Proof. destruct r. wire_normal. Qed.
Definition plain_item (r : GetMemoryItemResponse) : GetMemoryItemResponse :=
  mkGetMemoryItemResponse (gi_MemoryID r) (gi_Kind r) (gi_Version r) (gi_Content r) (gi_Tags r) (gi_Source r)
    (gi_Category r) (plain_zero (gi_Importance r)) (gi_Pinned r) (gi_Disabled r).
Lemma normal_item (r : GetMemoryItemResponse) : normal r = plain_item r.
Proof. destruct r. wire_normal. Qed.

(** ** Properties *)
Lemma normal_wire {A} `{WireLaws A} (a : A) : canon (code A) (to_wire (normal a)) = canon (code A) (to_wire a).
Proof. unfold normal. by rewrite wire_of_canon, (proj1 canon_idem). Qed.

Lemma Marshal_normal {A} `{WireLaws A} (a : A) : Marshal (normal a) = Marshal a.
Proof.
  unfold Marshal. f_equal. rewrite <-(proj1 enc_canon _ (to_wire (normal a))), normal_wire. apply enc_canon.
Qed.

Lemma normal_idem {A} `{WireLaws A} (a : A) : normal (normal a) = normal a.
Proof. unfold normal at 1. by rewrite normal_wire. Qed.

(** Values of [A] come back from the wire, [plain] of them; and two of them are
    written alike exactly when the same comes back. *)
Definition comes_back {A} `{Wire A} (plain : A -> A) : Prop :=
  forall a, well_formed a ->
    (exists raw, Marshal a = Some raw /\ forall rest, Decode A (raw +:+ rest) = Some (plain a, rest)) /\
    forall b, well_formed b -> (Marshal b = Marshal a <-> plain b = plain a).

Lemma comes_back_normal {A} `{WireLaws A} (plain : A -> A) : (forall a, normal a = plain a) -> comes_back plain.
Proof.
  intros Hn a Ha. destruct (Decode_Marshal a Ha) as (raw & E & D). rewrite Hn in D. split; [by exists raw|].
  intros b Hb. destruct (Decode_Marshal b Hb) as (raw' & E' & D'). rewrite Hn in D'. split.
  - rewrite E, E'. intros [= ->]. specialize (D EmptyString). rewrite (D' EmptyString) in D. by injection D.
  - intros Eq. by rewrite <-(Marshal_normal b), <-(Marshal_normal a), !Hn, Eq.
Qed.

(** C12: Every request and every response of the contract whose strings are
    UTF-8, whose integers have 64 bits and whose floats are finite can be
    written as JSON, and reading what was written gives back the very same
    value, field by field, and leaves the rest of the input; only in the
    importance of a write and of an item read does a negative zero come back
    as a positive one ([omitempty] leaves it out).  Two values are written
    alike exactly when the same comes back.  (A recall response is the hits
    with the trace its pointer denotes, a write response its result.) *)
Theorem marshal_round_trip :
  comes_back (fun r : RecallUnifiedRequest => r) /\
  comes_back (fun r : WriteMemoryRequest =>
    mkWriteMemoryRequest (wr_IdempotencyKey r) (wr_Scope r)
      (mkWriteRecordPayload (wp_Kind (wr_Record r)) (wp_Source (wr_Record r)) (wp_Category (wr_Record r))
         (wp_Content (wr_Record r)) (wp_Tags (wr_Record r)) (plain_zero (wp_Importance (wr_Record r)))
         (wp_Pinned (wr_Record r)))) /\
  comes_back (fun r : PatchMemoryRequest => r) /\
  comes_back (fun r : PinMemoryRequest => r) /\
  comes_back (fun r : DisableMemoryRequest => r) /\
  comes_back (fun r : DeleteMemoryRequest => r) /\
  comes_back (fun r : SessionCloseRequest => r) /\
  comes_back (fun r : SessionHeartbeatRequest => r) /\
  comes_back (fun r : list RecallHitResponse * option RecallTraceResponse => r) /\
  comes_back (fun r : WriteMemoryResult => r) /\
  comes_back (fun r : PatchMemoryResponse => r) /\
  comes_back (fun r : PinMemoryResponse => r) /\
  comes_back (fun r : DisableMemoryResponse => r) /\
  comes_back (fun r : DeleteMemoryResponse => r) /\
  comes_back (fun r : SessionCloseResponse => r) /\
  comes_back (fun r : SessionHeartbeatResponse => r) /\
  comes_back (fun r : GetMemoryItemResponse =>
    mkGetMemoryItemResponse (gi_MemoryID r) (gi_Kind r) (gi_Version r) (gi_Content r) (gi_Tags r) (gi_Source r)
      (gi_Category r) (plain_zero (gi_Importance r)) (gi_Pinned r) (gi_Disabled r)).
Proof.
  split_and!; apply comes_back_normal;
    [ apply normal_recall | apply normal_write | apply normal_patch | apply normal_pin | apply normal_disable
    | apply normal_delete | apply normal_close | apply normal_heartbeat | apply normal_recalled
    | apply normal_written | apply normal_patched | apply normal_pinned | apply normal_disabled
    | apply normal_deleted | apply normal_closed | apply normal_beaten | apply normal_item ].
Qed.

Definition wire_write : WriteMemoryRequest :=
  mkWriteMemoryRequest "k<1>" (mkScopePayload "acme" "alice" "" "s1")
    (mkWriteRecordPayload "profile" "user_saved" "tea" (String "195" (String "169" "tude & cie")) ["a"; "b"]%string f_half true).

Lemma marshal_round_trip_witness :
  Decode WriteMemoryRequest (Encode wire_write) = Some (wire_write, newline) /\
  exists raw, Marshal wire_write = Some raw /\ forall rest, Decode WriteMemoryRequest (raw +:+ rest) = Some (wire_write, rest).
Proof.
  split; [vm_compute; reflexivity|].
  assert (W : well_formed wire_write) by (repeat split; try reflexivity; repeat constructor).
  exact (proj1 (proj1 (proj2 marshal_round_trip) wire_write W)).
Defined.

(** A body with keys in another case, an explicit null, a duplicate and white
    space; an unknown key, a bad number, a second value. *)
Definition q (s : string) : string := String dquote (s +:+ String dquote EmptyString).
Example decode_session_close :
  Decode SessionCloseRequest (" { " +:+ q "Scope" +:+ " : {" +:+ q "tenant_id" +:+ ":" +:+ q "a" +:+ "} , " +:+ q "mode" +:+ ":"
    +:+ q "x" +:+ ", " +:+ q "MODE" +:+ ":" +:+ q "delete" +:+ ", " +:+ q "scope" +:+ ":null} ")
    = Some (mkSessionCloseRequest (mkScopePayload "a" "" "" "") "delete", " "%string) /\
  Decode SessionCloseRequest ("{" +:+ q "node" +:+ ":" +:+ q "x" +:+ "}") = None /\
  Decode PinMemoryRequest ("{" +:+ q "expected_version" +:+ ":1.0}") = None /\
  Decode PinMemoryRequest "null" = Some (mkPinMemoryRequest (mkScopePayload "" "" "" "") 0, EmptyString) /\
  More "{} {}" = true /\ More "{} " = false /\ More "{} }" = false.
Proof. vm_compute. repeat split. Qed.

(** ** The digests of idempotent requests *)
Section digest.
Context (sha256 : string -> string).

(** [hex.EncodeToString] *)
Fixpoint hex_encode (s : string) : string :=
  match s with
  | EmptyString => EmptyString
  | String c s => String (hex_char (byte_val c / 16)) (String (hex_char (byte_val c mod 16)) (hex_encode s))
  end.

Lemma hex_char_inj a b : 0 <= a < 16 -> 0 <= b < 16 -> hex_char a = hex_char b -> a = b.
Proof. intros Ha Hb H. apply hex_val_char in Ha, Hb. rewrite H, Hb in Ha. by injection Ha. Qed.

Lemma hex_encode_inj s t : hex_encode s = hex_encode t -> s = t.
Proof.
  revert t. induction s as [|c s IH]; intros [|d t]; try done. cbn [hex_encode]. intros [= H1 H2 H3].
  pose proof (byte_val_bounds c). pose proof (byte_val_bounds d).
  assert (B : forall z, 0 <= z < 256 -> 0 <= z / 16 < 16 /\ 0 <= z mod 16 < 16).
  { intros z Hz. pose proof (Z.mod_pos_bound z 16 ltac:(lia)). split; [|done].
    split; [apply Z.div_pos; lia|apply Z.div_lt_upper_bound; lia]. }
  apply hex_char_inj in H1; [|by apply B..]. apply hex_char_inj in H2; [|by apply B..].
  pose proof (Z.div_mod (byte_val c) 16 ltac:(lia)). pose proof (Z.div_mod (byte_val d) 16 ltac:(lia)).
  f_equal; [|by apply IH]. apply is_char_spec. unfold is_char. apply Z.eqb_eq. lia.
Qed.

(** A failed [Marshal] leaves no bytes. *)
Definition payload_digest {A} `{Wire A} (a : A) : string := hex_encode (sha256 (default EmptyString (Marshal a))).
Definition write_request_digest (scope : Scope) (record : WriteRecordPayload) : string := payload_digest (scope, record).
Definition patch_request_digest (scope : Scope) (memoryID : string) (version : Z) (patch : PatchMemoryFields) : string :=
  payload_digest (scope, memoryID, version, patch).

(** Two texts that SHA-256 does not tell apart. *)
Definition collide (a b : option string) : Prop :=
  exists raw raw', a = Some raw /\ b = Some raw' /\ raw <> raw' /\ sha256 raw = sha256 raw'.

Lemma payload_digest_spec {A} `{WireLaws A} (a b : A) :
  well_formed a -> well_formed b ->
  (normal a = normal b -> payload_digest a = payload_digest b) /\
  (payload_digest a = payload_digest b -> normal a = normal b \/ collide (Marshal a) (Marshal b)).
Proof.
  intros Ha Hb. destruct (Decode_Marshal a Ha) as (raw & Ea & Da), (Decode_Marshal b Hb) as (raw' & Eb & Db).
  unfold payload_digest. split.
  - intros E. by rewrite <-(Marshal_normal a), E, Marshal_normal.
  - rewrite Ea, Eb. cbn [default from_option id]. intros E%hex_encode_inj.
    destruct (decide (raw = raw')) as [->|Hne]; [|right; by exists raw, raw'].
    left. specialize (Da EmptyString). rewrite (Db EmptyString) in Da. by injection Da.
Qed.
End digest.

(** C14: The hash stored with an idempotency key tells payloads apart.  Two
    writes in UTF-8 with the same scope and the same record, up to the sign of a
    zero importance, have one digest; if the digests of two writes agree although
    scope or record differ, or those of two patches although scope, memory,
    expected version or fields do, their JSON texts are a collision of SHA-256. *)
Theorem digests_separate_payloads sha256 s s' r r' id id' v v' f f' :
  well_formed (s, r) -> well_formed (s', r') -> well_formed (s, id, v, f) -> well_formed (s', id', v', f') ->
  let W := write_request_digest sha256 in
  let P := patch_request_digest sha256 in
  (s = s' /\ plain_record r = plain_record r' -> W s r = W s' r') /\
  (W s r = W s' r' -> s = s' /\ plain_record r = plain_record r' \/ collide sha256 (Marshal (s, r)) (Marshal (s', r'))) /\
  (P s id v f = P s' id' v' f' ->
     s = s' /\ id = id' /\ v = v' /\ f = f' \/ collide sha256 (Marshal (s, id, v, f)) (Marshal (s', id', v', f'))).
Proof.
  intros W W' P P'.
  destruct (payload_digest_spec sha256 (s, r) (s', r') W W') as [W1 W2].
  destruct (payload_digest_spec sha256 (s, id, v, f) (s', id', v', f') P P') as [_ P2].
  rewrite !normal_write_payload in W1, W2. rewrite !normal_patch_payload in P2. cbn [fst snd] in *. split_and!.
  - intros [-> E]. apply W1. f_equal. exact E.
  - intros E. destruct (W2 E) as [E'|]; [left|by right]. split; [exact (f_equal fst E')|exact (f_equal snd E')].
  - intros E. destruct (P2 E) as [[= -> -> -> ->]|]; [by left|by right].
Qed.

Lemma digests_separate_payloads_witness :
  let s := mkScope "acme" "alice" "" "" in
  let f := mkPatchMemoryFields (Some "x"%string) None None None in
  patch_request_digest (fun raw => raw) s "m1" 1 f <> patch_request_digest (fun raw => raw) s "m1" 2 f.
Proof.
  intros s f E.
  assert (W : well_formed (s, wr_Record wire_write)) by (repeat split; try reflexivity; repeat constructor).
  assert (P : forall v, (0 <=? v) && (v <=? 2) = true -> well_formed (s, "m1"%string, v, f)).
  { intros v Hv. repeat split; try reflexivity; unfold min_int64, max_int64; cbn; lia. }
  destruct (digests_separate_payloads (fun raw => raw) s s (wr_Record wire_write) (wr_Record wire_write) "m1" "m1" 1 2 f f
              W W (P 1 eq_refl) (P 2 eq_refl)) as (_ & _ & H).
  destruct (H E) as [(_ & _ & E' & _)|(raw & raw' & _ & _ & Hne & Heq)]; [discriminate E'|by apply Hne].
Defined.
Close Scope Z_scope.
