(* ===== verification/ScopeKeys.v ===== *)
(** * Scope keys

    The session registry, the scope-version store and the recall cache index
    their Go maps by strings built from a scope with ["|"] between the fields
    ([sessionScopeKey] in [service/session_registry.go], [mergeScope],
    [buildRecallCacheKey] and [hasScopePrefix] in [service/service.go]).  For
    scopes whose fields hold no ["|"] the keys separate scopes; in general they
    do not. *)
From S2P Require Import Prelude GoStrings HttpApi Authz.
From Stdlib Require Import Ascii.
Open Scope string_scope.

Definition mergeScope (authScope : Scope) (claimed : ScopePayload) : Scope :=
  MergeAuthoritativeScope authScope
    {| TenantID := sp_TenantID claimed;
       UserID := sp_UserID claimed;
       ProjectID := sp_ProjectID claimed;
       SessionID := sp_SessionID claimed |}.

Definition sessionScopeKey (scope : Scope) : string :=
  TenantID scope ++ "|" ++ UserID scope ++ "|" ++ ProjectID scope ++ "|" ++ SessionID scope.

Definition consistencyLevelOrDefault (level : string) : string :=
  if bool_decide (level = "") then "eventual" else level.

Definition buildRecallCacheKey (scope : Scope) (req : RecallUnifiedRequest) : string :=
  let topK := if bool_decide (rr_TopK req = 0%Z) then 8%Z else rr_TopK req in
  TenantID scope ++ "|" ++ UserID scope ++ "|" ++ ProjectID scope ++ "|" ++ SessionID scope
  ++ "|" ++ TrimSpace (rr_Query req) ++ "|" ++ fmt_d topK ++ "|" ++ fmt_d (rr_TokenBudget req)
  ++ "|" ++ fmt_d (rr_MemoryTokenBudget req) ++ "|" ++ fmt_t (rr_AllowStaleCache req).

Definition hasScopePrefix (key : string) (scope : Scope) : bool :=
  String.prefix (TenantID scope ++ "|" ++ UserID scope ++ "|" ++ ProjectID scope
                 ++ "|" ++ SessionID scope ++ "|") key.

(** ** Separator-free scopes *)
Definition pipe : ascii := "|"%char.

Fixpoint free_of (sep : ascii) (s : string) : bool :=
  match s with
  | EmptyString => true
  | String c s' => negb (Ascii.eqb c sep) && free_of sep s'
  end.
Abbreviation pipe_free := (free_of pipe).

Definition clean_scope (scope : Scope) : bool :=
  pipe_free (TenantID scope) && pipe_free (UserID scope)
  && pipe_free (ProjectID scope) && pipe_free (SessionID scope).

Lemma clean_scope_fields scope :
  clean_scope scope = true ->
  pipe_free (TenantID scope) = true /\ pipe_free (UserID scope) = true /\
  pipe_free (ProjectID scope) = true /\ pipe_free (SessionID scope) = true.
Proof. unfold clean_scope. rewrite !andb_true_iff. tauto. Qed.

Lemma str_app_nil (b : string) : "" ++ b = b.
Proof. done. Qed.
Lemma str_app_cons c (a b : string) : String c a ++ b = String c (a ++ b).
Proof. done. Qed.

Lemma str_app_assoc (a b c : string) : (a ++ b) ++ c = a ++ b ++ c.
Proof. induction a as [|x a IH]; [done|]. rewrite !str_app_cons. by rewrite IH. Qed.

Lemma free_of_app sep a b : free_of sep (a ++ b) = free_of sep a && free_of sep b.
Proof. induction a as [|c a IH]; [done|]. rewrite str_app_cons. cbn. by rewrite IH, andb_assoc. Qed.

Lemma pipe_free_pipe_app a x : pipe_free (a ++ "|" ++ x) = false.
Proof. rewrite !free_of_app. apply andb_false_r. Qed.

(** Cut at the first separator. *)
Lemma cut_left a b x y :
  pipe_free a = true -> pipe_free b = true ->
  a ++ "|" ++ x = b ++ "|" ++ y -> a = b /\ x = y.
Proof.
  revert b. induction a as [|c a IH]; intros [|d b] Ha Hb;
    rewrite ?str_app_cons, ?str_app_nil.
  - by intros [= ->].
  - intros [= <- _]. done.
  - intros [= -> _]. done.
  - intros [= <- E2]. cbn in Ha, Hb. apply andb_true_iff in Ha as [_ Ha], Hb as [_ Hb].
    destruct (IH b Ha Hb E2) as [-> ->]. done.
Qed.

(** Cut at the last separator. *)
Lemma cut_right a b x y :
  pipe_free a = true -> pipe_free b = true ->
  x ++ "|" ++ a = y ++ "|" ++ b -> x = y /\ a = b.
Proof.
  intros Ha Hb. revert y. induction x as [|c x IH]; intros [|d y];
    rewrite ?str_app_cons, ?str_app_nil.
  - by intros [= ->].
  - intros [= _ E]. assert (pipe_free a = false) by (rewrite E; apply pipe_free_pipe_app). congruence.
  - intros [= _ E]. assert (pipe_free b = false) by (rewrite <-E; apply pipe_free_pipe_app). congruence.
  - intros [= <- E]. destruct (IH y E) as [-> ->]. done.
Qed.

(** Decimal numbers contain no other character than these. *)
Definition decimal_chars : string := "-0123456789".

Lemma free_of_pretty_N_go sep x s :
  free_of sep decimal_chars = true -> free_of sep s = true -> free_of sep (pretty_N_go x s) = true.
Proof.
  intros Hd. revert s. induction (N.lt_wf_0 x) as [x _ IH]; intros s Hs.
  destruct (decide (x = 0)%N) as [->|Hx]; [by rewrite pretty_N_go_0|].
  rewrite pretty_N_go_step by lia. apply IH; [apply N.div_lt; lia|].
  unfold decimal_chars in Hd. cbn [free_of] in Hd. rewrite !andb_true_iff in Hd.
  cbn [free_of]. rewrite Hs, andb_true_r. unfold pretty_N_char. repeat case_match; tauto.
Qed.

Lemma free_of_fmt_d sep z : free_of sep decimal_chars = true -> free_of sep (fmt_d z) = true.
Proof.
  intros Hd. pose proof Hd as Hc. unfold decimal_chars in Hc. cbn [free_of] in Hc. rewrite !andb_true_iff in Hc.
  unfold fmt_d, pretty, pretty_Z. destruct z as [|p|p]; [cbn; rewrite andb_true_iff; tauto| |];
    unfold pretty, pretty_positive, pretty, pretty_N; case_decide; try done.
  - by apply free_of_pretty_N_go.
  - rewrite free_of_app, free_of_pretty_N_go by done. cbn. rewrite !andb_true_iff. tauto.
Qed.

Lemma pipe_free_fmt_d z : pipe_free (fmt_d z) = true.
Proof. by apply free_of_fmt_d. Qed.

Lemma pipe_free_fmt_t b : pipe_free (fmt_t b) = true.
Proof. by destruct b. Qed.

Lemma fmt_t_inj b b' : fmt_t b = fmt_t b' -> b = b'.
Proof. by destruct b, b'. Qed.

Lemma fmt_d_inj z z' : fmt_d z = fmt_d z' -> z = z'.
Proof. unfold fmt_d. apply (inj pretty). Qed.

#[export] Hint Resolve pipe_free_fmt_d pipe_free_fmt_t : gateway_errors.

(** ** Keys separate clean scopes *)
Lemma scope_eq_fields s s' :
  TenantID s = TenantID s' -> UserID s = UserID s' ->
  ProjectID s = ProjectID s' -> SessionID s = SessionID s' -> s = s'.
Proof. destruct s, s'; cbn; congruence. Qed.

Lemma sessionScopeKey_inj s s' :
  clean_scope s = true -> clean_scope s' = true ->
  sessionScopeKey s = sessionScopeKey s' -> s = s'.
Proof.
  intros (Ht & Hu & Hp & _)%clean_scope_fields (Ht' & Hu' & Hp' & _)%clean_scope_fields.
  unfold sessionScopeKey. intros E.
  apply cut_left in E as [E1 E]; [|done..].
  apply cut_left in E as [E2 E]; [|done..].
  apply cut_left in E as [E3 E]; [|done..].
  by apply scope_eq_fields.
Qed.

(** The tail of a recall key behind the scope fields. *)
Definition recall_key_tail (req : RecallUnifiedRequest) : string :=
  TrimSpace (rr_Query req) ++ "|"
  ++ fmt_d (if bool_decide (rr_TopK req = 0%Z) then 8%Z else rr_TopK req)
  ++ "|" ++ fmt_d (rr_TokenBudget req)
  ++ "|" ++ fmt_d (rr_MemoryTokenBudget req) ++ "|" ++ fmt_t (rr_AllowStaleCache req).

Lemma recall_key_split s s' x y :
  clean_scope s = true -> clean_scope s' = true ->
  TenantID s ++ "|" ++ UserID s ++ "|" ++ ProjectID s ++ "|" ++ SessionID s ++ "|" ++ x
  = TenantID s' ++ "|" ++ UserID s' ++ "|" ++ ProjectID s' ++ "|" ++ SessionID s' ++ "|" ++ y ->
  s = s' /\ x = y.
Proof.
  intros (Ht & Hu & Hp & Hs)%clean_scope_fields (Ht' & Hu' & Hp' & Hs')%clean_scope_fields E.
  apply cut_left in E as [E1 E]; [|done..].
  apply cut_left in E as [E2 E]; [|done..].
  apply cut_left in E as [E3 E]; [|done..].
  apply cut_left in E as [E4 E]; [|done..].
  split; [by apply scope_eq_fields|done].
Qed.

Lemma recall_key_tail_inj r r' :
  recall_key_tail r = recall_key_tail r' ->
  TrimSpace (rr_Query r) = TrimSpace (rr_Query r') /\
  (if bool_decide (rr_TopK r = 0%Z) then 8%Z else rr_TopK r)
  = (if bool_decide (rr_TopK r' = 0%Z) then 8%Z else rr_TopK r') /\
  rr_TokenBudget r = rr_TokenBudget r' /\
  rr_MemoryTokenBudget r = rr_MemoryTokenBudget r' /\
  rr_AllowStaleCache r = rr_AllowStaleCache r'.
Proof.
  unfold recall_key_tail. rewrite <-!str_app_assoc. intros E.
  rewrite !(str_app_assoc _ "|") in E.
  apply cut_right in E as [E Eb]; [|auto with gateway_errors..].
  rewrite <-!str_app_assoc in E. rewrite !(str_app_assoc _ "|") in E.
  apply cut_right in E as [E Em]; [|auto with gateway_errors..].
  rewrite <-!str_app_assoc in E. rewrite !(str_app_assoc _ "|") in E.
  apply cut_right in E as [E Et]; [|auto with gateway_errors..].
  rewrite <-!str_app_assoc in E. rewrite !(str_app_assoc _ "|") in E.
  apply cut_right in E as [E Ek]; [|auto with gateway_errors..].
  repeat split; [done | by apply fmt_d_inj | by apply fmt_d_inj | by apply fmt_d_inj
                | by apply fmt_t_inj].
Qed.
