(* ===== verification/GoPath.v ===== *)
(** * Paths: [path.Clean], [url.PathUnescape] and the pattern matching of
      [net/http]'s [ServeMux]

    A path is the escaped path of the request ([URL.EscapedPath]).  The mux
    cleans it, redirects when that changes it, and matches the unescaped
    segments against the registered patterns. *)
From Stdlib Require Import Ascii.
From S2P Require Import Prelude GoStrings ScopeKeys Json.
Open Scope string_scope.

Definition slash : ascii := "/"%char.

(** ** Segments *)
Fixpoint split_slash (s : string) : list string :=
  match s with
  | EmptyString => [EmptyString]
  | String c rest =>
      if Ascii.eqb c slash then EmptyString :: split_slash rest
      else match split_slash rest with
           | seg :: segs => String c seg :: segs
           | [] => [String c EmptyString]
           end
  end.

Fixpoint join_slash (segs : list string) : string :=
  match segs with
  | [] => EmptyString
  | [seg] => seg
  | seg :: segs => seg +:+ String slash (join_slash segs)
  end.

(** [path.Clean] of a rooted path; [kept] is the stack of segments. *)
Fixpoint clean_segments (kept segs : list string) : list string :=
  match segs with
  | [] => rev kept
  | seg :: segs =>
      if bool_decide (seg = "") || bool_decide (seg = ".") then clean_segments kept segs
      else if bool_decide (seg = "..") then clean_segments (tail kept) segs
      else clean_segments (seg :: kept) segs
  end.
Definition path_Clean (p : string) : string := String slash (join_slash (clean_segments [] (split_slash p))).

Fixpoint ends_with_slash (p : string) : bool :=
  match p with
  | EmptyString => false
  | String c EmptyString => Ascii.eqb c slash
  | String _ rest => ends_with_slash rest
  end.

(** [cleanPath] of [net/http/server.go]. *)
Definition cleanPath (p : string) : string :=
  let p := match p with
           | EmptyString => "/"
           | String c _ => if Ascii.eqb c slash then p else String slash p
           end in
  let np := path_Clean p in
  if ends_with_slash p && negb (bool_decide (np = "/")) then np +:+ "/" else np.

(** ** Escapes *)
Fixpoint unescape (s : string) : option string :=
  match s with
  | EmptyString => Some EmptyString
  | String c rest =>
      if Ascii.eqb c "%" then
        match rest with
        | String a (String b rest) =>
            h ← hex_val a; l ← hex_val b; r ← unescape rest;
            Some (String (byte (h * 16 + l)%Z) r)
        | _ => None
        end
      else String c <$> unescape rest
  end.
(** [pathUnescape] of [net/http/routing_tree.go]. *)
Definition pathUnescape (s : string) : string := default s (unescape s).

(** ** Patterns

    A pattern is a method and the segments of its path, of which the ones in
    braces match any segment. *)
Definition is_wildcard (seg : string) : bool :=
  match seg with String c _ => Ascii.eqb c "{" | EmptyString => false end.

Fixpoint match_segments (pat path : list string) : option (list string) :=
  match pat, path with
  | [], [] => Some []
  | p :: pat, s :: path =>
      if is_wildcard p then cons s <$> match_segments pat path
      else if bool_decide (p = s) then match_segments pat path else None
  | _, _ => None
  end.

(** The segments that are matched.  None of the patterns of the gateway ends
    with a slash, so a path that does matches none. *)
Definition path_segments (path : string) : option (list string) :=
  if ends_with_slash path then None else Some (map pathUnescape (tail (split_slash path))).

Definition match_path (pattern path : string) : option (list string) :=
  segs ← path_segments path; match_segments (tail (split_slash pattern)) segs.

(** A pattern for [GET] matches [HEAD]. *)
Definition match_method (pattern method : string) : bool :=
  bool_decide (pattern = method) || bool_decide (pattern = "GET") && bool_decide (method = "HEAD").

(** ** Lemmas *)
Lemma split_slash_free s : free_of slash s = true -> split_slash s = [s].
Proof.
  induction s as [|c s IH]; [done|]. cbn. rewrite andb_true_iff, negb_true_iff. intros [-> Hs].
  by rewrite (IH Hs).
Qed.

Lemma split_slash_app s t :
  free_of slash s = true -> split_slash (s +:+ String slash t) = s :: split_slash t.
Proof.
  induction s as [|c s IH]; [done|]. rewrite str_app_cons. cbn. rewrite andb_true_iff, negb_true_iff.
  intros [-> Hs]. by rewrite (IH Hs).
Qed.

Lemma split_join segs :
  segs <> [] -> Forall (fun s => free_of slash s = true) segs -> split_slash (join_slash segs) = segs.
Proof.
  intros Hne H. induction H as [|s segs Hs H IH]; [done|]. destruct segs as [|s' segs].
  - by apply split_slash_free.
  - change (join_slash (s :: s' :: segs)) with (s +:+ String slash (join_slash (s' :: segs))).
    by rewrite split_slash_app, IH.
Qed.

(** Patterns taken apart. *)
Lemma match_literal p pat segs ids :
  is_wildcard p = false -> match_segments (p :: pat) segs = Some ids ->
  exists rest, segs = p :: rest /\ match_segments pat rest = Some ids.
Proof.
  intros Hp. cbn. destruct segs as [|s segs]; [done|]. rewrite Hp. case_bool_decide; [subst|done]. eauto.
Qed.

Lemma match_wildcard p pat segs ids :
  is_wildcard p = true -> match_segments (p :: pat) segs = Some ids ->
  exists s rest ids', segs = s :: rest /\ ids = s :: ids' /\ match_segments pat rest = Some ids'.
Proof.
  intros Hp. cbn. destruct segs as [|s segs]; [done|]. rewrite Hp.
  intros H. apply fmap_Some in H as (ids' & H & ->). eauto 6.
Qed.

Lemma match_end segs ids : match_segments [] segs = Some ids -> segs = [] /\ ids = [].
Proof. destruct segs; cbn; by intros [= <-]. Qed.

Ltac match_inv H :=
  repeat first [ apply match_literal in H as (? & -> & H); [|reflexivity]
               | apply match_wildcard in H as (? & ? & ? & -> & -> & H); [|reflexivity] ];
  apply match_end in H as [-> ->].

(** A segment that cleaning leaves in place. *)
Definition solid (seg : string) : Prop :=
  free_of slash seg = true /\ seg <> "" /\ seg <> "." /\ seg <> "..".

Lemma clean_solid kept segs : Forall solid segs -> clean_segments kept segs = (rev kept ++ segs)%list.
Proof.
  intros H. revert kept. induction H as [|s segs (_ & H1 & H2 & H3) _ IH]; intros kept; cbn.
  - by rewrite app_nil_r.
  - rewrite !bool_decide_eq_false_2 by done. cbn. rewrite IH. cbn. by rewrite <-app_assoc.
Qed.

Lemma ends_with_slash_app s t : t <> "" -> ends_with_slash (s +:+ t) = ends_with_slash t.
Proof.
  intros Ht. induction s as [|c s IH]; [done|]. rewrite str_app_cons. cbn.
  destruct (s +:+ t) eqn:E; [|done]. by destruct s, t.
Qed.

Lemma ends_with_slash_free s : free_of slash s = true -> ends_with_slash s = false.
Proof.
  induction s as [|c s IH]; [done|]. cbn. rewrite andb_true_iff, negb_true_iff.
  intros [Hc Hs]. destruct s; [done|]. by apply IH.
Qed.

Lemma join_solid_end segs : segs <> [] -> Forall solid segs ->
  join_slash segs <> "" /\ ends_with_slash (join_slash segs) = false.
Proof.
  intros Hne H. induction H as [|s segs (Hf & H1 & _) H IH]; [done|]. destruct segs as [|s' segs].
  - split; [done|]. by apply ends_with_slash_free.
  - destruct (IH ltac:(done)) as [Hj He].
    change (join_slash (s :: s' :: segs)) with (s +:+ String slash (join_slash (s' :: segs))).
    split; [by destruct s|]. rewrite ends_with_slash_app by done.
    revert Hj He. generalize (join_slash (s' :: segs)) as j. intros [|a j] Hj He; [done|exact He].
Qed.

(** The path a client writes from its segments. *)
Definition path_of (segs : list string) : string := String slash (join_slash segs).

Lemma path_of_end segs : segs <> [] -> Forall solid segs -> ends_with_slash (path_of segs) = false.
Proof.
  intros Hne H. destruct (join_solid_end segs Hne H) as [Hj He]. unfold path_of. cbn [ends_with_slash].
  by destruct (join_slash segs).
Qed.

Lemma path_of_split segs : segs <> [] -> Forall solid segs -> tail (split_slash (path_of segs)) = segs.
Proof.
  intros Hne H. cbn. apply split_join; [done|]. eapply Forall_impl; [exact H|]. by intros s [Hs _].
Qed.

Lemma path_of_clean segs : segs <> [] -> Forall solid segs -> cleanPath (path_of segs) = path_of segs.
Proof.
  intros Hne H. unfold cleanPath. change (path_of segs) with (String slash (join_slash segs)).
  cbv beta iota zeta. change (Ascii.eqb slash slash) with true. cbv iota.
  change (String slash (join_slash segs)) with (path_of segs).
  rewrite path_of_end by done. cbn [andb]. unfold path_Clean.
  change (split_slash (path_of segs)) with ("" :: split_slash (join_slash segs)).
  pose proof (path_of_split segs Hne H) as Hs. cbn in Hs. rewrite Hs.
  cbn [clean_segments]. change (bool_decide ("" = "") || bool_decide ("" = ".")) with true. cbv iota.
  by rewrite clean_solid.
Qed.

(** ** What a client writes for a segment: every byte but letters, digits, ["-"],
    ["_"] and ["~"] is escaped *)
Definition plain_byte (c : ascii) : bool :=
  in_range 48 57 c || in_range 65 90 c || in_range 97 122 c
  || bool_decide (c ∈ ["-"; "_"; "~"]%char).

Fixpoint escape (s : string) : string :=
  match s with
  | EmptyString => EmptyString
  | String c rest =>
      if plain_byte c then String c (escape rest)
      else String "%" (String (hex_char (byte_val c / 16)) (String (hex_char (byte_val c mod 16)) (escape rest)))
  end.

Lemma plain_byte_not c d : plain_byte d = false -> plain_byte c = true -> Ascii.eqb c d = false.
Proof. intros Hd Hc. apply Ascii.eqb_neq. intros ->. congruence. Qed.

Lemma byte_byte_val c : byte (byte_val c) = c.
Proof. unfold byte, byte_val. by rewrite N2Z.id, ascii_N_embedding. Qed.

Lemma hex_digits c : (0 <= byte_val c / 16 < 16 /\ 0 <= byte_val c mod 16 < 16)%Z.
Proof.
  pose proof (byte_val_bounds c). split; [|by apply Z.mod_pos_bound].
  split; [apply Z.div_pos; lia|apply Z.div_lt_upper_bound; lia].
Qed.

Lemma unescape_escape s : unescape (escape s) = Some s.
Proof.
  induction s as [|c s IH]; [done|]. cbn. destruct (plain_byte c) eqn:Hc.
  - cbn. rewrite (plain_byte_not c "%"), IH by done. done.
  - cbn. destruct (hex_digits c). rewrite !hex_val_char by done. cbn. rewrite IH. cbn. repeat f_equal.
    rewrite (Z.mul_comm _ 16), <-Z.div_mod by done. apply byte_byte_val.
Qed.

Lemma hex_char_not_slash n : (0 <= n < 16)%Z -> Ascii.eqb (hex_char n) slash = false.
Proof.
  intros Hn. apply Ascii.eqb_neq. intros E. pose proof (hex_val_char n Hn) as H. by rewrite E in H.
Qed.

Lemma escape_free s : free_of slash (escape s) = true.
Proof.
  induction s as [|c s IH]; [done|]. cbn. destruct (plain_byte c) eqn:Hc; cbn.
  - by rewrite (plain_byte_not c slash), IH.
  - destruct (hex_digits c). by rewrite !hex_char_not_slash, IH.
Qed.

Lemma escape_no_dot s t : escape s <> String "." t.
Proof.
  destruct s as [|c s]; [done|]. cbn. destruct (plain_byte c) eqn:Hc; [|done].
  intros [= -> _]. by vm_compute in Hc.
Qed.

Lemma escape_solid s : s <> "" -> solid (escape s).
Proof.
  intros Hne. split_and!; [apply escape_free| |apply escape_no_dot..].
  destruct s as [|c s]; [done|]. cbn. by destruct (plain_byte c).
Qed.

Lemma pathUnescape_escape s : pathUnescape (escape s) = s.
Proof. unfold pathUnescape. by rewrite unescape_escape. Qed.

(** The path of escaped segments arrives as the segments. *)
Lemma path_of_segments segs :
  segs <> [] -> Forall (fun s => s <> "") segs ->
  path_segments (path_of (map escape segs)) = Some segs /\
  cleanPath (path_of (map escape segs)) = path_of (map escape segs).
Proof.
  intros Hne H. assert (Hs : Forall solid (map escape segs)).
  { rewrite Forall_map. eapply Forall_impl; [exact H|]. intros s. apply escape_solid. }
  assert (Hn : map escape segs <> []) by by destruct segs.
  split; [|by apply path_of_clean]. unfold path_segments. rewrite path_of_end, path_of_split by done.
  rewrite map_map. f_equal. rewrite <-(map_id segs) at 2. apply map_ext. apply pathUnescape_escape.
Qed.

Example clean_paths :
  cleanPath "//memory/write" = "/memory/write" /\ cleanPath "/memory/./write" = "/memory/write" /\
  cleanPath "/a/../../memory/items/" = "/memory/items/" /\ cleanPath "" = "/" /\ cleanPath "/memory/items/%2E" = "/memory/items/%2E".
Proof. by vm_compute. Qed.
