(* ===== verification/Contract.v ===== *)
(** * The packages the gateway calls

    The durable backend and its contract types come from other modules
    ([llm-agent-memory-contract], [llm-agent-memory-postgres],
    [llm-agent-rag]); the gateway sees Go interfaces and record types.  The
    records list the fields the gateway reads or writes.  An interface value is
    a record of operations over an abstract external world [E]: the database,
    the vector store, the log, the metrics.  Nothing is assumed about the
    operations here; a property that needs a documented behaviour states it as
    a class of laws. *)
From S2P Require Import Prelude GoStrings GoFloat HttpApi Authz.

Abbreviation GoM := (M goerror).

(** ** Contract types *)
Record MemoryRecord := mkMemoryRecord {
  m_MemoryID : string;
  m_TenantID : string;
  m_UserID : string;
  m_ProjectID : string;
  m_SessionID : string;
  m_Kind : string;
  m_Source : string;
  m_Category : string;
  m_Content : string;
  m_Tags : list string;
  m_Importance : float64;
  m_Pinned : bool;
  m_Disabled : bool;
  m_Deleted : bool;
  m_Version : Z;
  m_HitCount : Z;
  m_LastAccessAt : option time
}.

Definition emptyRecord : MemoryRecord :=
  mkMemoryRecord "" "" "" "" "" "" "" "" "" [] f_zero false false false 0 0 None.

Record WriteRecordInput := mkWriteRecordInput {
  wi_TenantID : string;
  wi_IdempotencyKey : string;
  wi_RequestHash : string;
  wi_Record : MemoryRecord
}.

Record PatchRecordInput := mkPatchRecordInput {
  pi_TenantID : string;
  pi_MemoryID : string;
  pi_ExpectedVersion : Z;
  pi_Content : string;
  pi_Category : string;
  pi_Tags : list string;
  pi_Importance : float64
}.

Record PinRecordInput := mkPinRecordInput {
  pni_TenantID : string;
  pni_MemoryID : string;
  pni_ExpectedVersion : Z;
  pni_Pinned : bool
}.

Record DisableRecordInput := mkDisableRecordInput {
  di_TenantID : string;
  di_MemoryID : string;
  di_ExpectedVersion : Z;
  di_Disabled : bool
}.

Record DeleteRecordInput := mkDeleteRecordInput {
  dli_TenantID : string;
  dli_MemoryID : string;
  dli_ExpectedVersion : Z
}.

(** [WriteRecordResult], [PatchRecordResult], [PinRecordResult],
    [DisableRecordResult] and [DeleteRecordResult] have the same fields. *)
Record RecordResult := mkRecordResult {
  res_MemoryID : string;
  res_Version : Z;
  res_Record : MemoryRecord
}.

Record IdempotencyEntry := mkIdempotencyEntry {
  ie_TenantID : string;
  ie_IdempotencyKey : string;
  ie_RequestHash : string;
  ie_MemoryID : string;
  ie_Response : RecordResult;
  ie_CreatedAt : time
}.

Record MarkAccessInput := mkMarkAccessInput {
  ma_TenantID : string;
  ma_MemoryIDs : list string;
  ma_AccessedAt : time
}.

Record ResolveDedupeInput := mkResolveDedupeInput {
  rd_TenantID : string;
  rd_DedupeKey : string;
  rd_Candidate : MemoryRecord
}.

Record ResolveDedupeResult := mkResolveDedupeResult {
  rd_Action : string;
  rd_WinnerID : string
}.

Record PromoteRecordInput := mkPromoteRecordInput {
  pro_TenantID : string;
  pro_MemoryID : string;
  pro_ExpectedVersion : Z;
  pro_SourceEventID : string;
  pro_IdempotencyKey : string;
  pro_Reason : string
}.

Record OutboxMessage := mkOutboxMessage {
  om_EventType : string;
  om_TenantID : string;
  om_MemoryID : string;
  om_Version : Z;
  om_Record : MemoryRecord
}.

(** ** Interfaces of the backend *)
Record RecordStore (E : Type) := mkRecordStore {
  GetRecord : string -> string -> GoM E MemoryRecord;
  GetRecordIncludingHidden : string -> string -> GoM E MemoryRecord;
  WriteRecord : WriteRecordInput -> GoM E RecordResult;
  PatchRecord : PatchRecordInput -> GoM E RecordResult;
  DeleteRecord : DeleteRecordInput -> GoM E RecordResult;
  PinRecord : PinRecordInput -> GoM E RecordResult;
  DisableRecord : DisableRecordInput -> GoM E RecordResult
}.
Arguments GetRecord {E}.
Arguments GetRecordIncludingHidden {E}.
Arguments WriteRecord {E}.
Arguments PatchRecord {E}.
Arguments DeleteRecord {E}.
Arguments PinRecord {E}.
Arguments DisableRecord {E}.

Record IdempotencyStore (E : Type) := mkIdempotencyStore {
  LoadIdempotency : string -> string -> GoM E IdempotencyEntry;
  SaveIdempotency : IdempotencyEntry -> GoM E unit
}.
Arguments LoadIdempotency {E}.
Arguments SaveIdempotency {E}.

(** ** Laws a property may ask of a backend

    Reads do not change the world, and [GetRecord] answers with the record it
    was asked for. *)
Class RecordStoreReads {E} (b : RecordStore E) : Prop := {
  get_record_frame t id e : (GetRecord b t id e).1 = e;
  get_hidden_frame t id e : (GetRecordIncludingHidden b t id e).1 = e
}.

Lemma get_record_run {E} (b : RecordStore E) {L : RecordStoreReads b} t id e :
  GetRecord b t id e = (e, (GetRecord b t id e).2).
Proof. rewrite (surjective_pairing (GetRecord b t id e)). by rewrite get_record_frame. Qed.

Lemma get_hidden_run {E} (b : RecordStore E) {L : RecordStoreReads b} t id e :
  GetRecordIncludingHidden b t id e = (e, (GetRecordIncludingHidden b t id e).2).
Proof.
  rewrite (surjective_pairing (GetRecordIncludingHidden b t id e)).
  by rewrite get_hidden_frame.
Qed.

(** An idempotency store is a table.  A load that answers with an entry read
    it, one that answers not found saw none, and any other error is a load that
    failed.  A save that answers without an error has set its key; one that
    answers with an error may have set it or not; and no other key changes. *)
Class IdempotencyLaws {E} (store : IdempotencyStore E)
    (table : E -> string -> string -> option IdempotencyEntry) : Prop := {
  idem_load_frame t k e : (LoadIdempotency store t k e).1 = e;
  idem_loaded t k e entry : (LoadIdempotency store t k e).2 = Ok entry -> table e t k = Some entry;
  idem_not_found t k e err :
    (LoadIdempotency store t k e).2 = Fail err -> errors_Is err PgNotFound = true -> table e t k = None;
  idem_saved i e :
    (SaveIdempotency store i e).2 = Ok tt ->
    table (SaveIdempotency store i e).1 (ie_TenantID i) (ie_IdempotencyKey i) = Some i;
  idem_save_own i e :
    table (SaveIdempotency store i e).1 (ie_TenantID i) (ie_IdempotencyKey i)
    ∈ [Some i; table e (ie_TenantID i) (ie_IdempotencyKey i)];
  idem_save_frame i e t k :
    (t, k) <> (ie_TenantID i, ie_IdempotencyKey i) -> table (SaveIdempotency store i e).1 t k = table e t k
}.
