(* ===== verification/RecallCache.v ===== *)
(** * The in-memory recall cache: [service/recall_cache.go]

    A map from recall keys to cached responses with the time of the fill and
    the scope version read before it.  The mutex of the Go type makes each
    operation atomic; here an operation is a function on the map. *)
From S2P Require Import Prelude GoStrings HttpApi Authz ScopeKeys.
Open Scope Z_scope.

Definition second : duration := 1000000000.
Definition minute : duration := 60 * second.
Definition millisecond : duration := 1000000.

(** [t.Sub(u)] saturates at the bounds of [time.Duration]. *)
Definition time_sub (t u : time) : duration :=
  let d := t - u in
  if d <? min_int64 then min_int64 else if max_int64 <? d then max_int64 else d.

Definition eventualCacheTTL : duration := 30 * second.
Definition boundedCacheTTL : duration := 5 * second.

Record recallCacheEntry := mkRecallCacheEntry {
  ce_response : RecallUnifiedResponse;
  ce_cachedAt : time;
  ce_scopeVersion : Z
}.

Abbreviation recallCache := (gmap string recallCacheEntry).

Definition newRecallCache : recallCache := ∅.

Definition cache_Get (c : recallCache) (key : string) : option recallCacheEntry := c !! key.

Definition cache_Set (key : string) (resp : RecallUnifiedResponse) (cachedAt : time)
    (scopeVersion : Z) (c : recallCache) : recallCache :=
  <[key := {| ce_response := resp; ce_cachedAt := cachedAt; ce_scopeVersion := scopeVersion |}]> c.

Definition InvalidateScope (scope : Scope) (c : recallCache) : recallCache :=
  filter (fun kv => hasScopePrefix kv.1 scope = false) c.

(** [Lookup] returns the response and [staleServed] when [ok]. *)
Definition Lookup (c : recallCache) (key consistencyLevel : string) (allowStale : bool)
    (now : time) (currentScopeVersion : Z) : option (RecallUnifiedResponse * bool) :=
  match cache_Get c key with
  | None => None
  | Some entry =>
      let age := time_sub now (ce_cachedAt entry) in
      if bool_decide (consistencyLevel = "bounded"%string) then
        if negb (ce_scopeVersion entry =? currentScopeVersion) then None
        else if boundedCacheTTL <? age then None
        else Some (ce_response entry, false)
      else if bool_decide (consistencyLevel = "eventual"%string) then
        if age <=? eventualCacheTTL then Some (ce_response entry, false)
        else if allowStale then Some (ce_response entry, true)
        else None
      else Some (ce_response entry, false)
  end.

#[global] Arguments Lookup : simpl never.

(** ** Prefixes *)
Lemma prefix_app_iff (p s : string) :
  String.prefix p s = true <-> exists x, s = (p +:+ x)%string.
Proof.
  revert s. induction p as [|c p IH]; intros s.
  - split; [intros _; by exists s|]. intros _. by destruct s.
  - destruct s as [|d s]; cbn [String.prefix].
    + split; [done|]. intros [x Hx]. by rewrite str_app_cons in Hx.
    + destruct (Ascii.ascii_dec c d) as [->|Hne].
      * rewrite IH. split; intros [x Hx]; exists x; [by rewrite Hx|].
        rewrite str_app_cons in Hx. congruence.
      * split; [done|]. intros [x Hx]. rewrite str_app_cons in Hx. congruence.
Qed.

(** A recall key has a scope's prefix exactly when it was built for that
    scope (separator-free scopes). *)
Lemma hasScopePrefix_key scope scope' req :
  clean_scope scope = true -> clean_scope scope' = true ->
  hasScopePrefix (buildRecallCacheKey scope req) scope' = true <-> scope = scope'.
Proof.
  intros Hc Hc'. unfold hasScopePrefix. rewrite prefix_app_iff. split.
  - intros [x Hx]. rewrite !str_app_assoc in Hx. unfold buildRecallCacheKey in Hx.
    apply recall_key_split in Hx as [-> _]; done.
  - intros ->. exists (recall_key_tail req). by rewrite !str_app_assoc.
Qed.

Lemma recall_key_inj scope scope' req req' :
  clean_scope scope = true -> clean_scope scope' = true ->
  buildRecallCacheKey scope req = buildRecallCacheKey scope' req' ->
  scope = scope' /\ recall_key_tail req = recall_key_tail req'.
Proof. intros Hc Hc' E. by apply recall_key_split in E. Qed.

(** ** Operations *)
Lemma lookup_InvalidateScope scope c key :
  InvalidateScope scope c !! key =
  if hasScopePrefix key scope then None else c !! key.
Proof.
  unfold InvalidateScope. destruct (hasScopePrefix key scope) eqn:E.
  - apply map_lookup_filter_None. right. intros e _. cbn [fst]. by rewrite E.
  - destruct (c !! key) as [e|] eqn:He.
    + by apply map_lookup_filter_Some.
    + apply map_lookup_filter_None. by left.
Qed.

Lemma Lookup_None c key level allow now v : c !! key = None -> Lookup c key level allow now v = None.
Proof. unfold Lookup, cache_Get. by intros ->. Qed.

Lemma Lookup_entry c key level allow now v resp stale :
  Lookup c key level allow now v = Some (resp, stale) ->
  exists e, c !! key = Some e /\ ce_response e = resp.
Proof.
  unfold Lookup, cache_Get. destruct (c !! key) as [e|]; [|done].
  repeat case_match; naive_solver.
Qed.

Lemma time_sub_small t u : int64_range (t - u) -> time_sub t u = t - u.
Proof.
  unfold int64_range, time_sub. intros H.
  destruct (Z.ltb_spec (t - u) min_int64); [lia|].
  destruct (Z.ltb_spec max_int64 (t - u)); [lia|done].
Qed.

(** The saturated difference compares with a duration as the exact one does. *)
Lemma time_sub_gt t u d : min_int64 <= d < max_int64 -> (d <? time_sub t u) = (d <? t - u).
Proof.
  intros H. unfold time_sub.
  destruct (Z.ltb_spec (t - u) min_int64); destruct (Z.ltb_spec max_int64 (t - u)); lia.
Qed.
Close Scope Z_scope.
