(* ===== verification/Sessions.v ===== *)
(** * Session lifecycle: [service/session_registry.go],
      [service/postgres_session_store.go] and the session checks of
      [service/service.go]

    A session is absent, active or closed.  A [SessionStateStore] keeps the
    truth; the per-process [sessionRegistry] caches what it read or wrote.
    [SessionStoreLaws] is the contract a store offers to the registry, and both
    stores of the gateway discharge it. *)
From S2P Require Import Prelude GoStrings HttpApi Authz ScopeKeys Contract RecallCache.
Open Scope Z_scope.

Record SessionState := mkSessionState {
  ss_TenantID : string;
  ss_UserID : string;
  ss_ProjectID : string;
  ss_SessionID : string;
  ss_Status : string;
  ss_Mode : string;
  ss_ClosedAt : time;
  ss_LastHeartbeatAt : time
}.

#[export] Instance SessionState_eq_dec : EqDecision SessionState.
Proof. solve_decision. Defined.

Definition is_closed (st : SessionState) : bool := bool_decide (ss_Status st = "closed"%string).
Definition is_active (st : SessionState) : bool := bool_decide (ss_Status st = "active"%string).

Lemma is_closed_status st : is_closed st = true -> ss_Status st = "closed"%string.
Proof. unfold is_closed. by rewrite bool_decide_eq_true. Qed.
Lemma is_active_status st : is_active st = true -> ss_Status st = "active"%string.
Proof. unfold is_active. by rewrite bool_decide_eq_true. Qed.
Lemma is_active_not_closed st : is_active st = true -> is_closed st = false.
Proof. intros H%is_active_status. unfold is_closed. by rewrite H. Qed.

(** [LoadSessionState] returns [(state, ok, err)]; the state of a [!ok] answer
    is never looked at, so [ok] is the option. *)
Record SessionStateStore (T : Type) := mkSessionStateStore {
  LoadSessionState : Scope -> GoM T (option SessionState);
  SaveClosedSession : Scope -> string -> time -> GoM T SessionState;
  SaveHeartbeat : Scope -> time -> GoM T SessionState
}.
Arguments LoadSessionState {T}.
Arguments SaveClosedSession {T}.
Arguments SaveHeartbeat {T}.

(** ** The in-memory store *)
Abbreviation memSessions := (gmap string SessionState).

Definition mem_LoadSessionState (scope : Scope) : GoM memSessions (option SessionState) :=
  fun entries => (entries, Ok (entries !! sessionScopeKey scope)).

Definition mem_SaveClosedSession (scope : Scope) (mode : string) (now : time)
    : GoM memSessions SessionState :=
  fun entries =>
    let key := sessionScopeKey scope in
    let fresh last := {|
      ss_TenantID := TenantID scope; ss_UserID := UserID scope;
      ss_ProjectID := ProjectID scope; ss_SessionID := SessionID scope;
      ss_Status := "closed"; ss_Mode := mode; ss_ClosedAt := now;
      ss_LastHeartbeatAt := last |} in
    match entries !! key with
    | Some existing =>
        if is_closed existing then (entries, Ok existing)
        else let state := fresh (ss_LastHeartbeatAt existing) in
             (<[key := state]> entries, Ok state)
    | None => let state := fresh 0 in (<[key := state]> entries, Ok state)
    end.

Definition mem_SaveHeartbeat (scope : Scope) (now : time) : GoM memSessions SessionState :=
  fun entries =>
    let key := sessionScopeKey scope in
    let state := {|
      ss_TenantID := TenantID scope; ss_UserID := UserID scope;
      ss_ProjectID := ProjectID scope; ss_SessionID := SessionID scope;
      ss_Status := "active"; ss_Mode := ""; ss_ClosedAt := 0;
      ss_LastHeartbeatAt := now |} in
    match entries !! key with
    | Some existing =>
        if is_closed existing then (entries, Ok existing)
        else (<[key := state]> entries, Ok state)
    | None => (<[key := state]> entries, Ok state)
    end.

Definition memorySessionStateStore : SessionStateStore memSessions :=
  {| LoadSessionState := mem_LoadSessionState;
     SaveClosedSession := mem_SaveClosedSession;
     SaveHeartbeat := mem_SaveHeartbeat |}.

(** ** The Postgres store

    The table [memory_gateway_session] is a map from its primary key to a row.
    A statement runs atomically; the connection may fail before it runs or
    after it has committed.  [timestamptz] keeps microseconds. *)
Record sessionRow := mkSessionRow {
  row_status : string;
  row_mode : string;
  row_closed_at : option time;
  row_last_heartbeat_at : option time
}.

Inductive fault := NoFault | FaultBefore (msg : string) | FaultAfter (msg : string).

#[export] Instance Scope_countable : Countable Scope.
Proof.
  refine (inj_countable' (fun s => (TenantID s, UserID s, ProjectID s, SessionID s))
            (fun '(t, u, p, s) => mkScope t u p s) _); by intros [].
Defined.

Record pgSessions := mkPgSessions {
  pg_rows : gmap Scope sessionRow;
  pg_faults : list fault
}.

Definition trunc_us (t : time) : time := t - t mod 1000.

(** One statement: the rows change by [f], which also returns the row read. *)
Definition pg_query (f : gmap Scope sessionRow -> gmap Scope sessionRow * option sessionRow)
    : GoM pgSessions (option sessionRow) :=
  fun db =>
    let rest := tail (pg_faults db) in
    match head (pg_faults db) with
    | Some (FaultBefore msg) => (mkPgSessions (pg_rows db) rest, Fail (ErrText msg))
    | Some (FaultAfter msg) => (mkPgSessions (f (pg_rows db)).1 rest, Fail (ErrText msg))
    | _ => let '(rows, r) := f (pg_rows db) in (mkPgSessions rows rest, Ok r)
    end.

Section postgres_store.
(** [pool_ok] is [s.pool != nil].  [null_time] is what pgx answers when it
    scans a NULL [timestamptz] into a [time.Time] that is not a pointer. *)
Context (pool_ok : bool) (null_time : result goerror time).

Definition scan_time (t : option time) : result goerror time :=
  match t with Some t => Ok t | None => null_time end.

(** [.Scan(&state..., &state.ClosedAt, &lastHeartbeatAt)]: the heartbeat goes
    through [pgtype.Timestamptz], which carries NULL; [ClosedAt] does not. *)
Definition scan_row (scope : Scope) (row : sessionRow) : result goerror SessionState :=
  result_map (fun closedAt => {|
    ss_TenantID := TenantID scope; ss_UserID := UserID scope;
    ss_ProjectID := ProjectID scope; ss_SessionID := SessionID scope;
    ss_Status := row_status row; ss_Mode := row_mode row;
    ss_ClosedAt := closedAt;
    ss_LastHeartbeatAt := default 0 (row_last_heartbeat_at row) |})
    (scan_time (row_closed_at row)).

Definition pool_required : goerror := ErrText "memory-gateway/service: postgres pool is required".

Definition row_is_closed (row : sessionRow) : bool :=
  bool_decide (row_status row = "closed"%string).

(** The [INSERT ... ON CONFLICT DO UPDATE] statements. *)
Definition upsert_closed (scope : Scope) (mode : string) (now : time)
    (rows : gmap Scope sessionRow) : gmap Scope sessionRow * option sessionRow :=
  let row := match rows !! scope with
    | None => mkSessionRow "closed" mode (Some (trunc_us now)) None
    | Some r =>
        if row_is_closed r
        then mkSessionRow (row_status r) (row_mode r) (row_closed_at r) (row_last_heartbeat_at r)
        else mkSessionRow "closed" mode (Some (trunc_us now)) (row_last_heartbeat_at r)
    end in
  (<[scope := row]> rows, Some row).

Definition upsert_heartbeat (scope : Scope) (now : time)
    (rows : gmap Scope sessionRow) : gmap Scope sessionRow * option sessionRow :=
  let row := match rows !! scope with
    | None => mkSessionRow "active" "" None (Some (trunc_us now))
    | Some r =>
        if row_is_closed r
        then mkSessionRow (row_status r) (row_mode r) (row_closed_at r) (row_last_heartbeat_at r)
        else mkSessionRow "active" "" None (Some (trunc_us now))
    end in
  (<[scope := row]> rows, Some row).

(** [QueryRow(...).Scan(...)]: no row is [pgx.ErrNoRows]. *)
Definition query_row_scan (scope : Scope)
    (f : gmap Scope sessionRow -> gmap Scope sessionRow * option sessionRow)
    : GoM pgSessions SessionState :=
  row ← pg_query f;
  match row with
  | None => throw (ErrSentinel NoRows)
  | Some row => of_result (scan_row scope row)
  end.

Definition pg_LoadSessionState (scope : Scope) : GoM pgSessions (option SessionState) :=
  if negb pool_ok then throw pool_required else
  r ← attempt (query_row_scan scope (fun rows => (rows, rows !! scope)));
  match r with
  | Ok state => mret (Some state)
  | Fail err =>
      if err_is_exactly err NoRows then mret None
      else throw (ErrWrap "memory-gateway/service: load session state" err)
  end.

Definition pg_SaveClosedSession (scope : Scope) (mode : string) (now : time)
    : GoM pgSessions SessionState :=
  if negb pool_ok then throw pool_required else
  r ← attempt (query_row_scan scope (upsert_closed scope mode now));
  match r with
  | Ok state => mret state
  | Fail err => throw (ErrWrap "memory-gateway/service: save closed session" err)
  end.

Definition pg_SaveHeartbeat (scope : Scope) (now : time) : GoM pgSessions SessionState :=
  if negb pool_ok then throw pool_required else
  r ← attempt (query_row_scan scope (upsert_heartbeat scope now));
  match r with
  | Ok state => mret state
  | Fail err => throw (ErrWrap "memory-gateway/service: save heartbeat" err)
  end.

Definition PostgresSessionStateStore : SessionStateStore pgSessions :=
  {| LoadSessionState := pg_LoadSessionState;
     SaveClosedSession := pg_SaveClosedSession;
     SaveHeartbeat := pg_SaveHeartbeat |}.
End postgres_store.

(** ** The registry: a cache in front of a store

    A registry method touches the shared state in three ways: it reads the
    cache under the read lock, calls the store under no lock, and writes the
    cache under the write lock.  The methods are written once over these; they
    run alone as functions on the store and the cache, and interleaved as
    programs whose accesses are the atomic steps ([SessionReplicas]). *)
Class RegistryAccess (T : Type) (M : Type -> Type) := {
  read_cache : string -> M (option SessionState);
  on_store : forall {A}, GoM T A -> M A;
  cache_state : Scope -> SessionState -> M unit
}.

Section registry_methods.
Context {T : Type} {M : Type -> Type} `{!MRet M, !MBind M, !RegistryAccess T M}
  (store : SessionStateStore T).

Definition registry_Get (scope : Scope) : M (option SessionState) :=
  cached ← read_cache (sessionScopeKey scope);
  match cached with
  | Some state => mret (Some state)
  | None =>
      loaded ← on_store (LoadSessionState store scope);
      match loaded with
      | None => mret None
      | Some state => _ ← cache_state scope state; mret (Some state)
      end
  end.

Definition registry_Close (scope : Scope) (mode : string) (now : time) : M SessionState :=
  state ← on_store (SaveClosedSession store scope mode now);
  _ ← cache_state scope state;
  mret state.

Definition registry_Heartbeat (scope : Scope) (now : time) : M SessionState :=
  state ← on_store (SaveHeartbeat store scope now);
  _ ← cache_state scope state;
  mret state.
End registry_methods.

(** *** Alone *)
Abbreviation registry T := (T * gmap string SessionState)%type.

#[export] Instance registry_alone T : RegistryAccess T (GoM (registry T)) := {|
  read_cache key := gets (fun r => r.2 !! key);
  on_store A m := zoom fst (fun t r => (t, r.2)) m;
  cache_state scope state := modify (fun r => (r.1, <[sessionScopeKey scope := state]> r.2))
|}.

Definition reg_Get {T} (store : SessionStateStore T) (scope : Scope)
    : GoM (registry T) (option SessionState) := registry_Get store scope.
Definition reg_Close {T} (store : SessionStateStore T) (scope : Scope) (mode : string) (now : time)
    : GoM (registry T) SessionState := registry_Close store scope mode now.
Definition reg_Heartbeat {T} (store : SessionStateStore T) (scope : Scope) (now : time)
    : GoM (registry T) SessionState := registry_Heartbeat store scope now.
#[global] Arguments reg_Get : simpl never.
#[global] Arguments reg_Close : simpl never.
#[global] Arguments reg_Heartbeat : simpl never.

(** ** The session checks of the service *)
Definition resolveSessionIdleTTL (ttl : duration) : duration :=
  if ttl <=? 0 then 30 * minute else ttl.

Definition isSessionExpired (sessionIdleTTL : duration) (state : SessionState) (now : time) : bool :=
  if negb (is_active state) then false
  else if ss_LastHeartbeatAt state =? 0 then false
  else sessionIdleTTL <? time_sub now (ss_LastHeartbeatAt state).

(** [nil] is [None]. *)
Definition validateSessionState (sessionIdleTTL : duration) (state : option SessionState)
    (now : time) : option goerror :=
  match state with
  | None => None
  | Some state =>
      if is_closed state then
        Some (ErrForbidden "session is closed"
          [("session_id", VStr (ss_SessionID state));
           ("closed_at", VTime (ss_ClosedAt state));
           ("mode", VStr (ss_Mode state))])
      else if is_active state && isSessionExpired sessionIdleTTL state now then
        Some (ErrSessionExpired "session is expired"
          [("session_id", VStr (ss_SessionID state));
           ("last_heartbeat_at", VTime (ss_LastHeartbeatAt state));
           ("session_idle_ttl", VDuration sessionIdleTTL)])
      else None
  end.
#[global] Arguments validateSessionState : simpl never.
Close Scope Z_scope.
