(* ===== verification/SessionProps.v ===== *)
(** * Session lifecycle: specification and proofs

    The abstract session machine, the contract [SessionStoreLaws] both stores
    discharge, and the refinement of the registry.  Registries that share a
    store are in [SessionReplicas]. *)
From S2P Require Import Prelude GoStrings HttpApi Authz ScopeKeys Contract RecallCache Sessions.
Open Scope Z_scope.

(** ** The abstract machine *)
Definition spec_close (rnd : time -> time) (scope : Scope) (mode : string) (now : time)
    (old : option SessionState) : SessionState :=
  let fresh last := mkSessionState (TenantID scope) (UserID scope) (ProjectID scope)
                      (SessionID scope) "closed" mode (rnd now) last in
  match old with
  | Some st => if is_closed st then st else fresh (ss_LastHeartbeatAt st)
  | None => fresh 0
  end.

Definition spec_heartbeat (rnd : time -> time) (scope : Scope) (now : time)
    (old : option SessionState) : SessionState :=
  let fresh := mkSessionState (TenantID scope) (UserID scope) (ProjectID scope)
                 (SessionID scope) "active" "" 0 (rnd now) in
  match old with
  | Some st => if is_closed st then st else fresh
  | None => fresh
  end.

Lemma spec_close_closed rnd scope mode now old :
  is_closed (spec_close rnd scope mode now old) = true.
Proof. unfold spec_close. destruct old as [st|]; [|done]. by destruct (is_closed st) eqn:E. Qed.

Lemma spec_close_absorbs rnd scope mode now st :
  is_closed st = true -> spec_close rnd scope mode now (Some st) = st.
Proof. unfold spec_close. by intros ->. Qed.

Lemma spec_heartbeat_absorbs rnd scope now st :
  is_closed st = true -> spec_heartbeat rnd scope now (Some st) = st.
Proof. unfold spec_heartbeat. by intros ->. Qed.

Lemma spec_heartbeat_open rnd scope now old :
  (forall st, old = Some st -> is_closed st = false) ->
  is_active (spec_heartbeat rnd scope now old) = true /\
  ss_LastHeartbeatAt (spec_heartbeat rnd scope now old) = rnd now.
Proof. intros H. destruct old as [st|]; cbn; [|done]. by rewrite (H st). Qed.

(** ** The contract of a store

    [view t sc] is what the store holds for [sc].  A write either takes effect
    on its own scope alone or fails; a failed write may have committed. *)
Definition scopes_framed {T} (view : T -> Scope -> option SessionState)
    (scope : Scope) (t t' : T) : Prop :=
  forall sc, clean_scope sc = true -> sc <> scope -> view t' sc = view t sc.

Definition write_law {T} (view : T -> Scope -> option SessionState) (scope : Scope)
    (new : SessionState) (t t' : T) (r : result goerror SessionState) : Prop :=
  scopes_framed view scope t t' /\
  (view t' scope = Some new \/ view t' scope = view t scope) /\
  (forall st, r = Ok st -> st = new /\ view t' scope = Some new).

Class SessionStoreLaws {T} (store : SessionStateStore T)
    (view : T -> Scope -> option SessionState) (rnd : time -> time) : Prop := {
  load_law scope t t' r :
    clean_scope scope = true -> LoadSessionState store scope t = (t', r) ->
    (forall sc, view t' sc = view t sc) /\ (forall o, r = Ok o -> o = view t scope);
  close_law scope mode now t t' r :
    clean_scope scope = true -> SaveClosedSession store scope mode now t = (t', r) ->
    write_law view scope (spec_close rnd scope mode now (view t scope)) t t' r;
  heartbeat_law scope now t t' r :
    clean_scope scope = true -> SaveHeartbeat store scope now t = (t', r) ->
    write_law view scope (spec_heartbeat rnd scope now (view t scope)) t t' r
}.

(** *** The in-memory store *)
Definition mem_view (t : memSessions) (scope : Scope) : option SessionState :=
  t !! sessionScopeKey scope.

Lemma mem_frame scope st (t : memSessions) :
  clean_scope scope = true ->
  scopes_framed mem_view scope t (<[sessionScopeKey scope := st]> t).
Proof.
  intros Hc sc Hsc Hne. unfold mem_view. apply lookup_insert_ne.
  intros E. apply Hne. symmetry. by apply sessionScopeKey_inj.
Qed.

Lemma write_law_insert scope st (t : memSessions) :
  clean_scope scope = true ->
  write_law mem_view scope st t (<[sessionScopeKey scope := st]> t) (Ok st).
Proof.
  intros Hc. repeat split.
  - by apply mem_frame.
  - left. apply lookup_insert_eq.
  - congruence.
  - apply lookup_insert_eq.
Qed.

Lemma write_law_same {T} (view : T -> Scope -> option SessionState) scope st t :
  view t scope = Some st -> write_law view scope st t t (Ok st).
Proof. intros H. repeat split; [by left|congruence|done]. Qed.

#[export] Instance memory_store_laws :
  SessionStoreLaws memorySessionStateStore mem_view id.
Proof.
  split.
  - intros scope t t' r _ [= <- <-]. split; [done|]. by intros o [= <-].
  - intros scope mode now t t' r Hc. cbn. unfold mem_SaveClosedSession, mem_view, spec_close.
    destruct (t !! sessionScopeKey scope) as [st|] eqn:E;
      [destruct (is_closed st)|]; intros [= <- <-];
      [by apply write_law_same | by apply write_law_insert..].
  - intros scope now t t' r Hc. cbn. unfold mem_SaveHeartbeat, mem_view, spec_heartbeat.
    destruct (t !! sessionScopeKey scope) as [st|] eqn:E;
      [destruct (is_closed st)|]; intros [= <- <-];
      [by apply write_law_same | by apply write_law_insert..].
Qed.

(** *** The Postgres store

    The row of a scope, read as the gateway means it: a NULL [closed_at] is
    the zero time. *)
Definition row_state (scope : Scope) (row : sessionRow) : SessionState :=
  mkSessionState (TenantID scope) (UserID scope) (ProjectID scope) (SessionID scope)
    (row_status row) (row_mode row) (default 0 (row_closed_at row))
    (default 0 (row_last_heartbeat_at row)).

Definition pg_view (db : pgSessions) (scope : Scope) : option SessionState :=
  row_state scope <$> pg_rows db !! scope.

(** Scanning NULL fails or gives the zero time. *)
Class NullTime (null_time : result goerror time) : Prop := {
  null_time_zero t : null_time = Ok t -> t = 0;
  null_time_not_no_rows e : null_time = Fail e -> err_is_exactly e NoRows = false
}.

Section postgres_laws.
Context (pool_ok : bool) (null_time : result goerror time) {HN : NullTime null_time}.

Lemma scan_row_ok scope row st :
  scan_row null_time scope row = Ok st -> st = row_state scope row.
Proof using HN.
  unfold scan_row, row_state. destruct (row_closed_at row) as [t|]; cbn.
  - congruence.
  - destruct null_time as [t|e] eqn:E; cbn; [|done].
    rewrite (null_time_zero t) by done. congruence.
Qed.

(** A statement that touches one row. *)
Definition touches (scope : Scope) (f : gmap Scope sessionRow -> gmap Scope sessionRow * option sessionRow)
    (rows : gmap Scope sessionRow) (row : sessionRow) : Prop :=
  f rows = (<[scope := row]> rows, Some row).

Lemma query_touch scope f db db' r row :
  touches scope f (pg_rows db) row ->
  query_row_scan null_time scope f db = (db', r) ->
  (pg_rows db' = pg_rows db \/ pg_rows db' = <[scope := row]> (pg_rows db)) /\
  (forall st, r = Ok st -> st = row_state scope row /\ pg_rows db' = <[scope := row]> (pg_rows db)).
Proof using HN.
  unfold touches, query_row_scan. intros Hf. rewrite run_bind. unfold pg_query. rewrite Hf. cbn.
  destruct (head (pg_faults db)) as [[|e|e]|]; cbn; unfold of_result; intros [= <- <-]; cbn;
    (split; [tauto|]); try done; intros st Hst; apply scan_row_ok in Hst; done.
Qed.

Lemma rows_write_law scope db db' row (r : result goerror SessionState) :
  (pg_rows db' = pg_rows db \/ pg_rows db' = <[scope := row]> (pg_rows db)) ->
  (forall st, r = Ok st -> st = row_state scope row /\ pg_rows db' = <[scope := row]> (pg_rows db)) ->
  write_law pg_view scope (row_state scope row) db db' r.
Proof using Type.
  intros Hrows Hok. unfold write_law, scopes_framed, pg_view. repeat split.
  - intros sc _ Hne. destruct Hrows as [->| ->]; [done|]. by rewrite lookup_insert_ne.
  - destruct Hrows as [->| ->]; [by right|]. left. by rewrite lookup_insert_eq.
  - by apply Hok.
  - destruct (Hok st) as [_ ->]; [done|]. by rewrite lookup_insert_eq.
Qed.

Lemma row_is_closed_state scope row : is_closed (row_state scope row) = row_is_closed row.
Proof using Type. done. Qed.

Lemma upsert_closed_touch scope mode now db :
  exists row, touches scope (upsert_closed scope mode now) (pg_rows db) row /\
    row_state scope row = spec_close trunc_us scope mode now (pg_view db scope).
Proof using Type.
  eexists; split; [done|]. unfold pg_view, spec_close.
  destruct (pg_rows db !! scope) as [row|]; cbn; [|done].
  rewrite row_is_closed_state. by destruct (row_is_closed row).
Qed.

Lemma upsert_heartbeat_touch scope now db :
  exists row, touches scope (upsert_heartbeat scope now) (pg_rows db) row /\
    row_state scope row = spec_heartbeat trunc_us scope now (pg_view db scope).
Proof using Type.
  eexists; split; [done|]. unfold pg_view, spec_heartbeat.
  destruct (pg_rows db !! scope) as [row|]; cbn; [|done].
  rewrite row_is_closed_state. by destruct (row_is_closed row).
Qed.

(** The shape shared by the two save operations. *)
Lemma pg_save_law (f : Scope -> gmap Scope sessionRow -> gmap Scope sessionRow * option sessionRow)
    scope msg new db db' r :
  (exists row, touches scope (f scope) (pg_rows db) row /\ row_state scope row = new) ->
  (r ← attempt (query_row_scan null_time scope (f scope));
   match r with
   | Ok state => mret state
   | Fail err => throw (ErrWrap msg err)
   end) db = (db', r) ->
  write_law pg_view scope new db db' r.
Proof using HN.
  intros (row & Ht & <-). rewrite run_bind. unfold attempt.
  destruct (query_row_scan null_time scope (f scope) db) as [db1 r1] eqn:E.
  destruct (query_touch _ _ _ _ _ _ Ht E) as [Hrows Hok].
  destruct r1 as [st|e]; cbn; intros [= <- <-].
  - apply rows_write_law; [done|]. intros st' [= <-]. by apply Hok.
  - apply rows_write_law; [done|]. done.
Qed.

Lemma pg_load_law scope db db' r :
  pg_LoadSessionState pool_ok null_time scope db = (db', r) ->
  (forall sc, pg_view db' sc = pg_view db sc) /\ (forall o, r = Ok o -> o = pg_view db scope).
Proof using HN.
  unfold pg_LoadSessionState. destruct pool_ok; cbn [negb]; [|by intros [= <- <-]].
  rewrite run_bind. unfold attempt, query_row_scan at 1. rewrite run_bind.
  unfold pg_query, pg_view. cbn.
  destruct (head (pg_faults db)) as [[|msg|msg]|]; cbn;
    try (by intros [= <- <-]);
    (destruct (pg_rows db !! scope) as [row|]; cbn; [|intros [= <- <-]; split; [done|by intros o [= <-]]]);
    unfold of_result; destruct (scan_row null_time scope row) as [st|e] eqn:Es; cbn;
    try (intros [= <- <-]; split; [done|]; intros o [= <-]; by apply scan_row_ok in Es as ->);
    (unfold scan_row in Es; destruct (row_closed_at row); cbn in Es; [done|];
     destruct null_time eqn:En; cbn in Es; [done|]; injection Es as <-;
     rewrite null_time_not_no_rows by done; by intros [= <- <-]).
Qed.

#[export] Instance postgres_store_laws :
  SessionStoreLaws (PostgresSessionStateStore pool_ok null_time) pg_view trunc_us.
Proof using HN.
  split.
  - intros scope t t' r _. apply pg_load_law.
  - intros scope mode now t t' r _. cbn. unfold pg_SaveClosedSession.
    destruct pool_ok; cbn [negb].
    + apply (pg_save_law (fun sc => upsert_closed sc mode now)). apply upsert_closed_touch.
    + intros [= <- <-]. repeat split; try done. by right.
  - intros scope now t t' r _. cbn. unfold pg_SaveHeartbeat.
    destruct pool_ok; cbn [negb].
    + apply (pg_save_law (fun sc => upsert_heartbeat sc now)). apply upsert_heartbeat_touch.
    + intros [= <- <-]. repeat split; try done. by right.
Qed.
End postgres_laws.

(** ** The registry refines the abstract machine

    In a single process whose requests do not overlap, the cache holds what
    the store holds. *)
Section registry_refinement.
Context {T : Type} (store : SessionStateStore T) (view : T -> Scope -> option SessionState)
  (rnd : time -> time) {L : SessionStoreLaws store view rnd}.

Definition coherent (r : registry T) : Prop :=
  forall sc st, clean_scope sc = true -> r.2 !! sessionScopeKey sc = Some st ->
    view r.1 sc = Some st.

(** Closed entries of the cache are true: the part of coherence that survives
    other writers. *)
Definition closed_true (t : T) (c : gmap string SessionState) : Prop :=
  forall sc st, clean_scope sc = true -> c !! sessionScopeKey sc = Some st ->
    is_closed st = true -> view t sc = Some st.

Definition same_view (t t' : T) : Prop :=
  forall sc, clean_scope sc = true -> view t' sc = view t sc.

Lemma lookup_key_insert scope sc st (c : gmap string SessionState) st' :
  clean_scope scope = true -> clean_scope sc = true ->
  <[sessionScopeKey scope := st]> c !! sessionScopeKey sc = Some st' ->
  (sc = scope /\ st' = st) \/ (sc <> scope /\ c !! sessionScopeKey sc = Some st').
Proof using Type.
  intros Hc Hsc. destruct (decide (sc = scope)) as [->|Hne].
  - rewrite lookup_insert_eq. intros [= ->]. by left.
  - rewrite lookup_insert_ne; [by right|]. intros E. apply Hne. symmetry.
    by apply sessionScopeKey_inj.
Qed.

Lemma coherent_fill t c scope st :
  clean_scope scope = true -> coherent (t, c) -> view t scope = Some st ->
  coherent (t, <[sessionScopeKey scope := st]> c).
Proof using Type.
  intros Hc Hcoh Hv sc st' Hsc Hl. cbn in *.
  apply lookup_key_insert in Hl as [[-> ->]|[_ Hl]]; [done| |done|done]. by apply Hcoh.
Qed.

Lemma reg_Get_refines scope r r' res :
  clean_scope scope = true -> coherent r -> reg_Get store scope r = (r', res) ->
  coherent r' /\ same_view r.1 r'.1 /\ (forall o, res = Ok o -> o = view r.1 scope).
Proof using L.
  intros Hc Hcoh. unfold reg_Get, registry_Get. rewrite run_bind. cbn.
  destruct (r.2 !! sessionScopeKey scope) as [st|] eqn:E.
  { intros [= <- <-]. repeat split; try done. intros o [= <-]. symmetry. by apply Hcoh. }
  rewrite run_bind. cbn [on_store registry_alone]. unfold zoom. destruct r as [t c]; cbn in *.
  destruct (LoadSessionState store scope t) as [t' rl] eqn:El.
  destruct (load_law _ _ _ _ Hc El) as [Hv Hok].
  assert (Hcoh' : coherent (t', c)) by (intros sc st Hsc Hl; cbn; rewrite Hv; by apply Hcoh).
  destruct rl as [[st|]|e]; cbn; intros [= <- <-]; cbn; repeat split;
    try done; try (intros sc _; apply Hv); try (intros o [= <-]; by apply Hok).
  apply coherent_fill; [done..|]. rewrite Hv. symmetry. by apply Hok.
Qed.

Lemma coherent_write scope new t t' c r :
  clean_scope scope = true -> coherent (t, c) -> write_law view scope new t t' r ->
  forall st, r = Ok st -> coherent (t', <[sessionScopeKey scope := st]> c).
Proof using Type.
  intros Hc Hcoh (Hfr & _ & Hok) st Hr sc st' Hsc Hl. cbn in *.
  destruct (Hok st Hr) as [-> Hv].
  apply lookup_key_insert in Hl as [[-> ->]|[Hne Hl]]; [done| |done|done].
  rewrite Hfr by done. by apply Hcoh.
Qed.

Lemma reg_Close_refines scope mode now r r' st :
  clean_scope scope = true -> coherent r -> reg_Close store scope mode now r = (r', Ok st) ->
  coherent r' /\ st = spec_close rnd scope mode now (view r.1 scope) /\
  view r'.1 scope = Some st /\ scopes_framed view scope r.1 r'.1.
Proof using L.
  intros Hc Hcoh. unfold reg_Close, registry_Close. rewrite run_bind. cbn [on_store registry_alone]. unfold zoom.
  destruct r as [t c]; cbn in *.
  destruct (SaveClosedSession store scope mode now t) as [t' rs] eqn:E.
  pose proof (close_law _ _ _ _ _ _ Hc E) as Hw.
  destruct rs as [st'|e]; cbn; intros [= <- <-]. cbn.
  destruct Hw as (Hfr & Hor & Hok). destruct (Hok st' eq_refl) as [-> Hv].
  repeat split; try done. eapply coherent_write; [done..|by split_and!|done].
Qed.

Lemma reg_Heartbeat_refines scope now r r' st :
  clean_scope scope = true -> coherent r -> reg_Heartbeat store scope now r = (r', Ok st) ->
  coherent r' /\ st = spec_heartbeat rnd scope now (view r.1 scope) /\
  view r'.1 scope = Some st /\ scopes_framed view scope r.1 r'.1.
Proof using L.
  intros Hc Hcoh. unfold reg_Heartbeat, registry_Heartbeat. rewrite run_bind. cbn [on_store registry_alone]. unfold zoom.
  destruct r as [t c]; cbn in *.
  destruct (SaveHeartbeat store scope now t) as [t' rs] eqn:E.
  pose proof (heartbeat_law _ _ _ _ _ Hc E) as Hw.
  destruct rs as [st'|e]; cbn; intros [= <- <-]. cbn.
  destruct Hw as (Hfr & Hor & Hok). destruct (Hok st' eq_refl) as [-> Hv].
  repeat split; try done. eapply coherent_write; [done..|by split_and!|done].
Qed.

(** What the environment may do to the store: closed sessions stay as they
    are. *)
Definition closed_stays (t t' : T) : Prop :=
  forall sc st, clean_scope sc = true -> view t sc = Some st -> is_closed st = true ->
    view t' sc = Some st.

Lemma closed_stays_write scope new t t' r :
  clean_scope scope = true ->
  (forall st, view t scope = Some st -> is_closed st = true -> new = st) ->
  write_law view scope new t t' r -> closed_stays t t'.
Proof using Type.
  intros Hc Habs (Hfr & Hor & _) sc st Hsc Hv Hcl.
  destruct (decide (sc = scope)) as [->|Hne]; [|by rewrite Hfr].
  destruct Hor as [->| ->]; [|done]. by rewrite (Habs st).
Qed.

End registry_refinement.
(** ** The registry as a refinement of the abstract machine

    A sequence of registry calls, and the same sequence on the abstract map
    from scopes to states. *)
Inductive session_op :=
| OpGet (scope : Scope)
| OpClose (scope : Scope) (mode : string) (now : time)
| OpHeartbeat (scope : Scope) (now : time).

Definition op_scope (op : session_op) : Scope :=
  match op with OpGet sc | OpClose sc _ _ | OpHeartbeat sc _ => sc end.

Definition reg_op {T} (store : SessionStateStore T) (op : session_op)
    : GoM (registry T) (option SessionState) :=
  match op with
  | OpGet scope => reg_Get store scope
  | OpClose scope mode now => st ← reg_Close store scope mode now; mret (Some st)
  | OpHeartbeat scope now => st ← reg_Heartbeat store scope now; mret (Some st)
  end.

Fixpoint reg_ops {T} (store : SessionStateStore T) (ops : list session_op)
    : GoM (registry T) (list (option SessionState)) :=
  match ops with
  | [] => mret []
  | op :: ops => a ← reg_op store op; rest ← reg_ops store ops; mret (a :: rest)
  end.

Definition spec_state := Scope -> option SessionState.
Definition spec_set (scope : Scope) (st : SessionState) (m : spec_state) : spec_state :=
  fun sc => if decide (sc = scope) then Some st else m sc.

Definition spec_op (rnd : time -> time) (op : session_op) (m : spec_state)
    : spec_state * option SessionState :=
  match op with
  | OpGet scope => (m, m scope)
  | OpClose scope mode now =>
      let st := spec_close rnd scope mode now (m scope) in (spec_set scope st m, Some st)
  | OpHeartbeat scope now =>
      let st := spec_heartbeat rnd scope now (m scope) in (spec_set scope st m, Some st)
  end.

Fixpoint spec_ops (rnd : time -> time) (ops : list session_op) (m : spec_state)
    : list (option SessionState) :=
  match ops with
  | [] => []
  | op :: ops => let '(m', a) := spec_op rnd op m in a :: spec_ops rnd ops m'
  end.

Section refinement.
Context {T : Type} (store : SessionStateStore T) (view : T -> Scope -> option SessionState)
  (rnd : time -> time) {L : SessionStoreLaws store view rnd}.

Definition agree (t : T) (m : spec_state) : Prop :=
  forall sc, clean_scope sc = true -> view t sc = m sc.

Lemma agree_write t t' m scope st :
  agree t m -> view t' scope = Some st -> scopes_framed view scope t t' ->
  agree t' (spec_set scope st m).
Proof using Type.
  intros Ha Hv Hfr sc Hsc. unfold spec_set. destruct (decide (sc = scope)) as [->|Hne]; [done|].
  rewrite Hfr by done. by apply Ha.
Qed.

Lemma reg_op_refines op r r' a m :
  clean_scope (op_scope op) = true -> coherent view r -> agree r.1 m ->
  reg_op store op r = (r', Ok a) ->
  coherent view r' /\ a = (spec_op rnd op m).2 /\ agree r'.1 (spec_op rnd op m).1.
Proof using L.
  intros Hc Hcoh Ha. destruct op as [scope|scope mode now|scope now]; cbn [op_scope reg_op] in *; intros H.
  - destruct (reg_Get_refines store view rnd _ _ _ _ Hc Hcoh H) as (Hcoh' & Hsv & Ho). cbn.
    split; [done|]. rewrite <-(Ha scope Hc). split; [by apply Ho|].
    intros sc Hsc. rewrite (Hsv sc Hsc). by apply Ha.
  - apply bind_ok_inv in H as (r1 & st & H & E). injection E as <- <-.
    destruct (reg_Close_refines store view rnd _ _ _ _ _ _ Hc Hcoh H) as (Hcoh' & Hst & Hv & Hfr).
    rewrite (Ha scope Hc) in Hst. cbn. rewrite <-Hst. split_and!; [done..|]. by eapply agree_write.
  - apply bind_ok_inv in H as (r1 & st & H & E). injection E as <- <-.
    destruct (reg_Heartbeat_refines store view rnd _ _ _ _ _ Hc Hcoh H) as (Hcoh' & Hst & Hv & Hfr).
    rewrite (Ha scope Hc) in Hst. cbn. rewrite <-Hst. split_and!; [done..|]. by eapply agree_write.
Qed.

(** C3: For scopes without the separator ["|"], a sequence of registry calls
    that all answer - over any lawful store, from an empty cache and whatever
    the store holds - answers as the abstract session machine started from the
    store's sessions does: a closed session absorbs closes and heartbeats and
    keeps its first mode and time, an open one takes the new heartbeat, and a
    call changes the session of its own scope only.  (With the separator in a
    scope two sessions can share a cache entry; after a call that fails the
    cache may be behind the store.) *)
Theorem registry_refines_machine ops t r' answers :
  Forall (fun op => clean_scope (op_scope op) = true) ops ->
  reg_ops store ops (t, ∅) = (r', Ok answers) -> answers = spec_ops rnd ops (view t).
Proof using L.
  intros Hops.
  assert (Hgen : forall r m, coherent view r -> agree r.1 m ->
    reg_ops store ops r = (r', Ok answers) -> answers = spec_ops rnd ops m).
  { revert answers. induction Hops as [|op ops Hop _ IH]; intros answers r m Hcoh Ha; cbn [reg_ops spec_ops].
    - by intros [= _ <-].
    - intros H. apply bind_ok_inv in H as (r1 & a & H1 & H).
      apply bind_ok_inv in H as (r2 & rest & H2 & H). injection H as -> <-.
      destruct (reg_op_refines op r r1 a m Hop Hcoh Ha H1) as (Hcoh1 & -> & Ha1).
      destruct (spec_op rnd op m) as [m' a']. cbn in *. f_equal. by eapply IH. }
  apply Hgen; [|by intros sc _]. intros sc st _ Hl. cbn in Hl. by rewrite lookup_empty in Hl.
Qed.
End refinement.

Definition acme : Scope := mkScope "acme" "alice" "p" "s1".
Definition acme_ops : list session_op :=
  [OpGet acme; OpHeartbeat acme 5000; OpClose acme "expire_working" 7000;
   OpClose acme "promote_and_expire" 8000; OpHeartbeat acme 9000; OpGet acme].

(** Over the in-memory store; the second conjunct is its concrete answer. *)
Lemma registry_refines_machine_witness :
  let run := reg_ops memorySessionStateStore acme_ops (∅, ∅) in
  let closed := mkSessionState "acme" "alice" "p" "s1" "closed" "expire_working" 7000 5000 in
  ok_and run (fun _ answers => answers = spec_ops id acme_ops (mem_view ∅)) /\
  spec_ops id acme_ops (mem_view ∅) =
    [None; Some (mkSessionState "acme" "alice" "p" "s1" "active" "" 0 5000);
     Some closed; Some closed; Some closed; Some closed].
Proof.
  split; [|vm_compute; reflexivity].
  apply ok_and_intro; [vm_compute; reflexivity|]. intros r answers E.
  refine (registry_refines_machine memorySessionStateStore mem_view id acme_ops ∅ r answers _ E).
  repeat constructor.
Defined.
Close Scope Z_scope.
