(* ===== verification/SessionReplicas.v ===== *)
(** * Registries that share a store

    Several gateway replicas, and several requests in one replica, run the
    methods of [service/session_registry.go] at the same time.  Each method is
    the very definition of [Sessions], read as a program whose accesses - the
    read of the cache under the read lock, the store call under no lock, the
    write of the cache under the write lock - are the atomic steps. *)
From S2P Require Import Prelude GoStrings HttpApi Authz ScopeKeys Contract RecallCache Sessions SessionProps.
Open Scope Z_scope.

(** ** Programs *)
Inductive reg_prog (T A : Type) : Type :=
| Return (r : result goerror A)
| ReadCache (key : string) (k : option SessionState -> reg_prog T A)
| CallStore {X : Type} (m : GoM T X) (k : result goerror X -> reg_prog T A)
| WriteCache (scope : Scope) (state : SessionState) (k : reg_prog T A).
Arguments Return {T A}.
Arguments ReadCache {T A}.
Arguments CallStore {T A X}.
Arguments WriteCache {T A}.

Fixpoint prog_bind {T A B} (f : A -> reg_prog T B) (p : reg_prog T A) : reg_prog T B :=
  match p with
  | Return (Ok a) => f a
  | Return (Fail e) => Return (Fail e)
  | ReadCache key k => ReadCache key (fun o => prog_bind f (k o))
  | CallStore m k => CallStore m (fun r => prog_bind f (k r))
  | WriteCache scope state k => WriteCache scope state (prog_bind f k)
  end.

#[export] Instance prog_ret T : MRet (reg_prog T) := fun A a => Return (Ok a).
#[export] Instance prog_mbind T : MBind (reg_prog T) := fun A B f p => prog_bind f p.
#[export] Instance prog_access T : RegistryAccess T (reg_prog T) := {|
  read_cache key := ReadCache key (fun o => Return (Ok o));
  on_store A m := CallStore m Return;
  cache_state scope state := WriteCache scope state (Return (Ok tt))
|}.

Definition prog_op {T} (store : SessionStateStore T) (op : session_op) : reg_prog T (option SessionState) :=
  match op with
  | OpGet scope => registry_Get store scope
  | OpClose scope mode now => st ← registry_Close store scope mode now; mret (Some st)
  | OpHeartbeat scope now => st ← registry_Heartbeat store scope now; mret (Some st)
  end.

(** Run without interruption, a program is the call of [Sessions]. *)
Fixpoint alone {T A} (p : reg_prog T A) : GoM (registry T) A :=
  match p with
  | Return r => fun s => (s, r)
  | ReadCache key k => fun s => alone (k (s.2 !! key)) s
  | CallStore m k => fun s => let '(t, r) := m s.1 in alone (k r) (t, s.2)
  | WriteCache scope state k => fun s => alone k (s.1, <[sessionScopeKey scope := state]> s.2)
  end.

Lemma alone_op {T} (store : SessionStateStore T) op s : alone (prog_op store op) s = reg_op store op s.
Proof.
  destruct op as [scope|scope mode now|scope now]; cbn [prog_op reg_op].
  - unfold reg_Get, registry_Get. rewrite run_bind. cbn. destruct (s.2 !! _); cbn; [done|].
    rewrite run_bind. cbn. unfold zoom. destruct (LoadSessionState store scope s.1) as [t [[st|]|e]]; done.
  - rewrite run_bind. unfold reg_Close, registry_Close. rewrite run_bind. cbn. unfold zoom.
    by destruct (SaveClosedSession store scope mode now s.1) as [t [st|e]].
  - rewrite run_bind. unfold reg_Heartbeat, registry_Heartbeat. rewrite run_bind. cbn. unfold zoom.
    by destruct (SaveHeartbeat store scope now s.1) as [t [st|e]].
Qed.

(** ** The system: a store, a cache per replica, and the calls in flight *)
Section replicas.
Context {T : Type} (store : SessionStateStore T) (view : T -> Scope -> option SessionState)
  (rnd : time -> time) {L : SessionStoreLaws store view rnd}.
Abbreviation caches := (nat -> gmap string SessionState).
Abbreviation thread := (nat * session_op * reg_prog T (option SessionState))%type.

Record sessionSystem := mkSessionSystem {
  sys_store : T;
  sys_caches : caches;
  sys_threads : list thread
}.

Definition set_cache (i : nat) (scope : Scope) (st : SessionState) (c : caches) : caches :=
  fun j => if decide (j = i) then <[sessionScopeKey scope := st]> (c j) else c j.

(** One access of a call in flight in replica [i]. *)
Definition advance (i : nat) (t : T) (c : caches) (p : reg_prog T (option SessionState))
    : option (T * caches * reg_prog T (option SessionState)) :=
  match p with
  | Return _ => None
  | ReadCache key k => Some (t, c, k (c i !! key))
  | CallStore m k => let '(t', r) := m t in Some (t', c, k r)
  | WriteCache scope state k => Some (t, set_cache i scope state c, k)
  end.

(** A replica receives a call, or a call in flight takes its next access; a
    call that has returned stays in the list with its answer. *)
Inductive session_step : sessionSystem -> sessionSystem -> Prop :=
| step_call i op t c threads :
    clean_scope (op_scope op) = true ->
    session_step (mkSessionSystem t c threads)
      (mkSessionSystem t c (threads ++ [(i, op, prog_op store op)]))
| step_access i op p p' t t' c c' l1 l2 :
    advance i t c p = Some (t', c', p') ->
    session_step (mkSessionSystem t c (l1 ++ (i, op, p) :: l2))
      (mkSessionSystem t' c' (l1 ++ (i, op, p') :: l2)).

Definition session_start (t : T) : sessionSystem := mkSessionSystem t (fun _ => ∅) [].
Definition session_reachable (t : T) : sessionSystem -> Prop := rtc session_step (session_start t).

(** ** What every program respects *)
Definition closed_at (t : T) (scope : Scope) (o : option SessionState) : Prop :=
  forall st, o = Some st -> is_closed st = true -> view t scope = Some st.

Definition answer_ok (op : session_op) (o : option SessionState) : Prop :=
  match op with
  | OpClose _ _ _ => exists st, o = Some st /\ is_closed st = true
  | _ => True
  end.

Abbreviation stays := (closed_stays view).

(** From a store [t] on, and whatever the others do between its accesses, [p]
    keeps closed sessions as they are, caches nothing false about them, and
    answers truthfully. *)
Fixpoint safe (op : session_op) (t : T) (p : reg_prog T (option SessionState)) : Prop :=
  match p with
  | Return r => forall o, r = Ok o -> closed_at t (op_scope op) o /\ answer_ok op o
  | ReadCache key k => key = sessionScopeKey (op_scope op) /\
      forall t' o, stays t t' -> closed_at t' (op_scope op) o -> safe op t' (k o)
  | CallStore m k => forall t0, stays t t0 -> stays t0 (m t0).1 /\ safe op (m t0).1 (k (m t0).2)
  | WriteCache scope st k => scope = op_scope op /\ closed_at t scope (Some st) /\ safe op t k
  end.

#[local] Instance stays_preorder : PreOrder stays.
Proof using Type. split; [by intros t sc st|]. intros t1 t2 t3 H12 H23 sc st Hsc Hv Hc. eauto. Qed.

Lemma closed_at_stays t t' scope o :
  clean_scope scope = true -> stays t t' -> closed_at t scope o -> closed_at t' scope o.
Proof using Type. intros Hc Hst H st Ho Hcl. eauto. Qed.

Lemma safe_stays op t t' p :
  clean_scope (op_scope op) = true -> stays t t' -> safe op t p -> safe op t' p.
Proof using Type.
  intros Hc Hst. induction p as [r|key k _|X m k _|scope st k IH]; cbn.
  - intros H o Ho. destruct (H o Ho). eauto using closed_at_stays.
  - intros [-> H]. split; [done|]. intros t2 o H2. apply H. by transitivity t'.
  - intros H t0 H0. apply H. by transitivity t'.
  - intros (-> & H & Hk). eauto using closed_at_stays.
Qed.

(** A save, and what follows it. *)
Lemma safe_save op t (m : GoM T SessionState) (new : T -> SessionState) :
  clean_scope (op_scope op) = true ->
  (forall t t' r, m t = (t', r) -> write_law view (op_scope op) (new t) t t' r) ->
  (forall t st, view t (op_scope op) = Some st -> is_closed st = true -> new t = st) ->
  (forall t, answer_ok op (Some (new t))) ->
  safe op t (st ← (state ← on_store m; _ ← cache_state (op_scope op) state; mret state); mret (Some st)).
Proof using Type.
  intros Hc Hm Hnew Hans. cbn. intros t0 _. destruct (m t0) as [t' r] eqn:E; cbn.
  pose proof (Hm _ _ _ E) as Hw. split.
  - eapply closed_stays_write; [done| |exact Hw]. intros st. apply Hnew.
  - destruct Hw as (_ & _ & Hok). destruct r as [st|e]; cbn; [|done].
    destruct (Hok st eq_refl) as [-> Hv].
    assert (Hat : closed_at t' (op_scope op) (Some (new t0))) by by intros st [= <-] _.
    split_and!; [done..|]. intros o [= <-]. auto.
Qed.

Lemma prog_op_safe op t : clean_scope (op_scope op) = true -> safe op t (prog_op store op).
Proof using L.
  intros Hc. destruct op as [scope|scope mode now|scope now]; cbn [op_scope] in Hc.
  - cbn. split; [done|]. intros t1 [st|] _ Ht1; cbn.
    { by intros o [= <-]. }
    intros t2 _. destruct (LoadSessionState store scope t2) as [t3 r] eqn:E; cbn.
    destruct (load_law _ _ _ _ Hc E) as [Hv Hok].
    split; [intros sc st _ H _; by rewrite Hv|]. destruct r as [[st|]|e]; cbn; [| |done].
    + assert (Hat : closed_at t3 scope (Some st)).
      { intros st' [= ->] _. rewrite Hv. symmetry. by apply Hok. }
      split_and!; [done..|]. by intros o [= <-].
    + by intros o [= <-].
  - apply (safe_save (OpClose scope mode now) t _ (fun x => spec_close rnd scope mode now (view x scope)));
      cbn; [done| | |].
    + intros x x' r. by apply close_law.
    + intros x st ->. apply spec_close_absorbs.
    + intros x. eexists. split; [done|]. apply spec_close_closed.
  - apply (safe_save (OpHeartbeat scope now) t _ (fun x => spec_heartbeat rnd scope now (view x scope)));
      cbn; [done| | |done].
    + intros x x' r. by apply heartbeat_law.
    + intros x st ->. apply spec_heartbeat_absorbs.
Qed.

(** ** The invariant *)
Definition thread_ok (t : T) (th : thread) : Prop :=
  clean_scope (op_scope th.1.2) = true /\ safe th.1.2 t th.2.

Definition session_inv (s : sessionSystem) : Prop :=
  (forall i, closed_true view (sys_store s) (sys_caches s i)) /\
  Forall (thread_ok (sys_store s)) (sys_threads s).

Lemma closed_true_stays t t' c : stays t t' -> closed_true view t c -> closed_true view t' c.
Proof using Type. intros Hst Ht sc st Hsc Hl Hc. eauto. Qed.

Lemma threads_stays t t' ths : stays t t' -> Forall (thread_ok t) ths -> Forall (thread_ok t') ths.
Proof using Type.
  intros Hst. intros H. eapply Forall_impl; [exact H|]. intros [[i op] p] [Hc Hs].
  split; [done|]. by eapply safe_stays.
Qed.

Lemma closed_true_set t c i j scope st :
  clean_scope scope = true -> closed_at t scope (Some st) ->
  (forall i, closed_true view t (c i)) -> closed_true view t (set_cache i scope st c j).
Proof using Type.
  intros Hc Hat Ht sc st' Hsc Hl Hcl. unfold set_cache in Hl. destruct (decide (j = i)); [|by eapply Ht].
  apply lookup_key_insert in Hl as [[-> ->]|[_ Hl]]; [by apply Hat|by eapply Ht|done..].
Qed.

(** One access of a safe program. *)
Lemma advance_safe i op t c p t' c' p' :
  clean_scope (op_scope op) = true -> safe op t p -> (forall i, closed_true view t (c i)) ->
  advance i t c p = Some (t', c', p') ->
  stays t t' /\ safe op t' p' /\ forall j, closed_true view t' (c' j).
Proof using Type.
  intros Hc Hs Ht. destruct p as [r|key k|X m k|scope st k]; cbn in *.
  - done.
  - intros [= <- <- <-]. destruct Hs as [-> Hk]. split_and!; [done| |done].
    apply Hk; [done|]. intros st Hl. by eapply Ht.
  - destruct (Hs t ltac:(done)) as [Hst Hk]. destruct (m t) as [t1 r]. intros [= <- <- <-].
    split_and!; [done..|]. intros j. by eapply closed_true_stays.
  - destruct Hs as (-> & Hat & Hk). intros [= <- <- <-]. split_and!; [done..|].
    intros j. by apply closed_true_set.
Qed.

Lemma session_inv_step s s' :
  session_step s s' -> session_inv s -> session_inv s' /\ stays (sys_store s) (sys_store s').
Proof using L.
  intros [i op t c ths Hc|i op p p' t t' c c' l1 l2 E] [Ht Hths]; cbn in *.
  - split; [split; [done|]|done]. apply Forall_app. split; [done|].
    repeat constructor; cbn; [done|]. by apply prog_op_safe.
  - apply Forall_app in Hths as [H1 [[Hc Hs] H2]%Forall_cons]. cbn in *.
    destruct (advance_safe i op t c p t' c' p' Hc Hs Ht E) as (Hst & Hs' & Ht').
    split; [|done]. split; cbn; [done|]. apply Forall_app. split; [by eapply threads_stays|].
    constructor; [by split|by eapply threads_stays].
Qed.

Lemma session_inv_steps s s' :
  rtc session_step s s' -> session_inv s -> session_inv s' /\ stays (sys_store s) (sys_store s').
Proof using L.
  intros H. induction H as [s|s1 s2 s3 Hs _ IH]; [done|]. intros Hi.
  destruct (session_inv_step _ _ Hs Hi) as [Hi2 H12]. destruct (IH Hi2) as [Hi3 H23].
  split; [done|]. by etransitivity.
Qed.

Lemma session_inv_start t : session_inv (session_start t).
Proof using Type. split; [|constructor]. intros i sc st _ Hl. cbn in Hl. by rewrite lookup_empty in Hl. Qed.

(** C22: With any number of replicas sharing a lawful store (which may fail
    before or after committing), and the cache reads, store calls and cache
    writes of their [Get], [Close] and [Heartbeat] calls - all for scopes
    without the separator ["|"] - interleaved in any order: a session the
    store once holds as closed keeps that very state, no replica's cache says
    of a session that it is closed when it is not, a call that answers with a
    closed session answers with the state the store holds, and a close that
    answers with success answers with a closed session. *)
Theorem replicas_agree_on_closed t s1 s2 :
  session_reachable t s1 -> rtc session_step s1 s2 ->
  (forall sc st, clean_scope sc = true -> view (sys_store s1) sc = Some st -> is_closed st = true ->
     view (sys_store s2) sc = Some st) /\
  (forall i sc st, clean_scope sc = true -> sys_caches s2 i !! sessionScopeKey sc = Some st ->
     is_closed st = true -> view (sys_store s2) sc = Some st) /\
  (forall i op st, (i, op, Return (Ok (Some st))) ∈ sys_threads s2 -> is_closed st = true ->
     view (sys_store s2) (op_scope op) = Some st) /\
  (forall i sc mode now o, (i, OpClose sc mode now, Return (Ok o)) ∈ sys_threads s2 ->
     exists st, o = Some st /\ is_closed st = true).
Proof using L.
  intros H1 H12. destruct (session_inv_steps _ _ H1 (session_inv_start t)) as [Hi1 _].
  destruct (session_inv_steps _ _ H12 Hi1) as [[Ht Hths] Hst].
  rewrite Forall_forall in Hths. split_and!; [exact Hst|exact Ht| |].
  - intros i op st [Hc Hs]%Hths Hcl. by apply (Hs (Some st) eq_refl).
  - intros i sc mode now o [Hc Hs]%Hths. by apply (Hs o eq_refl).
Qed.
End replicas.

(** ** Two replicas

    Replica 1's heartbeat saves its answer before, and caches it after, replica
    0 has closed the session: the cache of replica 1 says active, the store
    says closed, and nothing says closed of an open session. *)
Definition scheduled {T} (store : SessionStateStore T) (i : nat) (s : option (sessionSystem (T := T)))
    : option sessionSystem :=
  s ← s; '(j, op, p) ← sys_threads s !! i; '(t, c, p') ← advance j (sys_store s) (sys_caches s) p;
  Some (mkSessionSystem t c (<[i := (j, op, p')]> (sys_threads s))).

Lemma scheduled_step {T} (store : SessionStateStore T) i s s' :
  scheduled store i (Some s) = Some s' -> session_step store s s'.
Proof.
  unfold scheduled. cbn. destruct s as [t c ths]; cbn.
  destruct (ths !! i) as [[[j op] p]|] eqn:Ei; cbn; [|done].
  destruct (advance j t c p) as [[[t' c'] p']|] eqn:Ea; cbn; [|done]. intros [= <-].
  rewrite insert_take_drop by (by eapply lookup_lt_Some).
  rewrite <-(take_drop_middle ths i (j, op, p) Ei) at 1. by apply step_access.
Qed.

Definition replicas_called : sessionSystem :=
  mkSessionSystem (∅ : memSessions) (fun _ => ∅)
    [(1%nat, OpHeartbeat acme 5000, prog_op memorySessionStateStore (OpHeartbeat acme 5000));
     (0%nat, OpClose acme "expire_working" 7000, prog_op memorySessionStateStore (OpClose acme "expire_working" 7000))].
Definition run_schedule (l : list nat) (s : sessionSystem) : option sessionSystem :=
  foldl (fun s i => scheduled memorySessionStateStore i s) (Some s) l.
Definition the_system (o : option (sessionSystem (T := memSessions))) : sessionSystem :=
  default replicas_called o.
Definition replicas_closed : sessionSystem := the_system (run_schedule [0; 1; 1]%nat replicas_called).
Definition replicas_beaten : sessionSystem := the_system (run_schedule [0; 1; 1; 0]%nat replicas_called).
Definition acme_closed : SessionState :=
  mkSessionState "acme" "alice" "p" "s1" "closed" "expire_working" 7000 5000.

Example replicas_disagree_on_active :
  sys_caches replicas_beaten 0%nat !! sessionScopeKey acme = Some acme_closed /\
  sys_caches replicas_beaten 1%nat !! sessionScopeKey acme
  = Some (mkSessionState "acme" "alice" "p" "s1" "active" "" 0 5000).
Proof. by split; vm_compute. Qed.

Lemma run_schedule_steps l s s' :
  run_schedule l s = Some s' -> rtc (session_step memorySessionStateStore) s s'.
Proof.
  unfold run_schedule. revert s. induction l as [|i l IH]; intros s; cbn [foldl]; [by intros [= ->]|].
  destruct (scheduled memorySessionStateStore i (Some s)) as [s1|] eqn:E.
  - intros H. eapply rtc_l; [by apply scheduled_step in E|by apply IH].
  - intros H. exfalso. clear -H. induction l; cbn in H; [done|auto].
Qed.

Lemma replicas_agree_on_closed_witness :
  mem_view (sys_store replicas_closed) acme = Some acme_closed /\
  mem_view (sys_store replicas_beaten) acme = Some acme_closed.
Proof.
  assert (Hc : mem_view (sys_store replicas_closed) acme = Some acme_closed) by (vm_compute; reflexivity).
  split; [exact Hc|].
  refine (proj1 (replicas_agree_on_closed memorySessionStateStore mem_view id ∅
            replicas_closed replicas_beaten _ _) acme acme_closed eq_refl Hc eq_refl).
  - unfold session_reachable. transitivity replicas_called.
    + eapply rtc_l; [apply (step_call _ 1%nat (OpHeartbeat acme 5000) ∅ _ []); reflexivity|].
      apply rtc_once. by apply (step_call _ 0%nat (OpClose acme "expire_working" 7000) ∅ _ [_]).
    + apply (run_schedule_steps [0; 1; 1]%nat). reflexivity.
  - apply (run_schedule_steps [0]%nat). reflexivity.
Defined.
Close Scope Z_scope.
