(* ===== verification/ScopeVersions.v ===== *)
(** * Scope versions: [service/scope_version_store.go] and
      [service/postgres_scope_version_store.go]

    A counter per scope, bumped after every mutation; bounded recall accepts a
    cached response only under the version it was filled at. *)
From S2P Require Import Prelude GoStrings HttpApi Authz ScopeKeys Contract Sessions.
Open Scope Z_scope.

Record ScopeVersionStore (V : Type) := mkScopeVersionStore {
  CurrentScopeVersion : Scope -> GoM V Z;
  BumpScopeVersion : Scope -> GoM V Z
}.
Arguments CurrentScopeVersion {V}.
Arguments BumpScopeVersion {V}.

(** ** The in-memory store: a Go map of [int64], absent keys read 0 *)
Abbreviation memVersions := (gmap string Z).

Definition mem_CurrentScopeVersion (scope : Scope) : GoM memVersions Z :=
  fun versions => (versions, Ok (default 0 (versions !! sessionScopeKey scope))).

Definition mem_BumpScopeVersion (scope : Scope) : GoM memVersions Z :=
  fun versions =>
    let key := sessionScopeKey scope in
    let v := wrap64 (default 0 (versions !! key) + 1) in
    (<[key := v]> versions, Ok v).

Definition memoryScopeVersionStore : ScopeVersionStore memVersions :=
  {| CurrentScopeVersion := mem_CurrentScopeVersion;
     BumpScopeVersion := mem_BumpScopeVersion |}.

(** ** The Postgres store: table [memory_gateway_scope_version]

    A [BIGINT] increment past the maximum is an error of the statement. *)
Record pgVersions := mkPgVersions {
  pv_rows : gmap Scope Z;
  pv_faults : list fault
}.

Definition pv_query {A} (f : gmap Scope Z -> gmap Scope Z * result goerror A) : GoM pgVersions A :=
  fun db =>
    let rest := tail (pv_faults db) in
    match head (pv_faults db) with
    | Some (FaultBefore msg) => (mkPgVersions (pv_rows db) rest, Fail (ErrText msg))
    | Some (FaultAfter msg) => (mkPgVersions (f (pv_rows db)).1 rest, Fail (ErrText msg))
    | _ => let '(rows, r) := f (pv_rows db) in (mkPgVersions rows rest, r)
    end.

Definition pv_select (scope : Scope) (rows : gmap Scope Z) : gmap Scope Z * result goerror Z :=
  (rows, match rows !! scope with Some v => Ok v | None => Fail (ErrSentinel NoRows) end).

Definition pv_upsert (scope : Scope) (rows : gmap Scope Z) : gmap Scope Z * result goerror Z :=
  match rows !! scope with
  | None => (<[scope := 1]> rows, Ok 1)
  | Some v =>
      if v =? max_int64 then (rows, Fail (ErrText "bigint out of range"))
      else (<[scope := v + 1]> rows, Ok (v + 1))
  end.

Section postgres_versions.
Context (pool_ok : bool).

Definition pg_CurrentScopeVersion (scope : Scope) : GoM pgVersions Z :=
  if negb pool_ok then throw pool_required else
  r ← attempt (pv_query (pv_select scope));
  match r with
  | Ok version => mret version
  | Fail err =>
      if err_is_exactly err NoRows then mret 0
      else throw (ErrWrap "memory-gateway/service: load scope version" err)
  end.

Definition pg_BumpScopeVersion (scope : Scope) : GoM pgVersions Z :=
  if negb pool_ok then throw pool_required else
  r ← attempt (pv_query (pv_upsert scope));
  match r with
  | Ok version => mret version
  | Fail err => throw (ErrWrap "memory-gateway/service: bump scope version" err)
  end.

Definition PostgresScopeVersionStore : ScopeVersionStore pgVersions :=
  {| CurrentScopeVersion := pg_CurrentScopeVersion;
     BumpScopeVersion := pg_BumpScopeVersion |}.
End postgres_versions.

(** ** The contract of a version store

    [version v sc] is the current version; a bump moves its own scope forward
    by one, unless it fails, and leaves the other scopes alone.  A counter at
    the bound is outside the contract ([room]). *)
Definition room (z : Z) : Prop := 0 <= z < max_int64.

Class ScopeVersionLaws {V} (store : ScopeVersionStore V) (version : V -> Scope -> Z) : Prop := {
  current_law scope v v' r :
    clean_scope scope = true -> CurrentScopeVersion store scope v = (v', r) ->
    (forall sc, version v' sc = version v sc) /\ (forall z, r = Ok z -> z = version v scope);
  bump_law scope v v' r :
    clean_scope scope = true -> room (version v scope) ->
    BumpScopeVersion store scope v = (v', r) ->
    (forall sc, clean_scope sc = true -> sc <> scope -> version v' sc = version v sc) /\
    (version v' scope = version v scope + 1 \/
     (version v' scope = version v scope /\ is_ok r = false)) /\
    (forall z, r = Ok z -> z = version v' scope)
}.

Definition mem_version (v : memVersions) (scope : Scope) : Z :=
  default 0 (v !! sessionScopeKey scope).

#[export] Instance memory_version_laws : ScopeVersionLaws memoryScopeVersionStore mem_version.
Proof.
  split.
  - intros scope v v' r _ [= <- <-]. split; [done|]. by intros z [= <-].
  - intros scope v v' r Hc Hroom [= <- <-]. unfold mem_version in *.
    rewrite lookup_insert_eq. cbn. unfold room, max_int64 in Hroom.
    rewrite wrap64_id by (unfold int64_range, min_int64, max_int64; lia).
    repeat split; [| by left |by intros z [= <-]].
    intros sc Hsc Hne. rewrite lookup_insert_ne; [done|]. intros E. apply Hne.
    symmetry. by apply sessionScopeKey_inj.
Qed.

Definition pg_version (db : pgVersions) (scope : Scope) : Z := default 0 (pv_rows db !! scope).

#[export] Instance postgres_version_laws pool_ok :
  ScopeVersionLaws (PostgresScopeVersionStore pool_ok) pg_version.
Proof.
  split.
  - intros scope v v' r _. cbn. unfold pg_CurrentScopeVersion.
    destruct pool_ok; cbn [negb]; [|by intros [= <- <-]].
    rewrite run_bind. unfold attempt, pv_query, pv_select, pg_version.
    destruct (head (pv_faults v)) as [[|m|m]|]; cbn; try (by intros [= <- <-]);
      destruct (pv_rows v !! scope); cbn; intros [= <- <-]; cbn; split; try done;
      by intros ? [= <-].
  - intros scope v v' r _ Hroom. cbn. unfold pg_BumpScopeVersion.
    destruct pool_ok; cbn [negb];
      [|intros [= <- <-]; repeat split; [by right|done]].
    rewrite run_bind. unfold attempt, pv_query, pv_upsert, pg_version in *.
    unfold room in Hroom.
    assert (Hne : forall x sc, sc <> scope -> <[scope := x]> (pv_rows v) !! sc = pv_rows v !! sc)
      by (intros; by apply lookup_insert_ne).
    destruct (pv_rows v !! scope) as [z|] eqn:E; cbn in Hroom;
      [destruct (Z.eqb_spec z max_int64); [lia|]|];
      destruct (head (pv_faults v)) as [[|m|m]|]; cbn; intros [= <- <-]; cbn;
      rewrite ?lookup_insert_eq, ?E; cbn;
      (split_and!; [intros sc _ Hs; by rewrite ?Hne by done | tauto | intros ? Hr; congruence]).
Qed.
Close Scope Z_scope.
