(* ===== verification/RecallSelection.v ===== *)
(** * Recall selection: [service/recall_selection.go], [service/token_budget.go]

    Token estimates, candidate scores, and the order in which candidates are
    offered to the prompt budget. *)
From S2P Require Import Prelude GoStrings GoFloat GoSort HttpApi Contract.

Definition EstimateTokenCost (content : string) : Z :=
  if bool_decide (content = "") then 0
  else Z.quot (RuneCountInString content + 3) 4.

Record recallCandidate := mkRecallCandidate {
  rc_record : MemoryRecord;
  rc_tokenEstimate : Z;
  rc_score : float64
}.

Definition recallCandidateScore (record : MemoryRecord) (tokenEstimate : Z) : float64 :=
  let score := m_Importance record in
  let score := if f_eqb score f_zero then f_half else score in
  let score := if m_Pinned record then f_add score f_two else score in
  let score := if bool_decide (m_Source record = "user_saved") then f_add score f_one else score in
  if (0 <? tokenEstimate)%Z then f_add score (f_div f_one (f_of_Z tokenEstimate)) else score.

(** The comparison given to [sort.SliceStable]. *)
Definition candidate_less (a b : recallCandidate) : bool :=
  if f_neqb (rc_score a) (rc_score b) then f_gtb (rc_score a) (rc_score b)
  else if negb (rc_tokenEstimate a =? rc_tokenEstimate b)%Z
       then (rc_tokenEstimate a <? rc_tokenEstimate b)%Z
       else str_ltb (m_MemoryID (rc_record a)) (m_MemoryID (rc_record b)).

Definition make_candidate (record : MemoryRecord) : recallCandidate :=
  let estimate := EstimateTokenCost (m_Content record) in
  {| rc_record := record;
     rc_tokenEstimate := estimate;
     rc_score := recallCandidateScore record estimate |}.

Definition buildRecallCandidates (records : list MemoryRecord) : list recallCandidate :=
  SliceStable candidate_less (map make_candidate records).

(** ** Orders on floats and strings as sort orders *)
Lemma f_neqb_gtb x y :
  not_nan x -> not_nan y -> f_neqb x y = f_gtb x y || f_gtb y x.
Proof.
  intros Hx Hy. unfold f_neqb, f_gtb.
  pose proof (f_eqb_key x y Hx Hy) as He. pose proof (f_ltb_key x y Hx Hy) as Hl.
  pose proof (f_ltb_key y x Hy Hx) as Hg. unfold f_eqb, f_ltb in *.
  unfold f_key_lt, f_key_eq in *.
  destruct (SFeqb x y), (SFltb x y), (SFltb y x); cbn; try done; exfalso; intuition lia.
Qed.

Lemma StrictWeak_gtb {A} (f : A -> float64) (P : A -> Prop) :
  (forall a, P a -> not_nan (f a)) -> StrictWeak (fun a b => f_gtb (f a) (f b)) P.
Proof.
  intros HP. unfold f_gtb. split.
  - intros a b Pa Pb. change (f_ltb (f b) (f a) = true -> f_ltb (f a) (f b) = false).
    rewrite <-not_true_iff_false, !f_ltb_key by auto. unfold f_key_lt. lia.
  - intros a b c Pa Pb Pc.
    change (f_ltb (f b) (f a) = true -> f_ltb (f c) (f b) = true -> f_ltb (f c) (f a) = true).
    rewrite !f_ltb_key by auto. unfold f_key_lt. lia.
  - intros a b c Pa Pb Pc.
    change (f_ltb (f b) (f a) = false -> f_ltb (f c) (f b) = false -> f_ltb (f c) (f a) = false).
    rewrite <-!not_true_iff_false, !f_ltb_key by auto. unfold f_key_lt. lia.
Qed.

Lemma StrictWeak_str {A} (f : A -> string) (P : A -> Prop) :
  StrictWeak (fun a b => str_ltb (f a) (f b)) P.
Proof.
  split.
  - intros a b _ _. apply str_ltb_asym.
  - intros a b c _ _ _. apply str_ltb_trans.
  - intros a b c _ _ _ Hab Hbc. destruct (str_ltb (f a) (f c)) eqn:Hac; [|done].
    destruct (str_ltb (f b) (f a)) eqn:Hba.
    + by rewrite (str_ltb_trans _ _ _ Hba Hac) in Hbc.
    + pose proof (str_ltb_total _ _ Hab Hba) as E. rewrite E in Hac. congruence.
Qed.

Definition scored (c : recallCandidate) : Prop := not_nan (rc_score c).

#[export] Instance candidate_less_weak : StrictWeak candidate_less scored.
Proof.
  apply (StrictWeak_lex _ (fun a b => f_gtb (rc_score a) (rc_score b))
           (lex_less (fun a b => negb (rc_tokenEstimate a =? rc_tokenEstimate b)%Z)
              (fun a b => (rc_tokenEstimate a <? rc_tokenEstimate b)%Z)
              (fun a b => str_ltb (m_MemoryID (rc_record a)) (m_MemoryID (rc_record b))))).
  - by apply StrictWeak_gtb.
  - apply StrictWeak_lex; [apply StrictWeak_Z|apply (StrictWeak_str (fun a => m_MemoryID (rc_record a)))|].
    intros a b _ _. lia.
  - intros a b. apply f_neqb_gtb.
Qed.

(** ** Estimates *)
Lemma EstimateTokenCost_bounds content :
  (0 <= EstimateTokenCost content /\
   4 * EstimateTokenCost content <= Z.of_nat (String.length content) + 3 /\
   RuneCountInString content <= 4 * EstimateTokenCost content)%Z.
Proof.
  unfold EstimateTokenCost. pose proof (RuneCountInString_bounds content) as H.
  case_bool_decide as E; [by subst|].
  rewrite Z.quot_div_nonneg by lia.
  pose proof (Z.div_mod (RuneCountInString content + 3) 4).
  pose proof (Z.mod_pos_bound (RuneCountInString content + 3) 4). lia.
Qed.

Lemma EstimateTokenCost_zero content : EstimateTokenCost content = 0%Z <-> content = "".
Proof.
  split; [|by intros ->]. intros H. destruct (decide (content = "")) as [|Hne]; [done|].
  pose proof (EstimateTokenCost_bounds content). pose proof (RuneCountInString_pos content Hne). lia.
Qed.

(** ** The candidate list

    [records_scored]: no score is NaN (a NaN can only come from a NaN
    importance or from infinities). *)
Definition records_scored (records : list MemoryRecord) : bool :=
  forallb (fun r => negb (is_nan_f (rc_score (make_candidate r)))) records.

Lemma records_scored_Forall records :
  records_scored records = true -> Forall scored (map make_candidate records).
Proof.
  unfold records_scored, scored, not_nan. rewrite forallb_forall, Forall_forall.
  intros H c (r & -> & Hr)%list_elem_of_fmap. apply list_elem_of_In in Hr.
  specialize (H r Hr). by apply negb_true_iff in H.
Qed.

Lemma buildRecallCandidates_perm records :
  buildRecallCandidates records ≡ₚ map make_candidate records.
Proof. apply SliceStable_perm. Qed.

Lemma buildRecallCandidates_elem records c :
  c ∈ buildRecallCandidates records <-> exists r, r ∈ records /\ c = make_candidate r.
Proof. rewrite buildRecallCandidates_perm, list_elem_of_fmap. split; intros (r & ? & ?); eauto. Qed.

(** Candidates the comparison does not tell apart carry the same identifier. *)
Lemma candidates_equiv_id a b :
  scored a -> scored b -> equiv_to candidate_less a b = true ->
  m_MemoryID (rc_record a) = m_MemoryID (rc_record b).
Proof.
  intros Ha Hb. unfold equiv_to, candidate_less.
  rewrite (f_neqb_gtb (rc_score a)), (f_neqb_gtb (rc_score b)) by done.
  rewrite (Z.eqb_sym (rc_tokenEstimate b)), andb_true_iff, !negb_true_iff.
  destruct (f_gtb (rc_score a) (rc_score b)), (f_gtb (rc_score b) (rc_score a)); cbn; try (by intros [??]).
  destruct (Z.eqb_spec (rc_tokenEstimate a) (rc_tokenEstimate b)); cbn.
  - intros [H1 H2]. by apply str_ltb_total.
  - rewrite !Z.ltb_ge. lia.
Qed.

Lemma distinct_ids_candidates records a b :
  NoDup (map m_MemoryID records) ->
  a ∈ map make_candidate records -> b ∈ map make_candidate records ->
  m_MemoryID (rc_record a) = m_MemoryID (rc_record b) -> a = b.
Proof.
  intros Hnd (r & -> & Hr)%list_elem_of_fmap (r' & -> & Hr')%list_elem_of_fmap E. cbn in E.
  apply list_elem_of_lookup in Hr as [n Hn], Hr' as [k Hk]. f_equal.
  assert (n = k) as ->; [|congruence].
  change (map m_MemoryID records) with (m_MemoryID <$> records) in Hnd.
  apply (NoDup_lookup _ n k (m_MemoryID r) Hnd); rewrite list_lookup_fmap; [by rewrite Hn|].
  rewrite Hk. cbn. by rewrite E.
Qed.

(** ** The budget: a reference selection

    Candidates are taken in order; one that would pass the budget is skipped
    and the next ones are still tried.  The running total is Go's [int]. *)
Definition over_budget (budget total estimate : Z) : bool :=
  (0 <? budget)%Z && (budget <? wrap64 (total + estimate))%Z.

Fixpoint greedy (budget total : Z) (candidates : list recallCandidate) : list recallCandidate :=
  match candidates with
  | [] => []
  | c :: rest =>
      if over_budget budget total (rc_tokenEstimate c) then greedy budget total rest
      else c :: greedy budget (wrap64 (total + rc_tokenEstimate c)) rest
  end.

Definition estimates (candidates : list recallCandidate) : list Z := map rc_tokenEstimate candidates.

Lemma greedy_sublist budget total cands : greedy budget total cands `sublist_of` cands.
Proof.
  revert total. induction cands as [|c cands IH]; intros total; cbn; [constructor|].
  destruct (over_budget _ _ _); constructor; apply IH.
Qed.

Lemma greedy_elem budget total cands c : c ∈ greedy budget total cands -> c ∈ cands.
Proof.
  revert total. induction cands as [|d cands IH]; intros total; cbn; [done|].
  destruct (over_budget _ _ _); rewrite !elem_of_cons; [by eauto|].
  intros [->|Hin]; [by left|]. right. by eapply IH.
Qed.

(** No estimate is negative and the total of all of them is an [int]: true of
    every list of records that fits in memory. *)
Definition estimates_fit (total : Z) (candidates : list recallCandidate) : Prop :=
  Forall (fun c => 0 <= rc_tokenEstimate c)%Z candidates /\
  (0 <= total /\ total + sum_Z (estimates candidates) <= max_int64)%Z.

Lemma estimates_fit_cons total c cands :
  estimates_fit total (c :: cands) ->
  wrap64 (total + rc_tokenEstimate c) = (total + rc_tokenEstimate c)%Z /\
  (0 <= rc_tokenEstimate c)%Z /\
  estimates_fit total cands /\ estimates_fit (total + rc_tokenEstimate c) cands.
Proof.
  intros [[Hc Hcs]%Forall_cons [Ht Hs]]. cbn in Hs.
  assert (Hn : (0 <= sum_Z (estimates cands))%Z).
  { apply sum_Z_nonneg. unfold estimates. rewrite Forall_map. eapply Forall_impl; [exact Hcs|done]. }
  unfold sum_Z, estimates in *. unfold max_int64 in *.
  rewrite wrap64_id by (unfold int64_range, min_int64, max_int64; lia).
  split_and!; [done|done| |]; (split; [done|]); unfold sum_Z, estimates, max_int64; lia.
Qed.

Lemma greedy_within budget total cands :
  (0 < budget)%Z -> estimates_fit total cands -> (total <= budget)%Z ->
  (total + sum_Z (estimates (greedy budget total cands)) <= budget)%Z.
Proof.
  intros Hb. revert total. induction cands as [|c cands IH]; intros total Hf Ht; cbn [greedy]; [cbn; lia|].
  destruct (estimates_fit_cons _ _ _ Hf) as (Hw & Hc & Hf1 & Hf2).
  unfold over_budget. rewrite Hw.
  destruct (Z.ltb_spec 0 budget); [|lia]. cbn [andb].
  destruct (Z.ltb_spec budget (total + rc_tokenEstimate c)); [by apply IH|].
  specialize (IH _ Hf2 ltac:(lia)). cbn. unfold sum_Z, estimates in *. lia.
Qed.

(** What was skipped does not fit, not even at the end. *)
Lemma greedy_maximal budget total cands c :
  (0 < budget)%Z -> estimates_fit total cands -> c ∈ cands ->
  c ∈ greedy budget total cands \/
  (budget < total + sum_Z (estimates (greedy budget total cands)) + rc_tokenEstimate c)%Z.
Proof.
  intros Hb. revert total. induction cands as [|d cands IH]; intros total Hf Hin.
  { by apply elem_of_nil in Hin. }
  destruct (estimates_fit_cons _ _ _ Hf) as (Hw & Hd & Hf1 & Hf2).
  assert (Hn : forall t, estimates_fit t cands -> (0 <= sum_Z (estimates (greedy budget t cands)))%Z).
  { intros t [Hcs _]. apply sum_Z_nonneg. unfold estimates. rewrite Forall_map.
    rewrite Forall_forall in Hcs |- *. intros x Hx. by apply Hcs, (greedy_elem budget t). }
  cbn [greedy]. unfold over_budget. rewrite Hw.
  destruct (Z.ltb_spec 0 budget); [|lia]. cbn [andb].
  destruct (Z.ltb_spec budget (total + rc_tokenEstimate d)) as [Hover|].
  - specialize (Hn _ Hf1). apply elem_of_cons in Hin as [->|Hin]; [right; lia|by apply IH].
  - specialize (Hn _ Hf2). cbn. unfold sum_Z, estimates in *.
    apply elem_of_cons in Hin as [->|Hin]; [left; by left|].
    destruct (IH _ Hf2 Hin) as [|]; [left; by right|right]. cbn. lia.
Qed.

(** Without a budget everything is taken. *)
Lemma greedy_unlimited budget total cands : (budget <= 0)%Z -> greedy budget total cands = cands.
Proof.
  intros Hb. revert total. induction cands as [|c cands IH]; intros total; cbn; [done|].
  unfold over_budget. destruct (Z.ltb_spec 0 budget); [lia|]. cbn. by rewrite IH.
Qed.

Lemma make_candidate_estimate_nonneg r : (0 <= rc_tokenEstimate (make_candidate r))%Z.
Proof. cbn. pose proof (EstimateTokenCost_bounds (m_Content r)). lia. Qed.
