(* ===== verification/HybridRecall.v ===== *)
(** * Hybrid recall: [service/hybrid_recaller.go],
      [service/vector_candidate_source.go] and the hydrator of
      [service/postgres_recall_store.go]

    Candidate sources propose scored identifiers, the recaller keeps the best
    score of each and the [topK] best identifiers, and the hydrator re-reads
    them from the truth source and drops what the scope may not see. *)
From S2P Require Import Prelude GoStrings GoFloat GoSort HttpApi Authz Contract RecallSelection.

Record RecallCandidate := mkRecallCandidate {
  cand_MemoryID : string;
  cand_Score : float64
}.

(** The one-method interfaces. *)
Definition RecallBackend (E : Type) : Type := Scope -> string -> Z -> GoM E (list MemoryRecord).
Definition RecallCandidateSource (E : Type) : Type := Scope -> string -> Z -> GoM E (list RecallCandidate).
Definition RecallRecordHydrator (E : Type) : Type := Scope -> list string -> GoM E (list MemoryRecord).

Definition NullVectorCandidateSource {E} : RecallCandidateSource E :=
  fun _ _ _ => throw (ErrSentinel PgNotFound).

Record HybridRecaller (E : Type) := mkHybridRecaller {
  hr_sources : list (RecallCandidateSource E);
  hr_hydrator : option (RecallRecordHydrator E)
}.
Arguments hr_sources {E}.
Arguments hr_hydrator {E}.

(** Sources that are [nil] interfaces are dropped. *)
Definition NewHybridRecaller {E} (hydrator : option (RecallRecordHydrator E))
    (sources : list (option (RecallCandidateSource E))) : HybridRecaller E :=
  {| hr_sources := omap id sources; hr_hydrator := hydrator |}.

(** ** Ranking *)
Definition ranked_less (a b : string * float64) : bool :=
  if f_neqb a.2 b.2 then f_gtb a.2 b.2 else str_ltb a.1 b.1.

(** [scores] lists the map in the order in which Go iterates over it. *)
Definition rankedCandidateIDs (scores : list (string * float64)) (topK : Z) : list string :=
  let ranked := SliceStable ranked_less scores in
  let ranked := if ((0 <? topK) && (topK <? Z.of_nat (length ranked)))%Z
                then take (Z.to_nat topK) ranked else ranked in
  map fst ranked.

(** [if score, ok := candidates[id]; !ok || candidate.Score > score] *)
Definition merge_candidate (candidates : gmap string float64) (c : RecallCandidate)
    : gmap string float64 :=
  if bool_decide (cand_MemoryID c = "") then candidates
  else match candidates !! cand_MemoryID c with
       | Some score =>
           if f_gtb (cand_Score c) score
           then <[cand_MemoryID c := cand_Score c]> candidates else candidates
       | None => <[cand_MemoryID c := cand_Score c]> candidates
       end.

Definition merge_found (candidates : gmap string float64) (found : list RecallCandidate)
    : gmap string float64 := foldl merge_candidate candidates found.

Section recall.
Context {E : Type}.
(** The iteration order of a Go map is unspecified. *)
Context (iter : gmap string float64 -> list (string * float64)).

Fixpoint collect (sources : list (RecallCandidateSource E)) (scope : Scope) (query : string)
    (topK : Z) (candidates : gmap string float64) : GoM E (gmap string float64) :=
  match sources with
  | [] => mret candidates
  | source :: sources' =>
      found ← attempt (source scope query topK);
      match found with
      | Fail err =>
          if errors_Is err PgNotFound then collect sources' scope query topK candidates
          else throw err
      | Ok found => collect sources' scope query topK (merge_found candidates found)
      end
  end.

Definition HybridRecaller_Recall (r : HybridRecaller E) : RecallBackend E :=
  fun scope query topK =>
  match hr_hydrator r with
  | None => throw (ErrText "memory-gateway/service: recall hydrator is required")
  | Some hydrator =>
      if bool_decide (hr_sources r = []) then
        throw (ErrText "memory-gateway/service: at least one recall candidate source is required")
      else
        let topK := if (topK <=? 0)%Z then 8%Z else topK in
        candidates ← collect (hr_sources r) scope query topK ∅;
        if bool_decide (candidates = ∅) then throw (ErrSentinel PgNotFound)
        else
          let memoryIDs := rankedCandidateIDs (iter candidates) topK in
          records ← hydrator scope memoryIDs;
          if bool_decide (records = []) then throw (ErrSentinel PgNotFound)
          else mret records
  end.
End recall.

(** ** The hydrator *)
Definition recordBelongsToScope (record : MemoryRecord) (scope : Scope) : bool :=
  if negb (bool_decide (m_TenantID record = TenantID scope))
     || negb (bool_decide (m_UserID record = UserID scope)) then false
  else if negb (bool_decide (ProjectID scope = "")) && negb (bool_decide (m_ProjectID record = ""))
     && negb (bool_decide (m_ProjectID record = ProjectID scope)) then false
  else if negb (bool_decide (SessionID scope = "")) && negb (bool_decide (m_SessionID record = ""))
     && negb (bool_decide (m_SessionID record = SessionID scope)) then false
  else true.

Lemma recordBelongsToScope_owner record scope :
  recordBelongsToScope record scope = true ->
  m_TenantID record = TenantID scope /\ m_UserID record = UserID scope.
Proof.
  unfold recordBelongsToScope.
  destruct (bool_decide_reflect (m_TenantID record = TenantID scope)); cbn; [|done].
  destruct (bool_decide_reflect (m_UserID record = UserID scope)); cbn; [|done]. auto.
Qed.

(** The same, said of the owner: tenant and user are the scope's, project and
    session are too where both sides name one. *)
Definition owned_by (scope : Scope) (r : MemoryRecord) : Prop :=
  m_TenantID r = TenantID scope /\ m_UserID r = UserID scope /\
  (ProjectID scope = "" \/ m_ProjectID r = "" \/ m_ProjectID r = ProjectID scope) /\
  (SessionID scope = "" \/ m_SessionID r = "" \/ m_SessionID r = SessionID scope).

Lemma recordBelongsToScope_owned record scope :
  recordBelongsToScope record scope = true <-> owned_by scope record.
Proof.
  unfold recordBelongsToScope, owned_by.
  repeat (case_bool_decide; cbn; try intuition congruence).
Qed.

Section hydrate.
Context {E : Type}.

Fixpoint hydrate_loop (store : RecordStore E) (scope : Scope) (memoryIDs : list string)
    (records : list MemoryRecord) : GoM E (list MemoryRecord) :=
  match memoryIDs with
  | [] => mret records
  | memoryID :: rest =>
      r ← attempt (GetRecord store (TenantID scope) memoryID);
      match r with
      | Fail err =>
          if err_is_exactly err PgNotFound then hydrate_loop store scope rest records
          else throw err
      | Ok record =>
          if negb (recordBelongsToScope record scope) then hydrate_loop store scope rest records
          else hydrate_loop store scope rest (records ++ [record])
      end
  end.

Definition HydrateRecords (store : option (RecordStore E)) : RecallRecordHydrator E :=
  fun scope memoryIDs =>
  match store with
  | None => throw (ErrText "memory-gateway/service: record hydrator store is required")
  | Some store =>
      records ← hydrate_loop store scope memoryIDs [];
      if bool_decide (records = []) then throw (ErrSentinel PgNotFound) else mret records
  end.
End hydrate.

(** ** Merging keeps the best score of each identifier *)
Definition scores_real (m : gmap string float64) : Prop := map_Forall (fun _ s => not_nan s) m.

(** [s] is the best score of [id] among [found] and the score [old] it had. *)
Definition best_score (id : string) (old : option float64) (found : list RecallCandidate)
    (s : float64) : Prop :=
  (old = Some s \/ exists c, c ∈ found /\ cand_MemoryID c = id /\ cand_Score c = s) /\
  (forall s0, old = Some s0 -> f_gtb s0 s = false) /\
  (forall c, c ∈ found -> cand_MemoryID c = id -> f_gtb (cand_Score c) s = false).

Definition candidates_real (found : list RecallCandidate) : Prop :=
  Forall (fun c => not_nan (cand_Score c)) found.

#[export] Instance gtb_weak : StrictWeak (fun a b : float64 => f_gtb a b) not_nan.
Proof. by apply (StrictWeak_gtb id). Qed.

Lemma gtb_irrefl x : not_nan x -> f_gtb x x = false.
Proof. apply (less_irrefl _ not_nan). Qed.

Lemma gtb_trans_false x y z :
  not_nan x -> not_nan y -> not_nan z ->
  f_gtb x y = false -> f_gtb y z = false -> f_gtb x z = false.
Proof. apply (sw_ntrans (fun a b : float64 => f_gtb a b) (P:=not_nan)). Qed.

Lemma gtb_asym x y : not_nan x -> not_nan y -> f_gtb x y = true -> f_gtb y x = false.
Proof. apply (sw_asym (fun a b : float64 => f_gtb a b) (P:=not_nan)). Qed.

Lemma merge_candidate_other m c id :
  cand_MemoryID c <> id -> merge_candidate m c !! id = m !! id.
Proof.
  intros Hne. unfold merge_candidate. case_bool_decide; [done|].
  destruct (m !! cand_MemoryID c); [destruct (f_gtb _ _)|];
    rewrite ?lookup_insert_ne by done; done.
Qed.

Lemma merge_candidate_same m c :
  cand_MemoryID c <> "" ->
  merge_candidate m c !! cand_MemoryID c =
  Some match m !! cand_MemoryID c with
       | Some s => if f_gtb (cand_Score c) s then cand_Score c else s
       | None => cand_Score c
       end.
Proof.
  intros Hne. unfold merge_candidate. rewrite bool_decide_eq_false_2 by done.
  destruct (m !! cand_MemoryID c) as [s|] eqn:E; [destruct (f_gtb _ _)|];
    rewrite ?lookup_insert_eq; done.
Qed.

Lemma merge_candidate_real m c :
  scores_real m -> not_nan (cand_Score c) -> scores_real (merge_candidate m c).
Proof.
  intros Hm Hc. unfold merge_candidate. case_bool_decide; [done|].
  destruct (m !! cand_MemoryID c); [destruct (f_gtb _ _)|]; try done;
    by apply map_Forall_insert_2.
Qed.

Lemma merge_found_real found m :
  candidates_real found -> scores_real m -> scores_real (merge_found m found).
Proof.
  unfold merge_found. intros Hf. revert m. induction Hf as [|c found Hc _ IH]; intros m Hm; cbn; [done|].
  apply IH. by apply merge_candidate_real.
Qed.

Lemma merge_found_mono found m id :
  is_Some (m !! id) -> is_Some (merge_found m found !! id).
Proof.
  unfold merge_found. revert m. induction found as [|c found IH]; intros m Hm; cbn; [done|].
  apply IH. destruct (decide (cand_MemoryID c = id)) as [<-|Hne].
  - destruct (decide (cand_MemoryID c = "")) as [E|Hne]; [|by rewrite merge_candidate_same].
    unfold merge_candidate. by rewrite bool_decide_eq_true_2.
  - by rewrite merge_candidate_other.
Qed.

Lemma merge_found_best found m id s :
  candidates_real found -> scores_real m -> id <> "" ->
  merge_found m found !! id = Some s -> best_score id (m !! id) found s.
Proof.
  unfold merge_found. intros Hf. revert m s.
  induction Hf as [|c found Hc Hf IH]; intros m s Hm Hid; cbn.
  - intros E. split_and!; [by left| |by intros c Hc%elem_of_nil].
    intros s0. rewrite E. intros [= <-]. apply gtb_irrefl. exact (Hm _ _ E).
  - intros E. pose proof (merge_candidate_real m c Hm Hc) as Hm'.
    assert (Hs : not_nan s).
    { pose proof (merge_found_real found (merge_candidate m c) Hf Hm') as Hr. exact (Hr _ _ E). }
    apply IH in E as (Hin & Hold & Hall); [|done..].
    destruct (decide (cand_MemoryID c = id)) as [<-|Hne].
    + rewrite merge_candidate_same in Hin, Hold by done.
      specialize (Hold _ eq_refl).
      assert (Hcs : f_gtb (cand_Score c) s = false /\
                    forall s0, m !! cand_MemoryID c = Some s0 -> f_gtb s0 s = false).
      { destruct (m !! cand_MemoryID c) as [s0|] eqn:E0; [|split; [done|by intros]].
        pose proof (Hm _ _ E0) as Hs0. cbn in Hs0.
        destruct (f_gtb (cand_Score c) s0) eqn:Eg.
        - split; [done|]. intros s1 [= <-].
          apply (gtb_trans_false _ (cand_Score c)); [done..| |done]. by apply gtb_asym.
        - split; [|by intros s1 [= <-]]. by apply (gtb_trans_false _ s0). }
      split_and!.
      * destruct Hin as [Hin|(c' & ? & ? & ?)].
        -- revert Hin. destruct (m !! cand_MemoryID c) as [s0|] eqn:E0;
             [destruct (f_gtb (cand_Score c) s0)|]; intros [= <-];
             first [by left | right; exists c; rewrite elem_of_cons; by auto].
        -- right. exists c'. rewrite elem_of_cons. auto.
      * exact (proj2 Hcs).
      * intros c' [->|Hin']%elem_of_cons Hid'; [exact (proj1 Hcs)|by apply Hall].
    + rewrite merge_candidate_other in Hin, Hold by done. split_and!; [|done|].
      * destruct Hin as [|(c' & ? & ? & ?)]; [by left|]. right. exists c'. rewrite elem_of_cons. auto.
      * intros c' [->|Hin']%elem_of_cons Hid'; [done|by apply Hall].
Qed.

Lemma merge_found_complete found m c :
  c ∈ found -> cand_MemoryID c <> "" -> is_Some (merge_found m found !! cand_MemoryID c).
Proof.
  unfold merge_found. revert m. induction found as [|c' found IH]; intros m Hin Hne; cbn.
  - by apply elem_of_nil in Hin.
  - apply elem_of_cons in Hin as [->|Hin]; [|by apply IH].
    apply merge_found_mono. by rewrite merge_candidate_same.
Qed.

(** ** Ranking *)
#[export] Instance ranked_less_weak : StrictWeak ranked_less (fun p => not_nan p.2).
Proof.
  apply (StrictWeak_lex (fun a b : string * float64 => f_neqb a.2 b.2)
           (fun a b => f_gtb a.2 b.2) (fun a b => str_ltb a.1 b.1)).
  - by apply (StrictWeak_gtb snd).
  - apply (StrictWeak_str fst).
  - intros a b. apply f_neqb_gtb.
Qed.

(** Candidates that the comparison does not tell apart have the same identifier. *)
Lemma ranked_equiv_id a b :
  not_nan a.2 -> not_nan b.2 -> equiv_to ranked_less a b = true -> a.1 = b.1.
Proof.
  intros Ha Hb. unfold equiv_to, ranked_less.
  rewrite (f_neqb_gtb a.2 b.2), (f_neqb_gtb b.2 a.2) by done.
  rewrite andb_true_iff, !negb_true_iff.
  destruct (f_gtb a.2 b.2), (f_gtb b.2 a.2); cbn; try (by intros [??]).
  intros [H1 H2]. by apply str_ltb_total.
Qed.

Definition ranking_input (scores : list (string * float64)) : Prop :=
  NoDup (map fst scores) /\ Forall (fun p => not_nan p.2) scores.

Lemma ranking_input_map iter (m : gmap string float64) :
  iter ≡ₚ map_to_list m -> scores_real m -> ranking_input iter.
Proof.
  intros Hp Hm. split.
  - change (map fst iter) with (fst <$> iter). rewrite Hp. apply NoDup_fst_map_to_list.
  - rewrite Hp. rewrite Forall_forall. intros [id s] Hin%elem_of_map_to_list. exact (Hm _ _ Hin).
Qed.

Lemma fst_unique (l : list (string * float64)) a b :
  NoDup (map fst l) -> a ∈ l -> b ∈ l -> a.1 = b.1 -> a = b.
Proof.
  intros Hnd Ha Hb E. destruct a as [i s], b as [j t]; cbn in E; subst j.
  apply list_elem_of_lookup in Ha as [n Hn], Hb as [k Hk].
  assert (n = k) as ->; [|congruence].
  change (map fst l) with (fst <$> l) in Hnd.
  apply (NoDup_lookup _ n k i Hnd); rewrite list_lookup_fmap; [by rewrite Hn|by rewrite Hk].
Qed.

Lemma ranked_order_independent l1 l2 :
  ranking_input l1 -> l1 ≡ₚ l2 -> SliceStable ranked_less l1 = SliceStable ranked_less l2.
Proof.
  intros [Hnd Hr] Hp. apply (SliceStable_perm_invariant _ (fun p => not_nan p.2)); [done..|].
  intros a b Ha Hb E. rewrite Forall_forall in Hr.
  apply (fst_unique l1); [done..|]. apply ranked_equiv_id; [by apply Hr..|done].
Qed.

Lemma rankedCandidateIDs_perm_eq l1 l2 topK :
  ranking_input l1 -> l1 ≡ₚ l2 -> rankedCandidateIDs l1 topK = rankedCandidateIDs l2 topK.
Proof. intros H1 Hp. unfold rankedCandidateIDs. by rewrite (ranked_order_independent l1 l2). Qed.

Lemma rankedCandidateIDs_take l topK :
  (0 < topK)%Z ->
  rankedCandidateIDs l topK = map fst (take (Z.to_nat topK) (SliceStable ranked_less l)).
Proof.
  intros Hk. unfold rankedCandidateIDs.
  destruct (Z.ltb_spec 0 topK); [|lia].
  destruct (Z.ltb_spec topK (Z.of_nat (length (SliceStable ranked_less l)))); cbn; [done|].
  rewrite take_ge; [done|lia].
Qed.

Lemma StronglySorted_app_inv {A} (R : relation A) l1 l2 a b :
  StronglySorted R (l1 ++ l2) -> a ∈ l1 -> b ∈ l2 -> R a b.
Proof.
  induction l1 as [|x l1 IH]; cbn; intros Hs Ha Hb; [by apply elem_of_nil in Ha|].
  inversion Hs as [|? ? Hs' Hx]; subst. apply elem_of_cons in Ha as [->|Ha]; [|by apply IH].
  rewrite Forall_forall in Hx. apply Hx. rewrite elem_of_app. by right.
Qed.

(** The identifiers handed to the hydrator are the [topK] best: no duplicate,
    as many as asked for or as there are, none left out that ranks before one
    taken, and the same whatever order Go iterates the map in. *)
Theorem rankedCandidateIDs_topk scores topK :
  ranking_input scores -> (0 < topK)%Z ->
  let ids := rankedCandidateIDs scores topK in
  NoDup ids /\
  Z.of_nat (length ids) = Z.min topK (Z.of_nat (length scores)) /\
  (forall out, out ∈ scores -> out.1 ∉ ids ->
     forall id, id ∈ ids -> exists s, (id, s) ∈ scores /\ ranked_less out (id, s) = false) /\
  (forall scores', scores ≡ₚ scores' -> rankedCandidateIDs scores' topK = ids).
Proof.
  intros Hin Hk ids. destruct (Hin) as [Hnd Hreal].
  assert (Eids : ids = map fst (take (Z.to_nat topK) (SliceStable ranked_less scores)))
    by by apply rankedCandidateIDs_take.
  set (sorted := SliceStable ranked_less scores) in *.
  assert (Hp : sorted ≡ₚ scores) by apply SliceStable_perm.
  pose proof (take_drop (Z.to_nat topK) sorted) as Hsplit.
  assert (Hnd' : NoDup (map fst sorted)).
  { change (NoDup (fst <$> sorted)). by rewrite Hp. }
  split_and!.
  - rewrite <-Hsplit, map_app in Hnd'. rewrite Eids. by apply NoDup_app in Hnd' as [? _].
  - rewrite Eids, length_map, length_take. unfold sorted. rewrite SliceStable_length. lia.
  - intros out Hout Hnot id Hid. rewrite Eids in Hid, Hnot.
    apply list_elem_of_fmap in Hid as ([id' s] & -> & Hs). exists s.
    assert (Hss : (id', s) ∈ sorted) by (rewrite <-Hsplit, elem_of_app; by left).
    split; [by rewrite <-Hp|].
    assert (Hd : out ∈ drop (Z.to_nat topK) sorted).
    { rewrite <-Hp, <-Hsplit, elem_of_app in Hout. destruct Hout as [Hout|]; [|done].
      exfalso. apply Hnot, list_elem_of_fmap. eauto. }
    apply (StronglySorted_app_inv (not_after ranked_less) (take (Z.to_nat topK) sorted)
             (drop (Z.to_nat topK) sorted)); [|done..].
    rewrite Hsplit. by apply (SliceStable_sorted _ (fun p => not_nan p.2)).
  - intros scores' Hs. symmetry. by apply rankedCandidateIDs_perm_eq.
Qed.

(** ** Collecting and recalling *)
Definition sources_real {E} (sources : list (RecallCandidateSource E)) : Prop :=
  forall src, src ∈ sources -> forall scope query topK e e' found,
    src scope query topK e = (e', Ok found) -> candidates_real found.

Lemma collect_real {E} (sources : list (RecallCandidateSource E)) scope query topK m e e' m' :
  sources_real sources -> scores_real m ->
  collect sources scope query topK m e = (e', Ok m') -> scores_real m'.
Proof.
  revert m e. induction sources as [|src sources IH]; intros m e Hs Hm; cbn [collect].
  - by intros [= <- <-].
  - rewrite run_bind. unfold attempt. destruct (src scope query topK e) as [e1 [found|err]] eqn:E1; cbn.
    + apply IH; [intros s Hin; apply Hs; by right|].
      apply merge_found_real; [|done]. apply (Hs src) in E1; [done|by left].
    + destruct (errors_Is err PgNotFound); [|done].
      apply IH; [intros s Hin; apply Hs; by right|done].
Qed.

Definition map_iteration (iter : gmap string float64 -> list (string * float64)) : Prop :=
  forall m, iter m ≡ₚ map_to_list m.

(** The answer does not depend on Go's map iteration order. *)
Lemma HybridRecaller_Recall_iter {E} iter iter' (r : HybridRecaller E) scope query topK e :
  map_iteration iter -> map_iteration iter' -> sources_real (hr_sources r) ->
  HybridRecaller_Recall iter r scope query topK e
  = HybridRecaller_Recall iter' r scope query topK e.
Proof.
  unfold map_iteration. intros Hi Hi' Hs. unfold HybridRecaller_Recall. destruct (hr_hydrator r) as [h|]; [|done].
  case_bool_decide; [done|]. rewrite !run_bind.
  destruct (collect _ scope query _ ∅ e) as [e1 [m|err]] eqn:E1; [|done].
  case_bool_decide; [done|].
  apply collect_real in E1; [|done|apply map_Forall_empty].
  rewrite (rankedCandidateIDs_perm_eq (iter m) (iter' m)); [done| |by rewrite Hi, Hi'].
  by apply (ranking_input_map _ m).
Qed.

(** ** Hydration: exactly the readable records of the scope, in rank order *)
Section hydrated.
Context {E : Type} (store : RecordStore E) {L : RecordStoreReads store}.

Definition readable (scope : Scope) (e : E) (memoryID : string) : option MemoryRecord :=
  match (GetRecord store (TenantID scope) memoryID e).2 with
  | Ok record => if recordBelongsToScope record scope then Some record else None
  | Fail _ => None
  end.

Definition reads_cleanly (scope : Scope) (e : E) (memoryID : string) : bool :=
  match (GetRecord store (TenantID scope) memoryID e).2 with
  | Ok _ => true
  | Fail err => err_is_exactly err PgNotFound
  end.

Lemma hydrate_loop_spec scope ids acc e :
  hydrate_loop store scope ids acc e =
  if forallb (reads_cleanly scope e) ids
  then (e, Ok (acc ++ omap (readable scope e) ids))
  else hydrate_loop store scope ids acc e.
Proof using L.
  revert acc. induction ids as [|id ids IH]; intros acc; cbn [forallb].
  { cbn. by rewrite app_nil_r. }
  destruct (reads_cleanly scope e id) eqn:Er; [|done]. cbn [hydrate_loop andb].
  destruct (forallb (reads_cleanly scope e) ids); [|done].
  rewrite run_bind. unfold attempt. rewrite get_record_run by done. cbn [omap list_omap].
  unfold reads_cleanly in Er. unfold readable at 1.
  destruct (GetRecord store (TenantID scope) id e).2 as [record|err]; cbn.
  - destruct (recordBelongsToScope record scope); cbn; rewrite IH; [by rewrite <-app_assoc|done].
  - rewrite Er. apply IH.
Qed.
End hydrated.

Lemma hydrate_loop_ok {E} (store : RecordStore E) {L : RecordStoreReads store} scope ids acc e e' records :
  hydrate_loop store scope ids acc e = (e', Ok records) ->
  e' = e /\ records = (acc ++ omap (readable store scope e) ids)%list.
Proof.
  intros H. rewrite hydrate_loop_spec in H by done.
  destruct (forallb (reads_cleanly store scope e) ids) eqn:Ec; [by injection H as <- <-|].
  exfalso. revert acc H. induction ids as [|id ids IH]; intros acc; [done|]. cbn [hydrate_loop forallb] in *.
  rewrite run_bind. unfold attempt. rewrite get_record_run by done. unfold reads_cleanly in Ec at 1.
  destruct (GetRecord store (TenantID scope) id e).2 as [record|err]; cbn.
  - destruct (recordBelongsToScope record scope); cbn; apply (IH Ec).
  - destruct (err_is_exactly err PgNotFound); [apply (IH Ec)|done].
Qed.

(** What the sources propose when they only read. *)
Definition proposals {E} (sources : list (RecallCandidateSource E)) (scope : Scope) (query : string) (topK : Z) (e : E)
    : list RecallCandidate :=
  flat_map (fun src => match (src scope query topK e).2 with Ok found => found | Fail _ => [] end) sources.

Lemma collect_proposals {E} (sources : list (RecallCandidateSource E)) scope query topK m e e' m' :
  (forall src, src ∈ sources -> (src scope query topK e).1 = e) ->
  collect sources scope query topK m e = (e', Ok m') ->
  e' = e /\ m' = merge_found m (proposals sources scope query topK e).
Proof.
  revert m. induction sources as [|src sources IH]; intros m Hr; cbn [collect].
  - by intros [= <- <-].
  - rewrite run_bind. unfold attempt. cbn [proposals flat_map].
    pose proof (Hr src ltac:(by left)) as Hsrc. unfold merge_found. rewrite foldl_app.
    destruct (src scope query topK e) as [e1 [found|err]]; cbn in *; subst e1.
    + apply IH. intros s' Hs'. apply Hr. by right.
    + destruct (errors_Is err PgNotFound); [|done]. apply IH. intros s' Hs'. apply Hr. by right.
Qed.

(** *** The answer, specified *)
#[export] Instance owned_by_dec scope r : Decision (owned_by scope r).
Proof. unfold owned_by. apply _. Defined.

(** What the scope may read under an identifier. *)
Definition owned_read {E} (store : RecordStore E) (scope : Scope) (e : E) (id : string) : option MemoryRecord :=
  match (GetRecord store (TenantID scope) id e).2 with
  | Ok r => if decide (owned_by scope r) then Some r else None
  | Fail _ => None
  end.

Lemma readable_owned {E} (store : RecordStore E) scope e id : readable store scope e id = owned_read store scope e id.
Proof.
  unfold readable, owned_read. destruct (GetRecord store (TenantID scope) id e).2 as [r|]; [|done].
  destruct (recordBelongsToScope r scope) eqn:Hb.
  - apply recordBelongsToScope_owned in Hb. by rewrite decide_True.
  - rewrite decide_False; [done|]. rewrite <-recordBelongsToScope_owned. congruence.
Qed.

(** [a] ranks before [b]: a higher score, or the same and a smaller identifier. *)
Definition outranks (best : gmap string float64) (a b : string) : Prop :=
  exists sa sb, best !! a = Some sa /\ best !! b = Some sb /\
    (f_ltb sb sa = true \/ f_eqb sa sb = true /\ str_ltb a b = true).

(** The [k] identifiers of [best] that rank first, in rank order. *)
Record top_ranked (best : gmap string float64) (k : Z) (ids : list string) : Prop := {
  top_distinct : NoDup ids;
  top_length : Z.of_nat (length ids) = Z.min k (Z.of_nat (size best));
  top_known id : id ∈ ids -> is_Some (best !! id);
  top_sorted i j a b : (i < j)%nat -> ids !! i = Some a -> ids !! j = Some b -> outranks best a b;
  top_first out id : is_Some (best !! out) -> out ∉ ids -> id ∈ ids -> outranks best id out
}.

Lemma ranked_outranks (m : gmap string float64) a b :
  scores_real m -> a ∈ map_to_list m -> b ∈ map_to_list m -> a.1 <> b.1 ->
  not_after ranked_less a b -> outranks m a.1 b.1.
Proof.
  destruct a as [a sa], b as [b sb]. rewrite !elem_of_map_to_list. cbn [fst].
  intros Hm Ha Hb Hne. pose proof (Hm _ _ Ha) as Ra. pose proof (Hm _ _ Hb) as Rb. cbn in Ra, Rb.
  unfold not_after, ranked_less. cbn [fst snd]. rewrite f_neqb_gtb by done. unfold f_gtb. change SFltb with f_ltb.
  intros H. exists sa, sb. split_and!; [done..|].
  destruct (f_ltb sb sa) eqn:E1; [by left|]. right. destruct (f_ltb sa sb) eqn:E2; cbn [orb] in H; [done|].
  split.
  - apply f_eqb_key; [done..|]. rewrite <-not_true_iff_false, f_ltb_key in E1, E2 by done.
    unfold f_key_lt, f_key_eq in *. lia.
  - destruct (str_ltb a b) eqn:Es; [done|]. exfalso. by apply Hne, str_ltb_total.
Qed.

Lemma rankedCandidateIDs_top (m : gmap string float64) k :
  scores_real m -> (0 < k)%Z -> top_ranked m k (rankedCandidateIDs (map_to_list m) k).
Proof.
  intros Hm Hk. rewrite rankedCandidateIDs_take by done.
  pose proof (ranking_input_map _ m (Permutation_refl _) Hm) as Hin.
  set (sorted := SliceStable ranked_less (map_to_list m)).
  assert (Hp : sorted ≡ₚ map_to_list m) by apply SliceStable_perm.
  assert (Hs : StronglySorted (not_after ranked_less) sorted)
    by (apply (SliceStable_sorted _ (fun p => not_nan p.2)); apply Hin).
  assert (Hnd : NoDup (map fst sorted)).
  { change (NoDup (fst <$> sorted)). rewrite Hp. apply Hin. }
  assert (Hrank : forall i j a b, (i < j)%nat -> sorted !! i = Some a -> sorted !! j = Some b -> outranks m a.1 b.1).
  { intros i j a b Hij Hi Hj. apply ranked_outranks; [done| | | |by eapply StronglySorted_lookup].
    - rewrite <-Hp. by eapply list_elem_of_lookup_2.
    - rewrite <-Hp. by eapply list_elem_of_lookup_2.
    - intros E. assert (i = j); [|lia]. change (map fst sorted) with (fst <$> sorted) in Hnd.
      apply (NoDup_lookup _ i j a.1 Hnd); rewrite list_lookup_fmap; [by rewrite Hi|]. by rewrite Hj, E. }
  set (n := Z.to_nat k).
  assert (Hids : forall id, id ∈ map fst (take n sorted) -> exists i s, (i < n)%nat /\ sorted !! i = Some (id, s)).
  { intros id ([id' s] & -> & H)%list_elem_of_fmap. apply list_elem_of_lookup in H as [i Hi].
    apply lookup_take_Some in Hi as [Hi Hlt]. by exists i, s. }
  split.
  - change (NoDup (fst <$> take n sorted)). rewrite fmap_take. change (fst <$> sorted) with (map fst sorted).
    rewrite <-(take_drop n (map fst sorted)) in Hnd. by apply NoDup_app in Hnd as [? _].
  - rewrite length_map, length_take. unfold sorted. rewrite SliceStable_length, length_map_to_list. lia.
  - intros id (i & s & _ & Hi)%Hids. exists s. apply elem_of_map_to_list. rewrite <-Hp.
    by eapply list_elem_of_lookup_2.
  - intros i j a b Hij Ha Hb. change (map fst (take n sorted)) with (fst <$> take n sorted) in Ha, Hb.
    apply list_lookup_fmap_Some in Ha as (pa & -> & Ha), Hb as (pb & -> & Hb).
    apply lookup_take_Some in Ha as [Ha _], Hb as [Hb _]. by apply (Hrank i j).
  - intros out id [s Hout] Hnot (i & si & Hi & Hl)%Hids.
    assert (Ho : (out, s) ∈ sorted) by (by rewrite Hp, elem_of_map_to_list).
    apply list_elem_of_lookup in Ho as [j Hj]. apply (Hrank i j (id, si) (out, s)); [|done..].
    destruct (decide (j < n)%nat) as [Hjn|]; [|lia]. exfalso. apply Hnot.
    apply list_elem_of_fmap. exists (out, s). split; [done|]. apply list_elem_of_lookup. exists j.
    by apply lookup_take_Some.
Qed.

(** The merged map: every identifier that was proposed, with its best score. *)
Record best_of (found : list RecallCandidate) (best : gmap string float64) : Prop := {
  best_domain id : is_Some (best !! id) <-> id <> "" /\ exists c, c ∈ found /\ cand_MemoryID c = id;
  best_value id s : best !! id = Some s ->
    (exists c, c ∈ found /\ cand_MemoryID c = id /\ cand_Score c = s) /\
    (forall c, c ∈ found -> cand_MemoryID c = id -> f_ltb s (cand_Score c) = false)
}.

Lemma merge_found_dom found m id :
  is_Some (merge_found m found !! id) ->
  is_Some (m !! id) \/ id <> "" /\ exists c, c ∈ found /\ cand_MemoryID c = id.
Proof.
  unfold merge_found. revert m. induction found as [|c found IH]; intros m; cbn; [by left|].
  intros [H|(Hne & c' & Hin & E)]%IH; [|right; split; [done|]; exists c'; rewrite elem_of_cons; auto].
  destruct (decide (cand_MemoryID c = id)) as [<-|Hne]; [|left; by rewrite merge_candidate_other in H].
  destruct (decide (cand_MemoryID c = "")) as [E0|Hne].
  - left. unfold merge_candidate in H. by rewrite bool_decide_eq_true_2 in H.
  - right. split; [done|]. exists c. split; [by left|done].
Qed.

Lemma merge_found_best_of found : candidates_real found -> best_of found (merge_found ∅ found).
Proof.
  intros Hreal. split.
  - intros id. split.
    + intros H%merge_found_dom. destruct H as [[s Hs]|H]; [|done]. by rewrite lookup_empty in Hs.
    + intros (Hne & c & Hin & <-). by apply merge_found_complete.
  - intros id s Hs.
    assert (Hne : id <> "").
    { destruct (merge_found_dom found ∅ id) as [[s' Hs']|[? _]]; [eauto| |done]. by rewrite lookup_empty in Hs'. }
    apply merge_found_best in Hs as (Hin & _ & Hall); [|done|apply map_Forall_empty|done].
    split; [destruct Hin as [Hin|Hin]; [by rewrite lookup_empty in Hin|done]|exact Hall].
Qed.

(** C16: A hybrid recall that succeeds takes the identifiers the sources
    propose (a source that finds nothing is skipped, an empty identifier is
    too), an identifier proposed several times counting once with its best
    score; of these it takes the [topK] that rank first (8 when the request
    gives none) by descending score and then by identifier, and returns, in
    this order, exactly the records read under them for the scope's tenant
    that the scope owns: tenant and user equal, project and session equal
    where both sides name one.  The order in which Go iterates the merged map
    does not matter.  (Scores that are numbers, sources and a store that only
    read.) *)
Theorem hybrid_recall_returns_best {E} iter (store : RecordStore E) {L : RecordStoreReads store}
    sources scope query topK e e' records :
  let k := if (topK <=? 0)%Z then 8%Z else topK in
  let found := proposals (omap id sources) scope query k e in
  map_iteration iter -> candidates_real found ->
  (forall src, src ∈ omap id sources -> (src scope query k e).1 = e) ->
  HybridRecaller_Recall iter (NewHybridRecaller (Some (HydrateRecords (Some store))) sources) scope query topK e
    = (e', Ok records) ->
  e' = e /\ records <> [] /\
  exists best ids, best_of found best /\ top_ranked best k ids /\
    records = omap (fun id =>
      match (GetRecord store (TenantID scope) id e).2 with
      | Ok r => if decide (owned_by scope r) then Some r else None
      | Fail _ => None
      end) ids.
Proof.
  intros k found Hiter Hreal Hreads. unfold HybridRecaller_Recall, NewHybridRecaller. cbn [hr_hydrator hr_sources].
  case_bool_decide; [done|]. cbv zeta. fold k. rewrite run_bind.
  destruct (collect (omap id sources) scope query k ∅ e) as [e1 [m|err]] eqn:Ec; [|done].
  apply collect_proposals in Ec as [-> ->]; [|exact Hreads]. fold found.
  case_bool_decide; [done|]. rewrite run_bind. unfold HydrateRecords. rewrite run_bind.
  destruct (hydrate_loop store scope _ [] e) as [e2 [rs|err]] eqn:Eh; [|done].
  apply hydrate_loop_ok in Eh as [-> ->]; [|done]. cbn [app].
  case_bool_decide; [done|]. cbn. case_bool_decide; [done|]. intros [= <- <-].
  assert (Hm : scores_real (merge_found ∅ found)) by (apply merge_found_real; [done|apply map_Forall_empty]).
  split_and!; [done|done|].
  exists (merge_found ∅ found), (rankedCandidateIDs (map_to_list (merge_found ∅ found)) k).
  split; [by apply merge_found_best_of|]. split.
  - apply rankedCandidateIDs_top; [done|]. unfold k. destruct (Z.leb_spec topK 0); lia.
  - rewrite (rankedCandidateIDs_perm_eq (iter _) (map_to_list (merge_found ∅ found))).
    + apply list_omap_ext, Forall_Forall2_diag, Forall_true. intros x. apply readable_owned.
    + by apply (ranking_input_map _ (merge_found ∅ found)).
    + apply Hiter.
Qed.

(** Whatever the sources propose, every record a hybrid recall answers with was
    read from the store for the scope's tenant, and is owned by the scope. *)
Lemma HybridRecaller_Recall_reads {E} iter (store : RecordStore E) {L : RecordStoreReads store} sources
    scope query topK e e' records :
  HybridRecaller_Recall iter (NewHybridRecaller (Some (HydrateRecords (Some store))) sources)
    scope query topK e = (e', Ok records) ->
  Forall (fun r => owned_by scope r /\
            exists id, (GetRecord store (TenantID scope) id e').2 = Ok r) records.
Proof.
  unfold HybridRecaller_Recall, NewHybridRecaller. cbn [hr_hydrator hr_sources].
  case_bool_decide; [done|]. rewrite run_bind.
  destruct (collect _ scope query _ ∅ e) as [e1 [m|err]]; [|done].
  case_bool_decide; [done|]. rewrite run_bind. unfold HydrateRecords. rewrite run_bind.
  destruct (hydrate_loop store scope _ [] e1) as [e2 [rs|err]] eqn:Eh; [|done].
  apply hydrate_loop_ok in Eh as [-> ->]; [|done]. cbn [app].
  case_bool_decide; [done|]. cbn. case_bool_decide; [done|]. intros [= <- <-].
  rewrite Forall_forall. intros r (id & _ & Hr)%list_elem_of_omap. unfold readable in Hr.
  destruct (GetRecord store (TenantID scope) id e1).2 as [r'|] eqn:Eg; [|done].
  destruct (recordBelongsToScope r' scope) eqn:Hb; [|done]. injection Hr as ->.
  split; [by apply recordBelongsToScope_owned|eauto].
Qed.
