(* ===== verification/Service.v ===== *)
(** * The gateway service: [service/service.go]

    The state of one [Service] value next to the external world, the
    interfaces it was built with, and one definition per method.  A method
    returns a response or an error and keeps every state change it made before
    an error.  Trace objects are Go pointers shared between the cache and the
    responses, so they live in a heap and are mutated in place. *)
From S2P Require Import Prelude GoStrings GoFloat HttpApi Authz ScopeKeys Contract RecallCache Sessions ScopeVersions RecallSelection HybridRecall.
Open Scope Z_scope.

(** ** Observers and the trace emitter *)
Record RecallObservation := mkRecallObservation {
  ob_ConsistencyLevel : string;
  ob_CacheLevel : string;
  ob_StaleServed : bool;
  ob_TenantID : string;
  ob_Returned : Z;
  ob_Selected : Z
}.

Record RecallCacheObservation := mkRecallCacheObservation {
  co_Action : string;
  co_Scope : Scope
}.

(** The observers and the emitter return nothing; they act on the world. *)
Definition RecallObserver (E : Type) : Type := RecallObservation -> E -> E.
Definition RecallCacheObserver (E : Type) : Type := RecallCacheObservation -> E -> E.
Definition TraceEmitter (E : Type) : Type := string -> list (string * value) -> E -> E.
Definition SessionCloser (E : Type) : Type := Scope -> string -> GoM E unit.
Definition AccessMarker (E : Type) : Type := MarkAccessInput -> GoM E unit.

Definition nopTraceEmitter {E} : TraceEmitter E := fun _ _ e => e.
Definition nopRecallObserver {E} : RecallObserver E := fun _ e => e.
Definition nopRecallCacheObserver {E} : RecallCacheObserver E := fun _ e => e.
Definition resolveRecallObserver {E} (observer : option (RecallObserver E)) : RecallObserver E :=
  default nopRecallObserver observer.
Definition resolveRecallCacheObserver {E} (observer : option (RecallCacheObserver E))
    : RecallCacheObserver E := default nopRecallCacheObserver observer.

(** ** The service value

    [backend.(AccessMarker)] is a type assertion on the backend: [None] when
    the backend does not mark accesses. *)
Record Service (E T V : Type) := mkService {
  backend : RecordStore E;
  accessMarker : option (AccessMarker E);
  recaller : option (RecallBackend E);
  sessionCloser : option (SessionCloser E);
  traceEmitter : TraceEmitter E;
  readOnly : bool;
  sessionStore : SessionStateStore T;
  scopeVersionStore : ScopeVersionStore V;
  sessionIdleTTL : duration;
  recallObserver : RecallObserver E;
  recallCacheObserver : RecallCacheObserver E;
  idempotencyStore : option (IdempotencyStore E)
}.
Arguments backend {E T V}.
Arguments accessMarker {E T V}.
Arguments recaller {E T V}.
Arguments sessionCloser {E T V}.
Arguments traceEmitter {E T V}.
Arguments readOnly {E T V}.
Arguments sessionStore {E T V}.
Arguments scopeVersionStore {E T V}.
Arguments sessionIdleTTL {E T V}.
Arguments recallObserver {E T V}.
Arguments recallCacheObserver {E T V}.
Arguments idempotencyStore {E T V}.

(** The state: the external world, the session registry, the version store,
    the recall cache, the heap of trace objects (an address is an index), and
    the number of clock readings so far. *)
Record St (E T V : Type) := mkSt {
  st_ext : E;
  st_sessions : registry T;
  st_versions : V;
  st_cache : recallCache;
  st_heap : list RecallTraceResponse;
  st_ticks : nat
}.
Arguments mkSt {E T V}.
Arguments st_ext {E T V}.
Arguments st_sessions {E T V}.
Arguments st_versions {E T V}.
Arguments st_cache {E T V}.
Arguments st_heap {E T V}.
Arguments st_ticks {E T V}.

(** *** Construction: [New]

    A store given to [New] comes with its own state; [nil] stores are the
    in-memory ones. *)
Record AnySessionStore := mkAnySessionStore {
  as_T : Type; as_store : SessionStateStore as_T; as_init : as_T }.
Record AnyVersionStore := mkAnyVersionStore {
  av_V : Type; av_store : ScopeVersionStore av_V; av_init : av_V }.

Definition newSessionRegistry (store : option AnySessionStore) : AnySessionStore :=
  default (mkAnySessionStore memSessions memorySessionStateStore ∅) store.
Definition resolveScopeVersionStore (store : option AnyVersionStore) : AnyVersionStore :=
  default (mkAnyVersionStore memVersions memoryScopeVersionStore ∅) store.

Record Config (E : Type) := mkConfig {
  cfg_ReadOnly : bool;
  cfg_SessionStateStore : option AnySessionStore;
  cfg_ScopeVersionStore : option AnyVersionStore;
  cfg_SessionIdleTTL : duration;
  cfg_RecallObserver : option (RecallObserver E);
  cfg_RecallCacheObserver : option (RecallCacheObserver E);
  cfg_IdempotencyStore : option (IdempotencyStore E)
}.
Arguments cfg_ReadOnly {E}.
Arguments cfg_SessionStateStore {E}.
Arguments cfg_ScopeVersionStore {E}.
Arguments cfg_SessionIdleTTL {E}.
Arguments cfg_RecallObserver {E}.
Arguments cfg_RecallCacheObserver {E}.
Arguments cfg_IdempotencyStore {E}.

Record AnyService (E : Type) := mkAnyService {
  any_T : Type;
  any_V : Type;
  any_service : Service E any_T any_V;
  any_start : E -> St E any_T any_V
}.
Arguments mkAnyService {E}.
Arguments any_T {E}.
Arguments any_V {E}.
Arguments any_service {E}.
Arguments any_start {E}.

Definition New {E} (backend : option (RecordStore E * option (AccessMarker E)))
    (recaller : option (RecallBackend E)) (sessionCloser : option (SessionCloser E))
    (traceEmitter : option (TraceEmitter E)) (cfg : Config E) : result goerror (AnyService E) :=
  match backend with
  | None => Fail (ErrSentinel BackendRequired)
  | Some (backend, marker) =>
      let sessions := newSessionRegistry (cfg_SessionStateStore cfg) in
      let versions := resolveScopeVersionStore (cfg_ScopeVersionStore cfg) in
      Ok (mkAnyService (as_T sessions) (av_V versions)
            (mkService _ _ _ backend marker recaller sessionCloser
               (default nopTraceEmitter traceEmitter) (cfg_ReadOnly cfg)
               (as_store sessions) (av_store versions)
               (resolveSessionIdleTTL (cfg_SessionIdleTTL cfg))
               (resolveRecallObserver (cfg_RecallObserver cfg))
               (resolveRecallCacheObserver (cfg_RecallCacheObserver cfg))
               (cfg_IdempotencyStore cfg))
            (fun e => mkSt e (as_init sessions, ∅) (av_init versions) newRecallCache [] 0))
  end.

(** ** Error translation ([nil] is [None]) *)
Definition translateBackendError (err : option goerror) : goerror :=
  match err with
  | None => ErrText "memory-gateway/service: %!w(<nil>)"
  | Some err =>
      if errors_Is err VersionConflict
      then ErrMemoryConflict "expected_version does not match current version" []
      else if errors_Is err IdempotencyConflict
      then ErrIdempotencyConflict "idempotency_key conflicts with an existing payload" []
      else if errors_Is err PgNotFound
      then ErrNotFound "memory record not found" []
      else ErrUpstreamUnavailable "memory backend is unavailable" [("cause"%string, VErrText err)]
  end.

(** ** Effects on the state *)
Section effects.
Context {E T V : Type}.
Abbreviation S := (St E T V).

Definition on_ext {A} (m : GoM E A) : GoM S A :=
  zoom st_ext (fun e s => mkSt e (st_sessions s) (st_versions s) (st_cache s) (st_heap s) (st_ticks s)) m.
Definition on_sessions {A} (m : GoM (registry T) A) : GoM S A :=
  zoom st_sessions (fun r s => mkSt (st_ext s) r (st_versions s) (st_cache s) (st_heap s) (st_ticks s)) m.
Definition on_versions {A} (m : GoM V A) : GoM S A :=
  zoom st_versions (fun v s => mkSt (st_ext s) (st_sessions s) v (st_cache s) (st_heap s) (st_ticks s)) m.
Definition on_cache (f : recallCache -> recallCache) : GoM S unit :=
  modify (fun s => mkSt (st_ext s) (st_sessions s) (st_versions s) (f (st_cache s)) (st_heap s) (st_ticks s)).

(** A call that only acts on the world. *)
Definition effect (f : E -> E) : GoM S unit := on_ext (modify f).

(** [&RecallTraceResponse{...}] and assignments through the pointer. *)
Definition alloc (t : RecallTraceResponse) : GoM S nat :=
  fun s => (mkSt (st_ext s) (st_sessions s) (st_versions s) (st_cache s)
              (st_heap s ++ [t]) (st_ticks s), Ok (length (st_heap s))).
Definition store_at (a : nat) (f : RecallTraceResponse -> RecallTraceResponse) : GoM S unit :=
  modify (fun s => mkSt (st_ext s) (st_sessions s) (st_versions s) (st_cache s)
                     (alter f a (st_heap s)) (st_ticks s)).

(** [if err != nil { return ..., translateBackendError(err) }] *)
Definition translated {A} (m : GoM S A) : GoM S A :=
  r ← attempt m;
  match r with
  | Ok a => mret a
  | Fail err => throw (translateBackendError (Some err))
  end.
End effects.

(** [if cond { return ..., err }] *)
Definition reject_if {S} (cond : bool) (err : goerror) : GoM S unit :=
  if cond then throw err else mret tt.
Definition reject_some {S} (err : option goerror) : GoM S unit :=
  match err with Some err => throw err | None => mret tt end.

Section service.
Context {E T V : Type}.
(** [time.Now().UTC()], the [n]-th reading; the digests of the idempotent
    requests (hex SHA-256 of the JSON of the payload struct); the contract
    package's [NormalizeRecordKind]. *)
Context (clock : nat -> time)
  (write_digest : Scope -> WriteRecordPayload -> string)
  (patch_digest : Scope -> string -> Z -> PatchMemoryFields -> string)
  (NormalizeRecordKind : string -> result goerror string).
Context (s : Service E T V).
Abbreviation S := (St E T V).

Definition now : GoM S time :=
  fun st => (mkSt (st_ext st) (st_sessions st) (st_versions st) (st_cache st) (st_heap st)
               (Datatypes.S (st_ticks st)), Ok (clock (st_ticks st))).

Definition Emit (stage : string) (fields : list (string * value)) : GoM S unit :=
  effect (traceEmitter s stage fields).

Definition ensureWritable : GoM S unit :=
  reject_if (readOnly s) (ErrReadOnlyMode "memory gateway is temporarily read-only" []).

Definition hashWriteRequest (scope : Scope) (record : WriteRecordPayload) : string :=
  write_digest scope record.
Definition hashPatchRequest (scope : Scope) (memoryID : string) (req : PatchMemoryRequest) : string :=
  patch_digest scope memoryID (pr_ExpectedVersion req) (pr_Patch req).

Definition invalidateScopeState (scope : Scope) : GoM S unit :=
  _ ← on_cache (InvalidateScope scope);
  _ ← effect (recallCacheObserver s {| co_Action := "invalidate"; co_Scope := scope |});
  _ ← attempt (on_versions (BumpScopeVersion (scopeVersionStore s) scope));
  mret tt.

Definition ensureSessionOpen (scope : Scope) : GoM S unit :=
  state ← translated (on_sessions (reg_Get (sessionStore s) scope));
  t ← now;
  reject_some (validateSessionState (sessionIdleTTL s) state t).

(** ** Recall *)
Fixpoint validate_hits (scope : Scope) (hits : list RecallHitResponse) : GoM S bool :=
  match hits with
  | [] => mret true
  | hit :: rest =>
      r ← attempt (on_ext (GetRecord (backend s) (TenantID scope) (hit_MemoryID hit)));
      match r with
      | Fail err => if errors_Is err PgNotFound then mret false else throw err
      | Ok record =>
          if negb (m_Version record =? hit_Version hit) then mret false
          else validate_hits scope rest
      end
  end.

Definition validateBoundedCachedResponse (scope : Scope) (cached : RecallUnifiedResponse) : GoM S bool :=
  validate_hits scope (ru_Hits cached).

Definition make_hit (candidate : recallCandidate) : RecallHitResponse :=
  let record := rc_record candidate in
  {| hit_MemoryID := m_MemoryID record; hit_Kind := m_Kind record;
     hit_Score := rc_score candidate; hit_Version := m_Version record;
     hit_Content := m_Content record; hit_Tags := m_Tags record;
     hit_Source := m_Source record; hit_Category := m_Category record;
     hit_Pinned := m_Pinned record; hit_Disabled := m_Disabled record;
     hit_Metadata := {| hm_MatchedBy := "long_term_unified";
                        hm_TokenCostEstimate := rc_tokenEstimate candidate |} |}.

(** The loop over the candidates: hits selected so far and their estimate. *)
Fixpoint select_candidates (memoryTokenBudget : Z) (candidates : list recallCandidate)
    (totalEstimate : Z) (hits : list RecallHitResponse) : GoM S (Z * list RecallHitResponse) :=
  match candidates with
  | [] => mret (totalEstimate, hits)
  | candidate :: rest =>
      let estimate := rc_tokenEstimate candidate in
      let id := VStr (m_MemoryID (rc_record candidate)) in
      if (0 <? memoryTokenBudget) && (memoryTokenBudget <? wrap64 (totalEstimate + estimate))
      then
        _ ← Emit "dropped" [("memory_id"%string, id); ("token_cost_estimate"%string, VInt estimate);
                            ("memory_token_budget"%string, VInt memoryTokenBudget)];
        select_candidates memoryTokenBudget rest totalEstimate hits
      else
        _ ← Emit "selected" [("memory_id"%string, id); ("token_cost_estimate"%string, VInt estimate)];
        select_candidates memoryTokenBudget rest (wrap64 (totalEstimate + estimate))
          (hits ++ [make_hit candidate])
  end.

(** The cache part of [RecallUnified]: the response to return, or [None] for
    the [recallOrigin] label. *)
Definition recall_cached (scope : Scope) (req : RecallUnifiedRequest) (consistencyLevel cacheKey : string)
    (scopeVersion : Z) : GoM S (option RecallUnifiedResponse) :=
  if bool_decide (consistencyLevel = "strong"%string) then mret None else
  t ← now;
  found ← gets (fun st => Lookup (st_cache st) cacheKey consistencyLevel (rr_AllowStaleCache req) t scopeVersion);
  match found with
  | None => mret None
  | Some (cached, staleServed) =>
      let bounded := bool_decide (consistencyLevel = "bounded"%string) in
      valid ← (if bounded then translated (validateBoundedCachedResponse scope cached) else mret true);
      if negb valid then mret None else
      trace ← (match ru_Trace cached with
               | Some a => mret a
               | None => alloc (mkRecallTraceResponse "" "" false 0 0)
               end);
      let cacheLevel := if bounded then "l2_hit"%string else "l1_hit"%string in
      _ ← store_at trace (fun tr => mkRecallTraceResponse cacheLevel consistencyLevel staleServed
                                      (tr_MemoryTokenBudget tr) (tr_ReturnedTokenEstimate tr));
      _ ← effect (recallObserver s {|
             ob_ConsistencyLevel := consistencyLevel; ob_CacheLevel := cacheLevel;
             ob_StaleServed := staleServed; ob_TenantID := TenantID scope;
             ob_Returned := 0; ob_Selected := 0 |});
      mret (Some {| ru_Hits := ru_Hits cached; ru_Trace := Some trace |})
  end.

Definition mark_access (scope : Scope) (hits : list RecallHitResponse) : GoM S unit :=
  match accessMarker s with
  | Some marker =>
      if bool_decide (hits = []) then mret tt
      else
        t ← now;
        translated (on_ext (marker {| ma_TenantID := TenantID scope;
                                      ma_MemoryIDs := map hit_MemoryID hits;
                                      ma_AccessedAt := t |}))
  | None => mret tt
  end.

(** The part of [RecallUnified] behind the label [recallOrigin]: from the
    records the recaller answered with to the response, *)
Definition recall_records (scope : Scope) (req : RecallUnifiedRequest)
    (consistencyLevel cacheKey : string) (scopeVersion : Z) (records : list MemoryRecord)
    : GoM S RecallUnifiedResponse :=
  _ ← Emit "recalled" [("tenant_id"%string, VStr (TenantID scope));
                       ("user_id"%string, VStr (UserID scope));
                       ("count"%string, VInt (Z.of_nat (length records)))];
  sel ← select_candidates (rr_MemoryTokenBudget req) (buildRecallCandidates records) 0 [];
  let totalEstimate := sel.1 in
  let hits := sel.2 in
  _ ← mark_access scope hits;
  _ ← effect (recallObserver s {|
         ob_ConsistencyLevel := consistencyLevel; ob_CacheLevel := "origin";
         ob_StaleServed := false; ob_TenantID := TenantID scope;
         ob_Returned := Z.of_nat (length records);
         ob_Selected := Z.of_nat (length hits) |});
  _ ← Emit "promote_decided" [("session_id"%string, VStr (SessionID scope));
                              ("mode"%string, VStr "deferred")];
  trace ← alloc (if rr_Debug req
                 then mkRecallTraceResponse "origin" consistencyLevel false
                        (rr_MemoryTokenBudget req) totalEstimate
                 else mkRecallTraceResponse "origin" consistencyLevel false 0 0);
  let response := {| ru_Hits := hits; ru_Trace := Some trace |} in
  _ ← (if bool_decide (consistencyLevel = "strong"%string) then mret tt
       else
         t ← now;
         _ ← on_cache (cache_Set cacheKey response t scopeVersion);
         effect (recallCacheObserver s {| co_Action := "fill"; co_Scope := scope |}));
  mret response.

(** and the read itself. *)
Definition recall_origin (recall : RecallBackend E) (scope : Scope) (req : RecallUnifiedRequest)
    (consistencyLevel cacheKey : string) (scopeVersion : Z) : GoM S RecallUnifiedResponse :=
  r ← attempt (on_ext (recall scope (rr_Query req) (rr_TopK req)));
  match r with
  | Fail err =>
      if errors_Is err PgNotFound then mret {| ru_Hits := []; ru_Trace := None |}
      else throw (translateBackendError (Some err))
  | Ok records => recall_records scope req consistencyLevel cacheKey scopeVersion records
  end.

Definition with_TopK (req : RecallUnifiedRequest) (topK : Z) : RecallUnifiedRequest :=
  mkRecallUnifiedRequest (rr_Scope req) (rr_Query req) topK (rr_TokenBudget req)
    (rr_MemoryTokenBudget req) (rr_ConsistencyLevel req) (rr_AllowStaleCache req) (rr_Debug req).

Definition RecallUnified (authScope : Scope) (req : RecallUnifiedRequest) : GoM S RecallUnifiedResponse :=
  _ ← reject_if (bool_decide (TrimSpace (rr_Query req) = ""%string)) (ErrBadRequest "query is required" []);
  _ ← reject_if (rr_TopK req <? 0) (ErrBadRequest "top_k must be non-negative" []);
  let req := if rr_TopK req =? 0 then with_TopK req 8 else req in
  _ ← reject_if (50 <? rr_TopK req) (ErrBadRequest "top_k must be <= 50" []);
  match recaller s with
  | None => throw (ErrNotFound "recall backend is not configured" [])
  | Some recall =>
      let scope := mergeScope authScope (rr_Scope req) in
      _ ← ensureSessionOpen scope;
      let consistencyLevel := consistencyLevelOrDefault (rr_ConsistencyLevel req) in
      let cacheKey := buildRecallCacheKey scope req in
      scopeVersion ← translated (on_versions (CurrentScopeVersion (scopeVersionStore s) scope));
      cached ← recall_cached scope req consistencyLevel cacheKey scopeVersion;
      match cached with
      | Some response => mret response
      | None => recall_origin recall scope req consistencyLevel cacheKey scopeVersion
      end
  end.

(** ** Mutations *)
Definition WriteMemory (authScope : Scope) (req : WriteMemoryRequest) : GoM S WriteMemoryResult :=
  _ ← ensureWritable;
  _ ← reject_if (bool_decide (TrimSpace (wr_IdempotencyKey req) = ""%string))
        (ErrBadRequest "idempotency_key is required" []);
  _ ← reject_if (bool_decide (TrimSpace (wp_Content (wr_Record req)) = ""%string))
        (ErrBadRequest "record.content is required" []);
  match NormalizeRecordKind (wp_Kind (wr_Record req)) with
  | Fail _ => throw (ErrBadRequest "record.kind must be one of working, episodic, semantic" [])
  | Ok kind =>
      let scope := mergeScope authScope (wr_Scope req) in
      _ ← ensureSessionOpen scope;
      let record := wr_Record req in
      let writeInput := {|
        wi_TenantID := TenantID scope;
        wi_IdempotencyKey := wr_IdempotencyKey req;
        wi_RequestHash := hashWriteRequest scope record;
        wi_Record := {|
          m_MemoryID := ""; m_TenantID := TenantID scope; m_UserID := UserID scope;
          m_ProjectID := ProjectID scope; m_SessionID := SessionID scope;
          m_Kind := kind; m_Source := wp_Source record; m_Category := wp_Category record;
          m_Content := wp_Content record; m_Tags := wp_Tags record;
          m_Importance := wp_Importance record; m_Pinned := wp_Pinned record;
          m_Disabled := false; m_Deleted := false; m_Version := 0; m_HitCount := 0;
          m_LastAccessAt := None |} |} in
      result ← translated (on_ext (WriteRecord (backend s) writeInput));
      _ ← invalidateScopeState scope;
      mret {| wm_MemoryID := res_MemoryID result; wm_Version := res_Version result;
              wm_Status := "saved" |}
  end.

Definition doPatchRecord (scope : Scope) (memoryID : string) (req : PatchMemoryRequest)
    : GoM S RecordResult :=
  let patch := pr_Patch req in
  translated (on_ext (PatchRecord (backend s) {|
    pi_TenantID := TenantID scope;
    pi_MemoryID := memoryID;
    pi_ExpectedVersion := pr_ExpectedVersion req;
    pi_Content := default ""%string (pf_Content patch);
    pi_Category := default ""%string (pf_Category patch);
    pi_Tags := default [] (pf_Tags patch);
    pi_Importance := default f_zero (pf_Importance patch) |})).

Definition patch_response (result : RecordResult) : PatchMemoryResponse :=
  {| pm_MemoryID := res_MemoryID result; pm_Version := res_Version result |}.

(** The branch of [PatchMemory] with an idempotency key and a store. *)
Definition patch_idempotent (store : IdempotencyStore E) (scope : Scope) (memoryID : string)
    (req : PatchMemoryRequest) : GoM S PatchMemoryResponse :=
  let requestHash := hashPatchRequest scope memoryID req in
  loaded ← attempt (on_ext (LoadIdempotency store (TenantID scope) (pr_IdempotencyKey req)));
  match loaded with
  | Ok entry =>
      if negb (bool_decide (ie_RequestHash entry = requestHash))
      then throw (ErrIdempotencyConflict "idempotency_key conflicts with an existing payload" [])
      else mret (patch_response (ie_Response entry))
  | Fail err =>
      if negb (errors_Is err PgNotFound) then throw (translateBackendError (Some err)) else
      result ← doPatchRecord scope memoryID req;
      t ← now;
      _ ← attempt (on_ext (SaveIdempotency store {|
             ie_TenantID := TenantID scope;
             ie_IdempotencyKey := pr_IdempotencyKey req;
             ie_RequestHash := requestHash;
             ie_MemoryID := res_MemoryID result;
             ie_Response := result;
             ie_CreatedAt := t |}));
      _ ← invalidateScopeState scope;
      mret (patch_response result)
  end.

Definition PatchMemory (authScope : Scope) (memoryID : string) (req : PatchMemoryRequest)
    : GoM S PatchMemoryResponse :=
  _ ← ensureWritable;
  _ ← reject_if (pr_ExpectedVersion req <=? 0) (ErrBadRequest "expected_version is required" []);
  let scope := mergeScope authScope (pr_Scope req) in
  _ ← ensureSessionOpen scope;
  match idempotencyStore s with
  | Some store =>
      if negb (bool_decide (TrimSpace (pr_IdempotencyKey req) = ""%string))
      then patch_idempotent store scope memoryID req
      else
        result ← doPatchRecord scope memoryID req;
        _ ← invalidateScopeState scope;
        mret (patch_response result)
  | None =>
      result ← doPatchRecord scope memoryID req;
      _ ← invalidateScopeState scope;
      mret (patch_response result)
  end.

(** [terminalStateShortCircuit] and [terminalHiddenStateShortCircuit] differ in
    the read they use. *)
Definition shortCircuit (read : string -> string -> GoM E MemoryRecord) (scope : Scope)
    (memoryID : string) (expectedVersion : Z) (desired : MemoryRecord -> bool)
    : GoM S (option MemoryRecord) :=
  r ← attempt (on_ext (read (TenantID scope) memoryID));
  match r with
  | Fail _ => mret None
  | Ok record =>
      if desired record && (expectedVersion <=? m_Version record) then mret (Some record)
      else mret None
  end.
Definition terminalStateShortCircuit := shortCircuit (GetRecord (backend s)).
Definition terminalHiddenStateShortCircuit := shortCircuit (GetRecordIncludingHidden (backend s)).

Definition PinMemory (authScope : Scope) (memoryID : string) (req : PinMemoryRequest)
    : GoM S PinMemoryResponse :=
  _ ← ensureWritable;
  _ ← reject_if (pin_ExpectedVersion req <=? 0) (ErrBadRequest "expected_version is required" []);
  let scope := mergeScope authScope (pin_Scope req) in
  _ ← ensureSessionOpen scope;
  done ← terminalStateShortCircuit scope memoryID (pin_ExpectedVersion req) m_Pinned;
  match done with
  | Some record =>
      mret {| pn_MemoryID := m_MemoryID record; pn_Version := m_Version record; pn_Pinned := true |}
  | None =>
      result ← translated (on_ext (PinRecord (backend s) {|
        pni_TenantID := TenantID scope; pni_MemoryID := memoryID;
        pni_ExpectedVersion := pin_ExpectedVersion req; pni_Pinned := true |}));
      _ ← invalidateScopeState scope;
      mret {| pn_MemoryID := res_MemoryID result; pn_Version := res_Version result;
              pn_Pinned := m_Pinned (res_Record result) |}
  end.

Definition UnpinMemory (authScope : Scope) (memoryID : string) (req : PinMemoryRequest)
    : GoM S PinMemoryResponse :=
  _ ← ensureWritable;
  _ ← reject_if (pin_ExpectedVersion req <=? 0) (ErrBadRequest "expected_version is required" []);
  let scope := mergeScope authScope (pin_Scope req) in
  done ← terminalStateShortCircuit scope memoryID (pin_ExpectedVersion req) (fun r => negb (m_Pinned r));
  match done with
  | Some record =>
      mret {| pn_MemoryID := m_MemoryID record; pn_Version := m_Version record; pn_Pinned := false |}
  | None =>
      result ← translated (on_ext (PinRecord (backend s) {|
        pni_TenantID := TenantID scope; pni_MemoryID := memoryID;
        pni_ExpectedVersion := pin_ExpectedVersion req; pni_Pinned := false |}));
      _ ← invalidateScopeState scope;
      mret {| pn_MemoryID := res_MemoryID result; pn_Version := res_Version result;
              pn_Pinned := m_Pinned (res_Record result) |}
  end.

Definition DisableMemory (authScope : Scope) (memoryID : string) (req : DisableMemoryRequest)
    : GoM S DisableMemoryResponse :=
  _ ← ensureWritable;
  _ ← reject_if (dr_ExpectedVersion req <=? 0) (ErrBadRequest "expected_version is required" []);
  let scope := mergeScope authScope (dr_Scope req) in
  _ ← ensureSessionOpen scope;
  done ← terminalHiddenStateShortCircuit scope memoryID (dr_ExpectedVersion req)
           (fun r => m_Disabled r && negb (m_Deleted r));
  match done with
  | Some record =>
      mret {| ds_MemoryID := m_MemoryID record; ds_Version := m_Version record; ds_Disabled := true |}
  | None =>
      result ← translated (on_ext (DisableRecord (backend s) {|
        di_TenantID := TenantID scope; di_MemoryID := memoryID;
        di_ExpectedVersion := dr_ExpectedVersion req; di_Disabled := true |}));
      _ ← invalidateScopeState scope;
      mret {| ds_MemoryID := res_MemoryID result; ds_Version := res_Version result;
              ds_Disabled := m_Disabled (res_Record result) |}
  end.

Definition EnableMemory (authScope : Scope) (memoryID : string) (req : DisableMemoryRequest)
    : GoM S DisableMemoryResponse :=
  _ ← ensureWritable;
  _ ← reject_if (dr_ExpectedVersion req <=? 0) (ErrBadRequest "expected_version is required" []);
  let scope := mergeScope authScope (dr_Scope req) in
  done ← terminalStateShortCircuit scope memoryID (dr_ExpectedVersion req) (fun r => negb (m_Disabled r));
  match done with
  | Some record =>
      mret {| ds_MemoryID := m_MemoryID record; ds_Version := m_Version record; ds_Disabled := false |}
  | None =>
      result ← translated (on_ext (DisableRecord (backend s) {|
        di_TenantID := TenantID scope; di_MemoryID := memoryID;
        di_ExpectedVersion := dr_ExpectedVersion req; di_Disabled := false |}));
      _ ← invalidateScopeState scope;
      mret {| ds_MemoryID := res_MemoryID result; ds_Version := res_Version result;
              ds_Disabled := m_Disabled (res_Record result) |}
  end.

Definition DeleteMemory (authScope : Scope) (memoryID : string) (req : DeleteMemoryRequest)
    : GoM S DeleteMemoryResponse :=
  _ ← ensureWritable;
  _ ← reject_if (del_ExpectedVersion req <=? 0) (ErrBadRequest "expected_version is required" []);
  let scope := mergeScope authScope (del_Scope req) in
  _ ← ensureSessionOpen scope;
  done ← terminalHiddenStateShortCircuit scope memoryID (del_ExpectedVersion req) m_Deleted;
  match done with
  | Some record =>
      mret {| dl_MemoryID := m_MemoryID record; dl_Deleted := true; dl_Version := m_Version record |}
  | None =>
      result ← translated (on_ext (DeleteRecord (backend s) {|
        dli_TenantID := TenantID scope; dli_MemoryID := memoryID;
        dli_ExpectedVersion := del_ExpectedVersion req |}));
      _ ← invalidateScopeState scope;
      mret {| dl_MemoryID := res_MemoryID result;
              dl_Deleted := m_Deleted (res_Record result);
              dl_Version := res_Version result |}
  end.

(** ** Sessions *)
Definition with_SessionID (scope : Scope) (sessionID : string) : Scope :=
  mkScope (TenantID scope) (UserID scope) (ProjectID scope) sessionID.

(** The scope of a session call: header, then path, then body. *)
Definition session_scope (authScope : Scope) (claimed : ScopePayload) (sessionID : string) : Scope :=
  let scope := mergeScope authScope claimed in
  if negb (bool_decide (SessionID authScope = ""%string)) then with_SessionID scope (SessionID authScope)
  else if negb (bool_decide (sessionID = ""%string)) then with_SessionID scope sessionID
  else scope.

Definition session_fields (scope : Scope) (mode : string) : list (string * value) :=
  [("tenant_id"%string, VStr (TenantID scope)); ("user_id"%string, VStr (UserID scope));
   ("project_id"%string, VStr (ProjectID scope)); ("session_id"%string, VStr (SessionID scope));
   ("mode"%string, VStr mode)].

(** [CloseSession] behind the replay check: the closer runs before the close
    is recorded. *)
Definition close_open (scope : Scope) (mode : string) : GoM S SessionCloseResponse :=
  _ ← (match sessionCloser s with
       | Some closer => translated (on_ext (closer scope mode))
       | None => mret tt
       end);
  t ← now;
  state ← translated (on_sessions (reg_Close (sessionStore s) scope mode t));
  _ ← invalidateScopeState scope;
  _ ← Emit "promote_decided" (session_fields scope mode);
  mret {| sr_SessionID := ss_SessionID state; sr_Status := ss_Status state |}.

Definition CloseSession (authScope : Scope) (sessionID : string) (req : SessionCloseRequest)
    : GoM S SessionCloseResponse :=
  _ ← ensureWritable;
  let scope := session_scope authScope (sc_Scope req) sessionID in
  _ ← reject_if (bool_decide (SessionID scope = ""%string)) (ErrBadRequest "session_id is required" []);
  let mode := if bool_decide (sc_Mode req = ""%string) then "expire_working"%string else sc_Mode req in
  _ ← reject_if (negb (bool_decide (mode = "expire_working"%string))
                 && negb (bool_decide (mode = "promote_and_expire"%string)))
        (ErrBadRequest "mode must be expire_working or promote_and_expire" []);
  existing ← translated (on_sessions (reg_Get (sessionStore s) scope));
  match existing with
  | Some existing =>
      if is_closed existing
      then mret {| sr_SessionID := ss_SessionID existing; sr_Status := ss_Status existing |}
      else close_open scope mode
  | None => close_open scope mode
  end.

Definition HeartbeatSession (authScope : Scope) (sessionID : string) (req : SessionHeartbeatRequest)
    : GoM S SessionHeartbeatResponse :=
  _ ← ensureWritable;
  let scope := session_scope authScope (sh_Scope req) sessionID in
  _ ← reject_if (bool_decide (SessionID scope = ""%string)) (ErrBadRequest "session_id is required" []);
  _ ← ensureSessionOpen scope;
  t ← now;
  state ← translated (on_sessions (reg_Heartbeat (sessionStore s) scope t));
  _ ← Emit "promote_decided" (session_fields scope "heartbeat");
  mret {| hb_SessionID := ss_SessionID state; hb_Status := ss_Status state |}.

(** [ReapIdleSession]: the reaper's close of an idle session. *)
Definition ReapIdleSession (scope : Scope) : GoM S unit :=
  _ ← CloseSession scope (SessionID scope)
        {| sc_Scope := mkScopePayload "" "" "" ""; sc_Mode := "expire_working" |};
  mret tt.

(** ** Reading one record *)
Definition GetMemoryItem (authScope : Scope) (memoryID : string) : GoM S GetMemoryItemResponse :=
  record ← translated (on_ext (GetRecord (backend s) (TenantID authScope) memoryID));
  mret {| gi_MemoryID := m_MemoryID record; gi_Kind := m_Kind record;
          gi_Version := m_Version record; gi_Content := m_Content record;
          gi_Tags := m_Tags record; gi_Source := m_Source record;
          gi_Category := m_Category record; gi_Importance := m_Importance record;
          gi_Pinned := m_Pinned record; gi_Disabled := m_Disabled record |}.
End service.
Close Scope Z_scope.
