(* ===== verification/ServiceFootprint.v ===== *)
(** * What a handler may touch

    One footprint theorem per method of the service, for any relation on the
    world, the session registry, the version store and the cache that the
    calls the method may make keep.  The properties instantiate it: tenant
    confinement, session invariants, the scope discipline of the cache. *)
From S2P Require Import Prelude GoStrings GoFloat HttpApi Authz ScopeKeys Contract RecallCache Sessions ScopeVersions RecallSelection HybridRecall Service.
Open Scope Z_scope.

(** ** Lifted relations *)
Section lift.
Context {E T V : Type} (Re : relation E) (Rs : relation (registry T)) (Rv : relation V)
  (Rc : relation recallCache).
Abbreviation S := (St E T V).

Definition lift (s s' : S) : Prop :=
  Re (st_ext s) (st_ext s') /\ Rs (st_sessions s) (st_sessions s') /\
  Rv (st_versions s) (st_versions s') /\ Rc (st_cache s) (st_cache s').

Context {He : PreOrder Re} {Hs : PreOrder Rs} {Hv : PreOrder Rv} {Hc : PreOrder Rc}.

#[export] Instance lift_preorder : PreOrder lift.
Proof using He Hs Hv Hc.
  split.
  - intros s. repeat split; reflexivity.
  - intros s1 s2 s3 (?&?&?&?) (?&?&?&?). repeat split; etransitivity; eauto.
Qed.

Lemma keeps_on_ext {A} (m : GoM E A) : keeps Re m -> keeps lift (on_ext m).
Proof using He Hs Hv Hc.
  intros H s. unfold on_ext, zoom. specialize (H (st_ext s)).
  destruct (m (st_ext s)); cbn in *. repeat split; cbn; done || reflexivity.
Qed.

Lemma keeps_on_sessions {A} (m : GoM (registry T) A) : keeps Rs m -> keeps lift (on_sessions m).
Proof using He Hs Hv Hc.
  intros H s. unfold on_sessions, zoom. specialize (H (st_sessions s)).
  destruct (m (st_sessions s)); cbn in *. repeat split; cbn; done || reflexivity.
Qed.

Lemma keeps_on_versions {A} (m : GoM V A) : keeps Rv m -> keeps lift (on_versions m).
Proof using He Hs Hv Hc.
  intros H s. unfold on_versions, zoom. specialize (H (st_versions s)).
  destruct (m (st_versions s)); cbn in *. repeat split; cbn; done || reflexivity.
Qed.

Lemma keeps_on_cache f : (forall c, Rc c (f c)) -> keeps lift (on_cache f).
Proof using He Hs Hv Hc.
  intros H s. unfold on_cache, modify. cbn. repeat split; cbn; done || reflexivity.
Qed.

Lemma keeps_effect f : (forall e, Re e (f e)) -> keeps lift (effect f).
Proof using He Hs Hv Hc. intros H. apply keeps_on_ext. by apply keeps_modify. Qed.

Lemma keeps_alloc t : keeps lift (alloc t).
Proof using He Hs Hv Hc. intros s. repeat split; cbn; reflexivity. Qed.

Lemma keeps_store_at a f : keeps lift (store_at a f).
Proof using He Hs Hv Hc. intros s. repeat split; cbn; reflexivity. Qed.

Lemma keeps_now clock : keeps lift (now clock).
Proof using He Hs Hv Hc. intros s. repeat split; cbn; reflexivity. Qed.

Lemma keeps_translated {A} (m : GoM S A) : keeps lift m -> keeps lift (translated m).
Proof using He Hs Hv Hc.
  intros H. unfold translated. apply keeps_bind; [apply _|by apply keeps_attempt|].
  intros [a|e]; [apply keeps_ret|apply keeps_throw]; apply _.
Qed.

Lemma keeps_reject_if b e : keeps lift (reject_if b e).
Proof using He Hs Hv Hc. destruct b; [apply keeps_throw|apply keeps_ret]; apply _. Qed.

Lemma keeps_reject_some o : keeps lift (reject_some o).
Proof using He Hs Hv Hc. destruct o; [apply keeps_throw|apply keeps_ret]; apply _. Qed.
End lift.

#[export] Hint Resolve keeps_on_ext keeps_on_sessions keeps_on_versions keeps_effect keeps_alloc
  keeps_store_at keeps_now keeps_translated keeps_reject_if keeps_reject_some : go_keeps.

(** ** The calls a method may make

    [acts] are the scopes it may act for, [from] the records a recall may
    return for a scope. *)
Definition origin_hit (from : Scope -> MemoryRecord -> Prop) (scope : Scope)
    (hit : RecallHitResponse) : Prop :=
  exists r, from scope r /\ hit = make_hit (make_candidate r).

Class Footprint {E T V} (s : Service E T V) (acts : Scope -> Prop)
    (from : Scope -> MemoryRecord -> Prop)
    (Re : relation E) (Rs : relation (registry T)) (Rv : relation V) (Rc : relation recallCache)
    : Prop := {
  fp_get scope id : acts scope -> keeps Re (GetRecord (backend s) (TenantID scope) id);
  fp_hidden scope id : acts scope -> keeps Re (GetRecordIncludingHidden (backend s) (TenantID scope) id);
  fp_write scope i : acts scope -> wi_TenantID i = TenantID scope -> keeps Re (WriteRecord (backend s) i);
  fp_patch scope i : acts scope -> pi_TenantID i = TenantID scope -> keeps Re (PatchRecord (backend s) i);
  fp_pin scope i : acts scope -> pni_TenantID i = TenantID scope -> keeps Re (PinRecord (backend s) i);
  fp_disable scope i : acts scope -> di_TenantID i = TenantID scope -> keeps Re (DisableRecord (backend s) i);
  fp_delete scope i : acts scope -> dli_TenantID i = TenantID scope -> keeps Re (DeleteRecord (backend s) i);
  fp_mark scope marker i : acts scope -> accessMarker s = Some marker ->
    ma_TenantID i = TenantID scope -> keeps Re (marker i);
  fp_recall scope recall q k : acts scope -> recaller s = Some recall -> keeps Re (recall scope q k);
  fp_closer scope closer mode : acts scope -> sessionCloser s = Some closer -> keeps Re (closer scope mode);
  fp_load scope store key : acts scope -> idempotencyStore s = Some store ->
    keeps Re (LoadIdempotency store (TenantID scope) key);
  fp_save scope store i : acts scope -> idempotencyStore s = Some store ->
    ie_TenantID i = TenantID scope -> keeps Re (SaveIdempotency store i);
  fp_emit stage fields e : Re e (traceEmitter s stage fields e);
  fp_observe scope o e : acts scope -> ob_TenantID o = TenantID scope -> Re e (recallObserver s o e);
  fp_observe_cache scope o e : acts scope -> co_Scope o = scope -> Re e (recallCacheObserver s o e);
  fp_reg_get scope : acts scope -> keeps Rs (reg_Get (sessionStore s) scope);
  fp_reg_close scope mode t : acts scope -> keeps Rs (reg_Close (sessionStore s) scope mode t);
  fp_reg_heartbeat scope t : acts scope -> keeps Rs (reg_Heartbeat (sessionStore s) scope t);
  fp_current scope : acts scope -> keeps Rv (CurrentScopeVersion (scopeVersionStore s) scope);
  fp_bump scope : acts scope -> keeps Rv (BumpScopeVersion (scopeVersionStore s) scope);
  fp_invalidate scope c : acts scope -> Rc c (InvalidateScope scope c);
  fp_fill scope req resp t v c : acts scope -> Forall (origin_hit from scope) (ru_Hits resp) ->
    Rc c (cache_Set (buildRecallCacheKey scope req) resp t v c)
}.

(** What the recaller answers with, whatever the world. *)
Class Recalls {E T V} (s : Service E T V) (acts : Scope -> Prop)
    (from : Scope -> MemoryRecord -> Prop) : Prop :=
  fp_recalled scope recall q k e e' records : acts scope -> recaller s = Some recall ->
    recall scope q k e = (e', Ok records) -> Forall (from scope) records.

#[export] Instance recalls_any {E T V} (s : Service E T V) acts : Recalls s acts (fun _ _ => True).
Proof. intros scope recall q k e e' records _ _ _. by apply Forall_true. Qed.

#[export] Hint Extern 1 (keeps _ (GetRecord _ _ _)) => eapply fp_get : go_keeps.
#[export] Hint Extern 1 (keeps _ (GetRecordIncludingHidden _ _ _)) => eapply fp_hidden : go_keeps.
#[export] Hint Extern 1 (keeps _ (WriteRecord _ _)) => eapply fp_write : go_keeps.
#[export] Hint Extern 1 (keeps _ (PatchRecord _ _)) => eapply fp_patch : go_keeps.
#[export] Hint Extern 1 (keeps _ (PinRecord _ _)) => eapply fp_pin : go_keeps.
#[export] Hint Extern 1 (keeps _ (DisableRecord _ _)) => eapply fp_disable : go_keeps.
#[export] Hint Extern 1 (keeps _ (DeleteRecord _ _)) => eapply fp_delete : go_keeps.
#[export] Hint Extern 1 (keeps _ (LoadIdempotency _ _ _)) => eapply fp_load : go_keeps.
#[export] Hint Extern 1 (keeps _ (SaveIdempotency _ _)) => eapply fp_save : go_keeps.
#[export] Hint Extern 1 (keeps _ (reg_Get _ _)) => eapply fp_reg_get : go_keeps.
#[export] Hint Extern 1 (keeps _ (reg_Close _ _ _ _)) => eapply fp_reg_close : go_keeps.
#[export] Hint Extern 1 (keeps _ (reg_Heartbeat _ _ _)) => eapply fp_reg_heartbeat : go_keeps.
#[export] Hint Extern 1 (keeps _ (CurrentScopeVersion _ _)) => eapply fp_current : go_keeps.
#[export] Hint Extern 1 (keeps _ (BumpScopeVersion _ _)) => eapply fp_bump : go_keeps.

Section footprint.
Context {E T V : Type} (clock : nat -> time)
  (write_digest : Scope -> WriteRecordPayload -> string)
  (patch_digest : Scope -> string -> Z -> PatchMemoryFields -> string)
  (NormalizeRecordKind : string -> result goerror string).
Context (s : Service E T V) (acts : Scope -> Prop) (from : Scope -> MemoryRecord -> Prop)
  (Re : relation E) (Rs : relation (registry T)) (Rv : relation V) (Rc : relation recallCache).
Context {He : PreOrder Re} {Hs : PreOrder Rs} {Hv : PreOrder Rv} {Hc : PreOrder Rc}
  {F : Footprint s acts from Re Rs Rv Rc}.
Abbreviation R := (lift Re Rs Rv Rc).

Lemma fpk_Emit stage fields : keeps R (Emit s stage fields).
Proof using He Hs Hv Hc F. unfold Emit. apply keeps_effect; try apply _. intros e. apply fp_emit. Qed.

Lemma fpk_ensureSessionOpen scope : acts scope -> keeps R (ensureSessionOpen clock s scope).
Proof using He Hs Hv Hc F. intros Ha. unfold ensureSessionOpen. solve_keeps. Qed.

Lemma fpk_ensureWritable : keeps R (ensureWritable s).
Proof using He Hs Hv Hc. unfold ensureWritable. solve_keeps. Qed.

Lemma fpk_invalidateScopeState scope : acts scope -> keeps R (invalidateScopeState s scope).
Proof using He Hs Hv Hc F.
  intros Ha. unfold invalidateScopeState. apply keeps_bind; [apply _| |intros _].
  { apply keeps_on_cache; try apply _. intros c. by apply fp_invalidate. }
  apply keeps_bind; [apply _| |intros _].
  { apply keeps_effect; try apply _. intros e. by apply (fp_observe_cache scope). }
  solve_keeps.
Qed.

Lemma fpk_shortCircuit (read : string -> string -> GoM E MemoryRecord) scope id v desired :
  (forall t, keeps Re (read (TenantID scope) t)) -> keeps R (shortCircuit read scope id v desired).
Proof using He Hs Hv Hc. intros Hr. unfold shortCircuit. solve_keeps. Qed.

Lemma fpk_terminal scope id v desired :
  acts scope -> keeps R (terminalStateShortCircuit s scope id v desired).
Proof using He Hs Hv Hc F. intros Ha. apply fpk_shortCircuit. eauto with go_keeps. Qed.

Lemma fpk_terminalHidden scope id v desired :
  acts scope -> keeps R (terminalHiddenStateShortCircuit s scope id v desired).
Proof using He Hs Hv Hc F. intros Ha. apply fpk_shortCircuit. eauto with go_keeps. Qed.

Lemma fpk_doPatchRecord scope id req : acts scope -> keeps R (doPatchRecord s scope id req).
Proof using He Hs Hv Hc F. intros Ha. unfold doPatchRecord. solve_keeps. Qed.

Hint Resolve fpk_Emit fpk_ensureSessionOpen fpk_ensureWritable fpk_invalidateScopeState
  fpk_terminal fpk_terminalHidden fpk_doPatchRecord : go_keeps.

Lemma fp_WriteMemory authScope req :
  acts (mergeScope authScope (wr_Scope req)) ->
  keeps R (WriteMemory clock write_digest NormalizeRecordKind s authScope req).
Proof using He Hs Hv Hc F. intros Ha. unfold WriteMemory. solve_keeps. Qed.

Lemma fp_PatchMemory authScope id req :
  acts (mergeScope authScope (pr_Scope req)) ->
  keeps R (PatchMemory clock patch_digest s authScope id req).
Proof using He Hs Hv Hc F.
  intros Ha. unfold PatchMemory, patch_idempotent.
  destruct (idempotencyStore s) as [store|] eqn:Es; solve_keeps.
Qed.

Lemma fp_PinMemory authScope id req :
  acts (mergeScope authScope (pin_Scope req)) -> keeps R (PinMemory clock s authScope id req).
Proof using He Hs Hv Hc F. intros Ha. unfold PinMemory. solve_keeps. Qed.

Lemma fp_UnpinMemory authScope id req :
  acts (mergeScope authScope (pin_Scope req)) -> keeps R (UnpinMemory s authScope id req).
Proof using He Hs Hv Hc F. intros Ha. unfold UnpinMemory. solve_keeps. Qed.

Lemma fp_DisableMemory authScope id req :
  acts (mergeScope authScope (dr_Scope req)) -> keeps R (DisableMemory clock s authScope id req).
Proof using He Hs Hv Hc F. intros Ha. unfold DisableMemory. solve_keeps. Qed.

Lemma fp_EnableMemory authScope id req :
  acts (mergeScope authScope (dr_Scope req)) -> keeps R (EnableMemory s authScope id req).
Proof using He Hs Hv Hc F. intros Ha. unfold EnableMemory. solve_keeps. Qed.

Lemma fp_DeleteMemory authScope id req :
  acts (mergeScope authScope (del_Scope req)) -> keeps R (DeleteMemory clock s authScope id req).
Proof using He Hs Hv Hc F. intros Ha. unfold DeleteMemory. solve_keeps. Qed.

Lemma fpk_close_open scope mode : acts scope -> keeps R (close_open clock s scope mode).
Proof using He Hs Hv Hc F.
  intros Ha. unfold close_open. apply keeps_bind; [apply _| |intros _].
  { destruct (sessionCloser s) as [closer|] eqn:Ec; [|solve_keeps].
    apply keeps_translated, keeps_on_ext; try apply _. by apply (fp_closer scope). }
  solve_keeps.
Qed.

Lemma fp_CloseSession authScope sid req :
  acts (session_scope authScope (sc_Scope req) sid) -> keeps R (CloseSession clock s authScope sid req).
Proof using He Hs Hv Hc F.
  pose proof fpk_close_open. intros Ha. unfold CloseSession. solve_keeps.
Qed.

Lemma fp_HeartbeatSession authScope sid req :
  acts (session_scope authScope (sh_Scope req) sid) ->
  keeps R (HeartbeatSession clock s authScope sid req).
Proof using He Hs Hv Hc F. intros Ha. unfold HeartbeatSession. solve_keeps. Qed.

Lemma fp_GetMemoryItem authScope id : acts authScope -> keeps R (GetMemoryItem s authScope id).
Proof using He Hs Hv Hc F. intros Ha. unfold GetMemoryItem. solve_keeps. Qed.
(** *** Recall *)
Lemma select_candidates_hits budget cands total hits st st' total' hits' :
  select_candidates s budget cands total hits st = (st', Ok (total', hits')) ->
  forall h, h ∈ hits' -> h ∈ hits \/ exists c, c ∈ cands /\ h = make_hit c.
Proof using Type.
  revert total hits st. induction cands as [|c cands IH]; intros total hits st; cbn [select_candidates].
  - intros [= <- <- <-] h Hh. by left.
  - case_match; intros Hrun h Hh; run_inv.
    + edestruct IH as [|(c' & ? & ?)]; [eassumption..|by left|].
      right. exists c'. rewrite elem_of_cons. auto.
    + edestruct IH as [Hin|(c' & ? & ?)]; [eassumption..| |].
      * apply elem_of_app in Hin as [|Hin%list_elem_of_singleton]; [by left|].
        right. exists c. rewrite elem_of_cons. auto.
      * right. exists c'. rewrite elem_of_cons. auto.
Qed.

Lemma selected_from scope records budget total st st' total' hits' :
  Forall (from scope) records ->
  select_candidates s budget (buildRecallCandidates records) total [] st = (st', Ok (total', hits')) ->
  Forall (origin_hit from scope) hits'.
Proof using Type.
  intros Hr Hsel. rewrite Forall_forall. intros h Hh.
  eapply select_candidates_hits in Hsel as [Hin|(c & Hcand & ->)]; [by apply elem_of_nil in Hin| |done].
  apply buildRecallCandidates_elem in Hcand as (r & Hin & ->). exists r.
  rewrite Forall_forall in Hr. auto.
Qed.

Lemma fpk_select budget cands total hits : keeps R (select_candidates s budget cands total hits).
Proof using He Hs Hv Hc F.
  revert total hits. induction cands as [|c cands IH]; intros total hits; cbn [select_candidates];
    solve_keeps.
Qed.

Lemma fpk_validate_hits scope hits : acts scope -> keeps R (validate_hits s scope hits).
Proof using He Hs Hv Hc F.
  intros Ha. induction hits as [|h hits IH]; cbn [validate_hits]; solve_keeps.
Qed.

Lemma fpk_mark_access scope hits : acts scope -> keeps R (mark_access clock s scope hits).
Proof using He Hs Hv Hc F.
  intros Ha. unfold mark_access. destruct (accessMarker s) as [marker|] eqn:Em; [|solve_keeps].
  case_bool_decide; [solve_keeps|]. apply keeps_bind; [apply _|solve_keeps|intros t].
  apply keeps_translated, keeps_on_ext; try apply _. by apply (fp_mark scope).
Qed.

Lemma fpk_observe scope o : acts scope -> ob_TenantID o = TenantID scope ->
  keeps R (effect (recallObserver s o)).
Proof using He Hs Hv Hc F.
  intros Ha Ho. apply keeps_effect; try apply _. intros e. by apply (fp_observe scope).
Qed.

Lemma fpk_observe_cache scope action : acts scope ->
  keeps R (effect (recallCacheObserver s {| co_Action := action; co_Scope := scope |})).
Proof using He Hs Hv Hc F.
  intros Ha. apply keeps_effect; try apply _. intros e. by apply (fp_observe_cache scope).
Qed.

Lemma fpk_recall_cached scope req level key v :
  acts scope -> keeps R (recall_cached clock s scope req level key v).
Proof using He Hs Hv Hc F.
  intros Ha. unfold recall_cached, validateBoundedCachedResponse.
  pose proof (fpk_validate_hits scope) as Hvh.
  solve_keeps; try (by apply (fpk_observe scope)).
Qed.

(** What follows the read, on the records it answered with. *)
Lemma fpk_recall_rest scope req level v records :
  acts scope -> Forall (from scope) records ->
  keeps R (recall_records clock s scope req level (buildRecallCacheKey scope req) v records).
Proof using He Hs Hv Hc F.
  intros Ha Hfrom. unfold recall_records.
  apply keeps_bind; [apply _|apply fpk_Emit|intros _].
  apply (keeps_bind_post R (fun sel => Forall (origin_hit from scope) sel.2)).
  { apply fpk_select. }
  { intros st st' [total hits] Hs'. cbn. by eapply selected_from. }
  intros [total hits] Hhits. cbn [fst snd] in *.
  apply keeps_bind; [apply _|by apply fpk_mark_access|intros _].
  apply keeps_bind; [apply _|by apply (fpk_observe scope)|intros _].
  apply keeps_bind; [apply _|apply fpk_Emit|intros _].
  apply keeps_bind; [apply _|solve_keeps|intros trace].
  apply keeps_bind; [apply _| |intros _; solve_keeps].
  case_bool_decide; [solve_keeps|]. apply keeps_bind; [apply _|solve_keeps|intros t].
  apply keeps_bind; [apply _| |intros _; by apply fpk_observe_cache].
  apply keeps_on_cache; try apply _. intros c. by apply fp_fill.
Qed.

Lemma fpk_recall_origin {Q : Recalls s acts from} recall scope req level v :
  acts scope -> recaller s = Some recall ->
  keeps R (recall_origin clock s recall scope req level (buildRecallCacheKey scope req) v).
Proof using He Hs Hv Hc F.
  intros Ha Hrec. unfold recall_origin.
  apply (keeps_bind_post R (fun r => forall rs, r = Ok rs -> Forall (from scope) rs)).
  { apply keeps_attempt, keeps_on_ext; try apply _. by apply (fp_recall scope). }
  { intros st st' r. unfold attempt, on_ext, zoom.
    destruct (recall scope (rr_Query req) (rr_TopK req) (st_ext st)) as [e' r'] eqn:Er.
    intros [= <- <-] rs ->. by eapply (fp_recalled scope). }
  intros [records|err] Hfrom; [|solve_keeps]. apply fpk_recall_rest; auto.
Qed.

Lemma fp_RecallUnified {Q : Recalls s acts from} authScope req :
  acts (mergeScope authScope (rr_Scope req)) -> keeps R (RecallUnified clock s authScope req).
Proof using He Hs Hv Hc F.
  intros Ha. unfold RecallUnified.
  apply keeps_bind; [apply _|solve_keeps|intros _].
  apply keeps_bind; [apply _|solve_keeps|intros _].
  set (req' := if rr_TopK req =? 0 then with_TopK req 8 else req).
  assert (Hscope : rr_Scope req' = rr_Scope req) by (unfold req'; by destruct (rr_TopK req =? 0)).
  cbv zeta. rewrite <-Hscope in Ha. clearbody req'. pose proof fpk_recall_cached.
  apply keeps_bind; [apply _|solve_keeps|intros _].
  destruct (recaller s) as [recall|] eqn:Er; [|solve_keeps].
  apply keeps_bind; [apply _|by apply fpk_ensureSessionOpen|intros _].
  apply keeps_bind; [apply _|solve_keeps|intros v].
  apply keeps_bind; [apply _|by apply fpk_recall_cached|intros [resp|]]; [solve_keeps|].
  by apply fpk_recall_origin.
Qed.
End footprint.
Close Scope Z_scope.
