(* ===== verification/ServiceCalls.v ===== *)
(** * Sequences of calls

    The methods of the service as labels of steps: [run_call] runs one,
    whatever it answers, and [run_calls] a sequence of them.  What one call
    keeps, every sequence keeps. *)
From S2P Require Import Prelude GoStrings GoFloat HttpApi Authz ScopeKeys Contract RecallCache Sessions ScopeVersions RecallSelection HybridRecall Service ServiceFootprint.

Inductive call :=
| CallRecall (auth : Scope) (req : RecallUnifiedRequest)
| CallWrite (auth : Scope) (req : WriteMemoryRequest)
| CallPatch (auth : Scope) (id : string) (req : PatchMemoryRequest)
| CallPin (auth : Scope) (id : string) (req : PinMemoryRequest)
| CallUnpin (auth : Scope) (id : string) (req : PinMemoryRequest)
| CallDisable (auth : Scope) (id : string) (req : DisableMemoryRequest)
| CallEnable (auth : Scope) (id : string) (req : DisableMemoryRequest)
| CallDelete (auth : Scope) (id : string) (req : DeleteMemoryRequest)
| CallClose (auth : Scope) (sid : string) (req : SessionCloseRequest)
| CallHeartbeat (auth : Scope) (sid : string) (req : SessionHeartbeatRequest)
| CallReap (scope : Scope)
| CallGet (auth : Scope) (id : string).

(** What a call answers. *)
Inductive reply :=
| RepRecall (r : RecallUnifiedResponse)
| RepWrite (r : WriteMemoryResult)
| RepPatch (r : PatchMemoryResponse)
| RepPin (r : PinMemoryResponse)
| RepDisable (r : DisableMemoryResponse)
| RepDelete (r : DeleteMemoryResponse)
| RepClose (r : SessionCloseResponse)
| RepHeartbeat (r : SessionHeartbeatResponse)
| RepReap
| RepGet (r : GetMemoryItemResponse).

(** The scope a call acts for. *)
Definition call_scope (c : call) : Scope :=
  match c with
  | CallRecall a r => mergeScope a (rr_Scope r)
  | CallWrite a r => mergeScope a (wr_Scope r)
  | CallPatch a _ r => mergeScope a (pr_Scope r)
  | CallPin a _ r | CallUnpin a _ r => mergeScope a (pin_Scope r)
  | CallDisable a _ r | CallEnable a _ r => mergeScope a (dr_Scope r)
  | CallDelete a _ r => mergeScope a (del_Scope r)
  | CallClose a sid r => session_scope a (sc_Scope r) sid
  | CallHeartbeat a sid r => session_scope a (sh_Scope r) sid
  | CallReap sc => session_scope sc (mkScopePayload "" "" "" "") (SessionID sc)
  | CallGet a _ => a
  end.

(** The header scope it comes with. *)
Definition call_auth (c : call) : Scope :=
  match c with
  | CallRecall a _ | CallWrite a _ | CallPatch a _ _ | CallPin a _ _ | CallUnpin a _ _
  | CallDisable a _ _ | CallEnable a _ _ | CallDelete a _ _ | CallClose a _ _
  | CallHeartbeat a _ _ | CallReap a | CallGet a _ => a
  end.

Lemma session_scope_tenant a c sid : TenantID (session_scope a c sid) = TenantID a.
Proof. unfold session_scope. by repeat case_match. Qed.
Lemma session_scope_user a c sid : UserID (session_scope a c sid) = UserID a.
Proof. unfold session_scope. by repeat case_match. Qed.
#[export] Hint Rewrite session_scope_tenant session_scope_user : gateway.

(** Tenant and user of the scope a call acts for are those of its headers. *)
Lemma call_scope_tenant c : TenantID (call_scope c) = TenantID (call_auth c).
Proof. destruct c; cbn; by autorewrite with gateway. Qed.
Lemma call_scope_user c : UserID (call_scope c) = UserID (call_auth c).
Proof. destruct c; cbn; by autorewrite with gateway. Qed.

Section calls.
Context {E T V : Type} (clock : nat -> time)
  (write_digest : Scope -> WriteRecordPayload -> string)
  (patch_digest : Scope -> string -> Z -> PatchMemoryFields -> string)
  (NormalizeRecordKind : string -> result goerror string).
Context (s : Service E T V).
Abbreviation S := (St E T V).

Definition reply_with {A} (f : A -> reply) (m : GoM S A) : GoM S reply := a ← m; mret (f a).

Definition run_call (c : call) : GoM S reply :=
  match c with
  | CallRecall a r => reply_with RepRecall (RecallUnified clock s a r)
  | CallWrite a r => reply_with RepWrite (WriteMemory clock write_digest NormalizeRecordKind s a r)
  | CallPatch a id r => reply_with RepPatch (PatchMemory clock patch_digest s a id r)
  | CallPin a id r => reply_with RepPin (PinMemory clock s a id r)
  | CallUnpin a id r => reply_with RepPin (UnpinMemory s a id r)
  | CallDisable a id r => reply_with RepDisable (DisableMemory clock s a id r)
  | CallEnable a id r => reply_with RepDisable (EnableMemory s a id r)
  | CallDelete a id r => reply_with RepDelete (DeleteMemory clock s a id r)
  | CallClose a sid r => reply_with RepClose (CloseSession clock s a sid r)
  | CallHeartbeat a sid r => reply_with RepHeartbeat (HeartbeatSession clock s a sid r)
  | CallReap sc => reply_with (fun _ => RepReap) (ReapIdleSession clock s sc)
  | CallGet a id => reply_with RepGet (GetMemoryItem s a id)
  end.

Definition run_calls (cs : list call) (st : S) : S :=
  foldl (fun st c => (run_call c st).1) st cs.

(** Which calls may change anything durable. *)
Definition mutates (c : call) : bool :=
  match c with CallRecall _ _ | CallGet _ _ => false | _ => true end.

Section kept.
Context (acts : Scope -> Prop) (from : Scope -> MemoryRecord -> Prop)
  (Re : relation E) (Rs : relation (registry T)) (Rv : relation V) (Rc : relation recallCache).
Context {He : PreOrder Re} {Hs : PreOrder Rs} {Hv : PreOrder Rv} {Hc : PreOrder Rc}
  {F : Footprint s acts from Re Rs Rv Rc}.

Lemma keeps_reply {A} (f : A -> reply) (m : GoM S A) :
  keeps (lift Re Rs Rv Rc) m -> keeps (lift Re Rs Rv Rc) (reply_with f m).
Proof using He Hs Hv Hc. intros H. unfold reply_with. solve_keeps. Qed.

Definition is_recall (c : call) : bool := match c with CallRecall _ _ => true | _ => false end.

Lemma run_other_keeps c :
  is_recall c = false -> acts (call_scope c) -> keeps (lift Re Rs Rv Rc) (run_call c).
Proof using He Hs Hv Hc F.
  destruct c; cbn [call_scope run_call is_recall]; [done|intros _ Ha; apply keeps_reply..].
  - by apply (fp_WriteMemory clock write_digest NormalizeRecordKind s acts from).
  - by apply (fp_PatchMemory clock patch_digest s acts from).
  - by apply (fp_PinMemory clock s acts from).
  - by apply (fp_UnpinMemory s acts from).
  - by apply (fp_DisableMemory clock s acts from).
  - by apply (fp_EnableMemory s acts from).
  - by apply (fp_DeleteMemory clock s acts from).
  - by apply (fp_CloseSession clock s acts from).
  - by apply (fp_HeartbeatSession clock s acts from).
  - unfold ReapIdleSession. apply keeps_bind; [apply _| |intros _; solve_keeps].
    by apply (fp_CloseSession clock s acts from).
  - by apply (fp_GetMemoryItem s acts from).
Qed.

Lemma run_call_keeps {Q : Recalls s acts from} c :
  acts (call_scope c) -> keeps (lift Re Rs Rv Rc) (run_call c).
Proof using He Hs Hv Hc F.
  intros Ha. destruct (is_recall c) eqn:Er; [|by apply run_other_keeps].
  destruct c; try done. cbn [run_call]. apply keeps_reply. by apply (fp_RecallUnified clock s acts from).
Qed.

Lemma run_calls_keeps {Q : Recalls s acts from} cs st :
  Forall (fun c => acts (call_scope c)) cs -> lift Re Rs Rv Rc st (run_calls cs st).
Proof using He Hs Hv Hc F.
  intros Hcs. revert st. induction Hcs as [|c cs Hac _ IH]; intros st; cbn; [reflexivity|].
  etransitivity; [|apply IH]. by apply run_call_keeps.
Qed.
End kept.
End calls.
