(* ===== verification/RefWorld.v ===== *)
(** * A concrete world for the witnesses

    The packages the gateway calls are parameters of the model.  Here they are
    instantiated by small executable functions with the documented behaviour:
    an optimistic-concurrency record store, an idempotency table, a candidate
    source that proposes every identifier of every tenant, and a log of the
    observations.  Only witnesses and examples use this file. *)
From S2P Require Import Prelude GoStrings GoFloat HttpApi Authz ScopeKeys Contract RecallCache Sessions ScopeVersions RecallSelection HybridRecall Service.
Open Scope Z_scope.

Inductive event :=
| EvEmit (stage : string) (fields : list (string * value))
| EvRecall (o : RecallObservation)
| EvCache (o : RecallCacheObservation)
| EvClosed (scope : Scope) (mode : string)
| EvAccess (i : MarkAccessInput).

Record world := mkWorld {
  w_records : gmap (string * string) MemoryRecord;
  w_idem : gmap (string * string) IdempotencyEntry;
  w_log : list event;
  w_next : nat
}.

Definition empty_world : world := mkWorld ∅ ∅ [] 1.

Definition visible (r : MemoryRecord) : bool := negb (m_Disabled r) && negb (m_Deleted r).

Definition put_record (t id : string) (r : MemoryRecord) (w : world) : world :=
  mkWorld (<[(t, id) := r]> (w_records w)) (w_idem w) (w_log w) (w_next w).

Definition log_event (ev : event) (w : world) : world :=
  mkWorld (w_records w) (w_idem w) (w_log w ++ [ev]) (w_next w).

(** A record with new flags and version. *)
Definition with_flags (r : MemoryRecord) (id : string) (pinned disabled deleted : bool)
    (content : string) (version : Z) : MemoryRecord :=
  mkMemoryRecord id (m_TenantID r) (m_UserID r) (m_ProjectID r) (m_SessionID r) (m_Kind r)
    (m_Source r) (m_Category r) content (m_Tags r) (m_Importance r) pinned disabled deleted
    version (m_HitCount r) (m_LastAccessAt r).

Definition ref_Get (hidden : bool) (t id : string) : GoM world MemoryRecord :=
  fun w => (w, match w_records w !! (t, id) with
               | Some r => if hidden || visible r then Ok r else Fail (ErrSentinel PgNotFound)
               | None => Fail (ErrSentinel PgNotFound)
               end).

Definition ref_Write (i : WriteRecordInput) : GoM world RecordResult :=
  fun w =>
    let id := ("m" +:+ pretty (w_next w))%string in
    let r := with_flags (wi_Record i) id (m_Pinned (wi_Record i)) false false
               (m_Content (wi_Record i)) 1 in
    match w_records w !! (wi_TenantID i, id) with
    | Some _ => (w, Fail (ErrText "duplicate key"))
    | None => (mkWorld (<[(wi_TenantID i, id) := r]> (w_records w)) (w_idem w) (w_log w)
                 (Datatypes.S (w_next w)), Ok (mkRecordResult id 1 r))
    end.

Definition ref_update (t id : string) (version : Z) (f : MemoryRecord -> MemoryRecord)
    : GoM world RecordResult :=
  fun w => match w_records w !! (t, id) with
           | Some r =>
               if m_Deleted r then (w, Fail (ErrSentinel PgNotFound))
               else if negb (m_Version r =? version) then (w, Fail (ErrWrap "update" (ErrSentinel VersionConflict)))
               else let r' := f r in (put_record t id r' w, Ok (mkRecordResult id (m_Version r') r'))
           | None => (w, Fail (ErrSentinel PgNotFound))
           end.

Definition ref_backend : RecordStore world := {|
  GetRecord := ref_Get false;
  GetRecordIncludingHidden := ref_Get true;
  WriteRecord := ref_Write;
  PatchRecord := fun i => ref_update (pi_TenantID i) (pi_MemoryID i) (pi_ExpectedVersion i)
    (fun r => with_flags r (m_MemoryID r) (m_Pinned r) (m_Disabled r) (m_Deleted r)
                (if bool_decide (pi_Content i = ""%string) then m_Content r else pi_Content i)
                (m_Version r + 1));
  DeleteRecord := fun i => ref_update (dli_TenantID i) (dli_MemoryID i) (dli_ExpectedVersion i)
    (fun r => with_flags r (m_MemoryID r) (m_Pinned r) (m_Disabled r) true (m_Content r) (m_Version r + 1));
  PinRecord := fun i => ref_update (pni_TenantID i) (pni_MemoryID i) (pni_ExpectedVersion i)
    (fun r => with_flags r (m_MemoryID r) (pni_Pinned i) (m_Disabled r) (m_Deleted r) (m_Content r)
                (m_Version r + 1));
  DisableRecord := fun i => ref_update (di_TenantID i) (di_MemoryID i) (di_ExpectedVersion i)
    (fun r => with_flags r (m_MemoryID r) (m_Pinned r) (di_Disabled i) (m_Deleted r) (m_Content r)
                (m_Version r + 1))
|}.

#[export] Instance ref_backend_reads : RecordStoreReads ref_backend.
Proof. by split. Qed.

Definition ref_idempotency : IdempotencyStore world := {|
  LoadIdempotency := fun t k w =>
    (w, match w_idem w !! (t, k) with Some e => Ok e | None => Fail (ErrSentinel PgNotFound) end);
  SaveIdempotency := fun i w =>
    (mkWorld (w_records w) (<[(ie_TenantID i, ie_IdempotencyKey i) := i]> (w_idem w)) (w_log w) (w_next w),
     Ok tt)
|}.

(** Proposes everything it holds, whatever the scope. *)
Definition ref_source : RecallCandidateSource world :=
  fun _ _ _ w => (w, Ok (map (fun kv => mkRecallCandidate kv.1.2 (m_Importance kv.2))
                           (map_to_list (w_records w)))).

Definition ref_recaller : HybridRecaller world :=
  NewHybridRecaller (Some (HydrateRecords (Some ref_backend))) [Some ref_source].

Definition ref_emit : TraceEmitter world := fun stage fields => log_event (EvEmit stage fields).
Definition ref_observe : RecallObserver world := fun o => log_event (EvRecall o).
Definition ref_observe_cache : RecallCacheObserver world := fun o => log_event (EvCache o).
Definition ref_closer : SessionCloser world :=
  fun scope mode w => (log_event (EvClosed scope mode) w, Ok tt).
Definition ref_marker : AccessMarker world := fun i w => (log_event (EvAccess i) w, Ok tt).

(** A service over these parts; the clock ticks once a second. *)
Definition ref_service (readonly : bool) : Service world memSessions memVersions := {|
  backend := ref_backend;
  accessMarker := Some ref_marker;
  recaller := Some (HybridRecaller_Recall map_to_list ref_recaller);
  sessionCloser := Some ref_closer;
  traceEmitter := ref_emit;
  readOnly := readonly;
  sessionStore := memorySessionStateStore;
  scopeVersionStore := memoryScopeVersionStore;
  sessionIdleTTL := resolveSessionIdleTTL 0;
  recallObserver := ref_observe;
  recallCacheObserver := ref_observe_cache;
  idempotencyStore := Some ref_idempotency
|}.

Definition ref_clock (n : nat) : time := 1000000000000 + Z.of_nat n * second.

Definition ref_start : St world memSessions memVersions := mkSt empty_world (∅, ∅) ∅ ∅ [] 0.

Definition ref_write_digest (scope : Scope) (r : WriteRecordPayload) : string :=
  (sessionScopeKey scope +:+ wp_Content r)%string.
Definition ref_patch_digest (scope : Scope) (id : string) (v : Z) (p : PatchMemoryFields) : string :=
  (sessionScopeKey scope +:+ id +:+ fmt_d v +:+ default "" (pf_Content p))%string.
Definition ref_kind (k : string) : result goerror string :=
  if bool_decide (k = ""%string) then Ok "semantic"%string
  else if bool_decide (k = "working"%string) || bool_decide (k = "episodic"%string)
          || bool_decide (k = "semantic"%string) then Ok k
  else Fail (ErrText "invalid kind").

(** Scopes and requests the witnesses use. *)
Definition alice : Scope := mkScope "acme" "alice" "p" "s1".
Definition bob : Scope := mkScope "globex" "bob" "p" "s9".
Definition no_claim : ScopePayload := mkScopePayload "" "" "" "".

Definition write_req (content : string) : WriteMemoryRequest :=
  mkWriteMemoryRequest "k1" no_claim
    (mkWriteRecordPayload "" "user_saved" "" content [] f_half false).
Definition recall_req (level : string) (budget : Z) : RecallUnifiedRequest :=
  mkRecallUnifiedRequest no_claim "tea" 8 0 budget level false false.
Definition pin_req (v : Z) : PinMemoryRequest := mkPinMemoryRequest no_claim v.
Definition patch_req (key content : string) (v : Z) : PatchMemoryRequest :=
  mkPatchMemoryRequest key no_claim v (mkPatchMemoryFields (Some content) None None None).
Definition close_req : SessionCloseRequest := mkSessionCloseRequest no_claim "".
Definition heartbeat_req : SessionHeartbeatRequest := mkSessionHeartbeatRequest no_claim.

Abbreviation ref_Write_call svc a r := (WriteMemory ref_clock ref_write_digest ref_kind svc a r).

Example ref_write_then_recall :
  let st := (ref_Write_call (ref_service false) alice (write_req "likes green tea") ref_start).1 in
  map hit_Content (match (RecallUnified ref_clock (ref_service false) alice (recall_req "" 0) st).2 with
                   | Ok r => ru_Hits r | Fail _ => [] end) = ["likes green tea"%string].
Proof. vm_compute. reflexivity. Qed.

Example ref_tenants_apart :
  let st := (ref_Write_call (ref_service false) alice (write_req "likes green tea") ref_start).1 in
  (RecallUnified ref_clock (ref_service false) bob (recall_req "" 0) st).2
  = Ok (mkRecallUnifiedResponse [] None).
Proof. vm_compute. reflexivity. Qed.
Close Scope Z_scope.
