(* ===== verification/ServiceRuns.v ===== *)
(** * Runs of the service taken apart

    What the pieces every handler shares do to the state, and the inversion of
    a successful recall into its cached and its origin path. *)
From S2P Require Import Prelude GoStrings GoFloat HttpApi Authz ScopeKeys Contract RecallCache Sessions ScopeVersions RecallSelection HybridRecall Service ServiceFootprint.
Open Scope Z_scope.

Definition any {A} : relation A := fun _ _ => True.
#[export] Instance any_preorder {A} : PreOrder (@any A).
Proof. by split. Qed.

Lemma keeps_any {S A} (m : GoM S A) : keeps any m.
Proof. by intros s. Qed.
#[export] Hint Resolve keeps_any : go_keeps.

Lemma keeps_run {S A} (R : relation S) (m : GoM S A) s s' r : keeps R m -> m s = (s', r) -> R s s'.
Proof. intros H E. specialize (H s). by rewrite E in H. Qed.

Lemma keeps_reads {E} (m : GoM E MemoryRecord) : (forall e, (m e).1 = e) -> keeps eq m.
Proof. intros H e. by rewrite H. Qed.

Lemma reject_if_ok {S} b err (st st' : S) u : reject_if b err st = (st', Ok u) -> st' = st /\ b = false.
Proof. destruct b; cbn; by intros [= <- <-]. Qed.

Lemma reject_if_true {S} b err (st : S) : b = true -> reject_if b err st = (st, Fail err).
Proof. by intros ->. Qed.

Lemma reject_if_false {S} b err (st : S) : b = false -> reject_if b err st = (st, Ok tt).
Proof. by intros ->. Qed.

(** Step over a guard that is known to pass or to reject. *)
Lemma bind_reject_false {S A} b err (f : unit -> GoM S A) st :
  b = false -> (reject_if b err ≫= f) st = f tt st.
Proof. by intros ->. Qed.
Lemma bind_reject_true {S A} b err (f : unit -> GoM S A) st :
  b = true -> (reject_if b err ≫= f) st = (st, Fail err).
Proof. by intros ->. Qed.

Section runs.
Context {E T V : Type}.
Abbreviation S := (St E T V).

Lemma translated_ok {A} (m : GoM S A) st st' a :
  translated m st = (st', Ok a) -> m st = (st', Ok a).
Proof.
  unfold translated. rewrite run_bind. unfold attempt.
  destruct (m st) as [s1 [b|e]]; cbn; [by intros [= <- <-]|done].
Qed.

Lemma run_translated {A} (m : GoM S A) st :
  translated m st = ((m st).1, match (m st).2 with
                               | Ok a => Ok a
                               | Fail err => Fail (translateBackendError (Some err))
                               end).
Proof. unfold translated. rewrite run_bind. unfold attempt. by destruct (m st) as [s1 [a|e]]. Qed.

Lemma run_on_ext {A} (m : GoM E A) (st : S) :
  on_ext m st = (mkSt (m (st_ext st)).1 (st_sessions st) (st_versions st) (st_cache st) (st_heap st)
                   (st_ticks st), (m (st_ext st)).2).
Proof. unfold on_ext, zoom. by destruct (m (st_ext st)). Qed.

Lemma run_on_sessions {A} (m : GoM (registry T) A) (st : S) :
  on_sessions m st = (mkSt (st_ext st) (m (st_sessions st)).1 (st_versions st) (st_cache st)
                        (st_heap st) (st_ticks st), (m (st_sessions st)).2).
Proof. unfold on_sessions, zoom. by destruct (m (st_sessions st)). Qed.

Lemma run_on_versions {A} (m : GoM V A) (st : S) :
  on_versions m st = (mkSt (st_ext st) (st_sessions st) (m (st_versions st)).1 (st_cache st)
                        (st_heap st) (st_ticks st), (m (st_versions st)).2).
Proof. unfold on_versions, zoom. by destruct (m (st_versions st)). Qed.

Context (clock : nat -> time) (s : Service E T V).

(** The session check reads the registry and the clock, nothing else. *)
Definition sessions_only (st st' : S) : Prop :=
  st_ext st = st_ext st' /\ st_versions st = st_versions st' /\
  st_cache st = st_cache st' /\ st_heap st = st_heap st'.

#[export] Instance sessions_only_preorder : PreOrder sessions_only.
Proof. split; [by intros ?|]. intros ??? (?&?&?&?) (?&?&?&?). repeat split; by etransitivity. Qed.

Lemma keeps_ensureSessionOpen scope : keeps sessions_only (ensureSessionOpen clock s scope).
Proof.
  intros st. unfold ensureSessionOpen. rewrite run_bind, run_translated, run_on_sessions.
  cbn. destruct (reg_Get (sessionStore s) scope (st_sessions st)) as [r [o|e]]; cbn; [|done].
  rewrite run_bind. cbn. by destruct (validateSessionState (sessionIdleTTL s) o (clock (st_ticks st))).
Qed.

(** What the check answers. *)
Lemma ensureSessionOpen_answer scope st :
  (ensureSessionOpen clock s scope st).2 =
  match (reg_Get (sessionStore s) scope (st_sessions st)).2 with
  | Fail e => Fail (translateBackendError (Some e))
  | Ok o => match validateSessionState (sessionIdleTTL s) o (clock (st_ticks st)) with
            | Some e => Fail e
            | None => Ok tt
            end
  end.
Proof.
  unfold ensureSessionOpen. rewrite run_bind, run_translated, run_on_sessions. cbn.
  destruct (reg_Get (sessionStore s) scope (st_sessions st)) as [r [o|e]]; cbn; [|done].
  rewrite run_bind. cbn. by destruct (validateSessionState (sessionIdleTTL s) o (clock (st_ticks st))).
Qed.

Lemma ensureSessionOpen_sessions scope st :
  st_sessions (ensureSessionOpen clock s scope st).1
  = (reg_Get (sessionStore s) scope (st_sessions st)).1.
Proof.
  unfold ensureSessionOpen. rewrite run_bind, run_translated, run_on_sessions. cbn.
  destruct (reg_Get (sessionStore s) scope (st_sessions st)) as [r [o|e]]; cbn; [|done].
  rewrite run_bind. cbn. by destruct (validateSessionState (sessionIdleTTL s) o (clock (st_ticks st))).
Qed.

(** ** A successful recall *)
Definition effective (req : RecallUnifiedRequest) : RecallUnifiedRequest :=
  if rr_TopK req =? 0 then with_TopK req 8 else req.

Lemma effective_key scope req :
  buildRecallCacheKey scope (effective req) = buildRecallCacheKey scope req.
Proof.
  unfold effective. destruct (Z.eqb_spec (rr_TopK req) 0) as [E0|]; [|done].
  unfold buildRecallCacheKey, with_TopK; cbn. by rewrite E0.
Qed.

Definition recall_level (req : RecallUnifiedRequest) : string :=
  consistencyLevelOrDefault (rr_ConsistencyLevel req).

Lemma RecallUnified_unfold auth req st st' r :
  let scope := mergeScope auth (rr_Scope req) in
  let key := buildRecallCacheKey scope req in
  RecallUnified clock s auth req st = (st', Ok r) ->
  exists recall st0 st1 v st2,
    recaller s = Some recall /\
    ensureSessionOpen clock s scope st = (st0, Ok tt) /\
    on_versions (CurrentScopeVersion (scopeVersionStore s) scope) st0 = (st1, Ok v) /\
    ((recall_cached clock s scope (effective req) (recall_level req) key v st1 = (st', Ok (Some r)))
     \/
     (recall_cached clock s scope (effective req) (recall_level req) key v st1 = (st2, Ok None) /\
      recall_origin clock s recall scope (effective req) (recall_level req) key v st2 = (st', Ok r))).
Proof.
  cbv zeta. unfold RecallUnified. fold (effective req). cbv zeta.
  intros H. rewrite <-(effective_key (mergeScope auth (rr_Scope req)) req).
  assert (Es : rr_Scope (effective req) = rr_Scope req) by (unfold effective; by destruct (_ =? _)).
  assert (El : recall_level req = consistencyLevelOrDefault (rr_ConsistencyLevel (effective req)))
    by (unfold recall_level, effective; by destruct (_ =? _)).
  rewrite Es, <-El in H.
  apply bind_ok_inv in H as (? & ? & [-> _]%reject_if_ok & H).
  apply bind_ok_inv in H as (? & ? & [-> _]%reject_if_ok & H).
  apply bind_ok_inv in H as (? & ? & [-> _]%reject_if_ok & H).
  destruct (recaller s) as [recall|]; [|done].
  apply bind_ok_inv in H as (st0 & [] & H0 & H).
  apply bind_ok_inv in H as (st1 & v & H1%translated_ok & H).
  apply bind_ok_inv in H as (st2 & [resp|] & H2 & H); exists recall, st0, st1, v, st2;
    (split_and!; [done..|]); [|by right].
  injection H as <- <-. by left.
Qed.

(** The cached path answers with the hits of the entry under the key. *)
Lemma recall_cached_entry scope req level key v st st' resp :
  recall_cached clock s scope req level key v st = (st', Ok (Some resp)) ->
  exists e, st_cache st !! key = Some e /\ ru_Hits resp = ru_Hits (ce_response e).
Proof.
  unfold recall_cached. case_bool_decide; [done|]. intros H0.
  apply bind_ok_inv in H0 as (st1 & t & Hn & H0). injection Hn as <- <-.
  apply bind_ok_inv in H0 as (st2 & found & Hl & H0). cbn in Hl. injection Hl as <- <-.
  destruct (Lookup _ _ _ _ _ _) as [[cached stale]|] eqn:El; [|done].
  apply Lookup_entry in El as (e & He & <-). exists e. split; [done|].
  apply bind_ok_inv in H0 as (st3 & valid & _ & H0).
  destruct valid; cbn in H0; [|done].
  apply bind_ok_inv in H0 as (st4 & trace & _ & H0).
  apply bind_ok_inv in H0 as (st5 & ? & _ & H0).
  apply bind_ok_inv in H0 as (st6 & ? & _ & H0).
  by injection H0 as _ <-.
Qed.

(** The loop over the candidates always returns: the greedy selection and its
    total. *)
Lemma select_candidates_greedy budget cands total hits (st : S) :
  exists st', select_candidates s budget cands total hits st
    = (st', Ok (foldl (fun t c => wrap64 (t + rc_tokenEstimate c)) total (greedy budget total cands),
                (hits ++ map make_hit (greedy budget total cands))%list)).
Proof.
  revert total hits st. induction cands as [|c cands IH]; intros total hits st; cbn.
  { exists st. by rewrite app_nil_r. }
  unfold over_budget. destruct (_ && _).
  - rewrite run_bind. unfold Emit, effect. rewrite run_on_ext. cbn. apply IH.
  - rewrite run_bind. unfold Emit, effect. rewrite run_on_ext. cbn.
    destruct (IH (wrap64 (total + rc_tokenEstimate c)) (hits ++ [make_hit c])%list
      (mkSt (traceEmitter s "selected" [("memory_id"%string, VStr (m_MemoryID (rc_record c)));
                ("token_cost_estimate"%string, VInt (rc_tokenEstimate c))] (st_ext st))
         (st_sessions st) (st_versions st) (st_cache st) (st_heap st) (st_ticks st))) as [st' Hst'].
    exists st'. rewrite Hst'. by rewrite <-app_assoc.
Qed.

Definition selection (req : RecallUnifiedRequest) (records : list MemoryRecord) : list recallCandidate :=
  greedy (rr_MemoryTokenBudget req) 0 (buildRecallCandidates records).

(** The origin path answers with the selection from the records recalled now. *)
Definition recalled_now (recall : RecallBackend E) scope req (e : E) (resp : RecallUnifiedResponse) : Prop :=
  match (recall scope (rr_Query req) (rr_TopK req) e).2 with
  | Ok records => ru_Hits resp = map make_hit (selection req records)
  | Fail err => errors_Is err PgNotFound = true /\ ru_Hits resp = []
  end.

Lemma recall_records_hits scope req level key v records st st' resp :
  recall_records clock s scope req level key v records st = (st', Ok resp) ->
  ru_Hits resp = map make_hit (selection req records).
Proof.
  unfold recall_records. intros H.
  apply bind_ok_inv in H as (st2 & ? & _ & H).
  apply bind_ok_inv in H as (st3 & [total hits] & Hsel & H). cbn in H.
  destruct (select_candidates_greedy (rr_MemoryTokenBudget req) (buildRecallCandidates records) 0 [] st2)
    as [st3' E3]. rewrite E3 in Hsel. injection Hsel as _ _ <-.
  apply bind_ok_inv in H as (st4 & ? & _ & H).
  apply bind_ok_inv in H as (st5 & ? & _ & H).
  apply bind_ok_inv in H as (st6 & ? & _ & H).
  apply bind_ok_inv in H as (st7 & trace & _ & H).
  apply bind_ok_inv in H as (st8 & ? & _ & H). by injection H as _ <-.
Qed.

Lemma recall_origin_ok recall scope req level key v st st' resp :
  recall_origin clock s recall scope req level key v st = (st', Ok resp) ->
  recalled_now recall scope req (st_ext st) resp.
Proof.
  unfold recall_origin, recalled_now. intros H.
  apply bind_ok_inv in H as (st1 & r & Hr & H).
  unfold attempt in Hr. rewrite run_on_ext in Hr. injection Hr as <- <-.
  destruct (recall scope (rr_Query req) (rr_TopK req) (st_ext st)) as [e' [records|err]]; cbn [snd] in *.
  - by eapply recall_records_hits.
  - destruct (errors_Is err PgNotFound); [|done]. by injection H as _ <-.
Qed.

Lemma selection_elem req records c :
  c ∈ selection req records -> exists r, r ∈ records /\ c = make_candidate r.
Proof. intros H%greedy_elem. by apply buildRecallCandidates_elem. Qed.

Lemma recall_origin_hits (from : Scope -> MemoryRecord -> Prop) recall scope req level key v st st' resp :
  (forall q k e e' records, recall scope q k e = (e', Ok records) -> Forall (from scope) records) ->
  recall_origin clock s recall scope req level key v st = (st', Ok resp) ->
  Forall (origin_hit from scope) (ru_Hits resp).
Proof.
  intros Hfrom H%recall_origin_ok. unfold recalled_now in H.
  destruct (recall scope (rr_Query req) (rr_TopK req) (st_ext st)) as [e' [records|err]] eqn:Er;
    cbn in H; [|destruct H as [_ ->]; constructor].
  apply Hfrom in Er. rewrite Forall_forall in Er. rewrite H, Forall_map, Forall_forall.
  intros c (r & Hr & ->)%selection_elem. exists r. auto.
Qed.

(** ** The pieces of a mutation *)
Lemma run_invalidate scope (st : S) :
  invalidateScopeState s scope st =
  (mkSt (recallCacheObserver s {| co_Action := "invalidate"; co_Scope := scope |} (st_ext st))
     (st_sessions st) (BumpScopeVersion (scopeVersionStore s) scope (st_versions st)).1
     (InvalidateScope scope (st_cache st)) (st_heap st) (st_ticks st), Ok tt).
Proof.
  unfold invalidateScopeState. rewrite !run_bind. unfold on_cache, modify, effect.
  rewrite run_bind, run_on_ext. cbn. rewrite run_bind. unfold attempt. by rewrite run_on_versions.
Qed.

(** *** A successful close *)
Definition close_mode (req : SessionCloseRequest) : string :=
  if bool_decide (sc_Mode req = ""%string) then "expire_working"%string else sc_Mode req.

Lemma close_open_ok scope mode st st' resp :
  close_open clock s scope mode st = (st', Ok resp) ->
  exists e1 state,
    match sessionCloser s with
    | Some closer => closer scope mode (st_ext st) = (e1, Ok tt)
    | None => e1 = st_ext st
    end /\
    (reg_Close (sessionStore s) scope mode (clock (st_ticks st)) (st_sessions st))
      = (st_sessions st', Ok state) /\
    st_ext st' = traceEmitter s "promote_decided" (session_fields scope mode)
                   (recallCacheObserver s {| co_Action := "invalidate"; co_Scope := scope |} e1) /\
    st_cache st' = InvalidateScope scope (st_cache st) /\
    st_versions st' = (BumpScopeVersion (scopeVersionStore s) scope (st_versions st)).1 /\
    resp = {| sr_SessionID := ss_SessionID state; sr_Status := ss_Status state |}.
Proof.
  unfold close_open. intros H.
  apply bind_ok_inv in H as (st1 & [] & Hcl & H).
  apply bind_ok_inv in H as (st2 & t & Hn & H). injection Hn as <- <-.
  apply bind_ok_inv in H as (st3 & state & Hs%translated_ok & H).
  apply bind_ok_inv in H as (st4 & ? & Hi & H). rewrite run_invalidate in Hi. injection Hi as <- _.
  apply bind_ok_inv in H as (st5 & ? & He & H).
  unfold Emit, effect in He. rewrite run_on_ext in He. injection He as <- _.
  injection H as <- <-. rewrite run_on_sessions in Hs. injection Hs as <- Hst. cbn in *.
  exists (st_ext st1), state.
  assert (Hst1 : st1 = mkSt (st_ext st1) (st_sessions st) (st_versions st) (st_cache st) (st_heap st)
                         (st_ticks st) /\
    match sessionCloser s with
    | Some closer => closer scope mode (st_ext st) = (st_ext st1, Ok tt)
    | None => st_ext st1 = st_ext st
    end).
  { destruct (sessionCloser s) as [closer|].
    - apply translated_ok in Hcl. rewrite run_on_ext in Hcl. injection Hcl as <- Hr. cbn.
      split; [done|]. rewrite <-Hr. by destruct (closer scope mode (st_ext st)).
    - injection Hcl as <-. by destruct st. }
  destruct Hst1 as [E1 Hcloser]. rewrite E1 in Hst |- *. cbn in *. split_and!; try done.
  by apply run_eq.
Qed.

Lemma CloseSession_ok auth sid req st st' resp :
  let scope := session_scope auth (sc_Scope req) sid in
  CloseSession clock s auth sid req st = (st', Ok resp) ->
  exists r0 o,
    reg_Get (sessionStore s) scope (st_sessions st) = (r0, Ok o) /\
    let st0 := mkSt (st_ext st) r0 (st_versions st) (st_cache st) (st_heap st) (st_ticks st) in
    ((exists ex, o = Some ex /\ is_closed ex = true /\ st' = st0 /\
       resp = {| sr_SessionID := ss_SessionID ex; sr_Status := ss_Status ex |}) \/
     ((forall ex, o = Some ex -> is_closed ex = false) /\
      close_open clock s scope (close_mode req) st0 = (st', Ok resp))).
Proof.
  cbv zeta. unfold CloseSession. intros H.
  apply bind_ok_inv in H as (? & ? & [-> _]%reject_if_ok & H).
  apply bind_ok_inv in H as (? & ? & [-> _]%reject_if_ok & H).
  apply bind_ok_inv in H as (? & ? & [-> _]%reject_if_ok & H).
  apply bind_ok_inv in H as (st1 & o & Hg%translated_ok & H).
  rewrite run_on_sessions in Hg. injection Hg as <- Hg.
  exists (reg_Get (sessionStore s) (session_scope auth (sc_Scope req) sid) (st_sessions st)).1, o.
  split; [by apply run_eq|].
  destruct o as [ex|]; [destruct (is_closed ex) eqn:Ec|].
  - left. exists ex. injection H as <- <-. done.
  - right. split; [by intros ? [= <-]|done].
  - right. split; [by intros ? [=]|done].
Qed.
End runs.
Close Scope Z_scope.
