(* ===== verification/Isolation.v ===== *)
(** * Isolation of tenants

    Writes reach the backend under the tenant of the headers only; recalls
    answer with records of the caller's scope only, from the origin and from
    the cache.  The recall key separates scopes without ["|"]; an example shows
    what happens with one. *)
From S2P Require Import Prelude GoStrings GoFloat HttpApi Authz ScopeKeys Contract RecallCache Sessions ScopeVersions RecallSelection HybridRecall Service ServiceFootprint ServiceRuns ServiceCalls RefWorld.
Open Scope Z_scope.

(** ** Confinement of the durable world *)
Definition of_tenant (tenant : string) (scope : Scope) : Prop := TenantID scope = tenant.

(** Every call of the service on the world keeps [Re] when it is made for
    [tenant]. *)
Abbreviation TenantConfined s tenant Re :=
  (Footprint s (of_tenant tenant) (fun _ _ => True) Re any any any).

(** C1: Whatever the bodies claim, any sequence of calls whose headers carry
    one tenant changes the durable world only as the backend changes it for
    that tenant: a relation kept by every backend, store, closer and observer
    call made for the tenant is kept by the whole run. *)
Theorem service_confined_to_tenant {E T V} clock write_digest patch_digest kind
    (s : Service E T V) (tenant : string) (Re : relation E) {He : PreOrder Re}
    {F : TenantConfined s tenant Re} (cs : list call) (st : St E T V) :
  Forall (fun c => TenantID (call_auth c) = tenant) cs ->
  Re (st_ext st) (st_ext (run_calls clock write_digest patch_digest kind s cs st)).
Proof.
  intros Hcs. apply (run_calls_keeps _ _ _ _ s (of_tenant tenant) (fun _ _ => True) Re any any any).
  eapply Forall_impl; [exact Hcs|]. intros c Hc. unfold of_tenant. by rewrite call_scope_tenant.
Qed.

(** The relation of the reference world: the other tenants' records and
    idempotency entries stay. *)
Definition others_kept (tenant : string) (w w' : world) : Prop :=
  forall t x, t <> tenant -> w_records w' !! (t, x) = w_records w !! (t, x) /\
    w_idem w' !! (t, x) = w_idem w !! (t, x).

#[export] Instance others_kept_preorder tenant : PreOrder (others_kept tenant).
Proof.
  split; [by intros w t x _|]. intros w1 w2 w3 H12 H23 t x Hne.
  specialize (H12 t x Hne). specialize (H23 t x Hne).
  destruct H12, H23. split; congruence.
Qed.

Lemma others_kept_put tenant id r w : others_kept tenant w (put_record tenant id r w).
Proof. intros t x Hne. cbn. split; [|done]. apply lookup_insert_ne. congruence. Qed.

Lemma others_kept_update tenant id v f : keeps (others_kept tenant) (ref_update tenant id v f).
Proof.
  intros w. unfold ref_update. destruct (w_records w !! (tenant, id)) as [r|]; [|done].
  destruct (m_Deleted r); [done|]. destruct (negb _); [done|]. apply others_kept_put.
Qed.

Lemma keeps_same {S A} (R : relation S) {HR : PreOrder R} (m : GoM S A) : keeps eq m -> keeps R m.
Proof. intros H s. rewrite <-H. reflexivity. Qed.

Lemma ref_hydrate_same scope ids acc : keeps eq (hydrate_loop ref_backend scope ids acc).
Proof.
  revert acc. induction ids as [|id ids IH]; intros acc; cbn [hydrate_loop]; [solve_keeps|].
  apply keeps_bind; [apply _|by intros w|]. intros [r|e]; [destruct (negb _)|destruct (err_is_exactly _ _)];
    solve_keeps.
Qed.

Lemma ref_recall_same iter scope q k : keeps eq (HybridRecaller_Recall iter ref_recaller scope q k).
Proof.
  assert (Hh : forall scope ids, keeps eq (HydrateRecords (Some ref_backend) scope ids)).
  { pose proof ref_hydrate_same as Hh. intros sc ids. unfold HydrateRecords. solve_keeps. }
  unfold HybridRecaller_Recall. cbn [ref_recaller
    NewHybridRecaller hr_hydrator hr_sources collect omap list_omap id].
  assert (Hs : forall scope q k, keeps eq (ref_source scope q k)) by by intros ?? ? w.
  solve_keeps.
Qed.

Lemma ref_service_confined ro tenant : TenantConfined (ref_service ro) tenant (others_kept tenant).
Proof.
  split; unfold of_tenant; try (intros; apply keeps_any); try done; cbn.
  - intros scope i <- Hi w. unfold ref_Write. destruct (w_records w !! _); [done|].
    intros t x Hne. cbn. split; [|done]. apply lookup_insert_ne. congruence.
  - intros scope i <- ->. apply others_kept_update.
  - intros scope i <- ->. apply others_kept_update.
  - intros scope i <- ->. apply others_kept_update.
  - intros scope i <- ->. apply others_kept_update.
  - by intros scope m i _ [= <-] _ w t x.
  - intros scope recall q k _ [= <-]. apply keeps_same; [apply _|apply ref_recall_same].
  - by intros scope c mode _ [= <-] w t x.
  - intros scope store key _ [= <-]. apply keeps_same; [apply _|by intros w].
  - intros scope store i <- [= <-] Hi w t x Hne. cbn. split; [done|].
    apply lookup_insert_ne. congruence.
Qed.

Definition alice_calls : list call :=
  [CallWrite alice (write_req "likes green tea");
   CallPin (mkScope "acme" "mallory" "" "") "m1"
     (mkPinMemoryRequest (mkScopePayload "globex" "bob" "" "") 1);
   CallRecall alice (recall_req "" 0); CallClose alice "" close_req].

Definition bob_world : world := put_record "globex" "m1" emptyRecord empty_world.

Lemma service_confined_to_tenant_witness :
  others_kept "acme" bob_world
    (st_ext (run_calls ref_clock ref_write_digest ref_patch_digest ref_kind (ref_service false)
               alice_calls (mkSt bob_world (∅, ∅) ∅ ∅ [] 0))).
Proof.
  refine (service_confined_to_tenant (F := ref_service_confined false "acme")
            ref_clock ref_write_digest ref_patch_digest ref_kind _ "acme" _ alice_calls
            (mkSt bob_world (∅, ∅) ∅ ∅ [] 0) _).
  repeat constructor.
Defined.

(** ** Recall answers with records of the scope

    [Held e t id r]: in the world [e], [r] is what the tenant [t] holds, or
    held, under [id].  A ledger has every record the store answers with, and no
    call takes a line out of it. *)
Definition held_grows {E} (Held : E -> string -> string -> MemoryRecord -> Prop) : relation E :=
  fun e e' => forall t id r, Held e t id r -> Held e' t id r.

#[export] Instance held_grows_preorder {E} (Held : E -> string -> string -> MemoryRecord -> Prop) :
  PreOrder (held_grows Held).
Proof. split; unfold held_grows; [by intros e|eauto]. Qed.

Class Ledger {E T V} (s : Service E T V) (store : RecordStore E)
    (Held : E -> string -> string -> MemoryRecord -> Prop) : Prop := {
  ledger_reads :: RecordStoreReads store;
  ledger_read t id e r : (GetRecord store t id e).2 = Ok r -> Held e t id r;
  ledger_kept :: Footprint s (fun scope => clean_scope scope = true) (fun _ _ => True)
                   (held_grows Held) any any any
}.

Section ledger.
Context {E T V : Type} (clock : nat -> time)
  (write_digest : Scope -> WriteRecordPayload -> string)
  (patch_digest : Scope -> string -> Z -> PatchMemoryFields -> string)
  (NormalizeRecordKind : string -> result goerror string)
  (s : Service E T V) (store : RecordStore E) (Held : E -> string -> string -> MemoryRecord -> Prop)
  {L : Ledger s store Held}.
Abbreviation S := (St E T V).

(** The wiring of [cmd/memory-gateway]: a hybrid recaller over the Postgres
    hydrator, with any candidate sources. *)
Definition hybrid_recalls : Prop := exists iter sources,
  recaller s = Some (HybridRecaller_Recall iter (NewHybridRecaller (Some (HydrateRecords (Some store))) sources)).
Hypothesis Hrec : hybrid_recalls.

(** A hit is made of a record that the scope's tenant holds and the scope owns. *)
Definition hit_held (e : E) (scope : Scope) (hit : RecallHitResponse) : Prop :=
  exists id r, Held e (TenantID scope) id r /\ owned_by scope r /\ hit = make_hit (make_candidate r).

Definition cache_held (st : S) : Prop :=
  forall scope req en, clean_scope scope = true ->
    st_cache st !! buildRecallCacheKey scope req = Some en ->
    Forall (hit_held (st_ext st) scope) (ru_Hits (ce_response en)).

Lemma hits_grow e e' scope hits :
  held_grows Held e e' -> Forall (hit_held e scope) hits -> Forall (hit_held e' scope) hits.
Proof using Type.
  intros Hg H. eapply Forall_impl; [exact H|]. intros h (id & r & Hh & Ho & ->). exists id, r. auto.
Qed.

(** *** What a call may add to the cache: answers made of [from] *)
Definition fills (from : Scope -> MemoryRecord -> Prop) : relation recallCache := fun c c' =>
  forall k en, c' !! k = Some en -> c !! k = Some en \/
    exists scope req, clean_scope scope = true /\ k = buildRecallCacheKey scope req /\
      Forall (origin_hit from scope) (ru_Hits (ce_response en)).

#[export] Instance fills_preorder from : PreOrder (fills from).
Proof using Type.
  split; [by intros c k en; left|]. intros c1 c2 c3 H12 H23 k en He.
  destruct (H23 k en He) as [He2|]; [by apply H12|by right].
Qed.

Lemma ledger_footprint from :
  Footprint s (fun scope => clean_scope scope = true) from (held_grows Held) any any (fills from).
Proof using L.
  destruct L as [_ _ []]. split; auto.
  - intros scope c _ k en. rewrite lookup_InvalidateScope. destruct (hasScopePrefix _ _); [done|by left].
  - intros scope req resp t v c Hcl Hf k en. unfold cache_Set.
    destruct (decide (buildRecallCacheKey scope req = k)) as [<-|Hne].
    + rewrite lookup_insert_eq. intros [= <-]. right. exists scope, req. auto.
    + rewrite lookup_insert_ne by done. by left.
Qed.
Abbreviation grows from := (lift (held_grows Held) any any (fills from)).

Lemma cache_held_grows from st st' :
  (forall scope r, from scope r ->
     owned_by scope r /\ exists id, Held (st_ext st') (TenantID scope) id r) ->
  grows from st st' -> cache_held st -> cache_held st'.
Proof using Type.
  intros Hfrom (Hg & _ & _ & Hc) Hj sc req en Hcl He.
  destruct (Hc _ _ He) as [He'|(sc' & req' & Hcl' & Ek & Hf)]; [eapply hits_grow; eauto|].
  destruct (recall_key_inj _ _ _ _ Hcl Hcl' Ek) as [<- _].
  eapply Forall_impl; [exact Hf|]. intros h (r & Hr & ->).
  destruct (Hfrom _ _ Hr) as [Ho [id Hh]]. exists id, r. auto.
Qed.

(** *** A recall *)
Definition from_none : Scope -> MemoryRecord -> Prop := fun _ _ => False.
Definition from_read (e : E) (scope : Scope) : Scope -> MemoryRecord -> Prop := fun sc r =>
  sc = scope /\ owned_by scope r /\ exists id, Held e (TenantID scope) id r.

Lemma from_none_held e scope r :
  from_none scope r -> owned_by scope r /\ exists id, Held e (TenantID scope) id r.
Proof using Type. done. Qed.

Lemma recall_origin_held recall scope req level v st st' res :
  recaller s = Some recall -> clean_scope scope = true -> cache_held st ->
  recall_origin clock s recall scope req level (buildRecallCacheKey scope req) v st = (st', res) ->
  cache_held st' /\ held_grows Held (st_ext st) (st_ext st') /\
  forall resp, res = Ok resp -> Forall (hit_held (st_ext st') scope) (ru_Hits resp).
Proof using L Hrec.
  intros Er Hcl Hj. unfold recall_origin. rewrite run_bind. unfold attempt. rewrite run_on_ext.
  set (e1 := (recall scope (rr_Query req) (rr_TopK req) (st_ext st)).1).
  assert (Hg1 : held_grows Held (st_ext st) e1)
    by by apply (fp_recall (Footprint := ledger_kept) scope recall).
  set (st1 := mkSt e1 _ _ _ _ _). assert (Hj1 : cache_held st1).
  { apply (cache_held_grows from_none st); [apply from_none_held| |done]. by split_and!; try by left. }
  destruct (recall scope (rr_Query req) (rr_TopK req) (st_ext st)).2 as [records|err] eqn:E2; cbn.
  2: { destruct (errors_Is err PgNotFound); intros [= <- <-]; split_and!; try done. by intros ? [= <-]. }
  assert (Hfrom : Forall (from_read e1 scope scope) records).
  { destruct Hrec as (iter & sources & Hr). rewrite Hr in Er. injection Er as <-.
    pose proof (HybridRecaller_Recall_reads iter store sources scope (rr_Query req) (rr_TopK req)
      (st_ext st) e1 records) as Hreads. eapply Forall_impl; [apply Hreads, run_eq; done|].
    intros r (Ho & id & Hg). split_and!; [done|done|]. exists id. by apply ledger_read. }
  pose proof (fpk_recall_rest clock s _ _ _ any any _ (F := ledger_footprint (from_read e1 scope))
    scope req level v records Hcl Hfrom st1) as Hk.
  intros Hrun. rewrite Hrun in Hk. cbn [fst] in Hk. pose proof Hk as (Hg2 & _).
  assert (Hheld : forall sc r, from_read e1 scope sc r ->
    owned_by sc r /\ exists id, Held (st_ext st') (TenantID sc) id r).
  { intros sc r (-> & Ho & id & Hh). split; [done|]. exists id. by apply Hg2. }
  split_and!; [by apply (cache_held_grows (from_read e1 scope) st1)|by etransitivity|].
  intros resp ->. apply recall_records_hits in Hrun. rewrite Hrun, Forall_map, Forall_forall.
  intros c (r & Hr & ->)%selection_elem. rewrite Forall_forall in Hfrom.
  destruct (Hheld _ _ (Hfrom r Hr)) as (Ho & id & Hh). by exists id, r.
Qed.

(** Whatever it does, [m] keeps the cache made of held records, and what it
    answers with is made of them too. *)
Definition answers (scope : Scope) (m : GoM S RecallUnifiedResponse) : Prop := forall st,
  cache_held st ->
  cache_held (m st).1 /\ held_grows Held (st_ext st) (st_ext (m st).1) /\
  forall resp, (m st).2 = Ok resp -> Forall (hit_held (st_ext (m st).1) scope) (ru_Hits resp).

Lemma grows_none_held (st st' : S) : grows from_none st st' -> cache_held st -> cache_held st'.
Proof using Type. apply cache_held_grows, from_none_held. Qed.

Lemma answers_bind {A} scope (m : GoM S A) f :
  keeps (grows from_none) m -> (forall a, answers scope (f a)) -> answers scope (m ≫= f).
Proof using Type.
  intros Hm Hf st Hj. rewrite run_bind. specialize (Hm st).
  destruct (m st) as [st1 [a|err]]; cbn in *.
  - destruct (Hf a st1) as (H1 & H2 & H3); [by apply (grows_none_held st)|].
    split_and!; [done| |done]. etransitivity; [apply Hm|done].
  - split_and!; [by apply (grows_none_held st)|apply Hm|done].
Qed.

Lemma answers_throw scope err : answers scope (throw err).
Proof using Type. by intros st. Qed.

Lemma answers_cached scope req level v f :
  clean_scope scope = true ->
  answers scope (f None) ->
  (forall resp, f (Some resp) = mret resp) ->
  answers scope (recall_cached clock s scope req level (buildRecallCacheKey scope req) v ≫= f).
Proof using L.
  intros Hcl Hnone Hsome st Hj. rewrite run_bind.
  pose proof (fpk_recall_cached clock s _ _ _ any any _ (F := ledger_footprint from_none)
    scope req level (buildRecallCacheKey scope req) v Hcl st) as Hk.
  destruct (recall_cached _ _ _ _ _ _ _ st) as [st1 [[resp|]|err]] eqn:Ec; cbn in *.
  - rewrite Hsome. cbn. split_and!; [by apply (grows_none_held st)|apply Hk|].
    intros ? [= <-]. apply recall_cached_entry in Ec as (en & He & ->).
    eapply hits_grow; [apply Hk|by eapply Hj].
  - destruct (Hnone st1) as (H1 & H2 & H3); [by apply (grows_none_held st)|].
    split_and!; [done| |done]. etransitivity; [apply Hk|done].
  - split_and!; [by apply (grows_none_held st)|apply Hk|done].
Qed.

Lemma RecallUnified_answers auth req :
  clean_scope (mergeScope auth (rr_Scope req)) = true ->
  answers (mergeScope auth (rr_Scope req)) (RecallUnified clock s auth req).
Proof using L Hrec.
  intros Hcl. pose proof (ledger_footprint from_none) as F. unfold RecallUnified.
  apply answers_bind; [solve_keeps|intros _]. apply answers_bind; [solve_keeps|intros _].
  fold (effective req). cbv zeta.
  assert (Hs : rr_Scope (effective req) = rr_Scope req) by (unfold effective; by destruct (_ =? _)).
  rewrite Hs. apply answers_bind; [solve_keeps|intros _].
  destruct (recaller s) as [recall|] eqn:Er; [|apply answers_throw].
  apply answers_bind; [by apply (fpk_ensureSessionOpen clock s _ _ _ any any _ (F := F))|intros _].
  apply answers_bind; [solve_keeps|intros v]. apply answers_cached; [done| |done].
  intros st Hj. destruct (recall_origin _ _ _ _ _ _ _ _ st) as [st' res] eqn:Eo.
  by eapply recall_origin_held in Eo.
Qed.

Lemma run_calls_held cs (st : S) :
  Forall (fun c => clean_scope (call_scope c) = true) cs -> cache_held st ->
  cache_held (run_calls clock write_digest patch_digest NormalizeRecordKind s cs st).
Proof using L Hrec.
  intros Hcs. revert st. induction Hcs as [|c cs Hc _ IH]; intros st Hj; [done|]. apply IH.
  assert (Hother : keeps (grows from_none) (run_call clock write_digest patch_digest NormalizeRecordKind s c)
                   -> cache_held (run_call clock write_digest patch_digest NormalizeRecordKind s c st).1).
  { intros Hk. by apply (grows_none_held st). }
  pose proof (ledger_footprint from_none) as F.
  destruct c; try (apply Hother, (run_other_keeps clock write_digest patch_digest NormalizeRecordKind s
                     _ from_none _ any any _ (F := F)); done).
  cbn [run_call]. unfold reply_with. rewrite run_bind.
  pose proof (RecallUnified_answers auth req Hc st Hj) as (H1 & _).
  by destruct (RecallUnified clock s auth req st) as [st1 [r|err]].
Qed.
End ledger.

(** C2: After any sequence of calls (every scope free of the separator ["|"];
    any number of them failing), every hit a recall answers with, from the
    origin or from the cache, is made of a record that the backend holds, or
    held, under the caller's own tenant, and whose user is the caller's and
    whose project and session, where both sides name one, are those of the
    merged scope - whatever the candidate sources propose and whatever scope
    the body claims.  "Holds" is any ledger that contains what the store reads
    and that no call of the service shortens. *)
Theorem recall_hits_in_scope {E T V} clock write_digest patch_digest kind (s : Service E T V) store Held
    {L : Ledger s store Held} (start : St E T V) (cs : list call) auth req st' resp :
  hybrid_recalls s store -> st_cache start = newRecallCache ->
  Forall (fun c => clean_scope (call_scope c) = true) cs ->
  let scope := mergeScope auth (rr_Scope req) in
  clean_scope scope = true ->
  RecallUnified clock s auth req (run_calls clock write_digest patch_digest kind s cs start)
  = (st', Ok resp) ->
  Forall (fun hit => exists id r, Held (st_ext st') (TenantID auth) id r /\
            m_TenantID r = TenantID auth /\ m_UserID r = UserID auth /\
            (ProjectID scope = ""%string \/ m_ProjectID r = ""%string \/ m_ProjectID r = ProjectID scope) /\
            (SessionID scope = ""%string \/ m_SessionID r = ""%string \/ m_SessionID r = SessionID scope) /\
            hit = make_hit (make_candidate r)) (ru_Hits resp).
Proof.
  intros Hrec Hstart Hcs scope Hclean Hrun.
  assert (Hj : cache_held Held start).
  { intros sc r en _. rewrite Hstart. unfold newRecallCache. by rewrite lookup_empty. }
  apply (run_calls_held clock write_digest patch_digest kind s store Held Hrec cs) in Hj; [|done].
  destruct (RecallUnified_answers clock s store Held Hrec auth req Hclean _ Hj) as (_ & _ & Ha).
  rewrite Hrun in Ha. eapply Forall_impl; [exact (Ha resp eq_refl)|].
  intros hit (id & r & Hh & (Ht & Hu & Hp & Hs) & ->). unfold scope in *.
  autorewrite with gateway in Hh, Ht, Hu. exists id, r. done.
Qed.

(** The ledger of the reference world: who owns what is stored where. *)
Definition owner (r : MemoryRecord) : string * string * string * string :=
  (m_TenantID r, m_UserID r, m_ProjectID r, m_SessionID r).
Definition ref_held (w : world) (t id : string) (r : MemoryRecord) : Prop :=
  exists r', w_records w !! (t, id) = Some r' /\ owner r' = owner r.

Lemma ref_held_put w t id r0 r :
  w_records w !! (t, id) = Some r0 -> owner r0 = owner r -> held_grows ref_held w (put_record t id r w).
Proof.
  intros H0 Ho t' id' r1 (r' & Hr' & E). unfold ref_held. cbn.
  destruct (decide ((t, id) = (t', id'))) as [[= <- <-]|Hne].
  - rewrite lookup_insert_eq. exists r. split; [done|]. congruence.
  - rewrite lookup_insert_ne by done. by exists r'.
Qed.

Lemma ref_held_update t id v f :
  (forall r, owner (f r) = owner r) -> keeps (held_grows ref_held) (ref_update t id v f).
Proof.
  intros Hf w. unfold ref_update. destruct (w_records w !! (t, id)) as [r|] eqn:Er; [|done].
  destruct (m_Deleted r); [done|]. destruct (negb _); [done|]. by apply (ref_held_put _ _ _ r).
Qed.

Lemma ref_held_log ev w : held_grows ref_held w (log_event ev w).
Proof. by intros t id r. Qed.

#[export] Instance ref_ledger ro : Ledger (ref_service ro) ref_backend ref_held.
Proof.
  split; [apply _| |].
  - intros t id w r. cbn. unfold ref_Get. destruct (w_records w !! (t, id)) as [r'|] eqn:Er; cbn; [|done].
    destruct (visible r'); [|done]. intros [= <-]. by exists r'.
  - split; try (intros; apply keeps_any); try (by intros; apply ref_held_update);
      try (by intros; intros w t x r); cbn.
    + intros scope i _ _ w. unfold ref_Write.
      destruct (w_records w !! _) eqn:En; [by intros t id r|]. intros t id r (r' & Hr' & Ho). exists r'. cbn.
      split; [|done]. rewrite lookup_insert_ne; [done|congruence].
    + intros scope m i _ [= <-] _ w. by intros t id r.
    + intros scope recall q k _ [= <-]. apply keeps_same; [apply _|apply ref_recall_same].
    + intros scope c mode _ [= <-] w. by intros t id r.
    + intros scope store key _ [= <-] w. by intros t id r.
    + intros scope store i _ [= <-] _ w. by intros t id r.
    + done.
    + done.
Qed.

Definition two_tenants : list call :=
  [CallWrite alice (write_req "likes green tea"); CallWrite bob (write_req "plays go");
   CallRecall bob (recall_req "" 0)].

Lemma recall_hits_in_scope_witness :
  ok_and (RecallUnified ref_clock (ref_service false) alice (recall_req "" 0)
            (run_calls ref_clock ref_write_digest ref_patch_digest ref_kind (ref_service false)
               two_tenants ref_start))
    (fun st' resp => Forall (fun hit => exists id r, ref_held (st_ext st') "acme" id r /\
            m_UserID r = "alice"%string /\ hit = make_hit (make_candidate r)) (ru_Hits resp)).
Proof.
  apply ok_and_intro; [vm_compute; reflexivity|]. intros st' resp E.
  refine (Forall_impl _ _ _ (recall_hits_in_scope ref_clock ref_write_digest ref_patch_digest ref_kind
            (ref_service false) ref_backend ref_held (L := ref_ledger false) ref_start two_tenants alice
            (recall_req "" 0) st' resp _ _ _ _ E) _).
  - by exists map_to_list, [Some ref_source].
  - reflexivity.
  - repeat constructor.
  - reflexivity.
  - intros hit (id & r & Hh & _ & Hu & _ & _ & ->). exists id, r. exact (conj Hh (conj Hu eq_refl)).
Defined.

Example two_tenants_hits :
  ok_and (RecallUnified ref_clock (ref_service false) alice (recall_req "" 0)
            (run_calls ref_clock ref_write_digest ref_patch_digest ref_kind (ref_service false)
               two_tenants ref_start))
    (fun _ resp => map hit_Content (ru_Hits resp) = ["likes green tea"%string]).
Proof. vm_compute. reflexivity. Qed.
(** ** What a separator in a tenant identifier does

    The scopes below differ in the tenant, the keys of the two recalls do not:
    the second tenant is answered from the first one's cache entry. *)
Definition piped : Scope := mkScope "acme|alice" "p" "s1" "a".
Definition query_req (q : string) : RecallUnifiedRequest :=
  mkRecallUnifiedRequest no_claim q 8 0 0 "" false false.

Lemma recall_cache_leaks_across_pipes :
  TenantID piped <> TenantID alice /\
  ok_and (RecallUnified ref_clock (ref_service false) piped (query_req "b")
            (run_calls ref_clock ref_write_digest ref_patch_digest ref_kind (ref_service false)
               [CallWrite alice (write_req "likes green tea"); CallRecall alice (query_req "a|b")]
               ref_start))
    (fun _ resp => map hit_Content (ru_Hits resp) = ["likes green tea"%string]).
Proof. split; [done|]. vm_compute. reflexivity. Qed.
Close Scope Z_scope.
