(* ===== verification/Lifecycle.v ===== *)
(** * The session lifecycle at the service

    What a close promises to later calls, what the closer sees, and how long a
    heartbeat keeps a session open. *)
From S2P Require Import Prelude GoStrings GoFloat HttpApi Authz ScopeKeys Contract RecallCache Sessions SessionProps ScopeVersions RecallSelection HybridRecall Service ServiceFootprint ServiceRuns ServiceCalls RefWorld.
Open Scope Z_scope.

(** ** The write fence *)
Section fence.
Context {E T V : Type} (clock : nat -> time)
  (write_digest : Scope -> WriteRecordPayload -> string)
  (patch_digest : Scope -> string -> Z -> PatchMemoryFields -> string)
  (kind : string -> result goerror string).
Context (s : Service E T V).
Abbreviation S := (St E T V).

(** A run that fails and leaves everything but the session registry alone. *)
Definition refused {A} (p : S * result goerror A) (st : S) : Prop :=
  is_ok p.2 = false /\ sessions_only st p.1.

Lemma refused_guard {A} b err (f : unit -> GoM S A) st :
  refused (f tt st) st -> refused ((reject_if b err ≫= f) st) st.
Proof. intros H. destruct b; cbn; [|done]. by split. Qed.

Lemma refused_writable {A} (f : unit -> GoM S A) st :
  refused (f tt st) st -> refused ((ensureWritable s ≫= f) st) st.
Proof. apply refused_guard. Qed.

Lemma refused_session {A} scope (f : unit -> GoM S A) st :
  is_ok (ensureSessionOpen clock s scope st).2 = false ->
  refused ((ensureSessionOpen clock s scope ≫= f) st) st.
Proof.
  intros H. rewrite run_bind. pose proof (keeps_ensureSessionOpen clock s scope st) as Hk.
  destruct (ensureSessionOpen clock s scope st) as [st1 [[]|e]]; cbn in *; [done|]. by split.
Qed.

Lemma refused_reply {A} (f : A -> reply) (m : GoM S A) st :
  refused (m st) st -> refused (reply_with f m st) st.
Proof.
  unfold reply_with. rewrite run_bind. unfold refused. by destruct (m st) as [s1 [a|e]].
Qed.

(** The calls that check the session of their scope. *)
Definition fenced (c : call) : bool :=
  match c with
  | CallRecall _ _ | CallWrite _ _ | CallPatch _ _ _ | CallPin _ _ _ | CallDisable _ _ _
  | CallDelete _ _ _ | CallHeartbeat _ _ _ => true
  | _ => false
  end.

Lemma fenced_refused c st :
  fenced c = true -> is_ok (ensureSessionOpen clock s (call_scope c) st).2 = false ->
  refused (run_call clock write_digest patch_digest kind s c st) st.
Proof.
  destruct c; cbn [fenced run_call call_scope]; try done; intros _ H; apply refused_reply.
  - unfold RecallUnified. do 2 apply refused_guard.
    set (req' := if rr_TopK req =? 0 then _ else _).
    replace (rr_Scope req) with (rr_Scope req') in H
      by (unfold req'; by destruct (rr_TopK req =? 0)).
    clearbody req'. cbv zeta. apply refused_guard. destruct (recaller s); [|by split].
    by apply refused_session.
  - unfold WriteMemory. apply refused_writable. do 2 apply refused_guard.
    destruct (kind _); [|by split]. by apply refused_session.
  - unfold PatchMemory. apply refused_writable, refused_guard. by apply refused_session.
  - unfold PinMemory. apply refused_writable, refused_guard. by apply refused_session.
  - unfold DisableMemory. apply refused_writable, refused_guard. by apply refused_session.
  - unfold DeleteMemory. apply refused_writable, refused_guard. by apply refused_session.
  - unfold HeartbeatSession. apply refused_writable, refused_guard. by apply refused_session.
Qed.

Lemma closed_not_open scope st state :
  (st_sessions st).2 !! sessionScopeKey scope = Some state -> is_closed state = true ->
  is_ok (ensureSessionOpen clock s scope st).2 = false.
Proof.
  intros Hl Hc. rewrite ensureSessionOpen_answer. unfold reg_Get, registry_Get. rewrite run_bind. cbn.
  rewrite Hl. cbn. unfold validateSessionState. by rewrite Hc.
Qed.
End fence.

(** ** Closed entries of the registry are final *)
Section closed_final.
Context {T : Type} (store : SessionStateStore T) (view : T -> Scope -> option SessionState)
  (rnd : time -> time) {L : SessionStoreLaws store view rnd}.

Definition final_entries (c c' : gmap string SessionState) : Prop :=
  forall sc st, clean_scope sc = true -> c !! sessionScopeKey sc = Some st -> is_closed st = true ->
    c' !! sessionScopeKey sc = Some st.

Definition closed_kept : relation (registry T) := fun r r' =>
  closed_true view r.1 r.2 -> closed_true view r'.1 r'.2 /\ final_entries r.2 r'.2.

Lemma final_entries_refl c : final_entries c c.
Proof. by intros sc st. Qed.
Hint Resolve final_entries_refl : core.

#[export] Instance closed_kept_preorder : PreOrder closed_kept.
Proof.
  split.
  - intros r H. split; [done|]. by intros sc st.
  - intros r1 r2 r3 H12 H23 H1. destruct (H12 H1) as [H2 F12]. destruct (H23 H2) as [H3 F23].
    split; [done|]. intros sc st Hsc Hl Hc. apply F23; [done| |done]. by apply F12.
Qed.

Lemma closed_kept_get scope : clean_scope scope = true -> keeps closed_kept (reg_Get store scope).
Proof using L.
  intros Hc [t c] Ht. unfold reg_Get, registry_Get. rewrite run_bind. cbn.
  destruct (c !! sessionScopeKey scope) as [st|] eqn:E; [by split|].
  rewrite run_bind. cbn [on_store registry_alone]. unfold zoom. cbn.
  destruct (LoadSessionState store scope t) as [t' r] eqn:El.
  destruct (load_law _ _ _ _ Hc El) as [Hv Hok].
  assert (Ht' : closed_true view t' c) by (intros sc st Hsc Hl Hcl; rewrite Hv; by apply Ht).
  destruct r as [[st|]|e]; cbn; [|by split..].
  rewrite run_bind. unfold cache_state, modify. cbn. split; cbn.
  - intros sc st' Hsc Hl Hcl. apply lookup_key_insert in Hl as [[-> ->]|[_ Hl]]; [| |done..].
    + rewrite Hv. symmetry. by apply Hok.
    + by apply Ht'.
  - intros sc st' Hsc Hl _. destruct (decide (sc = scope)) as [->|Hne]; [congruence|].
    rewrite lookup_insert_ne; [done|]. intros Ek. apply Hne. symmetry. by apply sessionScopeKey_inj.
Qed.

(** The two writes of the registry. *)
Lemma closed_kept_write scope (m : GoM T SessionState) (new : T -> SessionState) :
  clean_scope scope = true ->
  (forall t t' r, m t = (t', r) -> write_law view scope (new t) t t' r) ->
  (forall t st, view t scope = Some st -> is_closed st = true -> new t = st) ->
  keeps closed_kept (state ← on_store m; _ ← cache_state scope state; mret state : GoM (registry T) SessionState).
Proof using Type.
  intros Hc Hm Hnew [t c] Ht. rewrite run_bind. cbn [on_store registry_alone]. unfold zoom. cbn.
  destruct (m t) as [t' r] eqn:Em. pose proof (Hm _ _ _ Em) as Hw. cbn in *.
  assert (Hst : closed_stays view t t').
  { apply (closed_stays_write view scope (new t) t t' r); [done| |done]. intros st. apply Hnew. }
  assert (Ht' : closed_true view t' c).
  { intros sc st Hsc Hl Hcl. apply Hst; [done| |done]. by apply Ht. }
  destruct r as [st|e]; cbn; [|by split]. destruct Hw as (_ & _ & Hok).
  destruct (Hok st eq_refl) as [-> Hv].
  rewrite run_bind. unfold cache_state, modify. cbn. split; cbn.
  - intros sc st' Hsc Hl Hcl. apply lookup_key_insert in Hl as [[-> ->]|[_ Hl]]; [done| |done..].
    by apply Ht'.
  - intros sc st' Hsc Hl Hcl. destruct (decide (sc = scope)) as [->|Hne].
    + cbn. rewrite lookup_insert_eq. f_equal. apply Hnew; [|done]. by apply Ht.
    + cbn. rewrite lookup_insert_ne; [done|]. intros Ek. apply Hne. symmetry. by apply sessionScopeKey_inj.
Qed.

Lemma closed_kept_close scope mode t :
  clean_scope scope = true -> keeps closed_kept (reg_Close store scope mode t).
Proof using L.
  intros Hc. apply (closed_kept_write _ _ (fun x => spec_close rnd scope mode t (view x scope)));
    [done| |].
  - intros x x' r. by apply close_law.
  - intros x st ->. apply spec_close_absorbs.
Qed.

Lemma closed_kept_heartbeat scope t :
  clean_scope scope = true -> keeps closed_kept (reg_Heartbeat store scope t).
Proof using L.
  intros Hc. apply (closed_kept_write _ _ (fun x => spec_heartbeat rnd scope t (view x scope)));
    [done| |].
  - intros x x' r. by apply heartbeat_law.
  - intros x st ->. apply spec_heartbeat_absorbs.
Qed.
End closed_final.

Lemma sessions_footprint {E T V} (s : Service E T V) view rnd
    {L : SessionStoreLaws (sessionStore s) view rnd} :
  Footprint s (fun scope => clean_scope scope = true) (fun _ _ => True)
    any (closed_kept view) any any.
Proof.
  split; try (intros; apply keeps_any); try done.
  - intros scope. by apply (closed_kept_get _ _ rnd).
  - intros scope mode t. by apply (closed_kept_close _ _ rnd).
  - intros scope t. by apply (closed_kept_heartbeat _ _ rnd).
Qed.

(** ** Theorems *)
Lemma reg_Close_cached {T} (store : SessionStateStore T) scope mode t r r' state :
  reg_Close store scope mode t r = (r', Ok state) -> r'.2 !! sessionScopeKey scope = Some state.
Proof.
  unfold reg_Close, registry_Close. intros H.
  apply bind_ok_inv in H as (r1 & st & _ & H). apply bind_ok_inv in H as (r2 & ? & Hc & H).
  injection H as <- <-. injection Hc as <- _. cbn. apply lookup_insert_eq.
Qed.

Lemma reg_Get_cached {T} (store : SessionStateStore T) scope r r' state :
  reg_Get store scope r = (r', Ok (Some state)) -> r'.2 !! sessionScopeKey scope = Some state.
Proof.
  unfold reg_Get, registry_Get. intros H. apply bind_ok_inv in H as (r1 & cached & Hc & H).
  injection Hc as <- <-. destruct (r.2 !! sessionScopeKey scope) as [st|] eqn:E.
  { by injection H as <- ->. }
  apply bind_ok_inv in H as (r2 & loaded & _ & H). destruct loaded as [st|]; [|done].
  apply bind_ok_inv in H as (r3 & ? & Hf & H). injection H as <- <-. injection Hf as <- _.
  cbn. apply lookup_insert_eq.
Qed.

Lemma reg_Heartbeat_cached {T} (store : SessionStateStore T) scope t r r' state :
  reg_Heartbeat store scope t r = (r', Ok state) -> r'.2 !! sessionScopeKey scope = Some state.
Proof.
  unfold reg_Heartbeat, registry_Heartbeat. intros H.
  apply bind_ok_inv in H as (r1 & st & _ & H). apply bind_ok_inv in H as (r2 & ? & Hc & H).
  injection H as <- <-. injection Hc as <- _. cbn. apply lookup_insert_eq.
Qed.

Lemma reg_Get_hit {T} (store : SessionStateStore T) scope r state :
  r.2 !! sessionScopeKey scope = Some state -> reg_Get store scope r = (r, Ok (Some state)).
Proof. intros H. unfold reg_Get, registry_Get. rewrite run_bind. cbn. by rewrite H. Qed.

(** After a successful close the registry knows the session as closed. *)
Lemma CloseSession_registers {E T V} clock (s : Service E T V) view rnd
    {L : SessionStoreLaws (sessionStore s) view rnd} auth sid req st st' resp :
  let scope := session_scope auth (sc_Scope req) sid in
  clean_scope scope = true -> closed_true view (st_sessions st).1 (st_sessions st).2 ->
  CloseSession clock s auth sid req st = (st', Ok resp) ->
  closed_true view (st_sessions st').1 (st_sessions st').2 /\
  exists state, (st_sessions st').2 !! sessionScopeKey scope = Some state /\ is_closed state = true.
Proof.
  intros scope Hclean Hct H.
  pose proof (fp_CloseSession clock s (fun sc => clean_scope sc = true) (fun _ _ => True) any
    (closed_kept view) any any (F := sessions_footprint s view rnd) auth sid req Hclean st) as Hk.
  rewrite H in Hk. destruct Hk as (_ & Hk & _). destruct (Hk Hct) as [Hct' _]. split; [done|].
  apply CloseSession_ok in H as (r0 & o & Hg & [(ex & -> & Hex & -> & _)|[_ Hco]]).
  - exists ex. cbn. split; [|done]. by eapply reg_Get_cached.
  - apply close_open_ok in Hco as (e1 & state & _ & Hcl & _). exists state.
    split; [by eapply reg_Close_cached|]. cbn in Hcl. unfold reg_Close, registry_Close in Hcl.
    apply bind_ok_inv in Hcl as (r1 & st1 & Hw & Hcl). cbn [on_store registry_alone] in Hw. unfold zoom in Hw.
    destruct (SaveClosedSession _ _ _ _ _) as [t1 rr] eqn:Es.
    pose proof (close_law _ _ _ _ _ _ Hclean Es) as (_ & _ & Hok).
    injection Hw as _ ->. apply bind_ok_inv in Hcl as (? & ? & _ & Hcl). injection Hcl as _ <-.
    destruct (Hok st1 eq_refl) as [-> _]. apply spec_close_closed.
Qed.

(** C8: Once a close has been answered with success, the session is closed for
    good: after any later calls (clean scopes, any of them failing, a store
    that may fail before or after committing) a recall, write, patch, pin,
    disable, delete or heartbeat of that scope is refused, and the refusal
    leaves the durable world, the versions, the cache and the traces as they
    were. *)
Theorem closed_session_stays_closed {E T V} clock write_digest patch_digest kind
    (s : Service E T V) view rnd {L : SessionStoreLaws (sessionStore s) view rnd}
    auth sid req (st st1 : St E T V) resp (cs : list call) (c : call) :
  let scope := session_scope auth (sc_Scope req) sid in
  clean_scope scope = true -> closed_true view (st_sessions st).1 (st_sessions st).2 ->
  CloseSession clock s auth sid req st = (st1, Ok resp) ->
  Forall (fun c => clean_scope (call_scope c) = true) cs ->
  fenced c = true -> call_scope c = scope ->
  let st2 := run_calls clock write_digest patch_digest kind s cs st1 in
  refused (run_call clock write_digest patch_digest kind s c st2) st2.
Proof.
  intros scope Hclean Hct Hclose Hcs Hf Hscope st2.
  destruct (CloseSession_registers clock s view rnd auth sid req st st1 resp Hclean Hct Hclose)
    as (Hct1 & state & Hl & Hcl). fold scope in Hl.
  pose proof (run_calls_keeps clock write_digest patch_digest kind s
    (fun sc => clean_scope sc = true) (fun _ _ => True) any (closed_kept view) any any
    (F := sessions_footprint s view rnd) cs st1 Hcs) as (_ & Hk & _).
  destruct (Hk Hct1) as [_ Hfin]. fold st2 in Hfin.
  apply fenced_refused; [done|]. rewrite Hscope. eapply closed_not_open; [by apply Hfin|done].
Qed.

Definition ref_closed : St world memSessions memVersions :=
  (CloseSession ref_clock (ref_service false) alice "" close_req ref_start).1.

Lemma closed_session_stays_closed_witness :
  let st2 := run_calls ref_clock ref_write_digest ref_patch_digest ref_kind (ref_service false)
               [CallRecall bob (recall_req "" 0); CallHeartbeat alice "" heartbeat_req] ref_closed in
  refused (run_call ref_clock ref_write_digest ref_patch_digest ref_kind (ref_service false)
             (CallWrite alice (write_req "late")) st2) st2.
Proof.
  refine (closed_session_stays_closed ref_clock ref_write_digest ref_patch_digest ref_kind
    (ref_service false) mem_view id alice "" close_req ref_start ref_closed
    (mkSessionCloseResponse "s1" "closed")
    [CallRecall bob (recall_req "" 0); CallHeartbeat alice "" heartbeat_req]
    (CallWrite alice (write_req "late")) _ _ _ _ _ _).
  - reflexivity.
  - intros sc st _ Hl. cbn in Hl. by rewrite lookup_empty in Hl.
  - apply run_eq; [reflexivity|vm_compute; reflexivity].
  - repeat constructor.
  - reflexivity.
  - reflexivity.
Defined.
(** *** What a close does *)
Definition close_done {E T V} (s : Service E T V) scope mode (e1 : E) : E :=
  traceEmitter s "promote_decided" (session_fields scope mode)
    (recallCacheObserver s {| co_Action := "invalidate"; co_Scope := scope |} e1).

(** C21: A successful close of a session whose scope is free of "|" is a replay
    or a real close, where the registry's cache holds nothing of such a scope
    but the stored state (so another replica has not changed it behind this
    one's back).  The replay of a closed session runs no closer and changes
    neither the durable world nor the cache nor the versions.  A real close
    runs the closer once, records the state of the abstract machine only after
    it succeeded, and drops the scope's cached recalls.  When the closer fails,
    the session stays open. *)
Theorem CloseSession_effect {E T V} clock (s : Service E T V) view rnd
    {L : SessionStoreLaws (sessionStore s) view rnd} auth sid req (st st' : St E T V) r :
  let scope := session_scope auth (sc_Scope req) sid in
  let old := view (st_sessions st).1 scope in
  clean_scope scope = true -> coherent view (st_sessions st) ->
  CloseSession clock s auth sid req st = (st', r) ->
  (forall resp, r = Ok resp -> sr_Status resp = "closed"%string /\
     ((exists ex, old = Some ex /\ is_closed ex = true /\ sr_SessionID resp = ss_SessionID ex /\
         st_ext st' = st_ext st /\ st_cache st' = st_cache st /\ st_versions st' = st_versions st) \/
      ((forall ex, old = Some ex -> is_closed ex = false) /\ exists e1,
         match sessionCloser s with
         | Some closer => closer scope (close_mode req) (st_ext st) = (e1, Ok tt)
         | None => e1 = st_ext st
         end /\
         st_ext st' = close_done s scope (close_mode req) e1 /\
         st_cache st' = InvalidateScope scope (st_cache st) /\
         coherent view (st_sessions st') /\
         view (st_sessions st').1 scope
           = Some (spec_close rnd scope (close_mode req) (clock (st_ticks st)) old)))) /\
  (forall closer e1 err, sessionCloser s = Some closer ->
     closer scope (close_mode req) (st_ext st) = (e1, Fail err) ->
     (forall ex, old = Some ex -> is_closed ex = false) ->
     is_ok r = false /\ view (st_sessions st').1 scope = old /\ st_cache st' = st_cache st).
Proof.
  intros scope old Hclean Hcoh H. split.
  - intros resp ->. apply CloseSession_ok in H. cbv zeta in H.
    destruct H as (r0 & o & Hg & H). fold scope in Hg.
    destruct (reg_Get_refines (sessionStore s) view rnd scope _ _ _ Hclean Hcoh Hg) as (Hcoh0 & Hsv & Ho).
    specialize (Ho o eq_refl). fold old in Ho. subst o.
    destruct H as [(ex & Ho & Hex & -> & ->)|[Hopen Hco]].
    + split; [by apply is_closed_status|]. left. exists ex. done.
    + apply close_open_ok in Hco as (e1 & state & Hcl & Hreg & Hext & Hcache & _ & ->). cbn in *.
      fold scope in Hcl, Hreg, Hext, Hcache.
      destruct (reg_Close_refines (sessionStore s) view rnd scope _ _ _ _ _ Hclean Hcoh0 Hreg)
        as (Hcoh' & Hst & Hv & _).
      rewrite (Hsv scope Hclean) in Hst. fold old in Hst. subst state. cbn.
      split; [apply is_closed_status, spec_close_closed|]. right. split; [done|]. exists e1. done.
  - intros closer e1 err Hs Hcl Hopen. revert H. unfold CloseSession. fold scope. fold (close_mode req).
    assert (Hguard : forall b e (f : unit -> GoM (St E T V) SessionCloseResponse),
      (f tt st = (st', r) -> is_ok r = false /\ view (st_sessions st').1 scope = old /\
         st_cache st' = st_cache st) ->
      (reject_if b e ≫= f) st = (st', r) -> is_ok r = false /\ view (st_sessions st').1 scope = old /\
         st_cache st' = st_cache st).
    { intros [] e f Hf; cbn; [by intros [= <- <-]|apply Hf]. }
    do 3 apply Hguard. clear Hguard. rewrite run_bind, run_translated, run_on_sessions. cbn.
    destruct (reg_Get (sessionStore s) scope (st_sessions st)) as [r0 ro] eqn:Hg. cbn.
    destruct (reg_Get_refines (sessionStore s) view rnd scope _ _ _ Hclean Hcoh Hg) as (Hcoh0 & Hsv & Ho).
    destruct ro as [o|e]; cbn; [|intros [= <- <-]; cbn; by rewrite Hsv].
    specialize (Ho o eq_refl). fold old in Ho. subst o.
    assert (Hco : close_open clock s scope (close_mode req)
      (mkSt (st_ext st) r0 (st_versions st) (st_cache st) (st_heap st) (st_ticks st)) = (st', r) ->
      is_ok r = false /\ view (st_sessions st').1 scope = old /\ st_cache st' = st_cache st).
    { unfold close_open. rewrite run_bind, Hs, run_translated, run_on_ext. cbn. rewrite Hcl. cbn.
      intros [= <- <-]. cbn. by rewrite Hsv. }
    destruct old as [ex|] eqn:Eold; [|exact Hco]. by rewrite (Hopen ex eq_refl).
Qed.

Definition alice_closed : SessionState :=
  mkSessionState "acme" "alice" "p" "s1" "closed" "expire_working" (ref_clock 0) 0.

Lemma CloseSession_effect_witness :
  mem_view (st_sessions ref_closed).1 alice = Some alice_closed.
Proof.
  destruct (CloseSession_effect ref_clock (ref_service false) mem_view id alice "" close_req
              ref_start ref_closed (Ok (mkSessionCloseResponse "s1" "closed"))) as [H _].
  - reflexivity.
  - intros sc st _ Hl. cbn in Hl. by rewrite lookup_empty in Hl.
  - apply run_eq; [reflexivity|vm_compute; reflexivity].
  - destruct (H _ eq_refl) as [_ [(ex & Ho & _)|(_ & e1 & _ & _ & _ & _ & Hv)]].
    + discriminate Ho.
    + exact Hv.
Defined.

(** *** How long a heartbeat keeps a session open *)
Lemma validate_window ttl state t :
  is_active state = true -> ss_LastHeartbeatAt state <> 0 -> min_int64 <= ttl < max_int64 ->
  validateSessionState ttl (Some state) t = None <-> t - ss_LastHeartbeatAt state <= ttl.
Proof.
  intros Ha Hl Httl. unfold validateSessionState.
  rewrite (is_active_not_closed _ Ha), Ha. cbn. unfold isSessionExpired. rewrite Ha. cbn.
  destruct (Z.eqb_spec (ss_LastHeartbeatAt state) 0); [done|]. rewrite time_sub_gt by done.
  destruct (Z.ltb_spec ttl (t - ss_LastHeartbeatAt state)); split; try done; lia.
Qed.

Lemma validate_not_closed ttl state t :
  validateSessionState ttl (Some state) t = None -> is_closed state = false.
Proof. unfold validateSessionState. by destruct (is_closed state). Qed.

(** C25: Where the scope is free of "|", the registry's cache holds nothing of
    such a scope but the stored state, and the idle TTL is within int64 and
    below its greatest value: a heartbeat answered with success at [t] (as the
    store rounds it, and not the zero time) keeps the session open for exactly
    the idle TTL.  As long as nothing else touches the registry, a later check
    of the session at [t'] passes if and only if [t' - t <= sessionIdleTTL]. *)
Theorem heartbeat_window {E T V} clock (s : Service E T V) view rnd
    {L : SessionStoreLaws (sessionStore s) view rnd} auth sid req (st st' st2 : St E T V) resp :
  let scope := session_scope auth (sh_Scope req) sid in
  let t := rnd (clock (Datatypes.S (st_ticks st))) in
  clean_scope scope = true -> coherent view (st_sessions st) ->
  min_int64 <= sessionIdleTTL s < max_int64 -> t <> 0 ->
  HeartbeatSession clock s auth sid req st = (st', Ok resp) ->
  st_sessions st2 = st_sessions st' ->
  is_ok (ensureSessionOpen clock s scope st2).2 = true
  <-> clock (st_ticks st2) - t <= sessionIdleTTL s.
Proof.
  intros scope t Hclean Hcoh Httl Ht H Hst2. unfold HeartbeatSession in H. fold scope in H.
  apply bind_ok_inv in H as (? & ? & [-> _]%reject_if_ok & H).
  apply bind_ok_inv in H as (? & ? & [-> _]%reject_if_ok & H).
  apply bind_ok_inv in H as (st1 & [] & Hopen & H).
  apply bind_ok_inv in H as (st1' & t' & Hn & H). injection Hn as <- <-.
  apply bind_ok_inv in H as (st3 & state & Hb%translated_ok & H).
  apply bind_ok_inv in H as (st4 & ? & He & H).
  unfold Emit, effect in He. rewrite run_on_ext in He. injection He as <- _.
  injection H as <- _. rewrite run_on_sessions in Hb. injection Hb as <- Hb. cbn in *.
  (* the check before the heartbeat *)
  pose proof (ensureSessionOpen_answer clock s scope st) as Ha.
  pose proof (ensureSessionOpen_sessions clock s scope st) as Hs.
  rewrite Hopen in Ha, Hs. cbn in Ha, Hs.
  destruct (reg_Get (sessionStore s) scope (st_sessions st)) as [r0 ro] eqn:Hg. cbn in Ha, Hs.
  destruct (reg_Get_refines (sessionStore s) view rnd scope _ _ _ Hclean Hcoh Hg) as (Hcoh0 & Hsv & Ho).
  destruct ro as [o|]; [|done]. specialize (Ho o eq_refl).
  assert (Hticks : st_ticks st1 = Datatypes.S (st_ticks st)).
  { unfold ensureSessionOpen in Hopen. rewrite run_bind, run_translated, run_on_sessions in Hopen.
    rewrite Hg in Hopen. cbn in Hopen. rewrite run_bind in Hopen. cbn in Hopen.
    destruct (validateSessionState _ _ _); injection Hopen as <-; done. }
  destruct (validateSessionState (sessionIdleTTL s) o (clock (st_ticks st))) as [e|] eqn:Hval; [done|].
  assert (Hb' : reg_Heartbeat (sessionStore s) scope (clock (st_ticks st1)) (st_sessions st1)
                = (st_sessions st2, Ok state)) by (by apply run_eq).
  rewrite Hs, Hticks in Hb'. pose proof (reg_Heartbeat_cached _ _ _ _ _ _ Hb') as Hl.
  destruct (reg_Heartbeat_refines (sessionStore s) view rnd scope _ _ _ _ Hclean Hcoh0 Hb')
    as (_ & Hst & _ & _).
  rewrite (Hsv scope Hclean), <-Ho in Hst.
  destruct (spec_heartbeat_open rnd scope (clock (Datatypes.S (st_ticks st))) o) as [Hact Hlast].
  { intros ex ->. by eapply validate_not_closed. }
  rewrite <-Hst in Hact, Hlast. fold t in Hlast.
  rewrite ensureSessionOpen_answer, (reg_Get_hit _ _ _ _ Hl). cbn [snd]. rewrite <-Hlast.
  rewrite <-(validate_window _ state _ Hact); [|by rewrite Hlast|done].
  by destruct (validateSessionState (sessionIdleTTL s) (Some state) (clock (st_ticks st2))).
Qed.

Lemma heartbeat_window_witness :
  let st' := (HeartbeatSession ref_clock (ref_service false) alice "" heartbeat_req ref_start).1 in
  let later n := mkSt (st_ext st') (st_sessions st') ∅ ∅ [] n in
  (is_ok (ensureSessionOpen ref_clock (ref_service false) alice (later 1801%nat)).2 = true
   <-> ref_clock 1801 - ref_clock 1 <= 30 * minute) /\
  (is_ok (ensureSessionOpen ref_clock (ref_service false) alice (later 1802%nat)).2 = true
   <-> ref_clock 1802 - ref_clock 1 <= 30 * minute).
Proof.
  assert (H : forall n, let st' := (HeartbeatSession ref_clock (ref_service false) alice "" heartbeat_req ref_start).1 in
    is_ok (ensureSessionOpen ref_clock (ref_service false) alice
             (mkSt (st_ext st') (st_sessions st') ∅ ∅ [] n)).2 = true
    <-> ref_clock n - ref_clock 1 <= 30 * minute).
  { intros n st'.
    refine (heartbeat_window ref_clock (ref_service false) mem_view id alice "" heartbeat_req
      ref_start st' (mkSt (st_ext st') (st_sessions st') ∅ ∅ [] n) (mkSessionHeartbeatResponse "s1" "active")
      _ _ _ _ _ _).
    - reflexivity.
    - intros sc st _ Hl. cbn in Hl. by rewrite lookup_empty in Hl.
    - by vm_compute.
    - by vm_compute.
    - apply run_eq; [reflexivity|vm_compute; reflexivity].
    - reflexivity. }
  split; apply H.
Defined.
Close Scope Z_scope.
