(* ===== verification/Freshness.v ===== *)
(** * Freshness of recalls

    What a cached answer guarantees at each consistency level, what a mutation
    does to the cache and to the versions, and what that means for the caller's
    next recall and for the other replicas. *)
From S2P Require Import Prelude GoStrings GoFloat HttpApi Authz ScopeKeys Contract RecallCache Sessions SessionProps ScopeVersions RecallSelection HybridRecall Service ServiceFootprint ServiceRuns ServiceCalls RefWorld.
Open Scope Z_scope.

(** ** Cached answers *)
Section cached.
Context {E T V : Type} (clock : nat -> time) (s : Service E T V).
Abbreviation S := (St E T V).

(** The version of a hit is the current one in world [e]. *)
Definition hit_current (scope : Scope) (e : E) (hit : RecallHitResponse) : Prop :=
  exists record, (GetRecord (backend s) (TenantID scope) (hit_MemoryID hit) e).2 = Ok record /\
    m_Version record = hit_Version hit.

Lemma validate_hits_true {L : RecordStoreReads (backend s)} scope hits (st st' : S) :
  validate_hits s scope hits st = (st', Ok true) -> Forall (hit_current scope (st_ext st)) hits.
Proof.
  revert st. induction hits as [|h hits IH]; intros st; cbn [validate_hits]; [constructor|].
  rewrite run_bind. unfold attempt. rewrite run_on_ext, get_record_frame.
  destruct (GetRecord (backend s) (TenantID scope) (hit_MemoryID h) (st_ext st)).2
    as [record|err] eqn:Eg; cbn.
  - destruct (Z.eqb_spec (m_Version record) (hit_Version h)); cbn; [|done].
    intros H%IH. constructor; [by exists record|done].
  - by destruct (errors_Is err PgNotFound).
Qed.

(** What the entry behind a cached answer satisfies. *)
Definition fresh_entry (level : string) (allowStale : bool) (scope : Scope) (v : Z) (t : time) (e : E)
    (entry : recallCacheEntry) : Prop :=
  level <> "strong"%string /\
  (level = "bounded"%string ->
     t - ce_cachedAt entry <= 5 * second /\ ce_scopeVersion entry = v /\
     Forall (hit_current scope e) (ru_Hits (ce_response entry))) /\
  (level = "eventual"%string -> t - ce_cachedAt entry <= 30 * second \/ allowStale = true).

Lemma recall_cached_fresh {L : RecordStoreReads (backend s)} scope req level key v (st st' : S) resp :
  recall_cached clock s scope req level key v st = (st', Ok (Some resp)) ->
  exists entry, st_cache st !! key = Some entry /\ ru_Hits resp = ru_Hits (ce_response entry) /\
    fresh_entry level (rr_AllowStaleCache req) scope v (clock (st_ticks st)) (st_ext st) entry.
Proof.
  intros H0. destruct (recall_cached_entry clock s scope req level key v st st' resp H0) as (e & He & Hh).
  exists e. split_and!; [done..|]. unfold fresh_entry. revert H0. unfold recall_cached.
  case_bool_decide as Hlv; [done|]. rewrite run_bind. cbn. rewrite run_bind. cbn.
  unfold Lookup, cache_Get. rewrite He.
  destruct (decide (level = "bounded"%string)) as [->|Hb].
  - cbn. rewrite (time_sub_gt _ _ boundedCacheTTL) by done.
    destruct (Z.eqb_spec (ce_scopeVersion e) v) as [Hv|]; [|done]. cbn.
    destruct (Z.ltb_spec boundedCacheTTL (clock (st_ticks st) - ce_cachedAt e)) as [|Hage]; [done|].
    intros H. apply bind_ok_inv in H as (st1 & valid & Hvalid%translated_ok & H).
    destruct valid; [|done]. unfold validateBoundedCachedResponse in Hvalid.
    apply validate_hits_true in Hvalid. split_and!; [done| |done]. intros _. done.
  - rewrite (bool_decide_eq_false_2 _ Hb). intros H. split_and!; [done|done|]. intros ->. revert H. cbn.
    rewrite Z.leb_antisym, (time_sub_gt _ _ eventualCacheTTL) by done.
    destruct (Z.ltb_spec eventualCacheTTL (clock (st_ticks st) - ce_cachedAt e)); [|by left].
    destruct (rr_AllowStaleCache req); [by right|done].
Qed.
End cached.

Lemma ensureSessionOpen_ticks {E T V} clock (s : Service E T V) scope st st' :
  ensureSessionOpen clock s scope st = (st', Ok tt) -> st_ticks st' = Datatypes.S (st_ticks st).
Proof.
  unfold ensureSessionOpen. rewrite run_bind, run_translated, run_on_sessions. cbn.
  destruct (reg_Get (sessionStore s) scope (st_sessions st)).2 as [o|e]; cbn; [|done].
  rewrite run_bind. cbn. destruct (validateSessionState _ _ _); [done|]. by intros [= <-].
Qed.

Lemma keeps_validate_hits {E T V} (s : Service E T V) {L : RecordStoreReads (backend s)} scope hits :
  keeps (fun a b : St E T V => st_ext b = st_ext a) (validate_hits s scope hits).
Proof.
  induction hits as [|h hits IH]; intros st; cbn [validate_hits]; [done|].
  rewrite run_bind. unfold attempt. rewrite run_on_ext, get_record_frame.
  destruct (GetRecord (backend s) (TenantID scope) (hit_MemoryID h) (st_ext st)).2 as [record|err]; cbn.
  - destruct (negb _); [done|]. by rewrite IH.
  - by destruct (errors_Is err PgNotFound).
Qed.

(** A miss leaves the world alone. *)
Lemma recall_cached_miss {E T V} clock (s : Service E T V) {L : RecordStoreReads (backend s)}
    scope req level key v st st' :
  recall_cached clock s scope req level key v st = (st', Ok None) -> st_ext st' = st_ext st.
Proof.
  unfold recall_cached. case_bool_decide; [by intros [= <-]|].
  intros H0. apply bind_ok_inv in H0 as (st1 & t & Hn & H0). injection Hn as <- <-.
  apply bind_ok_inv in H0 as (st2 & found & Hl & H0). cbn in Hl. injection Hl as <- <-.
  destruct (Lookup _ _ _ _ _ _) as [[cached stale]|]; [|by injection H0 as <-].
  apply bind_ok_inv in H0 as (st3 & valid & Hv & H0).
  destruct valid; cbn [negb] in H0.
  - apply bind_ok_inv in H0 as (st4 & trace & _ & H0).
    apply bind_ok_inv in H0 as (st5 & ? & _ & H0).
    by apply bind_ok_inv in H0 as (st6 & ? & _ & H0).
  - injection H0 as <-. case_bool_decide; [|by injection Hv].
    apply translated_ok in Hv. unfold validateBoundedCachedResponse in Hv.
    by apply keeps_run with (R := fun a b => st_ext b = st_ext a) in Hv; [|apply keeps_validate_hits].
Qed.

(** The two sources of an answer. *)
Lemma RecallUnified_source {E T V} clock (s : Service E T V) {L : RecordStoreReads (backend s)}
    auth req (st st' : St E T V) resp :
  let scope := mergeScope auth (rr_Scope req) in
  RecallUnified clock s auth req st = (st', Ok resp) ->
  (exists recall, recaller s = Some recall /\
     recalled_now recall scope (effective req) (st_ext st) resp) \/
  (exists entry v, st_cache st !! buildRecallCacheKey scope req = Some entry /\
     ru_Hits resp = ru_Hits (ce_response entry) /\
     (CurrentScopeVersion (scopeVersionStore s) scope (st_versions st)).2 = Ok v /\
     fresh_entry s (recall_level req) (rr_AllowStaleCache req) scope v
       (clock (Datatypes.S (st_ticks st))) (st_ext st) entry).
Proof.
  intros scope H. apply RecallUnified_unfold in H as (recall & st0 & st1 & v & st2 & Hr & H0 & H1 & Hpath).
  pose proof (keeps_run sessions_only _ _ _ _ (keeps_ensureSessionOpen clock s _) H0) as (He & Hv & Hc & _).
  assert (Ht : st_ticks st0 = Datatypes.S (st_ticks st)) by by eapply ensureSessionOpen_ticks.
  rewrite run_on_versions in H1. injection H1 as <- Hver.
  destruct Hpath as [Hcached|[Hmiss Horigin]].
  - right. apply recall_cached_fresh in Hcached as (entry & Hl & Hh & Hf); [|done]. cbn in *.
    exists entry, v. rewrite Hc, He, Hv, <-Ht. split_and!; [done..|].
    unfold effective in Hf. by destruct (rr_TopK req =? 0).
  - left. exists recall. split; [done|]. apply recall_origin_ok in Horigin.
    apply recall_cached_miss in Hmiss; [|done]. cbn in Hmiss. by rewrite Hmiss, <-He in Horigin.
Qed.

(** C4: Where the hits of a successful recall come from: either the recall
    backend was asked now, on the world of this call, or they are those of the
    cache entry under the caller's key, which is never used at level strong;
    at level bounded it is at most 5 seconds old, was filled at the current
    scope version, and every hit still has its current version; at level
    eventual it is at most 30 seconds old unless the caller allows stale
    answers. *)
Theorem RecallUnified_fresh {E T V} clock (s : Service E T V) {L : RecordStoreReads (backend s)}
    auth req (st st' : St E T V) resp :
  let scope := mergeScope auth (rr_Scope req) in
  RecallUnified clock s auth req st = (st', Ok resp) ->
  (exists recall, recaller s = Some recall /\
     recalled_now recall scope (effective req) (st_ext st) resp) \/
  (exists entry v, st_cache st !! buildRecallCacheKey scope req = Some entry /\
     ru_Hits resp = ru_Hits (ce_response entry) /\
     (CurrentScopeVersion (scopeVersionStore s) scope (st_versions st)).2 = Ok v /\
     fresh_entry s (recall_level req) (rr_AllowStaleCache req) scope v
       (clock (Datatypes.S (st_ticks st))) (st_ext st) entry).
Proof. intros scope H. exact (RecallUnified_source clock s auth req st st' resp H). Qed.

(** ** Mutations *)
Section mutations.
Context {E T V : Type} (clock : nat -> time)
  (write_digest : Scope -> WriteRecordPayload -> string)
  (patch_digest : Scope -> string -> Z -> PatchMemoryFields -> string)
  (kind : string -> result goerror string).
Context (s : Service E T V) {L : RecordStoreReads (backend s)}.
Abbreviation S := (St E T V).

(** Writes, patches, pins, disables, deletes and their inverses. *)
Definition record_mutation (c : call) : bool :=
  match c with
  | CallWrite _ _ | CallPatch _ _ _ | CallPin _ _ _ | CallUnpin _ _ _ | CallDisable _ _ _
  | CallEnable _ _ _ | CallDelete _ _ _ => true
  | _ => false
  end.

Definition invalidated (scope : Scope) (st st' : S) : Prop :=
  st_cache st' = InvalidateScope scope (st_cache st) /\
  st_versions st' = (BumpScopeVersion (scopeVersionStore s) scope (st_versions st)).1.

(** A replay, or a change followed by the invalidation. *)
Definition mutation_outcome (scope : Scope) (st st' : S) : Prop :=
  sessions_only st st' \/ invalidated scope st st'.

Definition caches_kept (a b : S) : Prop := st_cache a = st_cache b /\ st_versions a = st_versions b.

#[local] Instance caches_kept_preorder : PreOrder caches_kept.
Proof. split; [by intros a|]. intros a b c [??] [??]. split; by etransitivity. Qed.

Lemma caches_kept_ext {A} (m : GoM E A) : keeps caches_kept (on_ext m).
Proof. intros st. by rewrite run_on_ext. Qed.
Lemma caches_kept_translated {A} (m : GoM S A) : keeps caches_kept m -> keeps caches_kept (translated m).
Proof. intros H st. rewrite run_translated. apply H. Qed.
Lemma caches_kept_now : keeps caches_kept (now clock : GoM S time).
Proof. by intros st. Qed.
Hint Resolve caches_kept_ext caches_kept_translated caches_kept_now keeps_attempt : go_keeps.

Lemma commit_inv {A B} scope (m : GoM S A) (f : A -> B) st st' y :
  keeps caches_kept m ->
  (x ← m; _ ← invalidateScopeState s scope; mret (f x)) st = (st', Ok y) -> invalidated scope st st'.
Proof.
  intros Hm H. apply bind_ok_inv in H as (st1 & x & H1 & H).
  apply (keeps_run caches_kept) in H1 as [Hc Hv]; [|done].
  apply bind_ok_inv in H as (st2 & ? & H2 & H). rewrite run_invalidate in H2.
  injection H2 as <- _. injection H as <- _. split; cbn; by rewrite ?Hc, ?Hv.
Qed.

Lemma outcome_session {A} scope scope' (f : unit -> GoM S A) st st' y :
  (forall st1, f tt st1 = (st', Ok y) -> mutation_outcome scope st1 st') ->
  (ensureSessionOpen clock s scope' ≫= f) st = (st', Ok y) -> mutation_outcome scope st st'.
Proof.
  intros Hf H. apply bind_ok_inv in H as (st1 & [] & H1 & H).
  apply (keeps_run sessions_only) in H1; [|apply keeps_ensureSessionOpen].
  destruct (Hf st1 H) as [H2|[Hc Hv]]; [left; by etransitivity|].
  right. destruct H1 as (_ & Hv1 & Hc1 & _). split; by rewrite ?Hc, ?Hv, ?Hc1, ?Hv1.
Qed.

Lemma outcome_guard {A} scope b err (f : unit -> GoM S A) st st' y :
  (f tt st = (st', Ok y) -> mutation_outcome scope st st') ->
  (reject_if b err ≫= f) st = (st', Ok y) -> mutation_outcome scope st st'.
Proof. intros Hf. destruct b; cbn; [done|apply Hf]. Qed.

Lemma outcome_writable {A} scope (f : unit -> GoM S A) st st' y :
  (f tt st = (st', Ok y) -> mutation_outcome scope st st') ->
  (ensureWritable s ≫= f) st = (st', Ok y) -> mutation_outcome scope st st'.
Proof. apply outcome_guard. Qed.

Lemma outcome_circuit {A B} scope (read : string -> string -> GoM E MemoryRecord) id v desired
    (g : MemoryRecord -> B) (op : GoM E A) (f : A -> B) st st' y :
  (forall t id e, (read t id e).1 = e) ->
  (done ← shortCircuit read scope id v desired;
   match done with
   | Some r => mret (g r)
   | None => x ← translated (on_ext op); _ ← invalidateScopeState s scope; mret (f x)
   end) st = (st', Ok y) -> mutation_outcome scope st st'.
Proof.
  intros Hread H. apply bind_ok_inv in H as (st1 & o & H1 & H).
  assert (Hst1 : st1 = st).
  { revert H1. unfold shortCircuit. rewrite run_bind. unfold attempt. rewrite run_on_ext, Hread.
    destruct (read _ _ _).2 as [r|e]; cbn; [destruct (_ && _)|]; intros [= <- _]; by destruct st. }
  subst st1. destruct o as [r|].
  - left. injection H as <- _. reflexivity.
  - right. eapply commit_inv; [|exact H]. auto with go_keeps.
Qed.

Lemma reply_ok {A} (f : A -> reply) (m : GoM S A) st st' u :
  reply_with f m st = (st', Ok u) -> exists a, m st = (st', Ok a).
Proof. intros H. apply bind_ok_inv in H as (st1 & a & H1 & H). injection H as <-. eauto. Qed.

Lemma patch_outcome scope id req (store : IdempotencyStore E) st st' y :
  (forall t k e, (LoadIdempotency store t k e).1 = e) ->
  patch_idempotent clock patch_digest s store scope id req st = (st', Ok y) ->
  mutation_outcome scope st st'.
Proof.
  intros Hload H. unfold patch_idempotent in H. apply bind_ok_inv in H as (st1 & r & H1 & H).
  unfold attempt in H1. rewrite run_on_ext, Hload in H1.
  assert (st1 = st) as -> by (injection H1 as <- _; by destruct st). clear H1.
  destruct r as [entry|err].
  - left. destruct (negb _); [done|]. injection H as <- _. reflexivity.
  - destruct (negb _); [done|]. right. apply bind_ok_inv in H as (st1 & x & H1 & H).
    unfold doPatchRecord in H1. apply (keeps_run caches_kept) in H1 as [Hc Hv]; [|auto with go_keeps].
    apply bind_ok_inv in H as (st2 & t & H2 & H). injection H2 as <- _.
    apply (commit_inv scope _ (fun _ => patch_response x)) in H as [Hc' Hv']; [|auto with go_keeps].
    cbn in *. split; by rewrite ?Hc, ?Hv, ?Hc', ?Hv'.
Qed.

Lemma mutation_outcomes c st st' rep :
  (forall store, idempotencyStore s = Some store -> forall t k e, (LoadIdempotency store t k e).1 = e) ->
  record_mutation c = true ->
  run_call clock write_digest patch_digest kind s c st = (st', Ok rep) ->
  mutation_outcome (call_scope c) st st'.
Proof using L.
  intros Hload Hm H.
  destruct c; cbn [record_mutation run_call call_scope] in *; try done;
    apply reply_ok in H as [y H]; revert H.
  - unfold WriteMemory. apply outcome_writable. do 2 apply outcome_guard.
    destruct (kind _); [|done]. apply outcome_session. intros st1 H. right.
    eapply commit_inv; [|exact H]. auto with go_keeps.
  - unfold PatchMemory. apply outcome_writable, outcome_guard, outcome_session. intros st1.
    assert (Hplain : (result ← doPatchRecord s (mergeScope auth (pr_Scope req)) id req;
       _ ← invalidateScopeState s (mergeScope auth (pr_Scope req)); mret (patch_response result)) st1
       = (st', Ok y) -> mutation_outcome (mergeScope auth (pr_Scope req)) st1 st').
    { intros H. right. eapply commit_inv; [|exact H]. unfold doPatchRecord. auto with go_keeps. }
    destruct (idempotencyStore s) as [store|] eqn:Es; [|exact Hplain].
    destruct (negb _); [|exact Hplain]. by apply patch_outcome, Hload.
  - unfold PinMemory, terminalStateShortCircuit. apply outcome_writable, outcome_guard, outcome_session.
    intros st1. apply outcome_circuit, get_record_frame.
  - unfold UnpinMemory, terminalStateShortCircuit. apply outcome_writable, outcome_guard.
    apply outcome_circuit, get_record_frame.
  - unfold DisableMemory, terminalHiddenStateShortCircuit.
    apply outcome_writable, outcome_guard, outcome_session.
    intros st1. apply outcome_circuit, get_hidden_frame.
  - unfold EnableMemory, terminalStateShortCircuit. apply outcome_writable, outcome_guard.
    apply outcome_circuit, get_record_frame.
  - unfold DeleteMemory, terminalHiddenStateShortCircuit.
    apply outcome_writable, outcome_guard, outcome_session.
    intros st1. apply outcome_circuit, get_hidden_frame.
Qed.
End mutations.

(** C5: Read your writes, for scopes whose identifiers are free of "|" and stores
    whose reads change nothing: when a mutation of such a scope has been
    answered with success and changed the durable world, the next recall of
    that scope on this process asks the recall backend on that world, at every
    consistency level; and the cached recalls of every other scope free of "|"
    stay as they were.  (With a "|" in an identifier the invalidation can drop
    entries of other scopes too.) *)
Theorem read_your_writes {E T V} clock write_digest patch_digest kind (s : Service E T V)
    {L : RecordStoreReads (backend s)} c rep auth req (st st1 st2 : St E T V) resp :
  (forall store, idempotencyStore s = Some store -> forall t k e, (LoadIdempotency store t k e).1 = e) ->
  let scope := call_scope c in
  record_mutation c = true -> clean_scope scope = true ->
  run_call clock write_digest patch_digest kind s c st = (st1, Ok rep) ->
  st_ext st1 <> st_ext st ->
  mergeScope auth (rr_Scope req) = scope ->
  RecallUnified clock s auth req st1 = (st2, Ok resp) ->
  (exists recall, recaller s = Some recall /\
     recalled_now recall scope (effective req) (st_ext st1) resp) /\
  (forall scope' req', clean_scope scope' = true -> scope' <> scope ->
     st_cache st1 !! buildRecallCacheKey scope' req' = st_cache st !! buildRecallCacheKey scope' req').
Proof.
  intros Hload scope Hm Hclean Hrun Hne Hscope Hrecall.
  apply mutation_outcomes in Hrun; [|done..]. destruct Hrun as [(He & _)|[Hc _]]; [congruence|].
  split.
  - apply RecallUnified_source in Hrecall; [|done]. rewrite Hscope in Hrecall.
    destruct Hrecall as [?|(entry & v & Hl & _)]; [done|]. exfalso.
    rewrite Hc, lookup_InvalidateScope in Hl. fold scope in Hl.
    by rewrite (proj2 (hasScopePrefix_key scope scope req Hclean Hclean)) in Hl.
  - intros scope' req' Hclean' Hne'. rewrite Hc, lookup_InvalidateScope. fold scope.
    destruct (hasScopePrefix _ scope) eqn:Ep; [|done].
    apply hasScopePrefix_key in Ep; [|done..]. congruence.
Qed.

(** Alice recalls (and fills the cache), writes, and recalls again. *)
Definition after_first_recall : St world memSessions memVersions :=
  run_calls ref_clock ref_write_digest ref_patch_digest ref_kind (ref_service false)
    [CallWrite alice (write_req "likes green tea"); CallRecall alice (recall_req "eventual" 0)] ref_start.
Definition after_second_write : St world memSessions memVersions :=
  (run_call ref_clock ref_write_digest ref_patch_digest ref_kind (ref_service false)
     (CallWrite alice (write_req "likes oolong")) after_first_recall).1.

Lemma read_your_writes_witness :
  ok_and (RecallUnified ref_clock (ref_service false) alice (recall_req "eventual" 0) after_second_write)
    (fun _ resp => exists recall, recaller (ref_service false) = Some recall /\
       recalled_now recall alice (effective (recall_req "eventual" 0)) (st_ext after_second_write) resp).
Proof.
  apply ok_and_intro; [vm_compute; reflexivity|]. intros st2 resp E.
  destruct (read_your_writes ref_clock ref_write_digest ref_patch_digest ref_kind (ref_service false)
    (CallWrite alice (write_req "likes oolong")) (RepWrite (mkWriteMemoryResult "m2" 1 "saved"))
    alice (recall_req "eventual" 0) after_first_recall after_second_write st2 resp) as [H _]; [| | | | | |exact E|exact H].
  - by intros store [= <-].
  - reflexivity.
  - reflexivity.
  - apply run_eq; [reflexivity|vm_compute; reflexivity].
  - intros Ew. apply (f_equal w_next) in Ew. vm_compute in Ew. discriminate Ew.
  - reflexivity.
Defined.

Lemma RecallUnified_fresh_witness :
  ok_and (RecallUnified ref_clock (ref_service false) alice (recall_req "bounded" 0)
            (run_calls ref_clock ref_write_digest ref_patch_digest ref_kind (ref_service false)
               [CallRecall alice (recall_req "bounded" 0)] after_first_recall))
    (fun _ resp => length (ru_Hits resp) = 1%nat) /\
  ok_and (RecallUnified ref_clock (ref_service false) alice (recall_req "strong" 0) after_first_recall)
    (fun _ resp => exists recall, recaller (ref_service false) = Some recall /\
       recalled_now recall alice (recall_req "strong" 0) (st_ext after_first_recall) resp).
Proof.
  split; [vm_compute; reflexivity|].
  apply ok_and_intro; [vm_compute; reflexivity|]. intros st2 resp E.
  destruct (RecallUnified_fresh ref_clock (ref_service false) alice (recall_req "strong" 0)
              after_first_recall st2 resp E) as [H|(entry & v & _ & _ & _ & Hf & _)].
  - exact H.
  - by destruct Hf.
Defined.
Close Scope Z_scope.
