(* ===== verification/ReplicaCache.v ===== *)
(** * Recalls and writes of several replicas, interleaved

    [RecallUnified] reads the scope version, then asks the backend, then fills
    its cache with the version it read; a mutation commits and then bumps the
    version ([invalidateScopeState]).  The steps of different requests and
    replicas interleave freely.  Generations count the committed writes of a
    scope; they are ghost state that says which writes an answer has seen. *)
From S2P Require Import Prelude GoStrings HttpApi Authz ScopeKeys Contract RecallCache Sessions ScopeVersions.
Open Scope Z_scope.

(** A recall under way: the version it read, and the answer once it has asked
    the backend, with the generation it has seen. *)
Record flight := mkFlight {
  fl_replica : nat;
  fl_scope : Scope;
  fl_req : RecallUnifiedRequest;
  fl_version : Z;
  fl_answer : option (RecallUnifiedResponse * nat)
}.

Record replicaSystem (V : Type) := mkReplicaSystem {
  rs_versions : V;
  rs_generation : gmap Scope nat;
  rs_unannounced : gmap Scope nat;
  rs_caches : nat -> recallCache;
  rs_seen : nat -> gmap string nat;
  rs_flights : list flight
}.
Arguments mkReplicaSystem {V}.
Arguments rs_versions {V}.
Arguments rs_generation {V}.
Arguments rs_unannounced {V}.
Arguments rs_caches {V}.
Arguments rs_seen {V}.
Arguments rs_flights {V}.

Definition count (m : gmap Scope nat) (scope : Scope) : nat := default 0%nat (m !! scope).
Definition at_replica {A} (i : nat) (f : A -> A) (m : nat -> A) : nat -> A :=
  fun j => if decide (j = i) then f (m j) else m j.

Section system.
Context {V : Type} (store : ScopeVersionStore V).

Inductive replica_step : replicaSystem V -> replicaSystem V -> Prop :=
| step_commit scope v gen un caches seen flights :
    clean_scope scope = true ->
    replica_step (mkReplicaSystem v gen un caches seen flights)
      (mkReplicaSystem v (<[scope := Datatypes.S (count gen scope)]> gen)
         (<[scope := Datatypes.S (count un scope)]> un) caches seen flights)
| step_bump scope v v' z n gen un caches seen flights :
    clean_scope scope = true -> count un scope = Datatypes.S n ->
    BumpScopeVersion store scope v = (v', Ok z) ->
    replica_step (mkReplicaSystem v gen un caches seen flights)
      (mkReplicaSystem v' gen (<[scope := n]> un) caches seen flights)
| step_bump_failed scope v v' e gen un caches seen flights :
    clean_scope scope = true -> BumpScopeVersion store scope v = (v', Fail e) ->
    replica_step (mkReplicaSystem v gen un caches seen flights)
      (mkReplicaSystem v' gen un caches seen flights)
| step_drop i scope v gen un caches seen flights :
    clean_scope scope = true ->
    replica_step (mkReplicaSystem v gen un caches seen flights)
      (mkReplicaSystem v gen un (at_replica i (InvalidateScope scope) caches) seen flights)
| step_read i scope req v v' z gen un caches seen flights :
    clean_scope scope = true -> CurrentScopeVersion store scope v = (v', Ok z) ->
    replica_step (mkReplicaSystem v gen un caches seen flights)
      (mkReplicaSystem v' gen un caches seen (mkFlight i scope req z None :: flights))
| step_ask i scope req z resp v gen un caches seen l1 l2 :
    clean_scope scope = true ->
    replica_step (mkReplicaSystem v gen un caches seen (l1 ++ mkFlight i scope req z None :: l2))
      (mkReplicaSystem v gen un caches seen
         (l1 ++ mkFlight i scope req z (Some (resp, count gen scope)) :: l2))
| step_fill i scope req z resp g t v gen un caches seen l1 l2 :
    clean_scope scope = true ->
    replica_step (mkReplicaSystem v gen un caches seen
                    (l1 ++ mkFlight i scope req z (Some (resp, g)) :: l2))
      (mkReplicaSystem v gen un
         (at_replica i (cache_Set (buildRecallCacheKey scope req) resp t z) caches)
         (at_replica i <[buildRecallCacheKey scope req := g]> seen) (l1 ++ l2)).

Definition replica_start (v : V) : replicaSystem V :=
  mkReplicaSystem v ∅ ∅ (fun _ => ∅) (fun _ => ∅) [].

(** ** The invariant *)
Context (version : V -> Scope -> Z) {L : ScopeVersionLaws store version}.

(** No counter is at its bound. *)
Definition roomy (s : replicaSystem V) : Prop :=
  forall scope, clean_scope scope = true -> room (version (rs_versions s) scope).

(** An answer of generation [g] filled under version [z] has seen every write,
    or a write is not announced yet, or the version has moved on. *)
Definition accounted (s : replicaSystem V) (scope : Scope) (z : Z) (g : nat) : Prop :=
  z <= version (rs_versions s) scope /\
  (g = count (rs_generation s) scope \/ (0 < count (rs_unannounced s) scope)%nat \/
   z < version (rs_versions s) scope).

Definition flight_ok (s : replicaSystem V) (f : flight) : Prop :=
  clean_scope (fl_scope f) = true ->
  match fl_answer f with
  | None => fl_version f <= version (rs_versions s) (fl_scope f)
  | Some (_, g) => accounted s (fl_scope f) (fl_version f) g
  end.

Definition replica_inv (s : replicaSystem V) : Prop :=
  (forall i scope req e, clean_scope scope = true ->
     rs_caches s i !! buildRecallCacheKey scope req = Some e ->
     exists g, rs_seen s i !! buildRecallCacheKey scope req = Some g /\
       accounted s scope (ce_scopeVersion e) g) /\
  Forall (flight_ok s) (rs_flights s).

(** A change of versions, generations and announcements that keeps every
    account balanced keeps the invariant. *)
Definition accounts_kept (s s' : replicaSystem V) : Prop :=
  forall scope, clean_scope scope = true ->
    version (rs_versions s) scope <= version (rs_versions s') scope /\
    forall z g, accounted s scope z g -> accounted s' scope z g.

Lemma replica_inv_kept v v' gen gen' un un' caches seen flights :
  accounts_kept (mkReplicaSystem v gen un caches seen flights)
    (mkReplicaSystem v' gen' un' caches seen flights) ->
  replica_inv (mkReplicaSystem v gen un caches seen flights) ->
  replica_inv (mkReplicaSystem v' gen' un' caches seen flights).
Proof.
  intros Hk [Hc Hf]. split; cbn in *.
  - intros i scope req e Hs He. destruct (Hc i scope req e Hs He) as (g & Hg & Ha).
    exists g. split; [done|]. by apply Hk.
  - eapply Forall_impl; [exact Hf|]. intros f Hok Hs. specialize (Hok Hs). unfold flight_ok in *.
    destruct (Hk _ Hs) as [Hle Hacc]. destruct (fl_answer f) as [[resp g]|]; [by apply Hacc|].
    cbn in *. lia.
Qed.

Lemma count_insert (m : gmap Scope nat) scope n sc :
  count (<[scope := n]> m) sc = if decide (sc = scope) then n else count m sc.
Proof.
  unfold count. destruct (decide (sc = scope)) as [->|Hne].
  - by rewrite lookup_insert_eq.
  - by rewrite lookup_insert_ne.
Qed.

Lemma replica_inv_step s s' : replica_step s s' -> roomy s -> replica_inv s -> replica_inv s'.
Proof using L.
  intros [scope v gen un caches seen fl Hs
         |scope v v' z n gen un caches seen fl Hs Hn Hb
         |scope v v' e gen un caches seen fl Hs Hb
         |i scope v gen un caches seen fl Hs
         |i scope req v v' z gen un caches seen fl Hs Hcur
         |i scope req z resp v gen un caches seen l1 l2 Hs
         |i scope req z resp g t v gen un caches seen l1 l2 Hs] Hroom Hinv.
  - apply (replica_inv_kept v v gen _ un); [|done]. intros sc Hsc. cbn. split; [lia|].
    intros z g. unfold accounted. cbn. rewrite !count_insert. destruct (decide (sc = scope)); lia.
  - pose proof (bump_law scope v v' _ Hs (Hroom scope Hs) Hb) as (Hother & Hown & _).
    assert (Hup : version v' scope = version v scope + 1) by (destruct Hown as [?|[_ Hf]]; [done|done]).
    apply (replica_inv_kept v v' gen gen un); [|done]. intros sc Hsc. cbn.
    destruct (decide (sc = scope)) as [->|Hne].
    + rewrite Hup. split; [lia|]. intros z' g. unfold accounted. cbn. lia.
    + rewrite (Hother sc Hsc Hne). split; [lia|]. intros z' g. unfold accounted. cbn.
      rewrite count_insert, decide_False by done. by rewrite (Hother sc Hsc Hne).
  - pose proof (bump_law scope v v' _ Hs (Hroom scope Hs) Hb) as (Hother & Hown & _).
    apply (replica_inv_kept v v' gen gen un un); [|done]. intros sc Hsc. cbn.
    destruct (decide (sc = scope)) as [->|Hne].
    + split; [lia|]. intros z' g. unfold accounted. cbn. lia.
    + rewrite (Hother sc Hsc Hne). split; [lia|]. intros z' g. unfold accounted. cbn.
      by rewrite (Hother sc Hsc Hne).
  - destruct Hinv as [Hc Hf]. split; cbn in *; [|done]. intros j sc req e Hsc He.
    apply (Hc j sc req e Hsc). unfold at_replica in He. destruct (decide (j = i)); [|done].
    rewrite lookup_InvalidateScope in He. by destruct (hasScopePrefix _ _).
  - destruct (current_law scope v v' _ Hs Hcur) as [Hv Hz]. specialize (Hz z eq_refl).
    assert (Hinv' : replica_inv (mkReplicaSystem v' gen un caches seen fl)).
    { apply (replica_inv_kept v v' gen gen un un); [|done]. intros sc Hsc. cbn. rewrite Hv.
      split; [lia|]. intros z' g. unfold accounted. cbn. by rewrite Hv. }
    destruct Hinv' as [Hc Hf]. split; cbn in *; [exact Hc|]. constructor; [|exact Hf].
    intros _. cbn. rewrite Hv. lia.
  - destruct Hinv as [Hc Hf]. split; cbn in *; [exact Hc|].
    apply Forall_app in Hf as [H1 [H2 H3]%Forall_cons]. apply Forall_app. split; [exact H1|].
    constructor; [|exact H3]. intros Hsc. cbn. split; [by apply H2|by left].
  - destruct Hinv as [Hc Hf]. cbn in *. apply Forall_app in Hf as [H1 [H2 H3]%Forall_cons].
    split; cbn; [|by apply Forall_app]. intros j sc req' e Hsc. unfold at_replica.
    destruct (decide (j = i)) as [->|]; [|by apply Hc]. unfold cache_Set.
    destruct (decide (buildRecallCacheKey scope req = buildRecallCacheKey sc req')) as [E|Hne].
    + destruct (recall_key_inj _ _ _ _ Hs Hsc E) as [<- _]. rewrite <-E, !lookup_insert_eq.
      intros [= <-]. exists g. split; [done|]. by apply H2.
    + rewrite !lookup_insert_ne by done. by apply Hc.
Qed.

(** Runs in which no counter reaches its bound. *)
Definition replica_run (v : V) (s : replicaSystem V) : Prop :=
  rtc (fun a b => roomy a /\ replica_step a b) (replica_start v) s.

Lemma replica_inv_run v s : replica_run v s -> replica_inv s.
Proof using L.
  unfold replica_run. intros H.
  assert (Hstart : replica_inv (replica_start v)).
  { split; cbn; [|constructor]. intros i scope req e _. by rewrite lookup_empty. }
  induction H as [|s1 s2 s3 [Hr Hs] _ IH]; [done|]. eapply IH, replica_inv_step; eauto.
Qed.

(** C15: Bounded recall across replicas, for scopes whose identifiers are free
    of "|" and a version store that keeps one counter per scope, each bump of
    which adds one (while none is negative or at the end of int64): however the steps
    of recalls and writes of such scopes on any number of replicas interleave,
    a cache answer at level bounded, looked up with the current version of the
    scope while every write of the scope has been announced by its bump, was
    asked of the backend after the last write, and is at most 5 seconds old. *)
Theorem bounded_lookup_sees_all_writes v s i scope req allow now z resp stale :
  replica_run v s -> clean_scope scope = true ->
  (CurrentScopeVersion store scope (rs_versions s)).2 = Ok z ->
  count (rs_unannounced s) scope = 0%nat ->
  Lookup (rs_caches s i) (buildRecallCacheKey scope req) "bounded" allow now z = Some (resp, stale) ->
  rs_seen s i !! buildRecallCacheKey scope req = Some (count (rs_generation s) scope) /\
  stale = false /\
  exists e, rs_caches s i !! buildRecallCacheKey scope req = Some e /\
    resp = ce_response e /\ now - ce_cachedAt e <= 5 * second.
Proof using L.
  intros Hrun Hs Hz Hun Hl. apply replica_inv_run in Hrun as [Hc _].
  destruct (CurrentScopeVersion store scope (rs_versions s)) as [v' r] eqn:Ecur. cbn in Hz. subst r.
  destruct (current_law scope _ _ _ Hs Ecur) as [_ Hzv]. specialize (Hzv z eq_refl).
  unfold Lookup, cache_Get in Hl.
  destruct (rs_caches s i !! buildRecallCacheKey scope req) as [e|] eqn:He; [|done].
  destruct (Hc i scope req e Hs He) as (g & Hg & _ & Hacc). cbn in Hl.
  destruct (Z.eqb_spec (ce_scopeVersion e) z) as [Ez|]; [|done].
  rewrite (time_sub_gt _ _ boundedCacheTTL) in Hl by done. cbn in Hl.
  destruct (Z.ltb_spec boundedCacheTTL (now - ce_cachedAt e)); [done|]. injection Hl as <- <-.
  split_and!; [|done|by exists e]. rewrite Hg. f_equal. lia.
Qed.
End system.

(** A recall of replica 1 that starts before a write and fills after it is not
    served at level bounded; the one that starts after the bump is. *)
Definition wscope : Scope := mkScope "acme" "alice" "p" "s1".
Definition wreq : RecallUnifiedRequest :=
  mkRecallUnifiedRequest (mkScopePayload "" "" "" "") "tea" 8 0 0 "bounded" false false.
Definition wresp : RecallUnifiedResponse := mkRecallUnifiedResponse [] (Some 0%nat).
Definition wkey : string := buildRecallCacheKey wscope wreq.

Lemma mem_roomy (m : memVersions) scope :
  map_Forall (fun _ z => room z) m -> room (mem_version m scope).
Proof.
  intros Hm. unfold mem_version. destruct (m !! sessionScopeKey scope) as [z|] eqn:E; cbn.
  - exact (Hm _ _ E).
  - by vm_compute.
Qed.

(** The state after a write, its bump, and a recall of replica 1. *)
Definition wbumped : memVersions := <[sessionScopeKey wscope := 1]> ∅.
Definition wsystem : replicaSystem memVersions :=
  mkReplicaSystem wbumped {[wscope := 1%nat]} (<[wscope := 0%nat]> {[wscope := 1%nat]})
    (at_replica 1 (cache_Set wkey wresp 7000 1) (fun _ => ∅))
    (at_replica 1 <[wkey := 1%nat]> (fun _ => ∅)) [].

Lemma wsystem_run : replica_run memoryScopeVersionStore mem_version ∅ wsystem.
Proof.
  assert (R0 : forall sc, room (mem_version ∅ sc)) by (intros; apply mem_roomy, map_Forall_empty).
  assert (R1 : forall sc, room (mem_version wbumped sc)).
  { intros. apply mem_roomy, map_Forall_insert_2; [by vm_compute|apply map_Forall_empty]. }
  eapply rtc_l.
  { split; [by intros sc _|]. by apply (step_commit _ wscope ∅ ∅ ∅). }
  eapply rtc_l.
  { split; [by intros sc _|]. by apply (step_bump _ wscope ∅ wbumped 1 0). }
  eapply rtc_l.
  { split; [by intros sc _|]. by apply (step_read _ 1 wscope wreq wbumped wbumped 1). }
  eapply rtc_l.
  { split; [by intros sc _|]. by apply (step_ask _ 1 wscope wreq 1 wresp wbumped _ _ _ _ [] []). }
  eapply rtc_l.
  { split; [by intros sc _|]. by apply (step_fill _ 1 wscope wreq 1 wresp 1 7000 wbumped _ _ _ _ [] []). }
  apply rtc_refl.
Qed.

Lemma bounded_lookup_sees_all_writes_witness :
  rs_seen wsystem 1 !! wkey = Some (count (rs_generation wsystem) wscope).
Proof.
  refine (proj1 (bounded_lookup_sees_all_writes memoryScopeVersionStore mem_version ∅ wsystem 1
            wscope wreq false 8000 1 wresp false wsystem_run _ _ _ _)).
  - reflexivity.
  - vm_compute. reflexivity.
  - vm_compute. reflexivity.
  - vm_compute. reflexivity.
Defined.
Close Scope Z_scope.
