(* ===== verification/Selection.v ===== *)
(** * Which memories a recall selects

    The order in which candidates are offered to the token budget, and what
    the selection guarantees. *)
From S2P Require Import Prelude GoStrings GoFloat GoSort HttpApi Authz ScopeKeys Contract RecallCache Sessions ScopeVersions RecallSelection HybridRecall Service ServiceFootprint ServiceRuns Freshness RefWorld.
Open Scope Z_scope.

Definition three_scores : list (string * float64) := [("m2"%string, f_one); ("m3"%string, f_half); ("m1"%string, f_one)].

Lemma rankedCandidateIDs_topk_witness :
  let ids := rankedCandidateIDs three_scores 2 in
  (NoDup ids /\ rankedCandidateIDs (rev three_scores) 2 = ids) /\ ids = ["m1"; "m2"]%string.
Proof.
  split; [|vm_compute; reflexivity].
  destruct (rankedCandidateIDs_topk three_scores 2) as (Hnd & _ & _ & Hperm).
  - split; [apply (bool_decide_unpack _); vm_compute; exact I|].
    repeat constructor; vm_compute; reflexivity.
  - lia.
  - split; [exact Hnd|]. apply Hperm. apply Permutation_rev.
Defined.

(** Two sources propose the same record with different scores. *)
Definition scored_source (score : float64) : RecallCandidateSource world :=
  fun _ _ _ w => (w, Ok [mkRecallCandidate "m1" score]).
Definition one_memory : world :=
  (WriteRecord ref_backend (mkWriteRecordInput "acme" "k1" "h"
     (mkMemoryRecord "" "acme" "alice" "p" "s1" "semantic" "user_saved" "" "likes green tea" [] f_half
        false false false 0 0 None)) empty_world).1.

Lemma hybrid_recall_returns_best_witness :
  ok_and (HybridRecaller_Recall map_to_list
            (NewHybridRecaller (Some (HydrateRecords (Some ref_backend)))
               [Some (scored_source f_half); None; Some (scored_source f_one)])
            (mkScope "acme" "alice" "p" "s1") "tea" 0 one_memory)
    (fun e records => e = one_memory /\ records <> []).
Proof.
  apply ok_and_intro; [vm_compute; reflexivity|]. intros e records E.
  destruct (hybrid_recall_returns_best map_to_list ref_backend
    [Some (scored_source f_half); None; Some (scored_source f_one)] (mkScope "acme" "alice" "p" "s1") "tea" 0
    one_memory e records) as (He & Hr & _).
  - intros m. reflexivity.
  - repeat constructor; vm_compute; reflexivity.
  - intros src Hin. cbn in Hin. rewrite !elem_of_cons, elem_of_nil in Hin.
    destruct Hin as [->|[->|[]]]; reflexivity.
  - exact E.
  - split; [exact He|exact Hr].
Defined.

(** *** The order of the candidates *)
Definition offered_before (a b : recallCandidate) : Prop :=
  f_ltb (rc_score b) (rc_score a) = true \/
  f_eqb (rc_score a) (rc_score b) = true /\
  (rc_tokenEstimate a < rc_tokenEstimate b \/
   rc_tokenEstimate a = rc_tokenEstimate b /\
   str_ltb (m_MemoryID (rc_record b)) (m_MemoryID (rc_record a)) = false).

(** What is added to the importance of a record. *)
Definition bonuses (r : MemoryRecord) (estimate : Z) : list float64 :=
  (if m_Pinned r then [f_two] else []) ++
  (if bool_decide (m_Source r = "user_saved"%string) then [f_one] else []) ++
  (if bool_decide (0 < estimate) then [f_div f_one (f_of_Z estimate)] else []).
Definition base_importance (r : MemoryRecord) : float64 :=
  if f_eqb (m_Importance r) f_zero then f_half else m_Importance r.

Lemma candidate_less_offered a b :
  scored a -> scored b -> not_after candidate_less a b -> offered_before a b.
Proof.
  unfold not_after, candidate_less, offered_before. intros Ha Hb.
  rewrite f_neqb_gtb by done. unfold f_gtb. change SFltb with f_ltb.
  destruct (f_ltb (rc_score b) (rc_score a)) eqn:E1; [by left|]. right.
  destruct (f_ltb (rc_score a) (rc_score b)) eqn:E2; cbn [orb] in *; [done|].
  split.
  { apply f_eqb_key; [done..|]. rewrite <-not_true_iff_false, f_ltb_key in E1, E2 by done.
    unfold f_key_lt, f_key_eq in *. lia. }
  destruct (Z.eqb_spec (rc_tokenEstimate b) (rc_tokenEstimate a)) as [Et|]; cbn in *; [by right|left; lia].
Qed.

Lemma offered_both_id a b :
  scored a -> scored b -> offered_before a b -> offered_before b a ->
  m_MemoryID (rc_record a) = m_MemoryID (rc_record b).
Proof.
  unfold offered_before. intros Ha Hb Hab Hba.
  assert (Hk : f_eqb (rc_score a) (rc_score b) = true \/ f_eqb (rc_score b) (rc_score a) = true ->
    f_ltb (rc_score b) (rc_score a) <> true /\ f_ltb (rc_score a) (rc_score b) <> true).
  { rewrite !f_eqb_key, !f_ltb_key by done. unfold f_key_eq, f_key_lt. lia. }
  assert (Hlt : f_ltb (rc_score b) (rc_score a) = true -> f_ltb (rc_score a) (rc_score b) <> true).
  { rewrite !f_ltb_key by done. unfold f_key_lt. lia. }
  destruct Hab as [Hab|[Eab Hab]], Hba as [Hba|[Eba Hba]]; try tauto.
  apply str_ltb_total; intuition lia.
Qed.

Lemma make_candidate_score r : let c := make_candidate r in
  rc_score c = foldl f_add (base_importance r) (bonuses r (rc_tokenEstimate c)).
Proof.
  cbn. unfold recallCandidateScore, base_importance, bonuses.
  destruct (Z.ltb_spec 0 (EstimateTokenCost (m_Content r)));
    rewrite ?(bool_decide_eq_true_2 (0 < _)), ?(bool_decide_eq_false_2 (0 < _)) by lia;
    by destruct (f_eqb _ _), (m_Pinned r), (bool_decide _).
Qed.

Lemma make_candidate_estimate r : let e := rc_tokenEstimate (make_candidate r) in
  RuneCountInString (m_Content r) <= 4 * e < RuneCountInString (m_Content r) + 4.
Proof.
  cbn. pose proof (EstimateTokenCost_bounds (m_Content r)) as (_ & _ & Hr). split; [done|].
  pose proof (RuneCountInString_bounds (m_Content r)).
  unfold EstimateTokenCost. case_bool_decide; [lia|]. rewrite Z.quot_div_nonneg by lia.
  pose proof (Z.mod_pos_bound (RuneCountInString (m_Content r) + 3) 4).
  pose proof (Z.div_mod (RuneCountInString (m_Content r) + 3) 4). lia.
Qed.

Lemma buildRecallCandidates_sorted records :
  records_scored records = true -> StronglySorted offered_before (buildRecallCandidates records).
Proof.
  intros Hs%records_scored_Forall. eapply StronglySorted_weaken; [|by apply (SliceStable_sorted _ scored)].
  assert (Hall : Forall scored (buildRecallCandidates records)) by by rewrite buildRecallCandidates_perm.
  rewrite Forall_forall in Hall. intros a b Ha Hb. apply candidate_less_offered; by apply Hall.
Qed.

(** C27: The candidates of a recall are the recalled records, each with the
    number of its runes over four, rounded up, as its token estimate, and with
    its importance (one half when it is zero) plus 2 if it is pinned, plus 1 if
    the user saved it, plus the inverse of its estimate as its score, added in
    this order in 64-bit floats.  They are offered in descending score, then
    ascending estimate, then ascending identifier; and with distinct
    identifiers that is the only such list, whatever order the backend
    returned the records in.  (Scores that are numbers.) *)
Theorem buildRecallCandidates_order records :
  records_scored records = true ->
  let cands := buildRecallCandidates records in
  map rc_record cands ≡ₚ records /\
  Forall (fun c => let content := m_Content (rc_record c) in
            RuneCountInString content <= 4 * rc_tokenEstimate c < RuneCountInString content + 4 /\
            rc_score c = foldl f_add (base_importance (rc_record c))
                           (bonuses (rc_record c) (rc_tokenEstimate c))) cands /\
  (forall i j a b, (i < j)%nat -> cands !! i = Some a -> cands !! j = Some b -> offered_before a b) /\
  (NoDup (map m_MemoryID records) -> forall other, other ≡ₚ cands -> StronglySorted offered_before other ->
     other = cands) /\
  (NoDup (map m_MemoryID records) -> forall records', records ≡ₚ records' ->
     buildRecallCandidates records' = cands).
Proof.
  intros Hsc cands. pose proof (records_scored_Forall _ Hsc) as Hs.
  pose proof (buildRecallCandidates_perm records : cands ≡ₚ _) as Hp.
  pose proof (buildRecallCandidates_sorted records Hsc) as Hsort. fold cands in Hsort.
  assert (Huniq : NoDup (map m_MemoryID records) -> forall other, other ≡ₚ cands ->
    StronglySorted offered_before other -> other = cands).
  { intros Hnd other Ho Hso. apply (StronglySorted_unique_strong offered_before); [|done..].
    rewrite Forall_forall in Hs. intros a b Ha Hb Hab Hba. rewrite Ho, Hp in Ha. rewrite Hp in Hb.
    apply (distinct_ids_candidates records); [done..|]. apply offered_both_id; auto. }
  split_and!; [| | |exact Huniq|].
  - change (rc_record <$> cands ≡ₚ records). rewrite Hp. change (map rc_record (map make_candidate records) ≡ₚ records).
    rewrite map_map. cbn. by rewrite map_id.
  - rewrite Forall_forall. intros c (r & _ & ->)%buildRecallCandidates_elem. split;
      [apply make_candidate_estimate|apply make_candidate_score].
  - intros i j a b. by apply StronglySorted_lookup.
  - intros Hnd records' Hr. apply Huniq; [done| |].
    + rewrite buildRecallCandidates_perm, Hp. by rewrite Hr.
    + apply buildRecallCandidates_sorted. revert Hsc. unfold records_scored.
      rewrite !forallb_forall. intros H r Hin. apply H. apply list_elem_of_In. rewrite Hr. by apply list_elem_of_In.
Qed.
Definition small_record (id content : string) (importance : float64) (pinned : bool) : MemoryRecord :=
  mkMemoryRecord id "acme" "alice" "p" "s1" "semantic" "" "" content [] importance pinned
    false false 1 0 None.
Definition three_records : list MemoryRecord :=
  [small_record "b" "12345678" f_half false; small_record "a" "12345678" f_zero false;
   small_record "c" "a very long memory" f_zero true].

Lemma buildRecallCandidates_order_witness :
  map (fun c => m_MemoryID (rc_record c)) (buildRecallCandidates three_records)
    = ["c"%string; "a"%string; "b"%string] /\
  buildRecallCandidates (reverse three_records) = buildRecallCandidates three_records.
Proof.
  split; [vm_compute; reflexivity|].
  destruct (buildRecallCandidates_order three_records) as (_ & _ & _ & _ & H).
  - vm_compute. reflexivity.
  - apply H; [|by rewrite reverse_Permutation].
    repeat constructor; vm_compute; intros Hin; repeat (apply elem_of_cons in Hin as [?|Hin]; [done|]);
      by apply elem_of_nil in Hin.
Defined.

(** The estimate of a text is the number of its runes divided by four,
    rounded up; only the empty text costs nothing. *)
Theorem EstimateTokenCost_ceiling content :
  let e := EstimateTokenCost content in
  RuneCountInString content <= 4 * e < RuneCountInString content + 4 /\
  (e = 0 <-> content = ""%string) /\ 4 * e <= Z.of_nat (String.length content) + 3.
Proof.
  intros e. pose proof (EstimateTokenCost_bounds content) as (H0 & Hlen & Hr).
  pose proof (RuneCountInString_bounds content). split_and!; [done| |apply EstimateTokenCost_zero|done].
  unfold e, EstimateTokenCost. case_bool_decide; [lia|]. rewrite Z.quot_div_nonneg by lia.
  pose proof (Z.mod_pos_bound (RuneCountInString content + 3) 4).
  pose proof (Z.div_mod (RuneCountInString content + 3) 4). lia.
Qed.

(** *** The budget *)
Lemma strong_recall_now {E T V} clock (s : Service E T V) {L : RecordStoreReads (backend s)}
    recall auth req (st st' : St E T V) resp :
  recaller s = Some recall -> recall_level req = "strong"%string ->
  RecallUnified clock s auth req st = (st', Ok resp) ->
  recalled_now recall (mergeScope auth (rr_Scope req)) (effective req) (st_ext st) resp.
Proof.
  intros Hr Hl H. apply RecallUnified_source in H; [|done].
  destruct H as [(recall' & Hr' & H)|(entry & v & _ & _ & _ & Hf & _)]; [congruence|by destruct Hf].
Qed.

Lemma effective_budget req : rr_MemoryTokenBudget (effective req) = rr_MemoryTokenBudget req.
Proof. unfold effective. by destruct (rr_TopK req =? 0). Qed.

Definition hit_cost (hit : RecallHitResponse) : Z := hm_TokenCostEstimate (hit_Metadata hit).

(** C26: The hits of a fresh recall are candidates in their order.  With a
    positive memory token budget their estimates stay within it, and every
    candidate left out would have passed it even at the end; without one all
    candidates are returned. *)
Theorem recall_within_budget {E T V} clock (s : Service E T V) {L : RecordStoreReads (backend s)}
    recall auth req (st st' : St E T V) resp e' records :
  let scope := mergeScope auth (rr_Scope req) in
  let cands := buildRecallCandidates records in
  recaller s = Some recall -> recall_level req = "strong"%string ->
  RecallUnified clock s auth req st = (st', Ok resp) ->
  recall scope (rr_Query (effective req)) (rr_TopK (effective req)) (st_ext st) = (e', Ok records) ->
  sum_Z (estimates cands) <= max_int64 ->
  ru_Hits resp `sublist_of` map make_hit cands /\
  (rr_MemoryTokenBudget req <= 0 -> ru_Hits resp = map make_hit cands) /\
  (0 < rr_MemoryTokenBudget req ->
     sum_Z (map hit_cost (ru_Hits resp)) <= rr_MemoryTokenBudget req /\
     forall c, c ∈ cands -> make_hit c ∈ ru_Hits resp \/
       rr_MemoryTokenBudget req < sum_Z (map hit_cost (ru_Hits resp)) + rc_tokenEstimate c).
Proof.
  intros scope cands Hr Hl Hrun Hrec Hfit.
  apply (strong_recall_now clock s recall) in Hrun; [|done..]. unfold recalled_now in Hrun.
  fold scope in Hrun. rewrite Hrec in Hrun. cbn in Hrun. unfold selection in Hrun.
  rewrite effective_budget in Hrun. fold cands in Hrun.
  set (budget := rr_MemoryTokenBudget req) in *.
  assert (Hcost : forall l, map hit_cost (map make_hit l) = estimates l).
  { intros l. unfold estimates. rewrite map_map. by apply map_ext. }
  assert (Hfits : estimates_fit 0 cands).
  { split; [|lia]. rewrite Forall_forall. intros c (r & _ & ->)%buildRecallCandidates_elem.
    apply make_candidate_estimate_nonneg. }
  rewrite Hrun. split_and!.
  - apply map_sublist, greedy_sublist.
  - intros Hb. by rewrite greedy_unlimited.
  - intros Hb. rewrite Hcost. split.
    + pose proof (greedy_within budget 0 cands Hb Hfits). lia.
    + intros c Hc. destruct (greedy_maximal budget 0 cands c Hb Hfits Hc) as [Hin|]; [left|right; lia].
      apply list_elem_of_fmap. by exists c.
Qed.
Definition selection_world : world :=
  put_record "acme" "a" (small_record "a" "12345678" f_zero false)
    (put_record "acme" "b" (small_record "b" "12345678" f_half false)
       (put_record "acme" "c" (small_record "c" "a very long memory" f_zero true) empty_world)).
Definition selection_start : St world memSessions memVersions := mkSt selection_world (∅, ∅) ∅ ∅ [] 0.

Definition selection_run := HybridRecaller_Recall map_to_list ref_recaller alice "tea" 8 selection_world.
Definition selection_records : list MemoryRecord :=
  match selection_run.2 with Ok records => records | Fail _ => [] end.

(** A budget of 4 skips the best candidate (5 tokens) and takes the two small
    ones. *)
Lemma recall_within_budget_witness :
  ok_and (RecallUnified ref_clock (ref_service false) alice (recall_req "strong" 4) selection_start)
    (fun _ resp => sum_Z (map hit_cost (ru_Hits resp)) <= 4) /\
  ok_and (RecallUnified ref_clock (ref_service false) alice (recall_req "strong" 4) selection_start)
    (fun _ resp => map hit_MemoryID (ru_Hits resp) = ["a"%string; "b"%string]).
Proof.
  split; [|vm_compute; reflexivity].
  apply ok_and_intro; [vm_compute; reflexivity|]. intros st2 resp E.
  refine (proj1 (proj2 (proj2 (recall_within_budget ref_clock (ref_service false)
      (HybridRecaller_Recall map_to_list ref_recaller) alice (recall_req "strong" 4) selection_start
      st2 resp selection_run.1 selection_records eq_refl eq_refl E _ _)) _)).
  - apply run_eq; [reflexivity|vm_compute; reflexivity].
  - vm_compute. discriminate.
  - done.
Defined.
Close Scope Z_scope.
