(* ===== verification/Mutations.v ===== *)
(** * Mutations and errors

    The read-only freeze, the errors that leave the service, optimistic
    concurrency and replay of the flag mutations, and idempotent patches. *)
From S2P Require Import Prelude GoStrings GoFloat HttpApi Authz ScopeKeys Contract RecallCache Sessions ScopeVersions RecallSelection HybridRecall Service ServiceFootprint ServiceRuns ServiceCalls RefWorld.
Open Scope Z_scope.

Section mutations.
Context {E T V : Type} (clock : nat -> time)
  (write_digest : Scope -> WriteRecordPayload -> string)
  (patch_digest : Scope -> string -> Z -> PatchMemoryFields -> string)
  (kind : string -> result goerror string).
Context (s : Service E T V).
Abbreviation S := (St E T V).
Abbreviation run := (run_call clock write_digest patch_digest kind s).

(** C23: In read-only mode every write, patch, pin, unpin, disable, enable,
    delete, close, heartbeat and reap answers the retryable read-only error at
    once: no state of the service or of the world changes, whatever the
    request. *)
Theorem read_only_freezes c st :
  readOnly s = true -> mutates c = true ->
  run c st = (st, Fail (ErrReadOnlyMode "memory gateway is temporarily read-only" [])).
Proof.
  intros Hro. assert (Hw : forall A (f : unit -> GoM S A), (ensureWritable s ≫= f) st
      = (st, Fail (ErrReadOnlyMode "memory gateway is temporarily read-only" []))).
  { intros A f. unfold ensureWritable. by rewrite bind_reject_true. }
  destruct c; cbn [mutates run_call]; try done; intros _; unfold reply_with, ReapIdleSession;
    rewrite ?run_bind; rewrite ?run_bind; unfold WriteMemory, PatchMemory, PinMemory, UnpinMemory,
      DisableMemory, EnableMemory, DeleteMemory, CloseSession, HeartbeatSession; by rewrite Hw.
Qed.

(** ** Errors *)
Definition typed {A} (m : GoM S A) : Prop :=
  forall st st' e, m st = (st', Fail e) -> gateway_built e.

Lemma typed_ret {A} (a : A) : typed (mret a).
Proof. by intros st st' e. Qed.
Lemma typed_throw {A} e : gateway_built e -> typed (throw e : GoM S A).
Proof. by intros H st st' e' [= _ <-]. Qed.
Lemma typed_bind {A B} (m : GoM S A) (f : A -> GoM S B) :
  typed m -> (forall a, typed (f a)) -> typed (m ≫= f).
Proof. intros Hm Hf st st' e [H|(st1 & a & _ & H)]%bind_fail_inv; [by eapply Hm|by eapply Hf]. Qed.
Lemma typed_attempt {A} (m : GoM S A) : typed (attempt m).
Proof. intros st st' e. unfold attempt. by destruct (m st). Qed.
Lemma translate_built err : gateway_built (translateBackendError (Some err)).
Proof. unfold translateBackendError. repeat case_match; auto with gateway_errors. Qed.
Lemma typed_translated {A} (m : GoM S A) : typed (translated m).
Proof.
  intros st st' e. rewrite run_translated. destruct (m st).2; [done|]. intros [= _ <-]. apply translate_built.
Qed.
Lemma typed_reject_if b e : gateway_built e -> typed (reject_if b e : GoM S unit).
Proof. destruct b; [apply typed_throw|intros _; apply typed_ret]. Qed.
Lemma validate_built ttl o t e : validateSessionState ttl o t = Some e -> gateway_built e.
Proof.
  unfold validateSessionState. repeat case_match; intros [= <-]; auto with gateway_errors.
Qed.
Lemma typed_pure {A} (m : GoM S A) : (forall st, is_ok (m st).2 = true) -> typed m.
Proof. intros H st st' e E1. specialize (H st). by rewrite E1 in H. Qed.

Hint Resolve typed_ret typed_throw typed_attempt typed_translated typed_reject_if translate_built : go_typed.
Hint Extern 2 (gateway_built _) => solve [auto with gateway_errors] : go_typed.

Lemma typed_session scope : typed (ensureSessionOpen clock s scope).
Proof.
  unfold ensureSessionOpen. apply typed_bind; [auto with go_typed|intros o].
  apply typed_bind; [by apply typed_pure|intros t].
  destruct (validateSessionState _ _ _) as [e|] eqn:Ev; [|apply typed_ret].
  apply typed_throw. by eapply validate_built.
Qed.
Lemma typed_writable : typed (ensureWritable s).
Proof. unfold ensureWritable. auto with go_typed. Qed.
Lemma typed_effect f : typed (effect f : GoM S unit).
Proof. by apply typed_pure. Qed.
Lemma typed_Emit stage fields : typed (Emit s stage fields).
Proof. by apply typed_pure. Qed.
Lemma typed_alloc t : typed (alloc t : GoM S nat).
Proof. by apply typed_pure. Qed.
Lemma typed_store_at a f : typed (store_at a f : GoM S unit).
Proof. by apply typed_pure. Qed.
Lemma typed_on_cache f : typed (on_cache f : GoM S unit).
Proof. by apply typed_pure. Qed.
Lemma typed_now : typed (now clock : GoM S time).
Proof. by apply typed_pure. Qed.
Lemma typed_gets {A} (f : S -> A) : typed (gets f).
Proof. by apply typed_pure. Qed.
Lemma typed_invalidate scope : typed (invalidateScopeState s scope).
Proof. apply typed_pure. intros st. by rewrite run_invalidate. Qed.
Lemma typed_select budget cands total hits : typed (select_candidates s budget cands total hits).
Proof.
  apply typed_pure. intros st.
  destruct (select_candidates_greedy s budget cands total hits st) as [st' ->]. done.
Qed.
Hint Resolve typed_session typed_writable typed_effect typed_Emit typed_alloc typed_store_at
  typed_on_cache typed_now typed_gets typed_invalidate typed_select : go_typed.

Ltac typed_step :=
  match goal with
  | |- typed (_ ≫= _) => apply typed_bind; [|intros ?]
  | |- typed (if ?b then _ else _) => destruct b
  | |- typed (match ?x with _ => _ end) => destruct x
  end.
Ltac solve_typed := repeat first [solve [auto with go_typed] | progress cbv zeta | typed_step].

Lemma typed_circuit read scope id v desired : typed (shortCircuit read scope id v desired : GoM S _).
Proof. unfold shortCircuit. solve_typed. Qed.
Lemma typed_close_open scope mode : typed (close_open clock s scope mode).
Proof. unfold close_open. solve_typed. Qed.
Lemma typed_close auth sid req : typed (CloseSession clock s auth sid req).
Proof. pose proof typed_close_open. unfold CloseSession. solve_typed. Qed.
Lemma typed_mark scope hits : typed (mark_access clock s scope hits).
Proof. unfold mark_access. solve_typed. Qed.
Hint Resolve typed_circuit typed_close typed_mark : go_typed.

Lemma run_typed c : typed (run c).
Proof.
  destruct c; cbn [run_call]; unfold reply_with; (apply typed_bind; [|intros; apply typed_ret]).
  - unfold RecallUnified, recall_cached, recall_origin, recall_records. solve_typed.
  - unfold WriteMemory. solve_typed.
  - unfold PatchMemory, patch_idempotent, doPatchRecord. solve_typed.
  - unfold PinMemory, terminalStateShortCircuit. solve_typed.
  - unfold UnpinMemory, terminalStateShortCircuit. solve_typed.
  - unfold DisableMemory, terminalHiddenStateShortCircuit. solve_typed.
  - unfold EnableMemory, terminalStateShortCircuit. solve_typed.
  - unfold DeleteMemory, terminalHiddenStateShortCircuit. solve_typed.
  - auto with go_typed.
  - unfold HeartbeatSession. solve_typed.
  - unfold ReapIdleSession. solve_typed.
  - unfold GetMemoryItem. solve_typed.
Qed.
(** C24: Every error that leaves the service is one of the contract's: whatever
    a backend, store or closer answers, the HTTP status of a failed call is
    400, 403, 404, 409 or 503, never 500, and 503 exactly when the error says
    that a retry may help. *)
Theorem service_errors_typed c st st' e :
  run c st = (st', Fail e) ->
  (exists g, errors_As_gateway e = Some g /\ (StatusCode e = 503 <-> Retryable g = true)) /\
  StatusCode e ∈ [400; 403; 404; 409; 503].
Proof.
  intros H%run_typed. split.
  - destruct (gateway_built_gateway e H) as [g Hg]. exists g. split; [done|].
    rewrite (proj2 (gateway_built_status e H)). split; [|eauto].
    intros (g' & Hg' & Hr). congruence.
  - by apply gateway_built_codes.
Qed.

(** ** Flag mutations: pin, unpin, disable, enable, delete *)
Record flagOp := mkFlagOp {
  fo_checked : bool;
  fo_scope : Scope;
  fo_id : string;
  fo_version : Z;
  fo_read : string -> string -> GoM E MemoryRecord;
  fo_desired : MemoryRecord -> bool;
  fo_op : GoM E RecordResult;
  fo_replay : MemoryRecord -> reply;
  fo_reply : RecordResult -> reply
}.

Definition pin_replay (pinned : bool) (r : MemoryRecord) : reply :=
  RepPin (mkPinMemoryResponse (m_MemoryID r) (m_Version r) pinned).
Definition pin_reply (r : RecordResult) : reply :=
  RepPin (mkPinMemoryResponse (res_MemoryID r) (res_Version r) (m_Pinned (res_Record r))).
Definition disable_replay (disabled : bool) (r : MemoryRecord) : reply :=
  RepDisable (mkDisableMemoryResponse (m_MemoryID r) (m_Version r) disabled).
Definition disable_reply (r : RecordResult) : reply :=
  RepDisable (mkDisableMemoryResponse (res_MemoryID r) (res_Version r) (m_Disabled (res_Record r))).

(** What each call asks for. *)
Definition flag_op (c : call) : option flagOp :=
  match c with
  | CallPin a id r =>
      let scope := mergeScope a (pin_Scope r) in
      Some (mkFlagOp true scope id (pin_ExpectedVersion r) (GetRecord (backend s)) m_Pinned
        (PinRecord (backend s) (mkPinRecordInput (TenantID scope) id (pin_ExpectedVersion r) true))
        (pin_replay true) pin_reply)
  | CallUnpin a id r =>
      let scope := mergeScope a (pin_Scope r) in
      Some (mkFlagOp false scope id (pin_ExpectedVersion r) (GetRecord (backend s))
        (fun rec => negb (m_Pinned rec))
        (PinRecord (backend s) (mkPinRecordInput (TenantID scope) id (pin_ExpectedVersion r) false))
        (pin_replay false) pin_reply)
  | CallDisable a id r =>
      let scope := mergeScope a (dr_Scope r) in
      Some (mkFlagOp true scope id (dr_ExpectedVersion r) (GetRecordIncludingHidden (backend s))
        (fun rec => m_Disabled rec && negb (m_Deleted rec))
        (DisableRecord (backend s) (mkDisableRecordInput (TenantID scope) id (dr_ExpectedVersion r) true))
        (disable_replay true) disable_reply)
  | CallEnable a id r =>
      let scope := mergeScope a (dr_Scope r) in
      Some (mkFlagOp false scope id (dr_ExpectedVersion r) (GetRecord (backend s))
        (fun rec => negb (m_Disabled rec))
        (DisableRecord (backend s) (mkDisableRecordInput (TenantID scope) id (dr_ExpectedVersion r) false))
        (disable_replay false) disable_reply)
  | CallDelete a id r =>
      let scope := mergeScope a (del_Scope r) in
      Some (mkFlagOp true scope id (del_ExpectedVersion r) (GetRecordIncludingHidden (backend s)) m_Deleted
        (DeleteRecord (backend s) (mkDeleteRecordInput (TenantID scope) id (del_ExpectedVersion r)))
        (fun rec => RepDelete (mkDeleteMemoryResponse (m_MemoryID rec) true (m_Version rec)))
        (fun res => RepDelete (mkDeleteMemoryResponse (res_MemoryID res)
                                 (m_Deleted (res_Record res)) (res_Version res))))
  | _ => None
  end.

(** The record as the call reads it, if a replay may answer with it. *)
Definition replayable (fo : flagOp) (e : E) : option MemoryRecord :=
  match (fo_read fo (TenantID (fo_scope fo)) (fo_id fo) e).2 with
  | Ok r => if fo_desired fo r && (fo_version fo <=? m_Version r) then Some r else None
  | Fail _ => None
  end.

Definition with_ext (st : S) (e : E) : S :=
  mkSt e (st_sessions st) (st_versions st) (st_cache st) (st_heap st) (st_ticks st).

Definition flag_spec (fo : flagOp) (st : S) : S * result goerror reply :=
  match replayable fo (st_ext st) with
  | Some r => (st, Ok (fo_replay fo r))
  | None =>
      match fo_op fo (st_ext st) with
      | (e, Fail err) => (with_ext st e, Fail (translateBackendError (Some err)))
      | (e, Ok res) => ((invalidateScopeState s (fo_scope fo) (with_ext st e)).1, Ok (fo_reply fo res))
      end
  end.

Lemma circuit_spec {A} scope id v desired read (g : MemoryRecord -> A) op (f : RecordResult -> A)
    (rep : A -> reply) rp rq checked st :
  (forall t id e, (read t id e).1 = e) ->
  (forall r, rp r = rep (g r)) -> (forall x, rq x = rep (f x)) ->
  reply_with rep (done ← shortCircuit read scope id v desired;
   match done with
   | Some r => mret (g r)
   | None => x ← translated (on_ext op); _ ← invalidateScopeState s scope; mret (f x)
   end) st
  = flag_spec (mkFlagOp checked scope id v read desired op rp rq) st.
Proof.
  intros Hread Hrp Hrq. unfold reply_with, flag_spec, replayable. cbn.
  rewrite run_bind, run_bind. unfold shortCircuit. rewrite run_bind. unfold attempt.
  rewrite run_on_ext, Hread. fold (with_ext st (st_ext st)).
  replace (with_ext st (st_ext st)) with st by by destruct st. cbn.
  assert (Hop : (let (s', r) := (x ← translated (on_ext op); _ ← invalidateScopeState s scope; mret (f x)) st in
     match r with Ok a => (mret (rep a) : GoM S reply) s' | Fail e => (s', Fail e) end) =
    match op (st_ext st) with
    | (e, Ok res) => ((invalidateScopeState s scope (with_ext st e)).1, Ok (rq res))
    | (e, Fail err) => (with_ext st e, Fail (translateBackendError (Some err)))
    end).
  { rewrite run_bind, run_translated, run_on_ext. cbn. destruct (op (st_ext st)) as [e [res|err]]; cbn; [|done].
    rewrite run_bind, run_invalidate. cbn.
    by rewrite run_invalidate, Hrq. }
  destruct (read (TenantID scope) id (st_ext st)).2 as [r|err]; [|exact Hop]. cbn.
  destruct (desired r && (v <=? m_Version r)); [by rewrite Hrp|exact Hop].
Qed.

(** C7: Pin, unpin, disable, enable and delete, on every branch.  A request
    without an expected version is rejected; pin, disable and delete check the
    session.  When the record already is in the requested state at the
    expected version or later, the call is a replay: it answers with the
    stored version and changes nothing.  Otherwise the backend decides under
    the caller's expected version: its error is translated and nothing is
    invalidated, its success invalidates the scope. *)
Theorem flag_mutation_spec {L : RecordStoreReads (backend s)} c fo st :
  flag_op c = Some fo -> readOnly s = false ->
  run c st =
  if fo_version fo <=? 0 then (st, Fail (ErrBadRequest "expected_version is required" []))
  else if fo_checked fo then
    match ensureSessionOpen clock s (fo_scope fo) st with
    | (st1, Ok _) => flag_spec fo st1
    | (st1, Fail e) => (st1, Fail e)
    end
  else flag_spec fo st.
Proof.
  intros Hfo Hro.
  assert (Hw : forall A (f : unit -> GoM S A), (ensureWritable s ≫= f) st = f tt st).
  { intros A f. unfold ensureWritable. by rewrite bind_reject_false. }
  assert (Hfenced : forall A (rep : A -> reply) b err scope (f : unit -> GoM S A),
    reply_with rep (reject_if b err ≫= fun _ => ensureSessionOpen clock s scope ≫= f) st =
    if b then (st, Fail err) else
    match ensureSessionOpen clock s scope st with
    | (st1, Ok _) => reply_with rep (f tt) st1
    | (st1, Fail e) => (st1, Fail e)
    end).
  { intros A rep [] err scope f; unfold reply_with; rewrite run_bind; [done|].
    rewrite bind_reject_false, run_bind by done.
    by destruct (ensureSessionOpen clock s scope st) as [st1 [[]|e]]. }
  assert (Hplain : forall A (rep : A -> reply) b err (f : unit -> GoM S A),
    reply_with rep (reject_if b err ≫= f) st = if b then (st, Fail err) else reply_with rep (f tt) st).
  { intros A rep [] err f; done. }
  assert (Hreply : forall A (rep : A -> reply) (f : unit -> GoM S A),
    reply_with rep (ensureWritable s ≫= f) st = reply_with rep (f tt) st).
  { intros A rep f. unfold reply_with. by rewrite run_bind, Hw. }
  destruct c; cbn [flag_op] in Hfo; try done; injection Hfo as <-; cbn [run_call fo_version fo_checked fo_scope];
    unfold PinMemory, UnpinMemory, DisableMemory, EnableMemory, DeleteMemory; rewrite Hreply.
  - rewrite Hfenced. destruct (_ <=? 0); [done|]. destruct (ensureSessionOpen _ _ _ _) as [st1 [[]|e]]; [|done].
    by apply circuit_spec; [apply get_record_frame|..].
  - rewrite Hplain. destruct (_ <=? 0); [done|]. by apply circuit_spec; [apply get_record_frame|..].
  - rewrite Hfenced. destruct (_ <=? 0); [done|]. destruct (ensureSessionOpen _ _ _ _) as [st1 [[]|e]]; [|done].
    by apply circuit_spec; [apply get_hidden_frame|..].
  - rewrite Hplain. destruct (_ <=? 0); [done|]. by apply circuit_spec; [apply get_record_frame|..].
  - rewrite Hfenced. destruct (_ <=? 0); [done|]. destruct (ensureSessionOpen _ _ _ _) as [st1 [[]|e]]; [|done].
    by apply circuit_spec; [apply get_hidden_frame|..].
Qed.
(** ** Idempotent patches *)
Definition patch_input (scope : Scope) (id : string) (req : PatchMemoryRequest) : PatchRecordInput :=
  mkPatchRecordInput (TenantID scope) id (pr_ExpectedVersion req)
    (default ""%string (pf_Content (pr_Patch req))) (default ""%string (pf_Category (pr_Patch req)))
    (default [] (pf_Tags (pr_Patch req))) (default f_zero (pf_Importance (pr_Patch req))).

(** A patch with a key, when the table holds the key and when it does not. *)
Section keyed.
Context (store : IdempotencyStore E) (table : E -> string -> string -> option IdempotencyEntry)
  {L : IdempotencyLaws store table}.
Hypothesis Hstore : idempotencyStore s = Some store.
Hypothesis Hwritable : readOnly s = false.

Definition keyed (req : PatchMemoryRequest) : bool :=
  (0 <? pr_ExpectedVersion req) && negb (bool_decide (TrimSpace (pr_IdempotencyKey req) = ""%string)).

Lemma keyed_run auth id req st st1 :
  let scope := mergeScope auth (pr_Scope req) in
  keyed req = true -> ensureSessionOpen clock s scope st = (st1, Ok tt) ->
  PatchMemory clock patch_digest s auth id req st
  = patch_idempotent clock patch_digest s store scope id req st1.
Proof using Hstore Hwritable.
  intros scope [Hv Hk]%andb_true_iff Hopen. unfold PatchMemory, ensureWritable.
  rewrite bind_reject_false by done. rewrite bind_reject_false by lia.
  rewrite run_bind. fold scope. rewrite Hopen, Hstore, Hk. done.
Qed.

Lemma load_run t k (st : S) :
  attempt (on_ext (LoadIdempotency store t k)) st = (st, Ok (LoadIdempotency store t k (st_ext st)).2).
Proof using L.
  unfold attempt. rewrite run_on_ext, (idem_load_frame (store:=store)). cbn. by destruct st.
Qed.

Lemma patch_known scope id req entry st :
  table (st_ext st) (TenantID scope) (pr_IdempotencyKey req) = Some entry ->
  patch_idempotent clock patch_digest s store scope id req st =
  (st, match (LoadIdempotency store (TenantID scope) (pr_IdempotencyKey req) (st_ext st)).2 with
       | Ok _ => if bool_decide (ie_RequestHash entry = hashPatchRequest patch_digest scope id req)
                 then Ok (patch_response (ie_Response entry))
                 else Fail (ErrIdempotencyConflict "idempotency_key conflicts with an existing payload" [])
       | Fail err => Fail (translateBackendError (Some err))
       end).
Proof using L.
  intros Ht. unfold patch_idempotent. rewrite run_bind, load_run. cbn.
  destruct (LoadIdempotency _ _ _ _).2 as [entry'|err] eqn:El.
  - apply idem_loaded in El. rewrite Ht in El. injection El as <-. by case_bool_decide.
  - destruct (errors_Is err PgNotFound) eqn:En; [|done].
    pose proof (idem_not_found _ _ _ _ El En). congruence.
Qed.

(** The key is not there: the load fails, or the backend is asked. *)
Lemma patch_unknown scope id req st :
  table (st_ext st) (TenantID scope) (pr_IdempotencyKey req) = None ->
  let run := patch_idempotent clock patch_digest s store scope id req st in
  (exists err, (LoadIdempotency store (TenantID scope) (pr_IdempotencyKey req) (st_ext st)).2 = Fail err /\
     errors_Is err PgNotFound = false /\ run = (st, Fail (translateBackendError (Some err)))) \/
  match PatchRecord (backend s) (patch_input scope id req) (st_ext st) with
  | (e, Fail err) => run = (with_ext st e, Fail (translateBackendError (Some err)))
  | (e, Ok res) => run.2 = Ok (patch_response res) /\
      exists t, st_ext run.1 = recallCacheObserver s {| co_Action := "invalidate"; co_Scope := scope |} (SaveIdempotency store
        (mkIdempotencyEntry (TenantID scope) (pr_IdempotencyKey req) (hashPatchRequest patch_digest scope id req)
           (res_MemoryID res) res t) e).1
  end.
Proof using L.
  intros Ht run. subst run. unfold patch_idempotent. rewrite run_bind, load_run. cbn.
  destruct (LoadIdempotency _ _ _ _).2 as [entry|err] eqn:El.
  { apply idem_loaded in El. congruence. }
  destruct (errors_Is err PgNotFound) eqn:En; [|left; exists err; cbn; by rewrite En]. right. cbn.
  rewrite run_bind. unfold doPatchRecord. rewrite run_translated, run_on_ext. fold (patch_input scope id req).
  destruct (PatchRecord _ _ _) as [e [res|err']]; [|done]. cbn.
  rewrite run_bind. cbn. rewrite run_bind. unfold attempt. rewrite run_on_ext. cbn.
  rewrite run_bind, run_invalidate. cbn. split; [done|]. by eexists.
Qed.

(** C6: A keyed patch is applied once if its key was saved.  On a gateway that
    takes writes, whose observers leave the idempotency table alone, for
    patches with a key that is not blank and an expected version, of sessions
    that are open: a patch under a key that is not in the table, answered with
    success, has been applied once and its answer is saved under the key,
    unless the save answers with an error; that error is not reported, and the
    key may then be missing.  From then on, for every later patch of the tenant
    under that key: while the entry is there, nothing changes behind the
    session check, the backend is not asked, and a request with the same digest
    gets the same answer and any other a conflict (or the error of the load);
    while the key is missing the patch is applied again. *)
Theorem patch_exactly_once auth id req st st0 st1 r :
  let scope := mergeScope auth (pr_Scope req) in
  let key := pr_IdempotencyKey req in
  (forall o e t k, table (recallCacheObserver s o e) t k = table e t k) ->
  keyed req = true -> ensureSessionOpen clock s scope st = (st0, Ok tt) ->
  table (st_ext st) (TenantID scope) key = None ->
  PatchMemory clock patch_digest s auth id req st = (st1, Ok r) ->
  exists snap e1,
    PatchRecord (backend s) (patch_input scope id req) (st_ext st) = (e1, Ok (ie_Response snap)) /\
    ie_RequestHash snap = hashPatchRequest patch_digest scope id req /\
    r = patch_response (ie_Response snap) /\
    (table (st_ext st1) (TenantID scope) key = Some snap \/
     is_ok (SaveIdempotency store snap e1).2 = false /\
     table (st_ext st1) (TenantID scope) key = table e1 (TenantID scope) key) /\
    forall auth' id' req' st2 st3,
      let scope' := mergeScope auth' (pr_Scope req') in
      let again := PatchMemory clock patch_digest s auth' id' req' st2 in
      let load := (LoadIdempotency store (TenantID scope) key (st_ext st2)).2 in
      pr_IdempotencyKey req' = key -> TenantID scope' = TenantID scope -> keyed req' = true ->
      ensureSessionOpen clock s scope' st2 = (st3, Ok tt) ->
      (table (st_ext st2) (TenantID scope) key = Some snap ->
         again = (st3, match load with
           | Ok _ => if bool_decide (hashPatchRequest patch_digest scope id req
                                     = hashPatchRequest patch_digest scope' id' req')
                     then Ok r
                     else Fail (ErrIdempotencyConflict "idempotency_key conflicts with an existing payload" [])
           | Fail err => Fail (translateBackendError (Some err))
           end)) /\
      (table (st_ext st2) (TenantID scope) key = None ->
         (exists err, load = Fail err /\ errors_Is err PgNotFound = false /\
            again = (st3, Fail (translateBackendError (Some err)))) \/
         match PatchRecord (backend s) (patch_input scope' id' req') (st_ext st2) with
         | (e, Fail err) => again = (with_ext st3 e, Fail (translateBackendError (Some err)))
         | (e, Ok res) => again.2 = Ok (patch_response res)
         end).
Proof using L Hstore Hwritable.
  intros scope key Hobs Hkey Hopen Hnone Hrun.
  pose proof (keeps_run sessions_only _ _ _ _ (keeps_ensureSessionOpen clock s _) Hopen) as (He & _).
  rewrite (keyed_run auth id req st st0 Hkey Hopen) in Hrun. fold scope in Hrun. rewrite He in Hnone.
  pose proof (patch_unknown scope id req st0 Hnone) as Hp. cbv zeta in Hp. rewrite Hrun in Hp. cbn in Hp.
  destruct Hp as [(err & _ & _ & ?)|Hp]; [done|]. rewrite <-He in Hp.
  destruct (PatchRecord _ _ _) as [e1 [res|err]]; [|done]. destruct Hp as ([= ->] & t & Hext).
  set (snap := mkIdempotencyEntry _ _ _ _ _ _) in Hext.
  exists snap, e1. split_and!; [done|done|done|..].
  { rewrite Hext, Hobs. pose proof (idem_saved snap e1) as Hsaved. pose proof (idem_save_own snap e1) as Hown.
    destruct (SaveIdempotency store snap e1) as [e2 [[]|err]]; cbn in *; [left; by apply Hsaved|].
    rewrite !elem_of_cons in Hown. destruct Hown as [Hown|[Hown|[]%elem_of_nil]]; [by left|right; split; [done|exact Hown]]. }
  intros auth' id' req' st2 st3 scope' again load Hk' Ht' Hkey' Hopen'. subst again load.
  pose proof (keeps_run sessions_only _ _ _ _ (keeps_ensureSessionOpen clock s _) Hopen') as (He' & _).
  rewrite (keyed_run auth' id' req' st2 st3 Hkey' Hopen'). fold scope'. rewrite He', <-Ht', <-Hk'. split; intros Htab.
  - rewrite (patch_known scope' id' req' _ st3 Htab). done.
  - destruct (patch_unknown scope' id' req' st3 Htab) as [?|Hp]; [by left|right].
    destruct (PatchRecord _ _ _) as [e [res'|err]]; [by destruct Hp|done].
Qed.
End keyed.
End mutations.

(** ** Witnesses *)
Lemma read_only_freezes_witness :
  run_call ref_clock ref_write_digest ref_patch_digest ref_kind (ref_service true)
    (CallWrite alice (write_req "likes green tea")) ref_start
  = (ref_start, Fail (ErrReadOnlyMode "memory gateway is temporarily read-only" [])).
Proof. by apply read_only_freezes. Defined.

Definition one_record : St world memSessions memVersions :=
  mkSt (put_record "acme" "m1" (with_flags emptyRecord "m1" false false false "likes green tea" 3)
          empty_world) (∅, ∅) ∅ ∅ [] 0.

(** A wrapped version conflict of the backend becomes a 409. *)
Lemma service_errors_typed_witness :
  let p := run_call ref_clock ref_write_digest ref_patch_digest ref_kind (ref_service false)
             (CallPin alice "m1" (pin_req 2)) one_record in
  match p.2 with Fail e => StatusCode e ∈ [400; 403; 404; 409; 503] /\ StatusCode e = 409 | Ok _ => False end.
Proof.
  set (p := run_call _ _ _ _ _ _ _). cbv zeta. destruct p as [st' [r|e]] eqn:Ep; cbn.
  - apply (f_equal (fun p => is_ok p.2)) in Ep. vm_compute in Ep. discriminate Ep.
  - split.
    + exact (proj2 (service_errors_typed ref_clock ref_write_digest ref_patch_digest ref_kind
                      (ref_service false) (CallPin alice "m1" (pin_req 2)) one_record st' e Ep)).
    + apply (f_equal (fun p => match p.2 with Fail e => StatusCode e | Ok _ => 0 end)) in Ep.
      cbn in Ep. rewrite <-Ep. vm_compute. reflexivity.
Defined.

(** A retried pin is replayed; a pin of another version is a conflict. *)
Lemma flag_mutation_spec_witness :
  let st := (run_call ref_clock ref_write_digest ref_patch_digest ref_kind (ref_service false)
               (CallPin alice "m1" (pin_req 3)) one_record).1 in
  exists fo, flag_op (ref_service false) (CallUnpin alice "m1" (pin_req 4)) = Some fo /\
  run_call ref_clock ref_write_digest ref_patch_digest ref_kind (ref_service false)
    (CallUnpin alice "m1" (pin_req 4)) st = flag_spec (ref_service false) fo st /\
  match (flag_spec (ref_service false) fo st).2 with
  | Ok (RepPin r) => pn_Version r = 5 /\ pn_Pinned r = false
  | _ => False
  end.
Proof.
  intros st. eexists. split; [reflexivity|]. split.
  - exact (flag_mutation_spec ref_clock ref_write_digest ref_patch_digest ref_kind (ref_service false)
             (CallUnpin alice "m1" (pin_req 4)) _ st eq_refl eq_refl).
  - vm_compute. split; reflexivity.
Defined.
#[export] Instance ref_idempotency_laws : IdempotencyLaws ref_idempotency (fun w t k => w_idem w !! (t, k)).
Proof.
  split; cbn; try done.
  - intros t k w entry. by destruct (w_idem w !! (t, k)); intros [= <-].
  - intros t k w err. by destruct (w_idem w !! (t, k)).
  - intros i w _. apply lookup_insert_eq.
  - intros i w. rewrite lookup_insert_eq. by left.
  - intros i w t k Hne. apply lookup_insert_ne. congruence.
Qed.

(** The retry of a patch is answered from the table although the version has
    moved on; another content under the key is a conflict. *)
Definition patched : St world memSessions memVersions :=
  (PatchMemory ref_clock ref_patch_digest (ref_service false) alice "m1" (patch_req "k" "oolong" 3)
     one_record).1.
Definition patched_open : St world memSessions memVersions :=
  (ensureSessionOpen ref_clock (ref_service false) alice patched).1.

Lemma patch_exactly_once_witness :
  PatchMemory ref_clock ref_patch_digest (ref_service false) alice "m1" (patch_req "k" "oolong" 3) patched
  = (patched_open, Ok (mkPatchMemoryResponse "m1" 4)).
Proof.
  destruct (patch_exactly_once ref_clock ref_patch_digest (ref_service false) ref_idempotency
    (fun w t k => w_idem w !! (t, k)) eq_refl eq_refl alice "m1" (patch_req "k" "oolong" 3)
    one_record (ensureSessionOpen ref_clock (ref_service false) alice one_record).1 patched
    (mkPatchMemoryResponse "m1" 4)) as (snap & e1 & _ & _ & _ & Hsaved & Hlater).
  - reflexivity.
  - reflexivity.
  - apply run_eq; [reflexivity|vm_compute; reflexivity].
  - vm_compute. reflexivity.
  - apply run_eq; [reflexivity|vm_compute; reflexivity].
  - destruct Hsaved as [Hsaved|[Hno _]]; [|discriminate Hno].
    rewrite (proj1 (Hlater alice "m1" (patch_req "k" "oolong" 3) patched patched_open eq_refl eq_refl eq_refl
                      ltac:(apply run_eq; [reflexivity|vm_compute; reflexivity])) Hsaved).
    f_equal.
Defined.

(** A store whose saves fail: the same keyed patch reaches the backend twice.
    The second one still names the old version, and is refused for that. *)
Definition unsaved_idempotency : IdempotencyStore world := {|
  LoadIdempotency := LoadIdempotency ref_idempotency;
  SaveIdempotency := fun _ => throw (ErrText "connection reset")
|}.
#[export] Instance unsaved_idempotency_laws : IdempotencyLaws unsaved_idempotency (fun w t k => w_idem w !! (t, k)).
Proof.
  pose proof ref_idempotency_laws as []. split; try done. intros i w. by right; left.
Qed.

Definition unsaved_service : Service world memSessions memVersions := {|
  backend := ref_backend;
  accessMarker := Some ref_marker;
  recaller := None;
  sessionCloser := Some ref_closer;
  traceEmitter := ref_emit;
  readOnly := false;
  sessionStore := memorySessionStateStore;
  scopeVersionStore := memoryScopeVersionStore;
  sessionIdleTTL := resolveSessionIdleTTL 0;
  recallObserver := ref_observe;
  recallCacheObserver := ref_observe_cache;
  idempotencyStore := Some unsaved_idempotency
|}.

Example unsaved_patch_asks_again :
  let patch := PatchMemory ref_clock ref_patch_digest unsaved_service alice "m1" (patch_req "k" "oolong" 3) in
  let (st, first) := patch one_record in
  first = Ok (mkPatchMemoryResponse "m1" 4) /\
  match (patch st).2 with Fail e => StatusCode e = 409 | Ok _ => False end.
Proof. vm_compute. split; reflexivity. Qed.
Close Scope Z_scope.
