(* ===== verification/SessionCloser.v ===== *)
(** * Closing a session's working memory: [service/durable_session_closer.go],
      [service/postgres_session_working_store.go],
      [service/working_lifecycle_observer.go]

    On close every working record of the session is promoted, left to the
    promotion path, or expired.  The contract package's eligibility rule,
    dedupe key, constants and the SHA-256 digest are parameters. *)
From S2P Require Import Prelude GoStrings GoFloat HttpApi Authz Contract.
Open Scope Z_scope.

Record SessionWorkingRecord := mkSessionWorkingRecord {
  sw_Record : MemoryRecord;
  sw_LatestEventID : string
}.

Record sessionWorkingStore (E : Type) := mkSessionWorkingStore {
  sws_records : RecordStore E;
  Promote : PromoteRecordInput -> GoM E unit;
  ResolveDedupe : ResolveDedupeInput -> GoM E ResolveDedupeResult;
  ListSessionWorking : string -> string -> string -> string -> GoM E (list SessionWorkingRecord)
}.
Arguments mkSessionWorkingStore {E}.
Arguments sws_records {E}.
Arguments Promote {E}.
Arguments ResolveDedupe {E}.
Arguments ListSessionWorking {E}.

Record WorkingLifecycleObservation := mkWorkingLifecycleObservation {
  wl_TenantID : string;
  wl_Mode : string;
  wl_Expired : Z;
  wl_DroppedBeforeUse : Z;
  wl_Promoted : Z
}.
Definition WorkingLifecycleObserver (E : Type) : Type := WorkingLifecycleObservation -> E -> E.
Definition nopWorkingLifecycleObserver {E} : WorkingLifecycleObserver E := fun _ e => e.
Definition resolveWorkingLifecycleObserver {E} (o : option (WorkingLifecycleObserver E))
    : WorkingLifecycleObserver E := default nopWorkingLifecycleObserver o.

(** A closer with a [nil] store is a [nil] closer. *)
Record DurableSessionCloser (E : Type) := mkDurableSessionCloser {
  dsc_store : sessionWorkingStore E;
  dsc_observer : WorkingLifecycleObserver E
}.
Arguments mkDurableSessionCloser {E}.
Arguments dsc_store {E}.
Arguments dsc_observer {E}.

Definition NewDurableSessionCloser {E} (store : option (sessionWorkingStore E))
    (observer : option (WorkingLifecycleObserver E)) : option (DurableSessionCloser E) :=
  match store with
  | None => None
  | Some store => Some (mkDurableSessionCloser store (resolveWorkingLifecycleObserver observer))
  end.

(** The row type of the postgres package has the same two fields. *)
Definition convertSessionWorkingRecords (rows : list (MemoryRecord * string)) : list SessionWorkingRecord :=
  map (fun r => mkSessionWorkingRecord r.1 r.2) rows.

(** What the gateway calls on the postgres package's store; its rows are a
    record and the id of its latest event. *)
Record pgSessionStore (E : Type) := mkPgSessionStore {
  pgs_records : RecordStore E;
  pgs_Promote : PromoteRecordInput -> GoM E unit;
  pgs_ResolveDedupe : ResolveDedupeInput -> GoM E ResolveDedupeResult;
  pgs_ListSessionWorking : string -> string -> string -> string -> GoM E (list (MemoryRecord * string))
}.
Arguments mkPgSessionStore {E}.
Arguments pgs_records {E}.
Arguments pgs_Promote {E}.
Arguments pgs_ResolveDedupe {E}.
Arguments pgs_ListSessionWorking {E}.

(** The method that [*postgresSessionWorkingStore] declares itself. *)
Definition adapter_ListSessionWorking {E} (s : pgSessionStore E)
    (tenantID userID projectID sessionID : string) : GoM E (list SessionWorkingRecord) :=
  rows ← pgs_ListSessionWorking s tenantID userID projectID sessionID;
  mret (convertSessionWorkingRecords rows).

(** The adapter embeds the store: the other methods are the store's own. *)
Definition postgresSessionWorkingStore {E} (s : pgSessionStore E) : sessionWorkingStore E :=
  mkSessionWorkingStore (pgs_records s) (pgs_Promote s) (pgs_ResolveDedupe s) (adapter_ListSessionWorking s).

Definition newPostgresSessionWorkingStore {E} (store : option (pgSessionStore E))
    : option (sessionWorkingStore E) :=
  match store with
  | None => None
  | Some s => Some (postgresSessionWorkingStore s)
  end.

Definition NewPostgresDurableSessionCloser {E} (store : option (pgSessionStore E))
    (observer : option (WorkingLifecycleObserver E)) : option (DurableSessionCloser E) :=
  match newPostgresSessionWorkingStore store with
  | None => None
  | Some adapter => NewDurableSessionCloser (Some adapter) observer
  end.

Definition isSessionCloseStale (err : goerror) : bool :=
  errors_Is err VersionConflict || errors_Is err PgNotFound.

Definition wasDroppedBeforeUse (record : MemoryRecord) : bool :=
  (m_HitCount record =? 0) || match m_LastAccessAt record with None => true | Some _ => false end.

Section closer.
Context {E : Type}.
Context (PromotionEligible : MemoryRecord -> bool) (DedupeKey : MemoryRecord -> string)
  (DedupeNoCollision : string) (PromoteImportanceThreshold : float64) (sha256_hex : string -> string).

(** [strings.Join(parts, "\x00")] *)
Fixpoint join_nul (parts : list string) : string :=
  match parts with
  | [] => ""
  | [p] => p
  | p :: rest => p +:+ String (Ascii.ascii_of_nat 0) (join_nul rest)
  end.
Definition sessionCloseHashParts (parts : list string) : string := sha256_hex (join_nul parts).

Definition sessionClosePromotionKey (record : MemoryRecord) (eventID : string) : string :=
  sessionCloseHashParts [m_TenantID record; m_MemoryID record; eventID; "session_close_promote"%string].

Definition sessionClosePromoteReason (record : MemoryRecord) : string :=
  if bool_decide (m_Source record = "user_saved"%string) then "session_close_user_saved_default"
  else if bool_decide (m_Source record = "agent_inferred"%string)
          && f_geb (m_Importance record) PromoteImportanceThreshold
  then "session_close_agent_inferred_importance_threshold"
  else "session_close_default_rule".

Context (c : DurableSessionCloser E).

(** [(handled, promoted)] *)
Definition promoteIfEligible (item : SessionWorkingRecord) : GoM E (bool * bool) :=
  let record := sw_Record item in
  if negb (PromotionEligible record) || bool_decide (TrimSpace (sw_LatestEventID item) = ""%string)
  then mret (false, false)
  else
    r ← attempt (ResolveDedupe (dsc_store c) {|
          rd_TenantID := m_TenantID record; rd_DedupeKey := DedupeKey record; rd_Candidate := record |});
    match r with
    | Fail err => if isSessionCloseStale err then mret (true, false) else throw err
    | Ok result =>
        if negb (bool_decide (rd_Action result = DedupeNoCollision))
           || negb (bool_decide (rd_WinnerID result = m_MemoryID record))
        then mret (true, false)
        else
          p ← attempt (Promote (dsc_store c) {|
                pro_TenantID := m_TenantID record; pro_MemoryID := m_MemoryID record;
                pro_ExpectedVersion := m_Version record;
                pro_SourceEventID := sw_LatestEventID item;
                pro_IdempotencyKey := sessionClosePromotionKey record (sw_LatestEventID item);
                pro_Reason := sessionClosePromoteReason record |});
          match p with
          | Fail err => if isSessionCloseStale err then mret (true, false) else throw err
          | Ok _ => mret (true, true)
          end
    end.

(** [(deleted, dropped)] *)
Definition expireWorking (record : MemoryRecord) : GoM E (bool * bool) :=
  r ← attempt (DeleteRecord (sws_records (dsc_store c)) {|
        dli_TenantID := m_TenantID record; dli_MemoryID := m_MemoryID record;
        dli_ExpectedVersion := m_Version record |});
  match r with
  | Fail err => if isSessionCloseStale err then mret (false, false) else throw err
  | Ok _ => mret (true, wasDroppedBeforeUse record)
  end.

(** The three counters of the loop. *)
Record tally := mkTally { t_expired : Z; t_dropped : Z; t_promoted : Z }.

Definition incr (b : bool) (z : Z) : Z := if b then z + 1 else z.

Fixpoint close_loop (mode : string) (records : list SessionWorkingRecord) (n : tally) : GoM E tally :=
  match records with
  | [] => mret n
  | item :: rest =>
      hp ← (if bool_decide (mode = "promote_and_expire"%string)
            then promoteIfEligible item else mret (false, false));
      let n := mkTally (t_expired n) (t_dropped n) (incr hp.2 (t_promoted n)) in
      if (hp.1 : bool) then close_loop mode rest n
      else
        dd ← expireWorking (sw_Record item);
        close_loop mode rest
          (mkTally (incr dd.1 (t_expired n)) (incr dd.2 (t_dropped n)) (t_promoted n))
  end.

Definition Closer_CloseSession (scope : Scope) (mode : string) : GoM E unit :=
  records ← ListSessionWorking (dsc_store c) (TenantID scope) (UserID scope) (ProjectID scope) (SessionID scope);
  n ← close_loop mode records (mkTally 0 0 0);
  if (0 <? t_expired n) || (0 <? t_dropped n) || (0 <? t_promoted n)
  then modify (dsc_observer c {|
         wl_TenantID := TenantID scope; wl_Mode := mode; wl_Expired := t_expired n;
         wl_DroppedBeforeUse := t_dropped n; wl_Promoted := t_promoted n |})
  else mret tt.

(** ** What happens to one record *)
Inductive fate := Expired (unused : bool) | Vanished | Promoted | LeftAlone.

Definition settle (mode : string) (item : SessionWorkingRecord) : GoM E fate :=
  hp ← (if bool_decide (mode = "promote_and_expire"%string)
        then promoteIfEligible item else mret (false, false));
  if (hp.1 : bool) then mret (if (hp.2 : bool) then Promoted else LeftAlone)
  else
    dd ← expireWorking (sw_Record item);
    mret (if (dd.1 : bool) then Expired dd.2 else Vanished).

Fixpoint settle_all (mode : string) (records : list SessionWorkingRecord) : GoM E (list fate) :=
  match records with
  | [] => mret []
  | item :: rest => f ← settle mode item; fs ← settle_all mode rest; mret (f :: fs)
  end.

Definition count_fates (p : fate -> bool) (fs : list fate) : Z := sum_Z (map (fun f => if p f then 1 else 0) fs).
Definition is_expired (f : fate) : bool := match f with Expired _ => true | _ => false end.
Definition is_unused (f : fate) : bool := match f with Expired b => b | _ => false end.
Definition is_promoted (f : fate) : bool := match f with Promoted => true | _ => false end.
Definition tally_of (fs : list fate) : tally :=
  mkTally (count_fates is_expired fs) (count_fates is_unused fs) (count_fates is_promoted fs).

Definition tally_add (a b : tally) : tally :=
  mkTally (t_expired a + t_expired b) (t_dropped a + t_dropped b) (t_promoted a + t_promoted b).

Lemma promote_flags item e e' h p :
  promoteIfEligible item e = (e', Ok (h, p)) -> p = true -> h = true.
Proof.
  unfold promoteIfEligible. destruct (_ || _); [by intros [= _ <- <-]|].
  intros H ->. apply bind_ok_inv in H as (e1 & r & _ & H). destruct r as [r|err].
  - destruct (_ || _); [by injection H as _ <-|].
    apply bind_ok_inv in H as (e2 & q & _ & H). destruct q as [q|err]; [by injection H as _ <-|].
    destruct (isSessionCloseStale err); [by injection H as _ <-|done].
  - destruct (isSessionCloseStale err); [by injection H as _ <-|done].
Qed.

Lemma expire_flags record e e' d u :
  expireWorking record e = (e', Ok (d, u)) -> d = false -> u = false.
Proof.
  unfold expireWorking. intros H ->. apply bind_ok_inv in H as (e1 & r & _ & H). destruct r as [r|err].
  - by injection H.
  - destruct (isSessionCloseStale err); [by injection H as _ <-|done].
Qed.

Lemma close_loop_fates mode records n e :
  close_loop mode records n e =
  match settle_all mode records e with
  | (e', Ok fs) => (e', Ok (tally_add n (tally_of fs)))
  | (e', Fail err) => (e', Fail err)
  end.
Proof.
  revert n e. induction records as [|item rest IH]; intros n e; cbn [close_loop settle_all].
  { unfold tally_add. cbn. rewrite !Z.add_0_r. by destruct n. }
  rewrite !run_bind. unfold settle. rewrite run_bind.
  destruct ((if bool_decide (mode = "promote_and_expire"%string) then promoteIfEligible item
             else mret (false, false)) e) as [e1 [[h p]|err]] eqn:Ep; cbn [fst snd]; [|done].
  assert (Hp : p = true -> h = true).
  { case_bool_decide; [by eapply promote_flags|]. by injection Ep as _ <- <-. }
  destruct h.
  - cbn. rewrite IH, run_bind. destruct (settle_all mode rest e1) as [e2 [fs|err]]; cbn; [|done].
    do 2 f_equal. unfold tally_add, tally_of, count_fates. cbn. unfold sum_Z.
    destruct p; cbn; f_equal; lia.
  - destruct p; [by specialize (Hp eq_refl)|]. cbn. rewrite !run_bind.
    destruct (expireWorking (sw_Record item) e1) as [e2 [[d u]|err]] eqn:Ee; cbn; [|done].
    assert (Hu : d = false -> u = false) by by eapply expire_flags.
    rewrite IH, run_bind. destruct (settle_all mode rest e2) as [e3 [fs|err]]; cbn; [|done].
    do 2 f_equal. unfold tally_add, tally_of, count_fates. cbn. unfold sum_Z.
    destruct d; [destruct u|rewrite (Hu eq_refl)]; cbn; f_equal; lia.
Qed.
Lemma count_fates_bounds p fs : 0 <= count_fates p fs <= Z.of_nat (length fs).
Proof.
  unfold count_fates. induction fs as [|f fs IH]; cbn; [lia|]. unfold sum_Z in *. destruct (p f); lia.
Qed.

Lemma settle_all_length mode records e e' fs :
  settle_all mode records e = (e', Ok fs) -> length fs = length records.
Proof.
  revert e fs. induction records as [|item rest IH]; intros e fs; cbn; [by intros [= _ <-]|].
  intros H. apply bind_ok_inv in H as (e1 & f & _ & H). apply bind_ok_inv in H as (e2 & fs' & H2 & H).
  injection H as <- <-. cbn. f_equal. by eapply IH.
Qed.

Lemma fates_disjoint fs :
  count_fates is_expired fs + count_fates is_promoted fs <= Z.of_nat (length fs) /\
  count_fates is_unused fs <= count_fates is_expired fs.
Proof.
  unfold count_fates. induction fs as [|f fs IH]; cbn; [lia|]. unfold sum_Z in *.
  destruct f as [[]| | |]; cbn; lia.
Qed.

(** *** The fate of a record, from the answers of the store *)
Definition lost_race (err : goerror) : Prop :=
  errors_Is err VersionConflict = true \/ errors_Is err PgNotFound = true.
Definition never_used (r : MemoryRecord) : bool := bool_decide (m_HitCount r = 0 \/ m_LastAccessAt r = None).

(** Only the promoting mode promotes, and only an eligible record with an event. *)
Definition promotes (mode : string) (item : SessionWorkingRecord) : Prop :=
  mode = "promote_and_expire"%string /\ PromotionEligible (sw_Record item) = true /\
  TrimSpace (sw_LatestEventID item) <> ""%string.

Definition delete_of (r : MemoryRecord) : DeleteRecordInput :=
  mkDeleteRecordInput (m_TenantID r) (m_MemoryID r) (m_Version r).
Definition dedupe_of (r : MemoryRecord) : ResolveDedupeInput := mkResolveDedupeInput (m_TenantID r) (DedupeKey r) r.
Definition promote_of (item : SessionWorkingRecord) : PromoteRecordInput :=
  let r := sw_Record item in
  mkPromoteRecordInput (m_TenantID r) (m_MemoryID r) (m_Version r) (sw_LatestEventID item)
    (sha256_hex (join_nul [m_TenantID r; m_MemoryID r; sw_LatestEventID item; "session_close_promote"%string]))
    (sessionClosePromoteReason r).

Inductive settled (mode : string) (item : SessionWorkingRecord) (e : E) : E -> result goerror fate -> Prop :=
| settled_expired e1 res :
    ~ promotes mode item -> DeleteRecord (sws_records (dsc_store c)) (delete_of (sw_Record item)) e = (e1, Ok res) ->
    settled mode item e e1 (Ok (Expired (never_used (sw_Record item))))
| settled_vanished e1 err :
    ~ promotes mode item -> DeleteRecord (sws_records (dsc_store c)) (delete_of (sw_Record item)) e = (e1, Fail err) ->
    lost_race err -> settled mode item e e1 (Ok Vanished)
| settled_delete_failed e1 err :
    ~ promotes mode item -> DeleteRecord (sws_records (dsc_store c)) (delete_of (sw_Record item)) e = (e1, Fail err) ->
    ~ lost_race err -> settled mode item e e1 (Fail err)
| settled_dedupe_lost e1 err :
    promotes mode item -> ResolveDedupe (dsc_store c) (dedupe_of (sw_Record item)) e = (e1, Fail err) ->
    lost_race err -> settled mode item e e1 (Ok LeftAlone)
| settled_dedupe_failed e1 err :
    promotes mode item -> ResolveDedupe (dsc_store c) (dedupe_of (sw_Record item)) e = (e1, Fail err) ->
    ~ lost_race err -> settled mode item e e1 (Fail err)
| settled_collision e1 res :
    promotes mode item -> ResolveDedupe (dsc_store c) (dedupe_of (sw_Record item)) e = (e1, Ok res) ->
    ~ (rd_Action res = DedupeNoCollision /\ rd_WinnerID res = m_MemoryID (sw_Record item)) ->
    settled mode item e e1 (Ok LeftAlone)
| settled_promote e1 e2 res out :
    promotes mode item -> ResolveDedupe (dsc_store c) (dedupe_of (sw_Record item)) e = (e1, Ok res) ->
    rd_Action res = DedupeNoCollision -> rd_WinnerID res = m_MemoryID (sw_Record item) ->
    Promote (dsc_store c) (promote_of item) e1 = (e2, out) ->
    forall f, match out with
              | Ok _ => f = Ok Promoted
              | Fail err => lost_race err /\ f = Ok LeftAlone \/ ~ lost_race err /\ f = Fail err
              end -> settled mode item e e2 f.

(** One record after the other, up to the first failure. *)
Inductive settled_all (mode : string) : list SessionWorkingRecord -> E -> E -> result goerror (list fate) -> Prop :=
| settled_none e : settled_all mode [] e e (Ok [])
| settled_first item rest e e1 err :
    settled mode item e e1 (Fail err) -> settled_all mode (item :: rest) e e1 (Fail err)
| settled_next item rest e e1 e2 f out :
    settled mode item e e1 (Ok f) -> settled_all mode rest e1 e2 out ->
    settled_all mode (item :: rest) e e2 (result_map (cons f) out).

Lemma stale_lost err : isSessionCloseStale err = true <-> lost_race err.
Proof. unfold isSessionCloseStale, lost_race. by rewrite orb_true_iff. Qed.

Lemma dropped_unused r : wasDroppedBeforeUse r = never_used r.
Proof.
  unfold wasDroppedBeforeUse, never_used. destruct (Z.eqb_spec (m_HitCount r) 0) as [->|Hne]; cbn.
  - symmetry. by apply bool_decide_eq_true_2; left.
  - symmetry. destruct (m_LastAccessAt r).
    + apply bool_decide_eq_false_2. intros [?|?]; congruence.
    + by apply bool_decide_eq_true_2; right.
Qed.

Lemma expire_settled mode item e :
  ~ promotes mode item ->
  let run := (dd ← expireWorking (sw_Record item); mret (if (dd.1 : bool) then Expired dd.2 else Vanished)) e in
  settled mode item e run.1 run.2.
Proof.
  intros Hp. unfold expireWorking. rewrite run_bind. cbv zeta. rewrite run_bind. unfold attempt.
  change {| dli_TenantID := _; dli_MemoryID := _; dli_ExpectedVersion := _ |} with (delete_of (sw_Record item)).
  destruct (DeleteRecord _ (delete_of (sw_Record item)) e) as [e1 [res|err]] eqn:Ed; cbn.
  - rewrite dropped_unused. by eapply settled_expired.
  - destruct (isSessionCloseStale err) eqn:Es; cbn.
    + eapply settled_vanished; [done..|]. by apply stale_lost.
    + eapply settled_delete_failed; [done..|]. rewrite <-stale_lost. congruence.
Qed.

Lemma promote_settled mode item e :
  promotes mode item -> settled mode item e
    ((hp ← promoteIfEligible item; if (hp.1 : bool) then mret (if (hp.2 : bool) then Promoted else LeftAlone)
       else dd ← expireWorking (sw_Record item); mret (if (dd.1 : bool) then Expired dd.2 else Vanished)) e).1
    ((hp ← promoteIfEligible item; if (hp.1 : bool) then mret (if (hp.2 : bool) then Promoted else LeftAlone)
       else dd ← expireWorking (sw_Record item); mret (if (dd.1 : bool) then Expired dd.2 else Vanished)) e).2.
Proof.
  intros Hp. destruct (Hp) as (_ & He & Ht). rewrite run_bind. unfold promoteIfEligible.
  rewrite He, bool_decide_eq_false_2 by done. cbn [negb orb]. rewrite run_bind. unfold attempt.
  change {| rd_TenantID := _; rd_DedupeKey := _; rd_Candidate := _ |} with (dedupe_of (sw_Record item)).
  destruct (ResolveDedupe _ (dedupe_of (sw_Record item)) e) as [e1 [res|err]] eqn:Ed.
  2: { destruct (isSessionCloseStale err) eqn:Es; cbn.
       - eapply settled_dedupe_lost; [done..|]. by apply stale_lost.
       - eapply settled_dedupe_failed; [done..|]. rewrite <-stale_lost. congruence. }
  destruct (bool_decide_reflect (rd_Action res = DedupeNoCollision)) as [Ha|Ha]; cbn [negb orb].
  2: { cbn. eapply settled_collision; [done..|tauto]. }
  destruct (bool_decide_reflect (rd_WinnerID res = m_MemoryID (sw_Record item))) as [Hw|Hw]; cbn [negb].
  2: { cbn. eapply settled_collision; [done..|tauto]. }
  rewrite run_bind. unfold sessionClosePromotionKey, sessionCloseHashParts.
  change {| pro_TenantID := _; pro_MemoryID := _; pro_ExpectedVersion := _; pro_SourceEventID := _;
            pro_IdempotencyKey := _; pro_Reason := _ |} with (promote_of item).
  destruct (Promote _ (promote_of item) e1) as [e2 [u|err]] eqn:Ep; cbn.
  - by eapply settled_promote.
  - destruct (isSessionCloseStale err) eqn:Es; cbn; eapply settled_promote; try done; cbn.
    + left. split; [by apply stale_lost|done].
    + right. split; [rewrite <-stale_lost; congruence|done].
Qed.

Lemma settle_settled mode item e : settled mode item e (settle mode item e).1 (settle mode item e).2.
Proof.
  unfold settle. case_bool_decide as Hm.
  - destruct (PromotionEligible (sw_Record item) && negb (bool_decide (TrimSpace (sw_LatestEventID item) = ""%string))) eqn:Hel.
    + apply promote_settled. rewrite andb_true_iff, negb_true_iff, bool_decide_eq_false in Hel. by split.
    + assert (Hn : ~ promotes mode item).
      { intros (_ & He & Ht). by rewrite He, bool_decide_eq_false_2 in Hel. }
      rewrite run_bind. unfold promoteIfEligible. rewrite <-(negb_involutive (bool_decide _)), <-negb_andb, Hel.
      cbn [negb]. by apply expire_settled.
  - rewrite run_bind. cbn. apply expire_settled. by intros [? _].
Qed.

Lemma settle_all_settled mode records e :
  settled_all mode records e (settle_all mode records e).1 (settle_all mode records e).2.
Proof.
  revert e. induction records as [|item rest IH]; intros e; cbn [settle_all]; [constructor|].
  rewrite run_bind. pose proof (settle_settled mode item e) as Hs.
  destruct (settle mode item e) as [e1 [f|err]]; cbn [fst snd] in *; [|by constructor].
  rewrite run_bind. specialize (IH e1). pose proof (settled_next mode item rest e e1 _ f _ Hs IH) as H.
  by destruct (settle_all mode rest e1) as [e2 [fs|err]].
Qed.

(** C20: A close lists the session's working records, settles each of them
    exactly once and in order, and stops with the first error that is not a
    lost race (a version conflict or a record that is gone).  In the promoting
    mode an eligible record with an event is never deleted: it is promoted if
    the dedupe resolution names it the winner without a collision, and left
    alone otherwise or when the race is lost.  Every other record, and every
    record in the other modes, is deleted at the version it was listed with
    ([settled]).  The observation is sent once, at the end, exactly when
    something was expired or promoted; it counts the records expired, those
    among them that were never hit or never accessed, and those promoted, and
    expired and promoted together never exceed the records listed. *)
Theorem closer_counts_fates scope mode e :
  let run := Closer_CloseSession scope mode e in
  match ListSessionWorking (dsc_store c) (TenantID scope) (UserID scope) (ProjectID scope) (SessionID scope) e with
  | (e1, Fail err) => run = (e1, Fail err)
  | (e1, Ok records) => exists e2 out, settled_all mode records e1 e2 out /\
      match out with
      | Fail err => run = (e2, Fail err)
      | Ok fs =>
          length fs = length records /\
          count_fates is_expired fs + count_fates is_promoted fs <= Z.of_nat (length records) /\
          0 <= count_fates is_unused fs <= count_fates is_expired fs /\
          run = (if bool_decide (0 < count_fates is_expired fs + count_fates is_promoted fs)
                 then dsc_observer c {|
                        wl_TenantID := TenantID scope; wl_Mode := mode;
                        wl_Expired := count_fates is_expired fs;
                        wl_DroppedBeforeUse := count_fates is_unused fs;
                        wl_Promoted := count_fates is_promoted fs |} e2
                 else e2, Ok tt)
      end
  end.
Proof.
  cbv zeta. unfold Closer_CloseSession. rewrite run_bind.
  destruct (ListSessionWorking _ _ _ _ _ e) as [e1 [records|err]]; [|done].
  exists (settle_all mode records e1).1, (settle_all mode records e1).2. split; [apply settle_all_settled|].
  rewrite run_bind, close_loop_fates. destruct (settle_all mode records e1) as [e2 [fs|err]] eqn:Es; cbn [fst snd]; [|done].
  pose proof (settle_all_length _ _ _ _ _ Es) as Hlen. pose proof (fates_disjoint fs) as Hd.
  pose proof (count_fates_bounds is_unused fs) as Hu. pose proof (count_fates_bounds is_expired fs) as He.
  pose proof (count_fates_bounds is_promoted fs) as Hp.
  split_and!; [done|lia|lia|lia|]. unfold tally_add. cbn. rewrite !Z.add_0_l.
  destruct (Z.ltb_spec 0 (count_fates is_expired fs)); cbn.
  { rewrite bool_decide_eq_true_2 by lia. done. }
  destruct (Z.ltb_spec 0 (count_fates is_unused fs)); cbn; [lia|].
  destruct (Z.ltb_spec 0 (count_fates is_promoted fs)); cbn.
  - rewrite bool_decide_eq_true_2 by lia. done.
  - rewrite bool_decide_eq_false_2 by lia. done.
Qed.
End closer.

(** ** A closer that logs what it does, for the witness *)
Definition log_backend : RecordStore (list string) := {|
  GetRecord := fun _ _ => throw (ErrSentinel PgNotFound);
  GetRecordIncludingHidden := fun _ _ => throw (ErrSentinel PgNotFound);
  WriteRecord := fun _ => throw (ErrSentinel PgNotFound);
  PatchRecord := fun _ => throw (ErrSentinel PgNotFound);
  DeleteRecord := fun i l => ((l ++ ["delete " +:+ dli_MemoryID i]%string)%list,
                              Ok (mkRecordResult (dli_MemoryID i) 0 emptyRecord));
  PinRecord := fun _ => throw (ErrSentinel PgNotFound);
  DisableRecord := fun _ => throw (ErrSentinel PgNotFound)
|}.

Definition working (id source : string) : SessionWorkingRecord :=
  mkSessionWorkingRecord
    (mkMemoryRecord id "acme" "alice" "p" "s1" "working" source "" "text" [] f_half false false false 1 0 None)
    "ev1".

Definition log_store : sessionWorkingStore (list string) := mkSessionWorkingStore log_backend
  (fun i l => ((l ++ ["promote " +:+ pro_MemoryID i]%string)%list, Ok tt))
  (fun i l => (l, Ok (mkResolveDedupeResult "none" (m_MemoryID (rd_Candidate i)))))
  (fun _ _ _ _ l => (l, Ok [working "a" "user_saved"; working "b" "tool"])).

Definition log_closer : DurableSessionCloser (list string) :=
  mkDurableSessionCloser log_store
    (fun o l => (l ++ [fmt_d (wl_Promoted o) +:+ " promoted, " +:+ fmt_d (wl_Expired o) +:+ " expired"]%string)%list).

Definition saved_by_user (r : MemoryRecord) : bool := bool_decide (m_Source r = "user_saved"%string).

Example log_close :
  (Closer_CloseSession saved_by_user m_Content "none" f_half id log_closer
     (mkScope "acme" "alice" "p" "s1") "promote_and_expire" []).1
  = ["promote a"; "delete b"; "1 promoted, 1 expired"]%string.
Proof. vm_compute. reflexivity. Qed.
Close Scope Z_scope.
