(* ===== verification/Vector.v ===== *)
(** * Vectors: [service/vector_projector.go],
      [service/rag_vector_candidate_source.go], [service/embedding_metrics.go],
      [service/tenant_bucket.go] and the Go side of the lexical source of
      [service/postgres_recall_store.go]

    The embedder and the vector store come from the [llm-agent-rag] module:
    they are parameters.  The metrics sink and the two callers share the
    accounting of embedding calls. *)
From S2P Require Import Prelude GoStrings GoFloat HttpApi Authz Contract RecallSelection HybridRecall.
Open Scope Z_scope.

(** ** Tenant buckets: 32-bit FNV-1a *)
Definition TenantBucketModulus : Z := 32.
Definition two32 : Z := 4294967296.

Definition fnv32a_byte (h : Z) (c : Ascii.ascii) : Z :=
  (Z.lxor h (Z.of_N (Ascii.N_of_ascii c)) * 16777619) mod two32.

Fixpoint fnv32a_from (h : Z) (s : string) : Z :=
  match s with
  | EmptyString => h
  | String c s => fnv32a_from (fnv32a_byte h c) s
  end.
Definition fnv32a (s : string) : Z := fnv32a_from 2166136261 s.

Definition tenantBucket (tenantID : string) : string :=
  if bool_decide (tenantID = ""%string) then "unknown"%string
  else fmt_02d (fnv32a tenantID mod TenantBucketModulus).
Definition TenantBucket (tenantID : string) : string := tenantBucket tenantID.

(** ** Embedding metrics *)
Record EmbeddingMetricsSink (E : Type) := mkEmbeddingMetricsSink {
  AddEmbeddingRequest : string -> E -> E;
  AddEmbeddingApplied : string -> E -> E;
  AddEmbeddingTokens : string -> Z -> E -> E;
  AddEmbeddingCost : string -> Z -> E -> E
}.
Arguments mkEmbeddingMetricsSink {E}.
Arguments AddEmbeddingRequest {E}.
Arguments AddEmbeddingApplied {E}.
Arguments AddEmbeddingTokens {E}.
Arguments AddEmbeddingCost {E}.

Definition embeddingTokenCount (text : string) : Z := FieldsCount text.

Section vectors.
Context {E Vec : Type}.

Record StoredChunk := mkStoredChunk {
  ck_ID : string;
  ck_Namespace : string;
  ck_DocID : string;
  ck_Title : string;
  ck_Content : string;
  ck_Vector : Vec;
  ck_Metadata : list (string * value)
}.

Record ragQuery := mkRagQuery {
  q_Namespace : string;
  q_Vector : Vec;
  q_TopK : Z;
  q_SecurityFilters : list (string * value)
}.

(** A hit is the identifier of its chunk and its score. *)
Record ragStore := mkRagStore {
  rag_Upsert : list StoredChunk -> GoM E unit;
  rag_Remove : string -> GoM E unit;
  rag_Search : ragQuery -> GoM E (list (string * float64))
}.
Definition Embedder := string -> GoM E Vec.

(** The fields shared by the projector and the candidate source. *)
Record ragClient := mkRagClient {
  rg_embedder : option Embedder;
  rg_store : option ragStore;
  rg_namespace : string;
  rg_metrics : option (EmbeddingMetricsSink E);
  rg_costMicrosPerToken : Z
}.

Definition NewRAGClient embedder store namespace : ragClient :=
  mkRagClient embedder store namespace None 0.
Definition SetEmbeddingMetrics (p : ragClient) sink costMicrosPerToken : ragClient :=
  mkRagClient (rg_embedder p) (rg_store p) (rg_namespace p) sink costMicrosPerToken.

(** [if p.metrics != nil { p.metrics.AddEmbeddingRequest(bucket) }] *)
Definition count_request (p : ragClient) (bucket : string) : GoM E unit :=
  match rg_metrics p with
  | Some m => modify (AddEmbeddingRequest m bucket)
  | None => mret tt
  end.

(** After a successful embedding: applied, tokens, cost ([uint64]). *)
Definition count_applied (p : ragClient) (bucket text : string) : GoM E unit :=
  match rg_metrics p with
  | None => mret tt
  | Some m =>
      let tokens := embeddingTokenCount text in
      _ ← modify (AddEmbeddingApplied m bucket);
      if 0 <? tokens then
        _ ← modify (AddEmbeddingTokens m bucket tokens);
        if 0 <? rg_costMicrosPerToken p
        then modify (AddEmbeddingCost m bucket (wrapu64 (tokens * rg_costMicrosPerToken p)))
        else mret tt
      else mret tt
  end.

(** [request; Embed; applied]: the error text differs between the callers. *)
Definition embed_counted (p : ragClient) (embed : Embedder) (bucket text errtext : string) : GoM E Vec :=
  _ ← count_request p bucket;
  r ← attempt (embed text);
  match r with
  | Fail err => throw (ErrWrap errtext err)
  | Ok vec => _ ← count_applied p bucket text; mret vec
  end.

Definition resolveVectorNamespace (configured : string) (scope : Scope) : string :=
  if bool_decide (configured = ""%string) then TenantID scope else configured.

Definition vectorChunkMetadata (record : MemoryRecord) : list (string * value) :=
  [("tenant_id"%string, VStr (m_TenantID record)); ("user_id"%string, VStr (m_UserID record));
   ("project_id"%string, VStr (m_ProjectID record)); ("session_id"%string, VStr (m_SessionID record));
   ("kind"%string, VStr (m_Kind record)); ("source"%string, VStr (m_Source record));
   ("category"%string, VStr (m_Category record)); ("version"%string, VInt (m_Version record))].

Definition ProjectUpsert_rag (p : ragClient) (scope : Scope) (record : MemoryRecord) : GoM E unit :=
  match rg_embedder p with
  | None => throw (ErrText "memory-gateway/service: rag vector projector requires an embedder")
  | Some embed =>
      match rg_store p with
      | None => throw (ErrText "memory-gateway/service: rag vector projector requires a store")
      | Some store =>
          let bucket := TenantBucket (m_TenantID record) in
          vec ← embed_counted p embed bucket (m_Content record) "memory-gateway/service: embed memory record";
          rag_Upsert store [{|
            ck_ID := m_MemoryID record;
            ck_Namespace := resolveVectorNamespace (rg_namespace p) scope;
            ck_DocID := m_MemoryID record;
            ck_Title := m_Category record;
            ck_Content := m_Content record;
            ck_Vector := vec;
            ck_Metadata := vectorChunkMetadata record |}]
      end
  end.

Definition ProjectRemove_rag (p : ragClient) (scope : Scope) (memoryID : string) : GoM E unit :=
  match rg_store p with
  | None => throw (ErrText "memory-gateway/service: rag vector projector requires a store")
  | Some store =>
      if bool_decide (memoryID = ""%string) then mret tt
      else
        r ← attempt (rag_Remove store memoryID);
        match r with
        | Fail err => if err_is_exactly err RagNotFound then mret tt else throw err
        | Ok _ => mret tt
        end
  end.

Definition vectorSecurityFilters (scope : Scope) : list (string * value) :=
  [("tenant_id"%string, VStr (TenantID scope)); ("user_id"%string, VStr (UserID scope))]
  ++ (if bool_decide (ProjectID scope = ""%string) then []
      else [("project_id"%string, VStr (ProjectID scope))])
  ++ (if bool_decide (SessionID scope = ""%string) then []
      else [("session_id"%string, VStr (SessionID scope))]).

Definition RecallCandidates_rag (p : ragClient) : RecallCandidateSource E :=
  fun scope query topK =>
  match rg_embedder p with
  | None => throw (ErrText "memory-gateway/service: rag vector candidate source requires an embedder")
  | Some embed =>
      match rg_store p with
      | None => throw (ErrText "memory-gateway/service: rag vector candidate source requires a store")
      | Some store =>
          let topK := if topK <=? 0 then 8 else topK in
          let bucket := TenantBucket (TenantID scope) in
          vec ← embed_counted p embed bucket query "memory-gateway/service: embed recall query";
          r ← attempt (rag_Search store {|
                q_Namespace := resolveVectorNamespace (rg_namespace p) scope;
                q_Vector := vec; q_TopK := topK;
                q_SecurityFilters := vectorSecurityFilters scope |});
          match r with
          | Fail err =>
              if err_is_exactly err RagNotFound then throw (ErrSentinel PgNotFound) else throw err
          | Ok hits =>
              if bool_decide (hits = []) then throw (ErrSentinel PgNotFound)
              else
                let candidates := omap (fun hit : string * float64 =>
                  if bool_decide (hit.1 = ""%string) then None
                  else Some (mkRecallCandidate hit.1 hit.2)) hits in
                if bool_decide (candidates = []) then throw (ErrSentinel PgNotFound)
                else mret candidates
          end
      end
  end.

(** ** The lexical source

    [pool.Query] and the rows it yields belong to Postgres: [query_rows] takes
    the statement's six arguments and answers with the rows that scan, and
    the error of the scan or of the iteration that stopped them. *)
Inductive rows_end := RowsDone | ScanError (e : goerror) | IterError (e : goerror).

Definition lexicalPattern (query : string) : string :=
  let trimmed := TrimSpace query in
  if bool_decide (trimmed = ""%string) then "%" else "%" +:+ trimmed +:+ "%".

Definition RecallCandidates_lexical
    (pool : option (string -> string -> string -> string -> string -> Z
                    -> GoM E (list (string * float64) * rows_end))) : RecallCandidateSource E :=
  fun scope query topK =>
  match pool with
  | None => throw (ErrText "memory-gateway/service: postgres pool is required")
  | Some query_rows =>
      let topK := if topK <=? 0 then 8 else topK in
      r ← attempt (query_rows (TenantID scope) (UserID scope) (ProjectID scope) (SessionID scope)
                     (lexicalPattern query) topK);
      match r with
      | Fail err => throw (ErrWrap "memory-gateway/service: recall candidate query" err)
      | Ok (rows, ScanError err) =>
          throw (ErrWrap "memory-gateway/service: scan recall candidate row" err)
      | Ok (rows, IterError err) =>
          throw (ErrWrap "memory-gateway/service: iterate recall candidate rows" err)
      | Ok (rows, RowsDone) =>
          if bool_decide (rows = []) then throw (ErrSentinel PgNotFound)
          else mret (map (fun row => mkRecallCandidate row.1 row.2) rows)
      end
  end.
End vectors.
Arguments StoredChunk : clear implicits.
Arguments ragQuery : clear implicits.
Arguments ragStore : clear implicits.
Arguments ragClient : clear implicits.
Arguments Embedder : clear implicits.

(** ** Buckets are few *)
Lemma fnv32a_range s : 0 <= fnv32a s < two32.
Proof.
  unfold fnv32a. assert (H : forall h, 0 <= h < two32 -> 0 <= fnv32a_from h s < two32).
  { induction s as [|c s IH]; intros h Hh; cbn; [done|]. apply IH. by apply Z.mod_pos_bound. }
  by apply H.
Qed.

Definition bucket_labels : list string :=
  "unknown"%string :: map (fun n => fmt_02d (Z.of_nat n)) (seq 0 32).

(** A tenant label is one of 33: ["unknown"] for the empty tenant and a
    two-digit number below 32 otherwise, so no metric can grow with the number
    of tenants. *)
Theorem tenantBucket_bounded tenantID :
  tenantBucket tenantID ∈ bucket_labels /\ length bucket_labels = 33%nat /\ NoDup bucket_labels /\
  (tenantBucket tenantID = "unknown"%string <-> tenantID = ""%string).
Proof.
  assert (Hnd : NoDup bucket_labels).
  { apply (bool_decide_unpack _). vm_compute. exact I. }
  pose proof (Z.mod_pos_bound (fnv32a tenantID) TenantBucketModulus) as Hm.
  unfold TenantBucketModulus in Hm. specialize (Hm ltac:(lia)).
  assert (Hin : fmt_02d (fnv32a tenantID mod TenantBucketModulus)
                ∈ map (fun n => fmt_02d (Z.of_nat n)) (seq 0 32)).
  { apply list_elem_of_fmap. exists (Z.to_nat (fnv32a tenantID mod 32)).
    unfold TenantBucketModulus. split; [by rewrite Z2Nat.id by lia|]. apply elem_of_seq. lia. }
  unfold tenantBucket. case_bool_decide as E; split_and!; try done.
  - by left.
  - by right.
  - split; [|done]. intros Hu. rewrite Hu in Hin. apply NoDup_cons in Hnd as [Hnot _]. by destruct Hnot.
Qed.
Close Scope Z_scope.
