(* ===== verification/Outbox.v ===== *)
(** * The outbox publisher: [service/outbox_vector_publisher.go],
      [service/outbox_observer.go]

    Outbox events are projected into the vector store only while the truth
    source still holds the version the event speaks of. *)
From S2P Require Import Prelude GoStrings GoFloat HttpApi Authz Contract RecallSelection HybridRecall Vector.
Open Scope Z_scope.

Record OutboxProjectionObservation := mkOutboxProjectionObservation {
  op_Status : string;
  op_EventType : string;
  op_TenantID : string;
  op_MemoryID : string;
  op_EventVersion : Z;
  op_CurrentVersion : Z;
  op_Reason : string
}.
Definition OutboxProjectionObserver (E : Type) : Type := OutboxProjectionObservation -> E -> E.
Definition nopOutboxProjectionObserver {E} : OutboxProjectionObserver E := fun _ e => e.
Definition resolveOutboxProjectionObserver {E} (o : option (OutboxProjectionObserver E))
    : OutboxProjectionObserver E := default nopOutboxProjectionObserver o.

Record OutboxProjectionCounters := mkOutboxProjectionCounters {
  oc_Projected : Z;
  oc_Stale : Z;
  oc_Failed : Z;
  oc_Ignored : Z
}.
Definition Counters_ObserveProjection (obs : OutboxProjectionObservation) (c : OutboxProjectionCounters)
    : OutboxProjectionCounters :=
  let st := op_Status obs in
  if bool_decide (st = "projected"%string)
  then mkOutboxProjectionCounters (oc_Projected c + 1) (oc_Stale c) (oc_Failed c) (oc_Ignored c)
  else if bool_decide (st = "stale"%string)
  then mkOutboxProjectionCounters (oc_Projected c) (oc_Stale c + 1) (oc_Failed c) (oc_Ignored c)
  else if bool_decide (st = "failed"%string)
  then mkOutboxProjectionCounters (oc_Projected c) (oc_Stale c) (oc_Failed c + 1) (oc_Ignored c)
  else if bool_decide (st = "ignored"%string)
  then mkOutboxProjectionCounters (oc_Projected c) (oc_Stale c) (oc_Failed c) (oc_Ignored c + 1)
  else c.

Record VectorProjector (E : Type) := mkVectorProjector {
  ProjectUpsert : Scope -> MemoryRecord -> GoM E unit;
  ProjectRemove : Scope -> string -> GoM E unit
}.
Arguments mkVectorProjector {E}.
Arguments ProjectUpsert {E}.
Arguments ProjectRemove {E}.

(** [RAGVectorProjector] is one. *)
Definition RAGVectorProjector {E Vec} (p : ragClient E Vec) : VectorProjector E :=
  mkVectorProjector (ProjectUpsert_rag p) (ProjectRemove_rag p).

Record OutboxVectorPublisher (E : Type) := mkOutboxVectorPublisher {
  ovp_records : option (RecordStore E);
  ovp_projector : option (VectorProjector E);
  ovp_observer : OutboxProjectionObserver E
}.
Arguments mkOutboxVectorPublisher {E}.
Arguments ovp_records {E}.
Arguments ovp_projector {E}.
Arguments ovp_observer {E}.

Definition NewOutboxVectorPublisher {E} records projector (observer : option (OutboxProjectionObserver E))
    : OutboxVectorPublisher E :=
  mkOutboxVectorPublisher records projector (resolveOutboxProjectionObserver observer).

Definition scopeFromRecord (record : MemoryRecord) : Scope :=
  mkScope (m_TenantID record) (m_UserID record) (m_ProjectID record) (m_SessionID record).

Definition is_upsert_event (t : string) : bool :=
  bool_decide (t ∈ ["memory_created"; "memory_updated"; "memory_pinned"; "memory_unpinned"; "memory_enabled"]%string).
Definition is_remove_event (t : string) : bool :=
  bool_decide (t ∈ ["memory_disabled"; "memory_deleted"]%string).

Section publisher.
Context {E : Type} (p : OutboxVectorPublisher E).

Definition observe_projection (msg : OutboxMessage) (status : string) (currentVersion : Z)
    (reason : string) : GoM E unit :=
  modify (ovp_observer p {|
    op_Status := status; op_EventType := om_EventType msg; op_TenantID := om_TenantID msg;
    op_MemoryID := om_MemoryID msg; op_EventVersion := om_Version msg;
    op_CurrentVersion := currentVersion; op_Reason := reason |}).

(** [(record, ok, err)] with the zero record when [!ok]. *)
Definition currentRecord (records : RecordStore E) (msg : OutboxMessage)
    : GoM E (MemoryRecord * bool * option goerror) :=
  r ← attempt (GetRecord records (om_TenantID msg) (om_MemoryID msg));
  match r with
  | Ok record => mret (record, true, None)
  | Fail err => mret (emptyRecord, false, Some err)
  end.

Definition publish_upsert (records : RecordStore E) (projector : VectorProjector E)
    (msg : OutboxMessage) : GoM E unit :=
  cur ← currentRecord records msg;
  let '(current, ok, err) := cur in
  match err with
  | Some err =>
      if errors_Is err PgNotFound
      then observe_projection msg "stale" 0 "truth_source_missing"
      else _ ← observe_projection msg "failed" 0 "truth_source_error"; throw err
  | None =>
      if negb ok || negb (m_Version current =? om_Version msg)
      then observe_projection msg "stale" (m_Version current) "version_mismatch"
      else
        r ← attempt (ProjectUpsert projector (scopeFromRecord current) current);
        match r with
        | Fail err =>
            _ ← observe_projection msg "failed" (m_Version current) "project_upsert_error"; throw err
        | Ok _ => observe_projection msg "projected" (m_Version current) "upsert"
        end
  end.

Definition publish_remove (records : RecordStore E) (projector : VectorProjector E)
    (msg : OutboxMessage) : GoM E unit :=
  cur ← currentRecord records msg;
  let '(current, ok, err) := cur in
  let fatal := match err with Some err => negb (errors_Is err PgNotFound) | None => false end in
  if (fatal : bool) then
    _ ← observe_projection msg "failed" 0 "truth_source_error";
    throw (default (ErrText "") err)
  else if ok && negb (m_Version current =? om_Version msg)
  then observe_projection msg "stale" (m_Version current) "version_mismatch"
  else
    r ← attempt (ProjectRemove projector (scopeFromRecord (om_Record msg)) (om_MemoryID msg));
    match r with
    | Fail err =>
        _ ← observe_projection msg "failed" (m_Version current) "project_remove_error"; throw err
    | Ok _ => observe_projection msg "projected" (m_Version current) "remove"
    end.

Definition Publish (msg : OutboxMessage) : GoM E unit :=
  match ovp_projector p, ovp_records p with
  | Some projector, Some records =>
      let t := om_EventType msg in
      if is_upsert_event t then publish_upsert records projector msg
      else if bool_decide (t = "memory_promoted"%string)
      then observe_projection msg "promoted_noop" (om_Version msg) ""
      else if bool_decide (t = "memory_dedupe_collapsed"%string)
      then observe_projection msg "dedupe_collapsed_observed" (om_Version msg) ""
      else if is_remove_event t then publish_remove records projector msg
      else observe_projection msg "ignored" 0 "unsupported_event"
  | _, _ => mret tt
  end.

(** ** What one publication does *)
Context (records : RecordStore E) (projector : VectorProjector E) {L : RecordStoreReads records}.
Hypothesis Hrecords : ovp_records p = Some records.
Hypothesis Hprojector : ovp_projector p = Some projector.

(** The projector is called, with this outcome; or it is not. *)
Inductive projection (msg : OutboxMessage) (e : E) : E -> string -> bool -> Prop :=
| projected_upsert current e1 r :
    is_upsert_event (om_EventType msg) = true ->
    (GetRecord records (om_TenantID msg) (om_MemoryID msg) e).2 = Ok current ->
    m_Version current = om_Version msg ->
    ProjectUpsert projector (scopeFromRecord current) current e = (e1, r) ->
    projection msg e e1 (if is_ok r then "projected" else "failed") (is_ok r)
| projected_remove e1 r :
    is_remove_event (om_EventType msg) = true ->
    (forall current, (GetRecord records (om_TenantID msg) (om_MemoryID msg) e).2 = Ok current ->
       m_Version current = om_Version msg) ->
    ProjectRemove projector (scopeFromRecord (om_Record msg)) (om_MemoryID msg) e = (e1, r) ->
    projection msg e e1 (if is_ok r then "projected" else "failed") (is_ok r)
| not_projected status ok :
    status ∈ ["stale"; "failed"; "ignored"; "promoted_noop"; "dedupe_collapsed_observed"]%string ->
    ok = negb (bool_decide (status = "failed"%string)) ->
    projection msg e e status ok.

Ltac report H :=
  do 3 eexists; eexists (mkOutboxProjectionObservation _ _ _ _ _ _ _);
  split; [exact H|]; cbn; split_and!; reflexivity.
Ltac report_unprojected status ok :=
  do 3 eexists; eexists (mkOutboxProjectionObservation _ _ _ _ _ _ _);
  split; [apply (not_projected _ _ status ok); [set_solver|reflexivity]|]; cbn; split_and!; reflexivity.

(** What [projection] and the observation must say of a run. *)
Definition reports (msg : OutboxMessage) (e : E) (run : E * result goerror unit) : Prop :=
  exists e1 status ok o,
    projection msg e e1 status ok /\
    op_Status o = status /\ op_EventType o = om_EventType msg /\ op_MemoryID o = om_MemoryID msg /\
    op_TenantID o = om_TenantID msg /\ op_EventVersion o = om_Version msg /\
    run.1 = ovp_observer p o e1 /\ is_ok run.2 = ok.
Local Abbreviation current_of msg e := ((GetRecord records (om_TenantID msg) (om_MemoryID msg) e).2).

Lemma publish_upsert_reports msg e :
  is_upsert_event (om_EventType msg) = true -> reports msg e (publish_upsert records projector msg e).
Proof using L Hrecords Hprojector.
  intros Hup. unfold publish_upsert, currentRecord. rewrite !run_bind. unfold attempt.
  rewrite (get_record_run records). cbn.
  destruct (current_of msg e) as [current|err] eqn:Eg; cbn.
  - destruct (Z.eqb_spec (m_Version current) (om_Version msg)) as [Ev|]; cbn;
      [|report_unprojected "stale"%string true].
    rewrite run_bind. unfold attempt.
    destruct (ProjectUpsert projector (scopeFromRecord current) current e) as [e1 r] eqn:Ep.
    pose proof (projected_upsert msg e current e1 r Hup Eg Ev Ep) as Hp.
    destruct r; cbn in *; report Hp.
  - destruct (errors_Is err PgNotFound); cbn;
      [report_unprojected "stale"%string true|report_unprojected "failed"%string false].
Qed.

Lemma remove_reports msg e v :
  is_remove_event (om_EventType msg) = true ->
  (forall current, current_of msg e = Ok current -> m_Version current = om_Version msg) ->
  reports msg e
    ((r ← attempt (ProjectRemove projector (scopeFromRecord (om_Record msg)) (om_MemoryID msg));
      match r with
      | Fail err => _ ← observe_projection msg "failed" v "project_remove_error"; throw err
      | Ok _ => observe_projection msg "projected" v "remove"
      end) e).
Proof.
  intros Hre Hv. rewrite run_bind. unfold attempt.
  destruct (ProjectRemove projector (scopeFromRecord (om_Record msg)) (om_MemoryID msg) e) as [e1 r] eqn:Ep.
  pose proof (projected_remove msg e e1 r Hre Hv Ep) as Hp.
  destruct r; cbn in *; report Hp.
Qed.

Lemma publish_remove_reports msg e :
  is_remove_event (om_EventType msg) = true -> reports msg e (publish_remove records projector msg e).
Proof using L Hrecords Hprojector.
  intros Hre. unfold publish_remove, currentRecord. rewrite !run_bind. unfold attempt.
  rewrite (get_record_run records). cbn.
  pose proof (fun v => remove_reports msg e v Hre) as Hremove. revert Hremove.
  destruct (current_of msg e) as [current|err] eqn:Eg; cbn; intros Hremove.
  - destruct (Z.eqb_spec (m_Version current) (om_Version msg)) as [Ev|]; cbn.
    + apply Hremove. intros c [= <-]. done.
    + report_unprojected "stale"%string true.
  - destruct (errors_Is err PgNotFound); cbn; [by apply Hremove|].
    report_unprojected "failed"%string false.
Qed.

(** C28: A publication touches the vector store at most once, and only with
    what the truth source holds now: it upserts the current record only if its
    version is the event's, and removes only if the record is hidden, gone or
    at the event's version; a stale event leaves the vector store alone.  It
    reports exactly one observation, about this event, after the projection;
    the call fails exactly when that observation says ["failed"]. *)
Theorem Publish_projects_current msg e :
  exists e1 status ok o,
    projection msg e e1 status ok /\
    op_Status o = status /\ op_EventType o = om_EventType msg /\ op_MemoryID o = om_MemoryID msg /\
    op_TenantID o = om_TenantID msg /\ op_EventVersion o = om_Version msg /\
    (Publish msg e).1 = ovp_observer p o e1 /\ is_ok (Publish msg e).2 = ok.
Proof using L Hrecords Hprojector.
  change (reports msg e (Publish msg e)).
  unfold Publish. rewrite Hrecords, Hprojector. cbv zeta.
  destruct (is_upsert_event (om_EventType msg)) eqn:Hup; [by apply publish_upsert_reports|].
  case_bool_decide; [report_unprojected "promoted_noop"%string true|].
  case_bool_decide; [report_unprojected "dedupe_collapsed_observed"%string true|].
  destruct (is_remove_event (om_EventType msg)) eqn:Hre; [by apply publish_remove_reports|].
  report_unprojected "ignored"%string true.
Qed.
End publisher.

(** ** A publisher that logs, for the witness *)
Definition held : MemoryRecord :=
  mkMemoryRecord "m1" "acme" "alice" "p" "s1" "semantic" "" "" "tea" [] f_half false false false 2 0 None.
Definition holds_one : RecordStore (list string) := {|
  GetRecord := fun _ id l => (l, if bool_decide (id = "m1"%string) then Ok held else Fail (ErrSentinel PgNotFound));
  GetRecordIncludingHidden := fun _ _ l => (l, Ok held);
  WriteRecord := fun _ => throw (ErrSentinel PgNotFound);
  PatchRecord := fun _ => throw (ErrSentinel PgNotFound);
  DeleteRecord := fun _ => throw (ErrSentinel PgNotFound);
  PinRecord := fun _ => throw (ErrSentinel PgNotFound);
  DisableRecord := fun _ => throw (ErrSentinel PgNotFound)
|}.
#[export] Instance holds_one_reads : RecordStoreReads holds_one.
Proof. by split. Qed.

Definition log_projector : VectorProjector (list string) := mkVectorProjector
  (fun _ r l => ((l ++ ["upsert " +:+ m_MemoryID r]%string)%list, Ok tt))
  (fun _ id l => ((l ++ ["remove " +:+ id]%string)%list, Fail (ErrText "down"))).
Definition log_publisher : OutboxVectorPublisher (list string) :=
  mkOutboxVectorPublisher (Some holds_one) (Some log_projector)
    (fun o l => (l ++ [op_Status o])%list).
Definition event (t id : string) (v : Z) : OutboxMessage := mkOutboxMessage t "acme" id v held.

Example publish_log :
  (Publish log_publisher (event "memory_updated" "m1" 2) []).1 = ["upsert m1"; "projected"]%string /\
  (Publish log_publisher (event "memory_updated" "m1" 1) []).1 = ["stale"]%string /\
  Publish log_publisher (event "memory_deleted" "gone" 7) []
    = (["remove gone"; "failed"]%string, Fail (ErrText "down")).
Proof. vm_compute. auto. Qed.

Lemma Publish_projects_current_witness :
  exists e1 status ok, projection holds_one log_projector (event "memory_updated" "m1" 2) [] e1 status ok /\
    is_ok (Publish log_publisher (event "memory_updated" "m1" 2) []).2 = ok.
Proof.
  destruct (Publish_projects_current log_publisher holds_one log_projector eq_refl eq_refl
              (event "memory_updated" "m1" 2) []) as (e1 & status & ok & o & H & _ & _ & _ & _ & _ & _ & Hok).
  by exists e1, status, ok.
Defined.
Close Scope Z_scope.
