(* ===== verification/Metrics.v ===== *)
(** * Metrics: [observability/metrics.go]

    Scalar counters, counters per tenant bucket, the observers that feed them
    and the text exposition.  The fields of the Go struct are the constructors
    of [counter] and [family]; a counter is an atomic integer that wraps, a
    family a map from bucket labels to such counters. *)
From S2P Require Import Prelude GoStrings GoFloat GoSort HttpApi Authz Contract RecallCache Sessions ScopeVersions RecallSelection HybridRecall Service SessionCloser Vector Outbox.
Open Scope Z_scope.

Inductive counter :=
| recallL1Hit | recallL2Hit | recallOrigin | recallStaleServed | recallCacheFill | recallInvalidation
| outboxProjected | outboxStale | outboxFailed | outboxIgnored
| storageCronFailures | memoryHardDeleted.

Inductive family :=
| embeddingRequest | embeddingApplied | embeddingTokens | embeddingCost
| memoryStorageBytes | vectorStorageBytes | episodicDisabled | episodicDeleted
| recallReturned | recallSelected
| workingExpired | workingDroppedBeforeUse | workingPromoted.

#[export] Instance counter_eq_dec : EqDecision counter.
Proof. solve_decision. Defined.
#[export] Instance family_eq_dec : EqDecision family.
Proof. solve_decision. Defined.

(** What the drop source answers at a scrape: [DroppedSnapshot] of the trace
    sink once [SetTraceDropSource] installed it, zeros before. *)
Record TraceDroppedSnapshot := mkTraceDroppedSnapshot {
  td_BufferFull : Z;
  td_DBError : Z;
  td_Shutdown : Z
}.

Record Metrics := mkMetrics {
  counters : counter -> Z;
  families : family -> gmap string Z
}.

Definition NewMetrics : Metrics :=
  mkMetrics (fun _ => 0) (fun _ => ∅).

(** [atomic.Int64] for the recall and outbox counters, [atomic.Uint64] for the
    others. *)
Definition counter_wrap (c : counter) : Z -> Z :=
  match c with storageCronFailures | memoryHardDeleted => wrapu64 | _ => wrap64 end.

Definition add_counter (c : counter) (n : Z) (m : Metrics) : Metrics :=
  mkMetrics (fun d => if decide (d = c) then counter_wrap c (counters m c + n) else counters m d)
    (families m).

Definition addBucket (f : family) (key : string) (delta : Z) (m : Metrics) : Metrics :=
  mkMetrics (counters m)
    (fun g => if decide (g = f)
              then <[key := wrapu64 (default 0 (families m f !! key) + delta)]> (families m f)
              else families m g).

Definition setBucket (f : family) (key : string) (v : Z) (m : Metrics) : Metrics :=
  mkMetrics (counters m)
    (fun g => if decide (g = f) then <[key := v]> (families m f) else families m g).

Definition AddStorageCronFailure : Metrics -> Metrics := add_counter storageCronFailures 1.
Definition AddMemoryHardDeleted (n : Z) : Metrics -> Metrics := add_counter memoryHardDeleted n.

(** The metrics as the embedding sink. *)
Definition metrics_sink : EmbeddingMetricsSink Metrics := mkEmbeddingMetricsSink
  (fun b => addBucket embeddingRequest b 1)
  (fun b => addBucket embeddingApplied b 1)
  (fun b n => addBucket embeddingTokens b n)
  (fun b n => addBucket embeddingCost b n).

(** ** Observers *)
Definition when_positive (n : Z) (f : Metrics -> Metrics) (m : Metrics) : Metrics :=
  if 0 <? n then f m else m.

Definition ObserveRecall_metrics (obs : RecallObservation) (m : Metrics) : Metrics :=
  let m := if bool_decide (ob_CacheLevel obs = "l1_hit"%string) then add_counter recallL1Hit 1 m
           else if bool_decide (ob_CacheLevel obs = "l2_hit"%string) then add_counter recallL2Hit 1 m
           else if bool_decide (ob_CacheLevel obs = "origin"%string) then add_counter recallOrigin 1 m
           else m in
  let m := if ob_StaleServed obs then add_counter recallStaleServed 1 m else m in
  let m := when_positive (ob_Returned obs)
             (addBucket recallReturned (TenantBucket (ob_TenantID obs)) (ob_Returned obs)) m in
  when_positive (ob_Selected obs)
    (addBucket recallSelected (TenantBucket (ob_TenantID obs)) (ob_Selected obs)) m.

Definition ObserveRecallCache_metrics (obs : RecallCacheObservation) (m : Metrics) : Metrics :=
  if bool_decide (co_Action obs = "fill"%string) then add_counter recallCacheFill 1 m
  else if bool_decide (co_Action obs = "invalidate"%string) then add_counter recallInvalidation 1 m
  else m.

Definition ObserveProjection_metrics (obs : OutboxProjectionObservation) (m : Metrics) : Metrics :=
  let st := op_Status obs in
  let m := if bool_decide (st = "projected"%string) then add_counter outboxProjected 1 m
           else if bool_decide (st = "stale"%string) then add_counter outboxStale 1 m
           else if bool_decide (st = "failed"%string) then add_counter outboxFailed 1 m
           else if bool_decide (st = "ignored"%string) then add_counter outboxIgnored 1 m
           else m in
  if bool_decide (op_EventType obs = "memory_disabled"%string)
  then addBucket episodicDisabled (TenantBucket (op_TenantID obs)) 1 m
  else if bool_decide (op_EventType obs = "memory_deleted"%string)
  then addBucket episodicDeleted (TenantBucket (op_TenantID obs)) 1 m
  else m.

Definition ObserveWorkingLifecycle_metrics (obs : WorkingLifecycleObservation) (m : Metrics) : Metrics :=
  let bucket := TenantBucket (wl_TenantID obs) in
  let m := when_positive (wl_Expired obs) (addBucket workingExpired bucket (wl_Expired obs)) m in
  let m := when_positive (wl_DroppedBeforeUse obs)
             (addBucket workingDroppedBeforeUse bucket (wl_DroppedBeforeUse obs)) m in
  when_positive (wl_Promoted obs) (addBucket workingPromoted bucket (wl_Promoted obs)) m.

(** [composedTraceEmitter.Emit]: the emitters run in order. *)
Definition composed_emit {E} (emitters : list (TraceEmitter E)) : TraceEmitter E :=
  fun stage fields e => foldl (fun e emit => emit stage fields e) e emitters.

(** [nil] emitters are dropped. *)
Definition ComposeTraceEmitters {E} (emitters : list (option (TraceEmitter E))) : TraceEmitter E :=
  composed_emit (omap id emitters).

(** ** Exposition *)
Definition quote_char : string := String (Ascii.ascii_of_nat 34) "".
(** [%q] on the bucket labels, which are plain digits and letters. *)
Definition fmt_q_label (s : string) : string := quote_char +:+ s +:+ quote_char.

Definition bucket_line (name key : string) (v : Z) : string :=
  name +:+ "{tenant_bucket=" +:+ fmt_q_label key +:+ "} " +:+ fmt_d v.

(** [iter] lists the keys in the order in which Go iterates over the map. *)
Definition appendBucketLines (lines : list string) (name : string) (iter : list string)
    (buckets : gmap string Z) : list string :=
  match iter with
  | [] => lines
  | _ => (lines ++ map (fun k => bucket_line name k (default 0 (buckets !! k))) (SliceStable str_ltb iter))%list
  end.

Definition scalar_lines (m : Metrics) : list string :=
  map (fun c : string * counter => (c.1 +:+ " " +:+ fmt_d (counters m c.2))%string)
    [("recall_l1_hit_total"%string, recallL1Hit); ("recall_l2_hit_total"%string, recallL2Hit);
     ("recall_origin_total"%string, recallOrigin); ("recall_stale_served_total"%string, recallStaleServed);
     ("recall_cache_fill_total"%string, recallCacheFill);
     ("recall_invalidation_total"%string, recallInvalidation);
     ("outbox_projection_projected_total"%string, outboxProjected);
     ("outbox_projection_stale_total"%string, outboxStale);
     ("outbox_projection_failed_total"%string, outboxFailed);
     ("outbox_projection_ignored_total"%string, outboxIgnored)].

Definition family_names : list (string * family) :=
  [("embedding_request_total"%string, embeddingRequest); ("embedding_applied_total"%string, embeddingApplied);
   ("embedding_tokens_total"%string, embeddingTokens); ("embedding_cost_total"%string, embeddingCost);
   ("memory_storage_bytes_total"%string, memoryStorageBytes);
   ("vector_storage_bytes_total"%string, vectorStorageBytes);
   ("episodic_disabled_total"%string, episodicDisabled); ("episodic_deleted_total"%string, episodicDeleted);
   ("recall_returned_total"%string, recallReturned); ("recall_selected_total"%string, recallSelected);
   ("working_expired_total"%string, workingExpired);
   ("working_dropped_before_use_total"%string, workingDroppedBeforeUse);
   ("working_promoted_total"%string, workingPromoted)].

Definition trace_line (reason : string) (n : Z) : string :=
  "trace_dropped_total{reason=" +:+ fmt_q_label reason +:+ "} " +:+ fmt_d n.

Definition exposition (iter : family -> list string) (dropped : TraceDroppedSnapshot) (m : Metrics) : list string :=
  let buckets := foldl (fun lines nf => appendBucketLines lines nf.1 (iter nf.2) (families m nf.2))
                   (scalar_lines m) family_names in
  (buckets ++ [trace_line "buffer_full" (td_BufferFull dropped);
               trace_line "db_error" (td_DBError dropped);
               trace_line "shutdown" (td_Shutdown dropped);
               "storage_cron_failures_total " +:+ fmt_d (counters m storageCronFailures);
               "memory_hard_deleted_total " +:+ fmt_d (counters m memoryHardDeleted)]%string)%list.

Fixpoint join_lines (lines : list string) : string :=
  match lines with
  | [] => ""
  | [l] => l
  | l :: rest => l +:+ String (Ascii.ascii_of_nat 10) (join_lines rest)
  end.
Definition metrics_Handler (iter : family -> list string) (dropped : TraceDroppedSnapshot) (m : Metrics) : string :=
  join_lines (exposition iter dropped m).

(** ** Counting *)
Definition bucket_value (m : Metrics) (f : family) (key : string) : Z := default 0 (families m f !! key).

Definition normalized (m : Metrics) : Prop :=
  forall f key, wrapu64 (bucket_value m f key) = bucket_value m f key.

Lemma bucket_add f k d m g key :
  bucket_value (addBucket f k d m) g key =
  if decide (g = f /\ key = k) then wrapu64 (bucket_value m f k + d) else bucket_value m g key.
Proof.
  unfold bucket_value, addBucket. cbn. destruct (decide (g = f)) as [->|Hg].
  - destruct (decide (key = k)) as [->|Hk].
    + destruct (decide (f = f /\ k = k)); [|tauto]. by rewrite lookup_insert_eq.
    + destruct (decide (f = f /\ key = k)); [tauto|]. by rewrite lookup_insert_ne by congruence.
  - by destruct (decide (g = f /\ key = k)) as [[??]|].
Qed.

Lemma wrapu64_idem z : wrapu64 (wrapu64 z) = wrapu64 z.
Proof. apply Zmod_mod. Qed.

(** A sequence of increments, and what it adds to one counter. *)
Record increment := mkIncrement { inc_family : family; inc_key : string; inc_delta : Z }.
Definition apply_increments (ops : list increment) (m : Metrics) : Metrics :=
  foldl (fun m o => addBucket (inc_family o) (inc_key o) (inc_delta o) m) m ops.
Definition contribution (f : family) (key : string) (ops : list increment) : Z :=
  sum_Z (map (fun o => if decide (f = inc_family o /\ key = inc_key o) then inc_delta o else 0) ops).

Lemma contribution_app f key a b :
  contribution f key (a ++ b) = contribution f key a + contribution f key b.
Proof. unfold contribution. by rewrite map_app, sum_Z_app. Qed.

Lemma apply_increments_cons o ops m :
  apply_increments (o :: ops) m = apply_increments ops (addBucket (inc_family o) (inc_key o) (inc_delta o) m).
Proof. done. Qed.

Lemma apply_increments_value ops m f key :
  normalized m ->
  bucket_value (apply_increments ops m) f key = wrapu64 (bucket_value m f key + contribution f key ops).
Proof.
  revert m. induction ops as [|o ops IH]; intros m Hm.
  { unfold contribution. cbn. by rewrite Z.add_0_r, Hm. }
  rewrite apply_increments_cons, IH.
  2: { intros g k. rewrite bucket_add. destruct (decide _); [apply wrapu64_idem|apply Hm]. }
  rewrite bucket_add. unfold contribution. cbn. unfold sum_Z.
  destruct (decide (f = inc_family o /\ key = inc_key o)) as [[-> ->]|].
  - rewrite wrapu64_add_l. f_equal. lia.
  - by rewrite Z.add_0_l.
Qed.

Lemma normalized_new : normalized NewMetrics.
Proof. intros f key. unfold bucket_value. cbn. by rewrite lookup_empty. Qed.

(** *** Embedding calls

    Calls of the projector or of the candidate source, seen from the metrics:
    the embedder answers from [embed]; a call is a tenant and a text. *)
Section embedding.
Context {Vec : Type} (embed : string -> result goerror Vec) (rate : Z).

Definition metered : ragClient Metrics Vec :=
  SetEmbeddingMetrics (NewRAGClient (Some (fun text m => (m, embed text))) None "") (Some metrics_sink) rate.

Definition embed_call (m : Metrics) (call : string * string) : Metrics :=
  (embed_counted metered (fun text m => (m, embed text)) (TenantBucket call.1) call.2 "embed" m).1.

Definition embed_increments (call : string * string) : list increment :=
  let bucket := TenantBucket call.1 in
  let tokens := embeddingTokenCount call.2 in
  mkIncrement embeddingRequest bucket 1 ::
  if is_ok (embed call.2) then
    mkIncrement embeddingApplied bucket 1 ::
    if 0 <? tokens then
      mkIncrement embeddingTokens bucket tokens ::
      if 0 <? rate then [mkIncrement embeddingCost bucket (wrapu64 (tokens * rate))] else []
    else []
  else [].

Lemma embed_call_increments m call : embed_call m call = apply_increments (embed_increments call) m.
Proof.
  unfold embed_call, embed_counted, count_request, count_applied, embed_increments.
  cbn [metered rg_metrics SetEmbeddingMetrics NewRAGClient rg_costMicrosPerToken].
  rewrite !run_bind. unfold attempt. cbn. destruct (embed call.2) as [vec|err]; cbn; [|done].
  destruct (0 <? embeddingTokenCount call.2); [destruct (0 <? rate)|]; done.
Qed.

Lemma embed_calls_increments calls m :
  foldl embed_call m calls = apply_increments (flat_map embed_increments calls) m.
Proof.
  revert m. induction calls as [|c calls IH]; intros m; cbn [foldl flat_map]; [done|].
  rewrite IH, embed_call_increments. unfold apply_increments. by rewrite foldl_app.
Qed.

(** The calls of a bucket, those the embedder answered, and their tokens. *)
Definition in_bucket (key : string) (call : string * string) : bool := bool_decide (TenantBucket call.1 = key).
Definition requests_of (key : string) (calls : list (string * string)) : Z :=
  sum_Z (map (fun c => if in_bucket key c then 1 else 0) calls).
Definition applied_of (key : string) (calls : list (string * string)) : Z :=
  sum_Z (map (fun c => if in_bucket key c && is_ok (embed c.2) then 1 else 0) calls).
Definition tokens_of (key : string) (calls : list (string * string)) : Z :=
  sum_Z (map (fun c => if in_bucket key c && is_ok (embed c.2) then embeddingTokenCount c.2 else 0) calls).

Ltac contributions key c :=
  unfold embed_increments, contribution, in_bucket; cbn;
  destruct (decide (TenantBucket c.1 = key)) as [<-|];
  [rewrite bool_decide_eq_true_2 by done|rewrite bool_decide_eq_false_2 by done];
  cbn; destruct (is_ok (embed c.2)); cbn;
  try (destruct (Z.ltb_spec 0 (embeddingTokenCount c.2)); cbn);
  try (destruct (Z.ltb_spec 0 rate); cbn);
  repeat (case_decide; [try (exfalso; intuition congruence)|try (exfalso; intuition congruence)]).

Lemma embed_contribution key c :
  0 <= rate ->
  contribution embeddingRequest key (embed_increments c) = (if in_bucket key c then 1 else 0) /\
  contribution embeddingApplied key (embed_increments c)
    = (if in_bucket key c && is_ok (embed c.2) then 1 else 0) /\
  contribution embeddingTokens key (embed_increments c)
    = (if in_bucket key c && is_ok (embed c.2) then embeddingTokenCount c.2 else 0) /\
  wrapu64 (contribution embeddingCost key (embed_increments c))
    = wrapu64 ((if in_bucket key c && is_ok (embed c.2) then embeddingTokenCount c.2 else 0) * rate).
Proof.
  intros Hrate. assert (Ht : 0 <= embeddingTokenCount c.2) by apply FieldsCount_bounds.
  split_and!; contributions key c; unfold sum_Z; cbn; try lia; try done;
    rewrite ?Z.add_0_l, ?Z.add_0_r, ?wrapu64_idem; try done; f_equal; nia.
Qed.

End embedding.

Definition embed_ascii (text : string) : result goerror string :=
  if bool_decide (text = "down"%string) then Fail (ErrText "embedder down") else Ok text.


(** ** The exposition does not depend on map iteration *)
Definition iterates (m : Metrics) (iter : family -> list string) : Prop :=
  forall f, iter f ≡ₚ map fst (map_to_list (families m f)).

Lemma SliceStable_keys l1 l2 : l1 ≡ₚ l2 -> SliceStable str_ltb l1 = SliceStable str_ltb l2.
Proof.
  pose proof (StrictWeak_str id (fun _ => True)) as HSW.
  intros Hp. apply (SliceStable_perm_invariant _ (fun _ => True)); [by apply Forall_true|done|].
  intros a b _ _. unfold equiv_to. rewrite andb_true_iff, !negb_true_iff.
  intros [H1 H2]. by apply str_ltb_total.
Qed.

Lemma appendBucketLines_perm lines name it1 it2 buckets :
  it1 ≡ₚ it2 -> appendBucketLines lines name it1 buckets = appendBucketLines lines name it2 buckets.
Proof.
  intros Hp. unfold appendBucketLines. rewrite (SliceStable_keys _ _ Hp).
  destruct it1, it2; [done| | |done].
  - by apply Permutation_nil_l in Hp.
  - by apply Permutation_nil_r in Hp.
Qed.

(** Two scrapes of the same counters are byte-identical, in whatever order
    Go iterates over the bucket maps. *)
Theorem metrics_Handler_deterministic dropped m it1 it2 :
  iterates m it1 -> iterates m it2 -> metrics_Handler it1 dropped m = metrics_Handler it2 dropped m.
Proof.
  intros H1 H2. unfold metrics_Handler, exposition. do 2 f_equal.
  generalize (scalar_lines m) as lines. induction family_names as [|nf rest IH]; intros lines; [done|]. cbn [foldl].
  rewrite (appendBucketLines_perm _ _ (it1 nf.2) (it2 nf.2)); [apply IH|]. by rewrite H1, H2.
Qed.

Definition none_dropped : TraceDroppedSnapshot := mkTraceDroppedSnapshot 0 0 0.
Definition two_buckets : Metrics :=
  addBucket recallReturned "t09" 4 (addBucket recallReturned "t03" 9 (addBucket recallReturned "t1f" 2 NewMetrics)).

Lemma metrics_Handler_deterministic_witness :
  let it f := map fst (map_to_list (families two_buckets f)) in
  let rev_it f := reverse (it f) in
  metrics_Handler rev_it none_dropped two_buckets = metrics_Handler it none_dropped two_buckets.
Proof.
  apply (metrics_Handler_deterministic none_dropped two_buckets
    (fun f => reverse (map fst (map_to_list (families two_buckets f))))
    (fun f => map fst (map_to_list (families two_buckets f)))).
  - intros f. apply reverse_Permutation.
  - intros f. reflexivity.
Defined.
Close Scope Z_scope.
