(* ===== verification/MetricsRace.v ===== *)
(** * Concurrent increments: [Metrics.addBucket] under its locks

    The buckets are shared counters behind pointers, and [addBucket] looks a
    pointer up under the read lock, inserts one under the write lock when it
    is missing, and adds through the pointer with no lock held.  Each of these
    three moments is a step; goroutines interleave freely. *)
From S2P Require Import Prelude GoStrings GoFloat GoSort HttpApi Authz Contract RecallCache Sessions ScopeVersions RecallSelection HybridRecall Service SessionCloser Vector Outbox Metrics.
Open Scope Z_scope.

(** Where a goroutine stands in [addBucket]. *)
Inductive add_pc :=
| AddEnter
| AddMissed
| AddHolds (v : nat)
| AddDone.

Record adder := mkAdder { ad_key : string; ad_delta : Z; ad_pc : add_pc }.

(** [v] points into [cells]; [new(atomic.Uint64)] appends one. *)
Record buckets_heap := mkBucketsHeap {
  bh_map : gmap string nat;
  bh_cells : list Z;
  bh_adders : list adder
}.

Definition start_race (ops : list increment) : buckets_heap :=
  mkBucketsHeap ∅ [] (map (fun o => mkAdder (inc_key o) (inc_delta o) AddEnter) ops).

Definition set_pc (a : adder) (pc : add_pc) : adder := mkAdder (ad_key a) (ad_delta a) pc.

(** [m.mu.RLock(); v, ok := buckets[key]; m.mu.RUnlock()] *)
Definition read_locked (a : adder) (st : buckets_heap) : add_pc :=
  match bh_map st !! ad_key a with Some v => AddHolds v | None => AddMissed end.

(** Under the write lock: the re-check and the insertion. *)
Definition write_locked (a : adder) (st : buckets_heap) : gmap string nat * list Z * nat :=
  match bh_map st !! ad_key a with
  | Some v => (bh_map st, bh_cells st, v)
  | None => let v := length (bh_cells st) in (<[ad_key a := v]> (bh_map st), (bh_cells st ++ [0])%list, v)
  end.

(** [v.Add(delta)] *)
Definition atomic_add (v : nat) (delta : Z) (cells : list Z) : list Z :=
  alter (fun old => wrapu64 (old + delta)) v cells.

(** Goroutine [i] runs up to its next synchronization; a finished one stays. *)
Definition add_step (i : nat) (st : buckets_heap) : buckets_heap :=
  match bh_adders st !! i with
  | None => st
  | Some a =>
      match ad_pc a with
      | AddEnter => mkBucketsHeap (bh_map st) (bh_cells st)
                      (<[i := set_pc a (read_locked a st)]> (bh_adders st))
      | AddMissed => let '(bs, cells, v) := write_locked a st in
                     mkBucketsHeap bs cells (<[i := set_pc a (AddHolds v)]> (bh_adders st))
      | AddHolds v => mkBucketsHeap (bh_map st) (atomic_add v (ad_delta a) (bh_cells st))
                        (<[i := set_pc a AddDone]> (bh_adders st))
      | AddDone => st
      end
  end.

Definition run_schedule (schedule : list nat) (st : buckets_heap) : buckets_heap :=
  foldl (fun st i => add_step i st) st schedule.

Definition heap_value (st : buckets_heap) (key : string) : Z :=
  default 0 (bh_map st !! key ≫= fun v => bh_cells st !! v).
Definition all_done (st : buckets_heap) : Prop := Forall (fun a => ad_pc a = AddDone) (bh_adders st).

(** ** The invariant *)
Definition done_delta (key : string) (a : adder) : Z :=
  match ad_pc a with AddDone => if decide (ad_key a = key) then ad_delta a else 0 | _ => 0 end.
Definition done_sum (key : string) (adders : list adder) : Z := sum_Z (map (done_delta key) adders).
#[local] Arguments done_sum : simpl never.

Definition holds_own (bs : gmap string nat) (a : adder) : Prop :=
  match ad_pc a with
  | AddHolds v => bs !! ad_key a = Some v
  | AddDone => is_Some (bs !! ad_key a)
  | _ => True
  end.

Record heap_inv (st : buckets_heap) : Prop := {
  hi_bound key v : bh_map st !! key = Some v -> (v < length (bh_cells st))%nat;
  hi_inj k1 k2 v : bh_map st !! k1 = Some v -> bh_map st !! k2 = Some v -> k1 = k2;
  hi_own : Forall (holds_own (bh_map st)) (bh_adders st);
  hi_sum key v : bh_map st !! key = Some v ->
    bh_cells st !! v = Some (wrapu64 (done_sum key (bh_adders st)))
}.

Lemma done_sum_insert key adders i a a' :
  adders !! i = Some a ->
  done_sum key (<[i := a']> adders) = done_sum key adders - done_delta key a + done_delta key a'.
Proof.
  intros Hi. unfold done_sum.
  rewrite <-(take_drop_middle _ _ _ Hi) at 2. rewrite insert_take_drop by eauto using lookup_lt_Some.
  rewrite !map_app, !sum_Z_app. unfold sum_Z. cbn. lia.
Qed.

Lemma done_sum_unfinished key adders i a pc :
  adders !! i = Some a -> ad_pc a <> AddDone -> pc <> AddDone ->
  done_sum key (<[i := set_pc a pc]> adders) = done_sum key adders.
Proof.
  intros Hi Ha Hpc. rewrite (done_sum_insert _ _ _ a) by done.
  unfold done_delta. cbn. destruct (ad_pc a); try done; destruct pc; try done; lia.
Qed.

Lemma done_sum_finish key adders i a :
  adders !! i = Some a -> ad_pc a <> AddDone ->
  done_sum key (<[i := set_pc a AddDone]> adders)
  = done_sum key adders + if decide (ad_key a = key) then ad_delta a else 0.
Proof.
  intros Hi Ha. rewrite (done_sum_insert _ _ _ a) by done.
  unfold done_delta at 1 2. cbn. destruct (ad_pc a); try done; lia.
Qed.

(** A key without a bucket has no finished goroutine. *)
Lemma done_sum_missing st key :
  heap_inv st -> bh_map st !! key = None -> done_sum key (bh_adders st) = 0.
Proof.
  intros [_ _ Hown _] Hk. unfold done_sum.
  induction Hown as [|a adders Ha _ IH]; [done|]. cbn. unfold sum_Z in *. cbn. rewrite IH.
  unfold done_delta, holds_own in *. destruct (ad_pc a); try done.
  destruct (decide (ad_key a = key)) as [<-|]; [|done]. rewrite Hk in Ha. by destruct Ha.
Qed.

Lemma holds_own_mono bs key v a :
  bs !! key = None -> holds_own bs a -> holds_own (<[key := v]> bs) a.
Proof.
  intros Hk. unfold holds_own. destruct (ad_pc a) as [| |w|]; try done.
  - intros Hw. by rewrite lookup_insert_ne by congruence.
  - intros Hs. destruct (decide (key = ad_key a)) as [->|]; [by rewrite Hk in Hs; destruct Hs|].
    by rewrite lookup_insert_ne.
Qed.

Lemma heap_inv_step i st : heap_inv st -> heap_inv (add_step i st).
Proof.
  intros I. destruct st as [bs cells adders]. unfold add_step; cbn.
  destruct (adders !! i) as [a|] eqn:Hi; [|done].
  pose proof (hi_own _ I) as Hown; cbn in Hown.
  pose proof (Forall_lookup_1 _ _ _ _ Hown Hi) as Ha.
  destruct (ad_pc a) as [| |v|] eqn:Hpc; [| | |done].
  - assert (Hr : read_locked a (mkBucketsHeap bs cells adders) <> AddDone)
      by (unfold read_locked; cbn; by destruct (bs !! _)).
    split; cbn; [apply I|apply I| |].
    + apply Forall_insert; [done|]. unfold holds_own, read_locked; cbn. by destruct (bs !! ad_key a) eqn:E.
    + intros key w Hw. rewrite done_sum_unfinished by congruence. by apply (hi_sum _ I).
  - unfold write_locked; cbn. destruct (bs !! ad_key a) as [v|] eqn:E.
    + split; cbn; [apply I|apply I| |].
      * by apply Forall_insert.
      * intros key w Hw. rewrite done_sum_unfinished by congruence. by apply (hi_sum _ I).
    + split; cbn.
      * intros key w. rewrite length_app. cbn. rewrite lookup_insert_Some.
        intros [[_ <-]|[_ Hw%(hi_bound _ I)]]; cbn in *; lia.
      * intros k1 k2 w. rewrite !lookup_insert_Some.
        intros [[<- <-]|[Hn H1]] [[<- E2]|[Hn2 H2]]; [done| | |by eapply (hi_inj _ I)].
        -- apply (hi_bound _ I) in H2. cbn in H2. lia.
        -- subst. apply (hi_bound _ I) in H1. cbn in H1. lia.
      * apply Forall_insert; [|unfold holds_own; cbn; by rewrite lookup_insert_eq].
        eapply Forall_impl; [exact Hown|]. intros b. by apply holds_own_mono.
      * intros key w Hw. rewrite done_sum_unfinished by congruence.
        apply lookup_insert_Some in Hw as [[<- <-]|[Hn Hw]].
        -- pose proof (done_sum_missing _ _ I E) as Hz; cbn in Hz. rewrite Hz. by rewrite lookup_app_r, Nat.sub_diag by lia.
        -- pose proof (hi_bound _ I _ _ Hw). rewrite lookup_app_l by done. by apply (hi_sum _ I).
  - unfold holds_own in Ha. rewrite Hpc in Ha. unfold atomic_add.
    split; cbn; [|apply I| |].
    + intros key w Hw. rewrite length_alter. by apply (hi_bound _ I key).
    + apply Forall_insert; [done|]. unfold holds_own; cbn. by rewrite Ha.
    + intros key w Hw. rewrite done_sum_finish by congruence.
      destruct (decide (ad_key a = key)) as [<-|Hk].
      * rewrite Ha in Hw. injection Hw as <-. rewrite list_lookup_alter_eq.
        pose proof (hi_sum _ I _ _ Ha) as Hs; cbn in Hs. rewrite Hs. cbn. by rewrite wrapu64_add_l.
      * rewrite list_lookup_alter_ne, Z.add_0_r; [by apply (hi_sum _ I)|].
        intros ->. by apply Hk, (hi_inj _ I _ _ w).
Qed.

Lemma heap_inv_start ops : heap_inv (start_race ops).
Proof.
  split; cbn; [by intros * ?..| |by intros * ?].
  apply Forall_forall. intros a (o & -> & _)%list_elem_of_fmap. done.
Qed.

Lemma heap_inv_run schedule st : heap_inv st -> heap_inv (run_schedule schedule st).
Proof.
  unfold run_schedule. revert st. induction schedule as [|i s IH]; intros st I; cbn; [done|].
  by apply IH, heap_inv_step.
Qed.

(** The goroutines keep their arguments. *)
Definition arguments (st : buckets_heap) : list (string * Z) :=
  map (fun a => (ad_key a, ad_delta a)) (bh_adders st).

Lemma arguments_insert adders i a pc :
  adders !! i = Some a ->
  map (fun a => (ad_key a, ad_delta a)) (<[i := set_pc a pc]> adders)
  = map (fun a => (ad_key a, ad_delta a)) adders.
Proof.
  intros Hi. change (map ?f ?l) with (f <$> l). rewrite list_fmap_insert. cbn.
  apply list_insert_id. by rewrite list_lookup_fmap, Hi.
Qed.

Lemma arguments_step i st : arguments (add_step i st) = arguments st.
Proof.
  unfold arguments, add_step, write_locked. destruct (bh_adders st !! i) as [a|] eqn:Hi; [|done].
  destruct (ad_pc a); [..|done]; try destruct (bh_map st !! ad_key a); cbn; by apply arguments_insert.
Qed.

Lemma arguments_run schedule st : arguments (run_schedule schedule st) = arguments st.
Proof.
  unfold run_schedule. revert st. induction schedule as [|i s IH]; intros st; cbn; [done|].
  by rewrite IH, arguments_step.
Qed.

Lemma done_sum_all key adders :
  Forall (fun a => ad_pc a = AddDone) adders ->
  done_sum key adders
  = sum_Z (map (fun kd : string * Z => if decide (kd.1 = key) then kd.2 else 0)
             (map (fun a => (ad_key a, ad_delta a)) adders)).
Proof.
  intros H. unfold done_sum. rewrite map_map. f_equal. apply map_ext_Forall.
  eapply Forall_impl; [exact H|]. intros a Ha. unfold done_delta. by rewrite Ha.
Qed.

Lemma contribution_arguments f key ops :
  Forall (fun o => inc_family o = f) ops ->
  contribution f key ops
  = sum_Z (map (fun kd : string * Z => if decide (kd.1 = key) then kd.2 else 0)
             (arguments (start_race ops))).
Proof.
  intros H. unfold contribution, arguments. cbn. rewrite !map_map. f_equal. apply map_ext_Forall.
  eapply Forall_impl; [exact H|]. intros o Ho. cbn.
  destruct (decide (inc_key o = key)) as [?|?], (decide (f = inc_family o /\ key = inc_key o)) as [[? ?]|?];
    try done; exfalso; by auto.
Qed.

(** C31: No increment is lost, however the goroutines that call [addBucket]
    interleave: once all have returned, every bucket holds what the atomic
    [addBucket] leaves when it runs them one after the other, although two
    goroutines may both have missed the bucket and raced to insert it. *)
Theorem concurrent_addBucket_linearizable f ops schedule key :
  Forall (fun o => inc_family o = f) ops ->
  let st := run_schedule schedule (start_race ops) in
  all_done st -> heap_value st key = bucket_value (apply_increments ops NewMetrics) f key.
Proof.
  intros Hops st Hdone. rewrite apply_increments_value by apply normalized_new.
  assert (bucket_value NewMetrics f key = 0) as -> by (unfold bucket_value; cbn; by rewrite lookup_empty).
  rewrite Z.add_0_l, (contribution_arguments f) by done.
  rewrite <-(arguments_run schedule). change (run_schedule schedule (start_race ops)) with st.
  assert (I : heap_inv st) by apply heap_inv_run, heap_inv_start.
  unfold arguments. rewrite <-done_sum_all by done. unfold heap_value.
  destruct (bh_map st !! key) as [v|] eqn:E; cbn.
  - by rewrite (hi_sum _ I _ _ E).
  - by rewrite (done_sum_missing _ _ I E).
Qed.

(** Two goroutines miss the same bucket, then both insert and add. *)
Lemma concurrent_addBucket_linearizable_witness :
  let ops := [mkIncrement embeddingTokens "t07" 5; mkIncrement embeddingTokens "t07" 6] in
  let st := run_schedule [0; 1; 0; 1; 1; 0]%nat (start_race ops) in
  heap_value st "t07" = bucket_value (apply_increments ops NewMetrics) embeddingTokens "t07" /\
  heap_value st "t07" = 11.
Proof.
  split; [|vm_compute; reflexivity].
  apply (concurrent_addBucket_linearizable embeddingTokens
           [mkIncrement embeddingTokens "t07" 5; mkIncrement embeddingTokens "t07" 6] [0; 1; 0; 1; 1; 0]%nat "t07").
  - by repeat constructor.
  - unfold all_done. vm_compute. by repeat constructor.
Defined.
Close Scope Z_scope.
