(* ===== verification/TraceSink.v ===== *)
(** * The decision-trace sink

    [service/trace_sink.go], [service/trace_sink_postgres.go] and
    [observability/trace_sink_emitter.go].  The sink is a bounded channel, one
    writer goroutine and a stopper; every send, receive, insertion attempt,
    backoff and deadline is an event, and [step] says when it can happen and
    what it does.  The database behind [InsertFunc] answers each attempt, and
    keeps the batches it stored: those it acknowledged, and those whose answer
    was lost, so that the caller saw an error. *)
From S2P Require Import Prelude GoStrings GoFloat GoSort HttpApi Authz Contract RecallCache Sessions ScopeVersions RecallSelection HybridRecall Service SessionCloser Vector Outbox Metrics.
Open Scope Z_scope.

Record TraceRow := mkTraceRow {
  tr_TenantID : string;
  tr_RequestID : string;
  tr_Stage : string;
  tr_Reason : string;
  tr_MemoryID : string;
  tr_Version : Z;
  tr_EmittedAt : time;
  tr_Emitter : string;
  tr_Payload : gmap string value
}.

(** ** Construction *)
Definition hour : duration := 60 * minute.

Definition defaultTraceSinkRetryBackoff : list duration :=
  [50 * millisecond; 200 * millisecond; 800 * millisecond].

(** [InsertFunc] is kept as whether it is set: its calls are events. *)
Record SinkConfig := mkSinkConfig {
  sc_InsertFunc : bool;
  sc_BufferSize : Z;
  sc_BatchSize : Z;
  sc_FlushInterval : duration;
  sc_ShutdownTimeout : duration;
  sc_RetryBackoff : list duration
}.

Definition or_default (v d : Z) : Z := if v <=? 0 then d else v.

(** The immutable part of the sink. *)
Definition sink_settings (cfg : SinkConfig) : SinkConfig := mkSinkConfig
  (sc_InsertFunc cfg)
  (or_default (sc_BufferSize cfg) 1024)
  (or_default (sc_BatchSize cfg) 50)
  (or_default (sc_FlushInterval cfg) (250 * millisecond))
  (or_default (sc_ShutdownTimeout cfg) (5 * second))
  (match sc_RetryBackoff cfg with [] => defaultTraceSinkRetryBackoff | bs => bs end).

(** Where the writer resumes after [tryInsert]: in the loop of [Run], in the
    loop of [drainOnShutdown], or before its last count. *)
Inductive resume := ToRun | ToDrain | ToFinal.

(** The writer: before [Run], in the [select] of [Run], inside the [n]-th call
    of [insertFunc], in the backoff after it, in the loop of
    [drainOnShutdown], in [countRemainingAsShutdownDrops], returned. *)
Inductive phase :=
| PNew
| PRun
| PInsert (attempt : nat) (after : resume)
| PSleep (attempt : nat) (after : resume)
| PDrain
| PCount
| PExited.

Inductive stop_phase := NotStopped | StopWaits | StopCounts | StopReturned.

Record Sink := mkSink {
  ch : list TraceRow;
  batch : list TraceRow;
  writer : phase;
  stopper : stop_phase;
  stopClosed : bool;
  ctxDone : bool;
  drainExpired : bool;
  droppedBufferFull : Z;
  droppedDBError : Z;
  droppedShutdown : Z;
  inserted : list (list TraceRow);  (* acknowledged *)
  stored : list (list TraceRow)     (* all the database holds, in order *)
}.

Definition NewPostgresDecisionTraceSink : Sink :=
  mkSink [] [] PNew NotStopped false false false 0 0 0 [] [].

Definition set_ch (c : list TraceRow) (s : Sink) : Sink :=
  mkSink c (batch s) (writer s) (stopper s) (stopClosed s) (ctxDone s) (drainExpired s)
    (droppedBufferFull s) (droppedDBError s) (droppedShutdown s) (inserted s) (stored s).
Definition set_batch (b : list TraceRow) (s : Sink) : Sink :=
  mkSink (ch s) b (writer s) (stopper s) (stopClosed s) (ctxDone s) (drainExpired s)
    (droppedBufferFull s) (droppedDBError s) (droppedShutdown s) (inserted s) (stored s).
Definition set_writer (p : phase) (s : Sink) : Sink :=
  mkSink (ch s) (batch s) p (stopper s) (stopClosed s) (ctxDone s) (drainExpired s)
    (droppedBufferFull s) (droppedDBError s) (droppedShutdown s) (inserted s) (stored s).
Definition set_stopper (p : stop_phase) (closed : bool) (s : Sink) : Sink :=
  mkSink (ch s) (batch s) (writer s) p closed (ctxDone s) (drainExpired s)
    (droppedBufferFull s) (droppedDBError s) (droppedShutdown s) (inserted s) (stored s).
Definition set_clocks (cancelled expired : bool) (s : Sink) : Sink :=
  mkSink (ch s) (batch s) (writer s) (stopper s) (stopClosed s) cancelled expired
    (droppedBufferFull s) (droppedDBError s) (droppedShutdown s) (inserted s) (stored s).
Definition add_drops (full db shutdown : Z) (s : Sink) : Sink :=
  mkSink (ch s) (batch s) (writer s) (stopper s) (stopClosed s) (ctxDone s) (drainExpired s)
    (wrapu64 (droppedBufferFull s + full)) (wrapu64 (droppedDBError s + db))
    (wrapu64 (droppedShutdown s + shutdown)) (inserted s) (stored s).
Definition add_inserted (rows : list TraceRow) (s : Sink) : Sink :=
  mkSink (ch s) (batch s) (writer s) (stopper s) (stopClosed s) (ctxDone s) (drainExpired s)
    (droppedBufferFull s) (droppedDBError s) (droppedShutdown s) (inserted s ++ [rows])%list
    (stored s ++ [rows])%list.
(** An attempt that failed: the database may have stored the batch all the same. *)
Definition keep_stored (committed : bool) (s : Sink) : Sink :=
  mkSink (ch s) (batch s) (writer s) (stopper s) (stopClosed s) (ctxDone s) (drainExpired s)
    (droppedBufferFull s) (droppedDBError s) (droppedShutdown s) (inserted s)
    (stored s ++ if committed then [batch s] else [])%list.

Definition rows_len (rows : list TraceRow) : Z := Z.of_nat (length rows).

Definition DroppedSnapshot (s : Sink) : TraceDroppedSnapshot :=
  mkTraceDroppedSnapshot (droppedBufferFull s) (droppedDBError s) (droppedShutdown s).

Section sink.
Context (cfg : SinkConfig).

(** [Record]: a send that never blocks. *)
Definition Record_ (row : TraceRow) (s : Sink) : Sink :=
  if rows_len (ch s) <? sc_BufferSize cfg then set_ch (ch s ++ [row])%list s else add_drops 1 0 0 s.

Definition resume_phase (after : resume) : phase :=
  match after with ToRun => PRun | ToDrain => PDrain | ToFinal => PCount end.

(** The context [tryInsert] is given: [Run]'s, or the drain deadline. *)
Definition insert_ctx_done (after : resume) (s : Sink) : bool :=
  match after with ToRun => ctxDone s | _ => drainExpired s end.

(** [flush] and [flushOne]. *)
Definition start_flush (after : resume) (s : Sink) : Sink :=
  match batch s with
  | [] => set_writer (resume_phase after) s
  | _ => if sc_InsertFunc cfg then set_writer (PInsert 0 after) s
         else set_batch [] (set_writer (resume_phase after) s)
  end.

Definition end_flush (ok : bool) (after : resume) (s : Sink) : Sink :=
  let n := rows_len (batch s) in
  let counted :=
    if ok then add_inserted (batch s) s
    else match after with
         | ToRun => add_drops 0 n 0 s
         | _ => if drainExpired s then add_drops 0 0 n s else add_drops 0 n 0 s
         end in
  set_batch [] (set_writer (resume_phase after) counted).

(** [case row := <-s.ch] in both loops. *)
Definition receive (after : resume) (s : Sink) : option Sink :=
  match ch s with
  | [] => None
  | row :: rest =>
      let s := set_batch (batch s ++ [row])%list (set_ch rest s) in
      Some (if sc_BatchSize cfg <=? rows_len (batch s) then start_flush after s else s)
  end.

(** One turn of [countRemainingAsShutdownDrops]: [None] is its [default]. *)
Definition count_one (s : Sink) : option Sink :=
  match ch s with [] => None | _ :: rest => Some (add_drops 0 0 1 (set_ch rest s)) end.

(** The deadline of the drain runs from the entry of [drainOnShutdown]. *)
Definition draining (p : phase) : bool :=
  match p with
  | PInsert _ ToRun | PSleep _ ToRun | PNew | PRun | PExited => false
  | _ => true
  end.

Inductive event :=
| EvRecord (row : TraceRow)
| EvCancel          (* the context of [Run] is cancelled *)
| EvExpire          (* the drain deadline passes *)
| EvRun
| EvReceive
| EvTick
| EvShutdown        (* [ctx.Done()] or [s.stop] is selected *)
| EvInserted        (* [insertFunc] returns nil *)
| EvInsertErr (committed : bool)  (* [insertFunc] returns an error, before or after the commit *)
| EvBackoff         (* the backoff timer fires *)
| EvBackoffCancelled
| EvDrainLate       (* [time.Now().After(deadline)] *)
| EvDrainEmpty      (* [default] of the drain loop *)
| EvCount           (* the writer discards one queued row *)
| EvExit            (* the writer finds the channel empty and returns *)
| EvStop            (* [Stop] is called *)
| EvStopDone        (* [Stop] sees [s.done] *)
| EvStopTimeout     (* the budget of [Stop] or its context ends *)
| EvStopCount
| EvStopReturn.

Definition guard_ev (b : bool) (s : Sink) : option Sink := if b then Some s else None.

(** What the event does, or [None] where it cannot happen. *)
Definition step (ev : event) (s : Sink) : option Sink :=
  match ev, writer s, stopper s with
  | EvRecord row, _, _ => Some (Record_ row s)
  | EvCancel, _, _ => Some (set_clocks true (drainExpired s) s)
  | EvExpire, p, _ => guard_ev (draining p) (set_clocks (ctxDone s) true s)
  | EvRun, PNew, _ => Some (set_writer PRun s)
  | EvReceive, PRun, _ => receive ToRun s
  | EvReceive, PDrain, _ => receive ToDrain s
  | EvTick, PRun, _ => Some (start_flush ToRun s)
  | EvShutdown, PRun, _ => guard_ev (ctxDone s || stopClosed s) (set_writer PDrain s)
  | EvInserted, PInsert _ after, _ => Some (end_flush true after s)
  | EvInsertErr committed, PInsert n after, _ =>
      let s := keep_stored committed s in
      Some (if Nat.eqb n (length (sc_RetryBackoff cfg) - 1) then end_flush false after s
            else set_writer (PSleep n after) s)
  | EvBackoff, PSleep n after, _ => Some (set_writer (PInsert (S n) after) s)
  | EvBackoffCancelled, PSleep _ after, _ => guard_ev (insert_ctx_done after s) (end_flush false after s)
  | EvDrainLate, PDrain, _ =>
      guard_ev (drainExpired s)
        (set_writer PCount (set_batch [] (add_drops 0 0 (rows_len (batch s)) s)))
  | EvDrainEmpty, PDrain, _ => guard_ev (bool_decide (ch s = [])) (start_flush ToFinal s)
  | EvCount, PCount, _ => count_one s
  | EvExit, PCount, _ => guard_ev (bool_decide (ch s = [])) (set_writer PExited s)
  | EvStop, _, NotStopped => Some (set_stopper StopWaits true s)
  | EvStopDone, PExited, StopWaits => Some (set_stopper StopReturned (stopClosed s) s)
  | EvStopTimeout, _, StopWaits => Some (set_stopper StopCounts (stopClosed s) s)
  | EvStopCount, _, StopCounts => count_one s
  | EvStopReturn, _, StopCounts =>
      guard_ev (bool_decide (ch s = [])) (set_stopper StopReturned (stopClosed s) s)
  | _, _, _ => None
  end.

Definition run_events (evs : list event) (s : Sink) : option Sink :=
  foldl (fun o ev => o ≫= step ev) (Some s) evs.
End sink.

(** ** Accounting *)
Definition is_record (ev : event) : bool := match ev with EvRecord _ => true | _ => false end.
Definition recorded (evs : list event) : list TraceRow :=
  omap (fun ev => match ev with EvRecord row => Some row | _ => None end) evs.

(** Every row there is: in the database, in a drop counter, in the channel or
    in the writer's batch. *)
Definition balance (s : Sink) : Z :=
  rows_len (concat (inserted s)) + droppedBufferFull s + droppedDBError s + droppedShutdown s
  + rows_len (ch s) + rows_len (batch s).

Section accounting.
Context (cfg : SinkConfig).

(** What an event does to the rows, whatever else it does. *)
Definition same_rows (s s' : Sink) : Prop :=
  ch s' = ch s /\ batch s' = batch s /\ inserted s' = inserted s /\
  droppedBufferFull s' = droppedBufferFull s /\ droppedDBError s' = droppedDBError s /\
  droppedShutdown s' = droppedShutdown s.

(** The attempts on the batch in hand that have failed. *)
Definition tries (p : phase) : nat := match p with PInsert n _ => n | PSleep n _ => S n | _ => 0 end.

Inductive outcome (s : Sink) : event -> Sink -> Prop :=
| out_record row : outcome s (EvRecord row) (Record_ cfg row s)
| out_frame ev s' :
    is_record ev = false -> same_rows s s' -> stored s' = stored s -> tries (writer s') = tries (writer s) ->
    outcome s ev s'
| out_retry committed n after :
    writer s = PInsert n after ->
    outcome s (EvInsertErr committed) (set_writer (PSleep n after) (keep_stored committed s))
| out_flush ev after : is_record ev = false -> tries (writer s) = 0%nat -> outcome s ev (start_flush cfg after s)
| out_receive ev after s' :
    is_record ev = false -> tries (writer s) = 0%nat -> receive cfg after s = Some s' -> outcome s ev s'
| out_end ev ok committed after :
    is_record ev = false -> (committed = true -> ok = false /\ ev = EvInsertErr true) ->
    outcome s ev (end_flush ok after (keep_stored committed s))
| out_count ev s' : is_record ev = false -> count_one s = Some s' -> outcome s ev s'
| out_late :
    tries (writer s) = 0%nat ->
    outcome s EvDrainLate (set_writer PCount (set_batch [] (add_drops 0 0 (rows_len (batch s)) s))).

Lemma keep_stored_none s : keep_stored false s = s.
Proof. unfold keep_stored. rewrite app_nil_r. by destruct s. Qed.
Lemma out_end_plain s ev ok after : is_record ev = false -> outcome s ev (end_flush ok after s).
Proof. intros H. rewrite <-(keep_stored_none s) at 2. by apply out_end. Qed.

Lemma guard_ev_inv b (s s' : Sink) : guard_ev b s = Some s' -> b = true /\ s' = s.
Proof. destruct b; cbn; [|done]. intros [= ->]. done. Qed.

Lemma step_outcome ev s s' : step cfg ev s = Some s' -> outcome s ev s'.
Proof.
  unfold step.
  destruct ev; [intros [= <-]; apply out_record|..];
    try (destruct (writer s) as [| |n after|n after| | |] eqn:Hw; try done);
    try (destruct (stopper s) eqn:Hs; try done);
    try (intros H; apply guard_ev_inv in H as [_ ->]);
    try (intros [= <-]);
    try (apply out_frame; [done|done|done|cbn; by rewrite ?Hw]);
    try (apply out_flush; by rewrite ?Hw);
    try (apply out_end_plain; done);
    try (apply out_late; by rewrite Hw).
  all: try (intros H; eapply out_receive; [| |exact H]; by rewrite ?Hw).
  all: try (eapply out_count; done).
  all: destruct (Nat.eqb _ _); [apply out_end; by destruct committed|by apply out_retry].
Qed.

Ltac balance_solve :=
  unfold balance; cbn; unfold rows_len in *;
  rewrite ?concat_app, ?length_app; cbn; rewrite ?app_nil_r, ?length_app; cbn;
  repeat match goal with H : ch _ = _ |- _ => rewrite H end;
  rewrite ?wrapu64_eqm; apply eqm64_eq; cbn; lia.

Lemma balance_same_rows s s' : same_rows s s' -> balance s' = balance s.
Proof. unfold balance. by intros (-> & -> & -> & -> & -> & ->). Qed.

Section insert.
Hypothesis Hinsert : sc_InsertFunc cfg = true.

Lemma balance_start_flush after s : balance (start_flush cfg after s) = balance s.
Proof using Hinsert. unfold start_flush. rewrite Hinsert. by destruct (batch s) eqn:E. Qed.

Lemma balance_end_flush ok after s : eqm64 (balance (end_flush ok after s)) (balance s).
Proof.
  unfold end_flush. destruct ok, after; try destruct (drainExpired s); balance_solve.
Qed.

Lemma balance_keep committed s : balance (keep_stored committed s) = balance s.
Proof. done. Qed.

Lemma balance_count s s' : count_one s = Some s' -> eqm64 (balance s') (balance s).
Proof. unfold count_one. destruct (ch s) eqn:E; [done|]. intros [= <-]. balance_solve. Qed.

Lemma balance_receive after s s' : receive cfg after s = Some s' -> eqm64 (balance s') (balance s).
Proof using Hinsert.
  unfold receive. destruct (ch s) eqn:E; [done|]. intros [= <-].
  destruct (_ <=? _); rewrite ?balance_start_flush; balance_solve.
Qed.

Lemma balance_step ev s s' :
  step cfg ev s = Some s' ->
  eqm64 (balance s') (balance s + if is_record ev then 1 else 0).
Proof using Hinsert.
  intros [row|ev' s1 -> H _ _|c n after _|ev' after -> _|ev' after s1 -> _ H|ev' ok c after -> _|ev' s1 -> H|_]%step_outcome;
    cbn [is_record].
  - unfold Record_. destruct (_ <? _); balance_solve.
  - rewrite Z.add_0_r, (balance_same_rows _ _ H). done.
  - by rewrite Z.add_0_r.
  - by rewrite Z.add_0_r, balance_start_flush.
  - rewrite Z.add_0_r. by eapply balance_receive.
  - rewrite Z.add_0_r, <-(balance_keep c s). apply balance_end_flush.
  - rewrite Z.add_0_r. by apply balance_count.
  - rewrite Z.add_0_r. balance_solve.
Qed.
End insert.

(** The database against the rows recorded: groups of equal batches, the
    copies that repeated attempts have left, and [k] copies of the batch in
    hand; without the repetitions, and with the batch and the queue behind, the
    rows are in the order they were recorded. *)
Definition copies (groups : list (list TraceRow * nat)) : list (list TraceRow) :=
  concat (map (fun g => replicate g.2 g.1) groups).

Definition stored_as (s : Sink) (rows : list TraceRow) (groups : list (list TraceRow * nat)) (k : nat) : Prop :=
  stored s = (copies groups ++ replicate k (batch s))%list /\
  Forall (fun g => 1 <= g.2 <= length (sc_RetryBackoff cfg))%nat groups /\
  (concat (map fst groups) ++ batch s ++ ch s)%list `sublist_of` rows /\
  inserted s `sublist_of` map fst groups.

Definition in_order (s : Sink) (rows : list TraceRow) : Prop :=
  exists groups k, stored_as s rows groups k /\ (k <= tries (writer s))%nat.

(** Nothing of the batch in hand is stored: it may change, and rows may go. *)
Lemma in_order_loose s s' rows :
  in_order s rows -> tries (writer s) = 0%nat -> stored s' = stored s -> inserted s' = inserted s ->
  (batch s' ++ ch s')%list `sublist_of` (batch s ++ ch s)%list -> in_order s' rows.
Proof.
  intros (groups & k & (Hst & Hg & Hr & Hi) & Hk) Hz Es Ei Hsub. exists groups, 0%nat. split; [|lia].
  assert (k = 0%nat) as -> by lia. unfold stored_as. rewrite Es, Ei, Hst. split_and!; [done|done| |done].
  etransitivity; [|exact Hr]. by apply sublist_app.
Qed.

Lemma in_order_flush after s rows :
  in_order s rows -> tries (writer s) = 0%nat -> in_order (start_flush cfg after s) rows.
Proof.
  intros H Hz. apply (in_order_loose s); try done; unfold start_flush;
    destruct (batch s) as [|row rest] eqn:E; try destruct (sc_InsertFunc cfg); cbn; rewrite ?E; try done.
  by apply (sublist_inserts_l (row :: rest)).
Qed.

Lemma end_flush_fields (ok : bool) after s :
  let more : list (list TraceRow) := match ok with true => [batch s] | false => [] end in
  batch (end_flush ok after s) = [] /\ ch (end_flush ok after s) = ch s /\
  stored (end_flush ok after s) = (stored s ++ more)%list /\
  inserted (end_flush ok after s) = (inserted s ++ more)%list.
Proof.
  unfold end_flush. destruct ok; [done|]. cbn. rewrite !app_nil_r.
  destruct after; [done|destruct (drainExpired s); done..].
Qed.

(** The end of the attempts on a batch: its copies become a group. *)
Lemma in_order_end ok committed after s rows :
  in_order s rows -> (committed = true -> ok = false) -> (tries (writer s) < length (sc_RetryBackoff cfg))%nat ->
  in_order (end_flush ok after (keep_stored committed s)) rows.
Proof.
  intros (groups & k & (Hst & Hg & Hr & Hi) & Hk) Hc Hlt.
  set (j := ((if ok || committed then 1 else 0) + k)%nat).
  pose proof (end_flush_fields ok after (keep_stored committed s)) as (Eb & Ec & Es & Ei).
  assert (Es' : stored (end_flush ok after (keep_stored committed s)) = (copies groups ++ replicate j (batch s))%list).
  { rewrite Es. cbn [stored keep_stored batch]. rewrite Hst, <-!app_assoc. f_equal. subst j.
    destruct ok, committed; try (by specialize (Hc eq_refl)); cbn [app orb];
      rewrite ?app_nil_r, <-?replicate_cons_app; done. }
  cbn [ch inserted keep_stored batch] in Ec, Ei. clear Es. rename Es' into Es.
  set (s' := end_flush _ _ _) in *. clearbody s'.
  destruct (decide (j = 0%nat)) as [Hj|Hj].
  - exists groups, 0%nat. split; [|lia]. unfold stored_as. rewrite Eb, Ec, Es, Ei, Hj. split_and!; [done|done| |].
    + etransitivity; [|exact Hr]. apply sublist_app; [done|]. by apply sublist_inserts_l.
    + subst j. destruct ok; [done|]. by rewrite app_nil_r.
  - exists (groups ++ [(batch s, j)])%list, 0%nat. split; [|lia]. unfold stored_as, copies.
    rewrite Eb, Ec, Es, Ei, !map_app, !concat_app. cbn. rewrite !app_nil_r. split_and!; [done| | |].
    + apply Forall_app. split; [done|]. constructor; [|done]. cbn. subst j. destruct (ok || committed); lia.
    + by rewrite <-app_assoc.
    + apply sublist_app; [done|]. destruct ok; [done|]. apply sublist_nil_l.
Qed.

Lemma in_order_step ev s s' rows :
  step cfg ev s = Some s' -> (tries (writer s) < length (sc_RetryBackoff cfg))%nat ->
  in_order s rows -> in_order s' (rows ++ recorded [ev])%list.
Proof.
  intros Hs Hlt Ho.
  assert (Hskip : in_order s' rows -> in_order s' (rows ++ recorded [ev])%list).
  { intros (groups & k & (Hst & Hg & Hr & Hi) & Hk). exists groups, k. split; [|done]. split_and!; try done.
    by apply sublist_inserts_r. }
  apply step_outcome in Hs. revert Hskip.
  destruct Hs as [row|ev' s1 _ H Hst Hw|c n after Hw|ev' after _ Hz|ev' after s1 _ Hz H|ev' ok c after _ Hc|ev' s1 _ H|Hz];
    intros Hskip; [|apply Hskip..].
  - destruct Ho as (groups & k & (Hst & Hg & Hr & Hi) & Hk). exists groups, k. unfold stored_as, Record_.
    destruct (_ <? _); cbn; split; try done; split_and!; try done.
    + rewrite !app_assoc in *. by apply sublist_app.
    + by apply sublist_inserts_r.
  - destruct Ho as (groups & k & (Hso & Hg & Hr & Hi) & Hk). destruct H as (Ec & Eb & Ei & _).
    exists groups, k. unfold stored_as. by rewrite Ec, Eb, Ei, Hst, Hw.
  - destruct Ho as (groups & k & (Hso & Hg & Hr & Hi) & Hk). rewrite Hw in Hk. cbn in Hk.
    exists groups, ((if c then 1 else 0) + k)%nat. cbn. split; [|destruct c; lia]. split_and!; try done. cbn.
    rewrite Hso, <-app_assoc. f_equal. destruct c; [by rewrite <-replicate_cons_app|by rewrite app_nil_r].
  - by apply in_order_flush.
  - unfold receive in H. destruct (ch s) as [|row rest] eqn:E; [done|]. injection H as <-.
    assert (Ho' : in_order (set_batch (batch s ++ [row])%list (set_ch rest s)) rows)
      by (apply (in_order_loose s); try done; cbn; by rewrite E, <-app_assoc).
    destruct (_ <=? _); [by apply in_order_flush|done].
  - apply in_order_end; [done| |done]. intros ->. by destruct (Hc eq_refl).
  - unfold count_one in H. destruct (ch s) as [|row rest] eqn:E; [done|]. injection H as <-.
    destruct Ho as (groups & k & (Hso & Hg & Hr & Hi) & Hk). exists groups, k. split; [|done]. split_and!; try done.
    cbn. etransitivity; [|exact Hr]. rewrite E. do 2 (apply sublist_app; [done|]). by apply sublist_cons.
  - apply (in_order_loose s); try done. cbn. by apply sublist_inserts_l.
Qed.

(** The database that never stores a batch it answers with an error. *)
Lemma stored_step ev s s' :
  step cfg ev s = Some s' -> ev <> EvInsertErr true -> stored s = inserted s -> stored s' = inserted s'.
Proof.
  intros Hs Hev E. apply step_outcome in Hs.
  destruct Hs as [row|ev' s1 _ H Hst Hw|c n after Hw|ev' after _ Hz|ev' after s1 _ Hz H|ev' ok c after _ Hc|ev' s1 _ H|Hz].
  - unfold Record_. by destruct (_ <? _).
  - destruct H as (_ & _ & Hi & _). congruence.
  - destruct c; [done|]. cbn. by rewrite app_nil_r.
  - unfold start_flush. by destruct (batch s), (sc_InsertFunc cfg).
  - unfold receive in H. destruct (ch s); [done|]. injection H as <-.
    destruct (_ <=? _); [|done]. unfold start_flush. cbn. by destruct (batch s ++ _)%list, (sc_InsertFunc cfg).
  - destruct c; [by destruct (Hc eq_refl) as [_ ->]|]. rewrite keep_stored_none. unfold end_flush.
    destruct ok; cbn; [congruence|]. by destruct after, (drainExpired s).
  - unfold count_one in H. destruct (ch s); [done|]. by injection H as <-.
  - done.
Qed.

(** ** Runs *)
Lemma run_events_snoc evs ev s :
  run_events cfg (evs ++ [ev]) s = run_events cfg evs s ≫= step cfg ev.
Proof. unfold run_events. by rewrite foldl_app. Qed.

Lemma run_events_cons ev evs s :
  run_events cfg (ev :: evs) s = step cfg ev s ≫= run_events cfg evs.
Proof.
  unfold run_events. cbn. destruct (step cfg ev s) as [s1|]; cbn; [done|].
  induction evs as [|e evs IH]; [done|exact IH].
Qed.

Lemma recorded_app a b : recorded (a ++ b) = (recorded a ++ recorded b)%list.
Proof. apply omap_app. Qed.
End accounting.

Lemma balance_run cfg evs s :
  sc_InsertFunc cfg = true ->
  run_events cfg evs NewPostgresDecisionTraceSink = Some s ->
  wrapu64 (rows_len (recorded evs)) = wrapu64 (balance s).
Proof.
  intros Hi. revert s. induction evs as [|ev evs IH] using rev_ind; intros s Hr.
  { injection Hr as <-. done. }
  rewrite run_events_snoc in Hr. apply bind_Some in Hr as (s1 & H1 & Hs).
  apply (balance_step cfg Hi) in Hs. unfold eqm64 in Hs. rewrite Hs.
  rewrite <-wrapu64_add_l, <-(IH s1 H1), wrapu64_add_l, recorded_app.
  unfold rows_len. rewrite length_app. f_equal. destruct ev; cbn; lia.
Qed.

(** ** Bounds *)
Section bounds.
Context (cfg : SinkConfig).
Hypothesis Hbuf : 0 < sc_BufferSize cfg.
Hypothesis Hbat : 0 < sc_BatchSize cfg.
Hypothesis Hret : (0 < length (sc_RetryBackoff cfg))%nat.

Definition full_batch (b : list TraceRow) : Prop := 1 <= rows_len b <= sc_BatchSize cfg.

Definition writer_batch (s : Sink) : Prop :=
  match writer s with
  | PRun | PDrain => rows_len (batch s) < sc_BatchSize cfg
  | PInsert n _ => (n < length (sc_RetryBackoff cfg))%nat /\ full_batch (batch s)
  | PSleep n _ => (S n < length (sc_RetryBackoff cfg))%nat /\ full_batch (batch s)
  | PNew | PCount | PExited => batch s = []
  end.

Record sink_inv (s : Sink) : Prop := {
  si_queue : rows_len (ch s) <= sc_BufferSize cfg;
  si_writer : writer_batch s;
  si_inserted : Forall full_batch (inserted s)
}.

Lemma sink_inv_resume after s :
  rows_len (ch s) <= sc_BufferSize cfg -> Forall full_batch (inserted s) ->
  writer s = resume_phase after -> batch s = [] -> sink_inv s.
Proof using Hbat.
  intros Hq Hi Hw Hb. split; [done| |done]. unfold writer_batch.
  rewrite Hw, Hb. by destruct after.
Qed.

Lemma sink_inv_flush after s :
  rows_len (ch s) <= sc_BufferSize cfg -> Forall full_batch (inserted s) ->
  rows_len (batch s) <= sc_BatchSize cfg -> sink_inv (start_flush cfg after s).
Proof using Hbat Hret.
  intros Hq Hi Hb. unfold start_flush. destruct (batch s) as [|row rest] eqn:E.
  - by apply (sink_inv_resume after).
  - destruct (sc_InsertFunc cfg).
    + split; [done| |done]. unfold writer_batch, full_batch. cbn. rewrite E in *. split; [lia|].
      revert Hb. unfold rows_len. cbn. lia.
    + by apply (sink_inv_resume after).
Qed.

Lemma sink_inv_receive after s s' :
  sink_inv s -> writer s = resume_phase after -> after <> ToFinal ->
  receive cfg after s = Some s' -> sink_inv s'.
Proof using Hbat Hret.
  intros [Hq Hw Hi] Hp Hf. unfold receive. destruct (ch s) as [|row rest] eqn:E; [done|]. intros [= <-].
  assert (Hq' : rows_len rest <= sc_BufferSize cfg) by (revert Hq; unfold rows_len; cbn; lia).
  assert (Hb : rows_len (batch s ++ [row])%list <= sc_BatchSize cfg).
  { unfold writer_batch in Hw. rewrite Hp in Hw. unfold rows_len in *. rewrite length_app. cbn.
    destruct after; cbn in Hw; [lia|lia|done]. }
  cbn. destruct (Z.leb_spec (sc_BatchSize cfg) (rows_len (batch s ++ [row])%list)) as [Hle|Hlt];
    [by apply sink_inv_flush|].
  split; [done| |done]. unfold writer_batch. cbn in *. rewrite Hp. by destruct after.
Qed.

Lemma sink_inv_end ok after s :
  rows_len (ch s) <= sc_BufferSize cfg -> Forall full_batch (inserted s) -> full_batch (batch s) ->
  sink_inv (end_flush ok after s).
Proof using Hbat.
  intros Hq Hi Hb. unfold end_flush.
  destruct ok; [apply (sink_inv_resume after)|apply (sink_inv_resume after); destruct after; cbn;
    try destruct (drainExpired s)]; try done.
  apply Forall_app. split; [done|]. by apply Forall_singleton.
Qed.

Lemma sink_inv_count s s' :
  sink_inv s -> count_one s = Some s' -> sink_inv s'.
Proof using Hret.
  intros [Hq Hw Hi]. unfold count_one. destruct (ch s) as [|row rest] eqn:E; [done|]. intros [= <-].
  split; [|done|done]. cbn. revert Hq. unfold rows_len. cbn. lia.
Qed.

Lemma sink_inv_frame s s' :
  sink_inv s -> ch s' = ch s -> batch s' = batch s -> inserted s' = inserted s ->
  (writer s' = writer s \/ writer_batch s') -> sink_inv s'.
Proof.
  intros [Hq Hw Hi] E1 E2 E3 Hor. split; rewrite ?E1, ?E3; [done| |done].
  destruct Hor as [E|]; [|done]. unfold writer_batch in *. by rewrite E, E2.
Qed.

Lemma sink_inv_record row s : sink_inv s -> sink_inv (Record_ cfg row s).
Proof using Hret Hbuf Hbat.
  intros I. unfold Record_.
  destruct (Z.ltb_spec (rows_len (ch s)) (sc_BufferSize cfg)); [|by apply (sink_inv_frame s); auto].
  destruct I as [Hq Hw Hi]. split; [|done|done]. cbn. unfold rows_len in *. rewrite length_app. cbn. lia.
Qed.

Lemma sink_inv_step ev s s' : sink_inv s -> step cfg ev s = Some s' -> sink_inv s'.
Proof using Hbat Hret Hbuf.
  intros I. pose proof I as [Hq Hw Hi]. unfold writer_batch in Hw. unfold step.
  destruct ev; [intros [= <-]; by apply sink_inv_record|..];
    try (destruct (writer s) as [| |n after|n after| | |] eqn:Ew; try done);
    try (destruct (stopper s) eqn:Es; try done);
    try (intros H; apply guard_ev_inv in H as [Hg ->]);
    try (intros [= <-]);
    try (by apply (sink_inv_frame s); auto);
    try (by apply (sink_inv_receive ToRun s)); try (by apply (sink_inv_receive ToDrain s));
    try (by apply (sink_inv_count s));
    try (apply sink_inv_end; [done|done|tauto]).
  all: try (by apply (sink_inv_flush ToRun); [..|lia]); try (by apply (sink_inv_flush ToFinal); [..|lia]).
  all: try (by apply (sink_inv_resume ToFinal)).
  all: try (apply (sink_inv_frame s); [done..|right]; unfold writer_batch; cbn; rewrite Hw; done).
  all: destruct (Nat.eqb_spec n (length (sc_RetryBackoff cfg) - 1));
    [apply sink_inv_end; [done|done|tauto]|].
  all: apply (sink_inv_frame s); [done..|right]; unfold writer_batch; cbn; split; [lia|tauto].
Qed.
End bounds.

Lemma sink_settings_positive cfg0 :
  let cfg := sink_settings cfg0 in
  0 < sc_BufferSize cfg /\ 0 < sc_BatchSize cfg /\ sc_RetryBackoff cfg <> [].
Proof.
  cbn. unfold or_default.
  split_and!; [destruct (Z.leb_spec (sc_BufferSize cfg0) 0); lia
              |destruct (Z.leb_spec (sc_BatchSize cfg0) 0); lia|by destruct (sc_RetryBackoff cfg0)].
Qed.

Lemma length_pos {A} (l : list A) : l <> [] -> (0 < length l)%nat.
Proof. destruct l; cbn; [done|lia]. Qed.

Lemma sink_inv_reach cfg evs s :
  0 < sc_BufferSize cfg -> 0 < sc_BatchSize cfg -> sc_RetryBackoff cfg <> [] ->
  run_events cfg evs NewPostgresDecisionTraceSink = Some s -> sink_inv cfg s.
Proof.
  intros H1 H2 H3. pose proof (length_pos _ H3) as H4.
  revert s. induction evs as [|ev evs IH] using rev_ind; intros s Hr.
  - injection Hr as <-. split; [apply Z.lt_le_incl, H1|done|done].
  - rewrite run_events_snoc in Hr. apply bind_Some in Hr as (s1 & Hs1 & Hs).
    exact (sink_inv_step _ H1 H2 H4 _ _ _ (IH _ Hs1) Hs).
Qed.

Lemma tries_bound cfg s :
  (0 < length (sc_RetryBackoff cfg))%nat -> sink_inv cfg s -> (tries (writer s) < length (sc_RetryBackoff cfg))%nat.
Proof. intros H [_ Hw _]. unfold writer_batch in Hw. destruct (writer s); cbn; tauto || lia. Qed.

Lemma in_order_run cfg evs s :
  0 < sc_BufferSize cfg -> 0 < sc_BatchSize cfg -> sc_RetryBackoff cfg <> [] ->
  run_events cfg evs NewPostgresDecisionTraceSink = Some s -> in_order cfg s (recorded evs).
Proof.
  intros H1 H2 H3. pose proof (length_pos _ H3) as H4.
  revert s. induction evs as [|ev evs IH] using rev_ind; intros s Hr.
  - injection Hr as <-. exists [], 0%nat. by repeat split.
  - rewrite run_events_snoc in Hr. apply bind_Some in Hr as (s1 & Hs1 & Hs). rewrite recorded_app.
    eapply in_order_step; [done| |by apply IH]. apply tries_bound; [done|]. by eapply sink_inv_reach.
Qed.

Lemma stored_run cfg evs s :
  run_events cfg evs NewPostgresDecisionTraceSink = Some s -> EvInsertErr true ∉ evs -> stored s = inserted s.
Proof.
  revert s. induction evs as [|ev evs IH] using rev_ind; intros s Hr Hev; [by injection Hr as <-|].
  rewrite run_events_snoc in Hr. apply bind_Some in Hr as (s1 & Hs1 & Hs).
  rewrite not_elem_of_app, list_elem_of_singleton in Hev. destruct Hev as [He Hne].
  eapply stored_step; [done|congruence|]. by apply IH.
Qed.

Lemma sublist_concat {A} (l k : list (list A)) : l `sublist_of` k -> concat l `sublist_of` concat k.
Proof.
  induction 1 as [|x l k _ IH|x l k _ IH]; cbn; [done|by apply sublist_app|by apply sublist_inserts_l].
Qed.

Lemma sink_inv_run cfg0 evs s :
  run_events (sink_settings cfg0) evs NewPostgresDecisionTraceSink = Some s -> sink_inv (sink_settings cfg0) s.
Proof. destruct (sink_settings_positive cfg0) as (H1 & H2 & H3). by apply sink_inv_reach. Qed.

(** C9: No trace row is lost silently or counted twice, as far as the database
    acknowledges its inserts: after any interleaving of requests, writer,
    database failures, cancellation and [Stop] of a sink with an [InsertFunc],
    the number of recorded rows is the number acknowledged, plus the three drop
    counters, plus the rows still queued or batched; and at the moment the
    writer returns nothing is queued or batched, so that every row recorded
    until then is acknowledged or counted (counters are 64-bit). *)
Theorem trace_rows_conserved cfg evs s :
  sc_InsertFunc cfg = true ->
  run_events cfg evs NewPostgresDecisionTraceSink = Some s ->
  wrapu64 (rows_len (recorded evs))
  = wrapu64 (rows_len (concat (inserted s)) + droppedBufferFull s + droppedDBError s + droppedShutdown s
             + rows_len (ch s) + rows_len (batch s)) /\
  (forall s', 0 < sc_BufferSize cfg -> 0 < sc_BatchSize cfg -> sc_RetryBackoff cfg <> [] ->
     step cfg EvExit s = Some s' -> ch s' = [] /\ batch s' = [] /\ writer s' = PExited).
Proof.
  intros Hi Hr. split; [by apply (balance_run cfg)|].
  intros s' H1 H2 H3 Hs. assert (I : sink_inv cfg s) by (by eapply sink_inv_reach).
  unfold step in Hs. destruct (writer s) eqn:Ew; try done; [].
  apply guard_ev_inv in Hs as [Hg ->]. apply bool_decide_eq_true in Hg.
  pose proof (si_writer _ _ I) as Hw. unfold writer_batch in Hw. rewrite Ew in Hw. done.
Qed.

(** Whatever the configuration, the queue never outgrows [BufferSize], an
    insertion gets between one and [BatchSize] rows, and no batch is attempted
    more often than [RetryBackoff] has entries; an empty or negative setting
    takes its default. *)
Theorem trace_sink_bounds cfg0 evs s :
  let cfg := sink_settings cfg0 in
  run_events cfg evs NewPostgresDecisionTraceSink = Some s ->
  rows_len (ch s) <= sc_BufferSize cfg /\
  Forall (fun b => 1 <= rows_len b <= sc_BatchSize cfg) (inserted s) /\
  (forall n after, writer s = PInsert n after ->
     (n < length (sc_RetryBackoff cfg))%nat /\ 1 <= rows_len (batch s) <= sc_BatchSize cfg).
Proof.
  intros cfg Hr. destruct (sink_inv_run _ _ _ Hr) as [Hq Hw Hi]. split_and!; [done..|].
  intros n after E. unfold writer_batch in Hw. by rewrite E in Hw.
Qed.

(** C30: What the database holds, retries, lost answers and shutdown included.
    The batches it has stored are the acknowledged ones and those whose insert
    was reported as failed after it had committed.  They come in groups of
    equal batches, one group per batch, none larger than the number of
    attempts, the last of them possibly copies of the batch in hand; without
    the repetitions, and followed by the batch in hand and the queue, their
    rows are a subsequence of the rows recorded, in order.  So a row is
    duplicated only by a retry of an insert that had committed; if no failed
    insert had, the database holds exactly the acknowledged batches, and no row
    twice. *)
Theorem trace_rows_in_order cfg0 evs s :
  let cfg := sink_settings cfg0 in
  run_events cfg evs NewPostgresDecisionTraceSink = Some s ->
  (exists groups k,
     stored s = (concat (map (fun g => replicate g.2 g.1) groups) ++ replicate k (batch s))%list /\
     Forall (fun g => 1 <= g.2 <= length (sc_RetryBackoff cfg))%nat groups /\
     (k < length (sc_RetryBackoff cfg))%nat /\
     (concat (map fst groups) ++ batch s ++ ch s)%list `sublist_of` recorded evs /\
     inserted s `sublist_of` map fst groups) /\
  (EvInsertErr true ∉ evs ->
     stored s = inserted s /\ (concat (stored s) ++ batch s ++ ch s)%list `sublist_of` recorded evs).
Proof.
  intros cfg. destruct (sink_settings_positive cfg0) as (H1 & H2 & H3). fold cfg in H1, H2, H3.
  pose proof (length_pos _ H3) as Hpos. intros Hr. pose proof (in_order_run cfg evs s H1 H2 H3 Hr) as Ho.
  pose proof (sink_inv_run _ _ _ Hr) as I. pose proof (tries_bound cfg s Hpos I) as Hlt.
  destruct Ho as (groups & k & (Hst & Hg & Hsub & Hi) & Hk). split; [exists groups, k; split_and!; try done; lia|].
  intros Hev. assert (E : stored s = inserted s) by by eapply stored_run. split; [done|].
  rewrite E. etransitivity; [|exact Hsub]. apply sublist_app; [|done]. by apply sublist_concat.
Qed.

(** ** Shutdown *)
Definition writer_event (ev : event) : bool :=
  match ev with
  | EvRun | EvReceive | EvTick | EvShutdown | EvInserted | EvInsertErr _ | EvBackoff
  | EvBackoffCancelled | EvDrainLate | EvDrainEmpty | EvCount | EvExit => true
  | _ => false
  end.
Definition writer_events (evs : list event) : nat := length (List.filter writer_event evs).

Definition shutting_down (p : phase) : bool :=
  match p with PExited => true | _ => draining p end.

Section shutdown.
Context (cfg : SinkConfig).

Definition after_measure (after : resume) (q : nat) : nat :=
  let tries := length (sc_RetryBackoff cfg) in
  match after with ToDrain => q * (2 * tries + 2) + 2 * tries + 3 | _ => q + 2 end.

(** What the writer still has to do, with [q] rows queued. *)
Definition drain_measure (s : Sink) : nat :=
  let tries := length (sc_RetryBackoff cfg) in
  let q := length (ch s) in
  match writer s with
  | PInsert n after => 2 * (tries - n) + after_measure after q
  | PSleep n after => 2 * (tries - n) - 1 + after_measure after q
  | PDrain => after_measure ToDrain q
  | PCount => q + 1
  | _ => 0
  end.

Lemma after_measure_mono after q q' : (q <= q')%nat -> (after_measure after q <= after_measure after q')%nat.
Proof. intros H. destruct after; cbn [after_measure]; nia. Qed.

Lemma drain_measure_flush after s :
  (drain_measure (start_flush cfg after s)
   <= 2 * length (sc_RetryBackoff cfg) + after_measure after (length (ch s)))%nat.
Proof.
  unfold start_flush, drain_measure.
  destruct (batch s); [|destruct (sc_InsertFunc cfg)]; cbn; destruct after; cbn; lia.
Qed.

Lemma drain_measure_end ok after s :
  after <> ToRun ->
  (drain_measure (end_flush ok after s) <= after_measure after (length (ch s)))%nat.
Proof.
  intros Ha. unfold end_flush.
  destruct ok, after; try done; try destruct (drainExpired s); unfold drain_measure; cbn; lia.
Qed.

Lemma drain_receive s s' :
  receive cfg ToDrain s = Some s' -> writer s = PDrain -> (drain_measure s' < drain_measure s)%nat.
Proof.
  unfold receive. destruct (ch s) as [|row rest] eqn:E; [done|]. intros [= <-] Hw.
  assert (Hm : drain_measure s = (2 * length (sc_RetryBackoff cfg) + 2 + after_measure ToDrain (length rest))%nat)
    by (unfold drain_measure; rewrite Hw, E; cbn; lia).
  destruct (_ <=? _).
  - pose proof (drain_measure_flush ToDrain (set_batch (batch s ++ [row]) (set_ch rest s))) as H.
    cbn in H. rewrite Hm. cbn. lia.
  - rewrite Hm. unfold drain_measure. cbn. rewrite Hw. cbn. lia.
Qed.

Lemma drain_count s s' :
  count_one s = Some s' ->
  (drain_measure s' <= drain_measure s)%nat /\ writer s' = writer s /\
  (writer s = PCount -> (drain_measure s' < drain_measure s)%nat).
Proof.
  unfold count_one. destruct (ch s) as [|row rest] eqn:E; [done|]. intros [= <-].
  pose proof (fun a => after_measure_mono a (length rest) (S (length rest)) ltac:(lia)) as Hmono.
  unfold drain_measure. cbn [ch writer set_ch add_drops]. rewrite E. cbn [length].
  destruct (writer s) as [| |n a|n a| | |]; try pose proof (Hmono a); try pose proof (Hmono ToDrain);
    split_and!; try done; lia.
Qed.

Definition drain_cost (ev : event) : nat := if writer_event ev then 1 else 0.

Lemma shutting_flush after s : after <> ToRun -> shutting_down (writer (start_flush cfg after s)) = true.
Proof. unfold start_flush. destruct (batch s); [|destruct (sc_InsertFunc cfg)]; by destruct after. Qed.

Lemma shutting_end ok after s : after <> ToRun -> shutting_down (writer (end_flush ok after s)) = true.
Proof. by destruct after. Qed.

Lemma shutting_receive s s' :
  receive cfg ToDrain s = Some s' -> writer s = PDrain -> shutting_down (writer s') = true.
Proof.
  unfold receive. destruct (ch s); [done|]. intros [= <-] Hw.
  destruct (_ <=? _); [by apply shutting_flush|]. cbn. by rewrite Hw.
Qed.

Lemma drain_step_end ok n after s :
  after <> ToRun -> (n < length (sc_RetryBackoff cfg))%nat -> writer s = PInsert n after \/ writer s = PSleep n after ->
  shutting_down (writer (end_flush ok after s)) = true /\
  (drain_measure (end_flush ok after s) + 1 <= drain_measure s)%nat.
Proof.
  intros Ha Hn Hw. split; [by apply shutting_end|]. pose proof (drain_measure_end ok after s Ha) as He.
  unfold drain_measure at 2. destruct Hw as [-> | ->]; lia.
Qed.

Lemma drain_step_err n after committed s :
  after <> ToRun -> (n < length (sc_RetryBackoff cfg))%nat -> writer s = PInsert n after ->
  let s1 := keep_stored committed s in
  let s' := if Nat.eqb n (length (sc_RetryBackoff cfg) - 1) then end_flush false after s1
            else set_writer (PSleep n after) s1 in
  shutting_down (writer s') = true /\ (drain_measure s' + 1 <= drain_measure s)%nat.
Proof.
  intros Ha Hn Hw. cbv zeta. destruct (Nat.eqb_spec n (length (sc_RetryBackoff cfg) - 1)).
  - apply (drain_step_end false n after (keep_stored committed s)); auto.
  - split; [by destruct after|]. unfold drain_measure. cbn. rewrite Hw. lia.
Qed.

(** In the shutdown phases the writer's events decrease the measure, and no
    other event but a new row increases it. *)
Lemma drain_step ev s s' :
  sink_inv cfg s -> shutting_down (writer s) = true -> is_record ev = false -> step cfg ev s = Some s' ->
  shutting_down (writer s') = true /\ (drain_measure s' + drain_cost ev <= drain_measure s)%nat.
Proof.
  intros [_ Hwb _] Hd Hrec. unfold writer_batch in Hwb. unfold step, drain_cost.
  destruct ev; [done|..]; cbn [writer_event];
    destruct (writer s) as [| |n after|n after| | |] eqn:Ew; try done;
    try (destruct after; [done|..]);
    try (destruct (stopper s) eqn:Es; try done);
    try (intros H; apply guard_ev_inv in H as [Hg ->]);
    try (intros [= <-]).
  all: try (rewrite Nat.add_0_r; split; [done|]; unfold drain_measure; cbn; rewrite Ew; lia).
  all: try (rewrite Nat.add_0_r; split; [cbn; rewrite Ew; done|]; unfold drain_measure; cbn; rewrite Ew; lia).
  all: try (intros Hc; destruct (drain_count _ _ Hc) as (Hle & Hwr & Hlt); rewrite Hwr, Ew;
    split; [done|]; try specialize (Hlt Ew); lia).
  all: try (intros Hr; split; [by eapply shutting_receive|]; pose proof (drain_receive _ _ Hr Ew); lia).
  all: try (apply (drain_step_end _ n); [done|destruct Hwb; lia|by auto]).
  all: try (by apply drain_step_err; [|destruct Hwb|]).
  all: try (split; [done|]; unfold drain_measure; cbn [writer set_writer ch]; rewrite Ew; destruct Hwb; lia).
  all: try (split; [done|]; unfold drain_measure; cbn; rewrite Ew; lia).
  all: split; [by apply shutting_flush|]; pose proof (drain_measure_flush ToFinal s) as Hf;
    apply bool_decide_eq_true in Hg; rewrite Hg in Hf; unfold drain_measure at 2; rewrite Ew, Hg; cbn in *; lia.
Qed.

Lemma drain_run evs s s' :
  0 < sc_BufferSize cfg -> 0 < sc_BatchSize cfg -> sc_RetryBackoff cfg <> [] ->
  sink_inv cfg s -> shutting_down (writer s) = true -> recorded evs = [] ->
  run_events cfg evs s = Some s' ->
  (drain_measure s' + writer_events evs <= drain_measure s)%nat.
Proof.
  intros H1 H2 H3. pose proof (length_pos _ H3) as H4.
  revert s. induction evs as [|ev evs IH]; intros s I Hd Hrec Hr.
  { injection Hr as <-. cbn. lia. }
  rewrite run_events_cons in Hr. apply bind_Some in Hr as (s1 & Hs1 & Hr).
  assert (Hnr : is_record ev = false) by (by destruct ev).
  assert (Hrec' : recorded evs = []) by (by destruct ev).
  destruct (drain_step _ _ _ I Hd Hnr Hs1) as [Hd1 Hm].
  specialize (IH s1 (sink_inv_step _ H1 H2 H4 _ _ _ I Hs1) Hd1 Hrec' Hr).
  unfold writer_events, drain_cost in *. cbn [List.filter]. destruct (writer_event ev); cbn in *; lia.
Qed.

Lemma shutting_run evs s s' :
  0 < sc_BufferSize cfg -> 0 < sc_BatchSize cfg -> sc_RetryBackoff cfg <> [] ->
  sink_inv cfg s -> shutting_down (writer s) = true -> recorded evs = [] ->
  run_events cfg evs s = Some s' -> sink_inv cfg s' /\ shutting_down (writer s') = true.
Proof.
  intros H1 H2 H3. pose proof (length_pos _ H3) as H4.
  revert s. induction evs as [|ev evs IH]; intros s I Hd Hrec Hr; [by injection Hr as <-|].
  rewrite run_events_cons in Hr. apply bind_Some in Hr as (s1 & Hs1 & Hr).
  assert (Hnr : is_record ev = false) by (by destruct ev).
  apply (IH s1); [by eapply sink_inv_step| |by destruct ev|done].
  by destruct (drain_step _ _ _ I Hd Hnr Hs1).
Qed.

Lemma shutting_zero s : sink_inv cfg s /\ shutting_down (writer s) = true -> drain_measure s = 0%nat -> writer s = PExited.
Proof.
  intros [[_ Hw _] Hd] Hm. unfold writer_batch, drain_measure in *.
  destruct (writer s) as [| |n after|n after| | |]; try done; try destruct after; try done;
    try destruct Hw; cbn in Hm; lia.
Qed.

Lemma drain_progress s :
  shutting_down (writer s) = true -> writer s <> PExited ->
  exists ev s', writer_event ev = true /\ step cfg ev s = Some s'.
Proof.
  intros Hd Hn. unfold step.
  destruct (writer s) as [| |n after|n after| | |] eqn:Ew; try done.
  - exists EvInserted. eexists. done.
  - exists EvBackoff. eexists. done.
  - destruct (ch s) as [|row rest] eqn:E.
    + exists EvDrainEmpty. eexists. done.
    + exists EvReceive. unfold receive. rewrite E. eexists. done.
  - destruct (ch s) as [|row rest] eqn:E.
    + exists EvExit. eexists. done.
    + exists EvCount. unfold count_one. rewrite E. eexists. done.
Qed.
End shutdown.

(** C29: Shutdown terminates. Once the writer has entered [drainOnShutdown] it
    is never stuck before it returns, and with no new rows it returns after
    at most [drain_measure] of its own steps, whatever the database, the
    deadline and [Stop] do in between. *)
Theorem drain_terminates cfg0 evs s :
  let cfg := sink_settings cfg0 in
  run_events cfg evs NewPostgresDecisionTraceSink = Some s -> shutting_down (writer s) = true ->
  (writer s <> PExited -> exists ev s', writer_event ev = true /\ step cfg ev s = Some s') /\
  (forall evs' s', recorded evs' = [] -> run_events cfg evs' s = Some s' ->
     (writer_events evs' <= drain_measure cfg s)%nat /\
     (writer_events evs' = drain_measure cfg s -> writer s' = PExited)).
Proof.
  intros cfg Hr Hd. destruct (sink_settings_positive cfg0) as (H1 & H2 & H3).
  pose proof (sink_inv_run _ _ _ Hr) as I. split; [by apply drain_progress|].
  intros evs' s' Hrec Hr'. pose proof (drain_run cfg _ _ _ H1 H2 H3 I Hd Hrec Hr') as Hm.
  split; [lia|]. intros E. assert (Hz : drain_measure cfg s' = 0%nat) by lia.
  eapply shutting_zero; [|exact Hz]. by eapply shutting_run.
Qed.

(** ** A run

    Two rows per batch, a queue of two: the first row waits in the batch, the
    database refuses the first attempt on the pair and takes the second, the
    fourth and fifth rows find the queue full, and shutdown drains the rest
    past its deadline. *)
Definition small_sink : SinkConfig := sink_settings (mkSinkConfig true 2 2 0 0 []).
Definition row_of (id : string) : TraceRow := mkTraceRow "acme" "req" "recall" "" id 1 0 "gateway" ∅.
Definition busy_run : list event :=
  [EvRun; EvRecord (row_of "m1"); EvReceive; EvRecord (row_of "m2"); EvReceive; EvInsertErr true;
   EvRecord (row_of "m3"); EvRecord (row_of "m4"); EvRecord (row_of "m5"); EvRecord (row_of "m6");
   EvBackoff; EvInserted; EvStop; EvShutdown; EvReceive; EvExpire; EvDrainLate; EvCount].

Example busy_run_ends :
  option_map (fun s => (DroppedSnapshot s, map (map tr_MemoryID) (inserted s)))
    (run_events small_sink busy_run NewPostgresDecisionTraceSink)
  = Some (mkTraceDroppedSnapshot 2 0 2, [["m1"; "m2"]%string]).
Proof. vm_compute. reflexivity. Qed.

Lemma trace_rows_conserved_witness :
  some_and (run_events small_sink busy_run NewPostgresDecisionTraceSink) (fun s =>
    wrapu64 6 = wrapu64 (rows_len (concat (inserted s)) + droppedBufferFull s + droppedDBError s
                         + droppedShutdown s + rows_len (ch s) + rows_len (batch s)) /\
    some_and (step small_sink EvExit s) (fun s' => ch s' = [] /\ batch s' = [] /\ writer s' = PExited)).
Proof.
  apply some_and_intro; [vm_compute; reflexivity|]. intros s Hs.
  destruct (trace_rows_conserved small_sink busy_run s ltac:(reflexivity) Hs) as [Hb He].
  split; [exact Hb|]. apply some_and_intro.
  - assert (E : option_map (fun s0 => match step small_sink EvExit s0 with Some _ => true | None => false end)
      (run_events small_sink busy_run NewPostgresDecisionTraceSink) = Some true) by (vm_compute; reflexivity).
    rewrite Hs in E. cbn [option_map] in E. by injection E.
  - intros s' Hs'. by apply (He s').
Defined.

(** The pair whose first insert committed is stored twice, and counted once. *)
Example lost_answer_duplicates :
  option_map (fun s => (map (map tr_MemoryID) (stored s), map (map tr_MemoryID) (inserted s), DroppedSnapshot s))
    (run_events small_sink busy_run NewPostgresDecisionTraceSink)
  = Some ([["m1"; "m2"]; ["m1"; "m2"]]%string, [["m1"; "m2"]]%string, mkTraceDroppedSnapshot 2 0 2).
Proof. vm_compute. reflexivity. Qed.

Definition calm_run : list event :=
  [EvRun; EvRecord (row_of "m1"); EvReceive; EvRecord (row_of "m2"); EvReceive; EvInsertErr false; EvBackoff; EvInserted].

Lemma trace_rows_in_order_witness :
  some_and (run_events small_sink calm_run NewPostgresDecisionTraceSink) (fun s =>
    stored s = inserted s /\ (concat (stored s) ++ batch s ++ ch s)%list `sublist_of` recorded calm_run).
Proof.
  apply some_and_intro; [vm_compute; reflexivity|]. intros s Hs.
  refine (proj2 (trace_rows_in_order (mkSinkConfig true 2 2 0 0 []) calm_run s Hs) _).
  unfold calm_run. rewrite !not_elem_of_cons. repeat split; try discriminate. apply not_elem_of_nil.
Defined.

Lemma trace_sink_bounds_witness :
  some_and (run_events small_sink busy_run NewPostgresDecisionTraceSink) (fun s =>
    rows_len (ch s) <= 2 /\ Forall (fun b => 1 <= rows_len b <= 2) (inserted s)).
Proof.
  apply some_and_intro; [vm_compute; reflexivity|]. intros s Hs.
  destruct (trace_sink_bounds (mkSinkConfig true 2 2 0 0 []) busy_run s Hs) as (Hq & Hi & _).
  split; [exact Hq|exact Hi].
Defined.

Definition draining_run : list event :=
  [EvRun; EvRecord (row_of "m1"); EvRecord (row_of "m2"); EvStop; EvShutdown].

Lemma drain_terminates_witness :
  some_and (run_events small_sink draining_run NewPostgresDecisionTraceSink) (fun s =>
    forall evs' s', recorded evs' = [] -> run_events small_sink evs' s = Some s' -> (writer_events evs' <= 25)%nat).
Proof.
  apply some_and_intro; [vm_compute; reflexivity|]. intros s Hs evs' s' Hrec Hr.
  assert (E : Some (shutting_down (writer s), drain_measure small_sink s) = Some (true, 25%nat)).
  { change (option_map (fun s => (shutting_down (writer s), drain_measure small_sink s)) (Some s) = Some (true, 25%nat)).
    rewrite <-Hs. vm_compute. reflexivity. }
  injection E as Hd Hm. rewrite <-Hm.
  exact (proj1 (proj2 (drain_terminates (mkSinkConfig true 2 2 0 0 []) draining_run s Hs Hd) evs' s' Hrec Hr)).
Defined.

(** A row that arrives after the writer returned stays in the channel: it is
    neither committed nor counted, unless a [Stop] that ran out of budget is
    still counting. *)
Example late_row_uncounted :
  option_map (fun s => (writer s, map tr_MemoryID (ch s), DroppedSnapshot s))
    (run_events small_sink [EvRun; EvCancel; EvShutdown; EvDrainEmpty; EvExit; EvRecord (row_of "late")]
       NewPostgresDecisionTraceSink)
  = Some (PExited, ["late"%string], mkTraceDroppedSnapshot 0 0 0).
Proof. vm_compute. reflexivity. Qed.
Close Scope Z_scope.
