(* ===== verification/TraceEmitter.v ===== *)
(** * From trace fields to trace rows: [observability/trace_sink_emitter.go] *)
From S2P Require Import Prelude GoStrings GoFloat GoSort HttpApi Authz Contract RecallCache Sessions ScopeVersions RecallSelection HybridRecall Service SessionCloser Vector Outbox Metrics TraceSink.
Open Scope Z_scope.

(** The keys with a column of their own. *)
Definition column_keys : list string := ["tenant_id"; "request_id"; "memory_id"; "version"; "reason"]%string.

Lemma filter_insert_column (m : gmap string value) k v :
  m !! k = None -> k ∈ column_keys ->
  filter (fun kv : string * value => kv.1 ∉ column_keys) (<[k := v]> m)
  = filter (fun kv => kv.1 ∉ column_keys) m.
Proof.
  intros Hk Hin. rewrite map_filter_insert_False by (cbn; tauto). by rewrite delete_id.
Qed.

Lemma filter_insert_payload (m : gmap string value) k v :
  k ∉ column_keys ->
  filter (fun kv : string * value => kv.1 ∉ column_keys) (<[k := v]> m)
  = <[k := v]> (filter (fun kv => kv.1 ∉ column_keys) m).
Proof. intros Hk. by apply map_filter_insert_True. Qed.

(** A field set to an instant, a duration or an error is set to its text,
    which [render] gives. *)
Section emitter.
Context (render : value -> string).

(** [v.(string)]: the zero string when the assertion fails. *)
Definition as_string (v : value) : option string :=
  match v with
  | VStr s => Some s
  | VInt _ | VBool _ | VFloat _ => None
  | VTime _ | VDuration _ | VErrText _ => Some (render v)
  end.
Definition string_of (v : value) : string := default ""%string (as_string v).

(** [int64] and [int] are accepted; a value that is neither keeps the field. *)
Definition version_of (v : value) (old : Z) : Z := match v with VInt z => z | _ => old end.

Definition set_row_TenantID (t : string) (r : TraceRow) : TraceRow :=
  mkTraceRow t (tr_RequestID r) (tr_Stage r) (tr_Reason r) (tr_MemoryID r) (tr_Version r) (tr_EmittedAt r) (tr_Emitter r) (tr_Payload r).
Definition set_row_RequestID (t : string) (r : TraceRow) : TraceRow :=
  mkTraceRow (tr_TenantID r) t (tr_Stage r) (tr_Reason r) (tr_MemoryID r) (tr_Version r) (tr_EmittedAt r) (tr_Emitter r) (tr_Payload r).
Definition set_row_Reason (t : string) (r : TraceRow) : TraceRow :=
  mkTraceRow (tr_TenantID r) (tr_RequestID r) (tr_Stage r) t (tr_MemoryID r) (tr_Version r) (tr_EmittedAt r) (tr_Emitter r) (tr_Payload r).
Definition set_row_MemoryID (t : string) (r : TraceRow) : TraceRow :=
  mkTraceRow (tr_TenantID r) (tr_RequestID r) (tr_Stage r) (tr_Reason r) t (tr_Version r) (tr_EmittedAt r) (tr_Emitter r) (tr_Payload r).
Definition set_row_Version (n : Z) (r : TraceRow) : TraceRow :=
  mkTraceRow (tr_TenantID r) (tr_RequestID r) (tr_Stage r) (tr_Reason r) (tr_MemoryID r) n (tr_EmittedAt r) (tr_Emitter r) (tr_Payload r).
Definition add_row_Payload (k : string) (v : value) (r : TraceRow) : TraceRow :=
  mkTraceRow (tr_TenantID r) (tr_RequestID r) (tr_Stage r) (tr_Reason r) (tr_MemoryID r) (tr_Version r) (tr_EmittedAt r) (tr_Emitter r)
    (<[k := v]> (tr_Payload r)).

(** The body of the loop over [fields]. *)
Definition assign_field (r : TraceRow) (kv : string * value) : TraceRow :=
  let '(k, v) := kv in
  if bool_decide (k = "tenant_id"%string) then set_row_TenantID (string_of v) r
  else if bool_decide (k = "request_id"%string) then set_row_RequestID (string_of v) r
  else if bool_decide (k = "memory_id"%string) then set_row_MemoryID (string_of v) r
  else if bool_decide (k = "version"%string) then set_row_Version (version_of v (tr_Version r)) r
  else if bool_decide (k = "reason"%string) then set_row_Reason (string_of v) r
  else if bool_decide (k = "mode"%string) then
    add_row_Payload k v (if bool_decide (tr_Reason r = ""%string) then set_row_Reason (string_of v) r else r)
  else add_row_Payload k v r.

(** The repair of the precedence after the loop. *)
Definition repair_reason (fields : gmap string value) (r : TraceRow) : TraceRow :=
  match fields !! "reason"%string ≫= as_string with
  | Some reason => if bool_decide (reason <> ""%string) then set_row_Reason reason r else r
  | None => r
  end.

Definition blank_row (emitter stage : string) (now : time) : TraceRow :=
  mkTraceRow "" "" stage "" "" 0 now emitter ∅.

(** The row [Emit] records; [iter] is the order in which Go visits [fields]. *)
Definition emit_row (emitter : string) (now : time) (iter : list (string * value))
    (stage : string) (fields : gmap string value) : TraceRow :=
  repair_reason fields (foldl assign_field (blank_row emitter stage now) iter).

(** [TraceSinkEmitter.Emit] into a sink; a [nil] sink makes it a no-op. *)
Definition Emit {S} (sink : option (TraceRow -> S -> S)) (emitter : string) (now : time)
    (iter : list (string * value)) (stage : string) (fields : gmap string value) (s : S) : S :=
  match sink with
  | None => s
  | Some record => record (emit_row emitter now iter stage fields) s
  end.

(** ** What the row holds *)
Definition field_text (fields : gmap string value) (k : string) : string :=
  default ""%string (fields !! k ≫= as_string).

Definition expected_row (emitter stage : string) (now : time) (reason : string) (fields : gmap string value) : TraceRow :=
  mkTraceRow (field_text fields "tenant_id") (field_text fields "request_id") stage reason
    (field_text fields "memory_id")
    (match fields !! "version"%string with Some (VInt z) => z | _ => 0 end)
    now emitter (filter (fun kv => kv.1 ∉ column_keys) fields).

(** An explicit reason that is present but empty competes with [mode]. *)
Definition reason_settled (fields : gmap string value) : Prop :=
  field_text fields "reason" <> ""%string \/ fields !! "reason"%string = None \/ field_text fields "mode" = ""%string.

Definition settled_reason (fields : gmap string value) : string :=
  if bool_decide (field_text fields "reason" = ""%string) then field_text fields "mode"
  else field_text fields "reason".

(** The reason after a prefix [m] of the loop. *)
Definition reason_so_far (m : gmap string value) (reason : string) : Prop :=
  (m !! "mode"%string = None -> reason = field_text m "reason") /\
  (m !! "reason"%string = None -> reason = field_text m "mode") /\
  (reason = field_text m "reason" \/ reason = field_text m "mode").

Lemma field_text_insert (m : gmap string value) k v k' :
  field_text (<[k := v]> m) k' = if bool_decide (k = k') then string_of v else field_text m k'.
Proof.
  unfold field_text. case_bool_decide as E; [subst; by rewrite lookup_insert_eq|by rewrite lookup_insert_ne].
Qed.

(** One turn of the loop, on a key not seen before. *)
Lemma assign_field_step emitter stage now m k v r :
  m !! k = None -> reason_so_far m r ->
  exists r', assign_field (expected_row emitter stage now r m) (k, v)
             = expected_row emitter stage now r' (<[k := v]> m) /\ reason_so_far (<[k := v]> m) r'.
Proof.
  intros Hk (H1 & H2 & H3). unfold assign_field, expected_row, reason_so_far in *.
  destruct (decide (k ∈ column_keys)) as [Hin|Hin].
  - rewrite filter_insert_column by done. rewrite !field_text_insert.
    unfold column_keys in Hin. rewrite !elem_of_cons, elem_of_nil in Hin.
    destruct Hin as [->|[->|[->|[->|[->|[]]]]]]; cbn; rewrite ?lookup_insert_eq;
      repeat rewrite lookup_insert_ne by done.
    1,2,3: exists r; split; [done|split_and!; done].
    + exists r. rewrite Hk. split; [|done]. by destruct v.
    + exists (string_of v). split; [done|]. split_and!; [done| |by left].
      intros [=].
  - rewrite filter_insert_payload by done. rewrite !field_text_insert.
    unfold column_keys in Hin. rewrite !not_elem_of_cons in Hin.
    destruct Hin as (Hk1 & Hk2 & Hk3 & Hk4 & Hk5 & _).
    repeat rewrite bool_decide_eq_false_2 by done. repeat rewrite lookup_insert_ne by done.
    case_bool_decide as Hm.
    + subst k. rewrite lookup_insert_eq.
      exists (if bool_decide (r = ""%string) then string_of v else r).
      cbn [tr_Reason]. case_bool_decide as Hr; (split; [done|]); split_and!; try done; auto.
      * intros Hn. rewrite lookup_insert_ne in Hn by done. exfalso. apply Hr. rewrite (H1 Hk). unfold field_text. by rewrite Hn.
    + exists r. repeat rewrite lookup_insert_ne by done. by split_and!.
Qed.

Lemma emit_loop_spec emitter stage now l :
  NoDup l.*1 ->
  exists r, foldl assign_field (blank_row emitter stage now) l = expected_row emitter stage now r (list_to_map l) /\
            reason_so_far (list_to_map l) r.
Proof.
  induction l as [|[k v] l IH] using rev_ind; intros Hnd.
  - exists ""%string. split; [|by split_and!; auto].
    unfold expected_row, blank_row. cbn. by rewrite map_filter_empty.
  - rewrite fmap_app in Hnd. apply NoDup_app in Hnd as (Hnd & Hfresh & _).
    destruct (IH Hnd) as (r & Hr & Hs).
    assert (Hk : k ∉ l.*1) by (intros Hin; apply (Hfresh _ Hin); apply list_elem_of_singleton; done).
    rewrite foldl_app, list_to_map_snoc by done. cbn. rewrite Hr.
    apply assign_field_step; [|done]. by apply not_elem_of_list_to_map_1.
Qed.

Lemma emit_row_settled emitter now iter stage fields :
  iter ≡ₚ map_to_list fields -> reason_settled fields ->
  emit_row emitter now iter stage fields = expected_row emitter stage now (settled_reason fields) fields.
Proof.
  intros Hp Hs. assert (Hnd : NoDup iter.*1) by (rewrite Hp; apply NoDup_fst_map_to_list).
  destruct (emit_loop_spec emitter stage now iter Hnd) as (r & Hr & (H1 & H2 & H3)).
  unfold emit_row. rewrite Hr.
  assert (list_to_map iter = fields) as E by (by rewrite (list_to_map_proper _ _ Hnd Hp), list_to_map_to_list).
  rewrite E in *. unfold repair_reason, settled_reason, reason_settled in *.
  assert (Hft : field_text fields "reason" = default ""%string (fields !! "reason"%string ≫= as_string)) by done.
  destruct (fields !! "reason"%string ≫= as_string) as [reason|] eqn:Er; cbn in Hft; rewrite Hft in *.
  - case_bool_decide as Hb; [by rewrite bool_decide_eq_false_2|].
    assert (reason = ""%string) as -> by (by destruct (decide (reason = ""%string))).
    cbn. f_equal. destruct Hs as [?|[Hn|Hm]]; [done|by rewrite (H2 Hn)|]. rewrite Hm in *. by destruct H3.
  - cbn. f_equal. destruct Hs as [?|[Hn|Hm]]; [done|by rewrite (H2 Hn)|]. rewrite Hm in *. by destruct H3.
Qed.

(** C33: A trace row is what its fields say, in whatever order Go visits them:
    the well-known keys become columns (a value of the wrong type leaves the
    column zero), an explicit reason wins over [mode], [mode] stands in when no
    reason is given, and every other key, [mode] included, is in the payload.
    The one exception is a reason that is present but empty next to a [mode],
    which [empty_reason_depends_on_order] shows to be excluded for cause. *)
Theorem Emit_row_deterministic {S} (record : TraceRow -> S -> S) emitter now iter stage fields s :
  iter ≡ₚ map_to_list fields -> reason_settled fields ->
  Emit (Some record) emitter now iter stage fields s
  = record (mkTraceRow (field_text fields "tenant_id") (field_text fields "request_id") stage
      (settled_reason fields) (field_text fields "memory_id")
      (match fields !! "version"%string with Some (VInt z) => z | _ => 0 end)
      now emitter (filter (fun kv => kv.1 ∉ column_keys) fields)) s.
Proof. intros Hp Hs. unfold Emit. by rewrite emit_row_settled. Qed.
End emitter.

Definition promote_fields : gmap string value :=
  <["tenant_id"%string := VStr "acme"]> (<["version"%string := VInt 3]>
    (<["mode"%string := VStr "deferred"]> (<["reason"%string := VStr "budget"]> ∅))).

Lemma Emit_row_deterministic_witness :
  let row := Emit (fun _ => ""%string) (Some (fun row (_ : option TraceRow) => Some row)) "gateway" 7
               (reverse (map_to_list promote_fields)) "promote_decided" promote_fields None in
  row = Some (mkTraceRow "acme" "" "promote_decided" "budget" "" 3 7 "gateway" (<["mode"%string := VStr "deferred"]> ∅)).
Proof.
  cbv zeta.
  rewrite (Emit_row_deterministic (fun _ => ""%string) (fun row (_ : option TraceRow) => Some row) "gateway" 7
             (reverse (map_to_list promote_fields)) "promote_decided" promote_fields None).
  - vm_compute. reflexivity.
  - apply reverse_Permutation.
  - left. vm_compute. discriminate.
Defined.

(** With an empty [reason] next to a [mode], two orders give two rows. *)
Example empty_reason_depends_on_order :
  let fields : gmap string value := <["mode"%string := VStr "deferred"]> (<["reason"%string := VStr ""]> ∅) in
  let row iter := tr_Reason (emit_row (fun _ => ""%string) "gateway" 0 iter "promote_decided" fields) in
  row [("reason"%string, VStr ""); ("mode"%string, VStr "deferred")] = "deferred"%string /\
  row [("mode"%string, VStr "deferred"); ("reason"%string, VStr "")] = ""%string.
Proof. vm_compute. split; reflexivity. Qed.
Close Scope Z_scope.
