(* ===== verification/Crons.v ===== *)
(** * The background jobs

    [session_reaper_cron.go], [hard_delete_gc_cron.go] and
    [storage_metrics_cron.go]: the settings with their defaults, one tick of
    each ([runOnce]), and the loop and [Stop] they share. *)
From S2P Require Import Prelude GoStrings GoFloat GoSort HttpApi Authz ScopeKeys Contract RecallCache Sessions SessionProps ScopeVersions RecallSelection HybridRecall Service ServiceFootprint ServiceRuns RefWorld Lifecycle SessionCloser Vector Outbox Metrics TraceSink.
Open Scope Z_scope.

(** ** The session reaper *)
Record SessionReaperCron (S : Type) := mkSessionReaperCron {
  rp_listIdle : option (time -> GoM S (list Scope));
  rp_close : option (Scope -> GoM S unit);
  rp_idleTTL : duration;
  rp_interval : duration;
  rp_onError : goerror -> S -> S
}.
Arguments rp_listIdle {S}.
Arguments rp_close {S}.
Arguments rp_idleTTL {S}.
Arguments rp_interval {S}.
Arguments rp_onError {S}.

(** [IdleSessionScope] has the fields of a [Scope]. *)
Definition NewSessionReaperCron {S} (listIdle : option (time -> GoM S (list Scope)))
    (close : option (Scope -> GoM S unit)) (idleTTL interval : duration)
    (onError : option (goerror -> S -> S)) : SessionReaperCron S :=
  mkSessionReaperCron S listIdle close (or_default idleTTL (30 * minute)) (or_default interval (5 * minute))
    (default (fun _ s => s) onError).

(** The loop over the idle sessions: [stopped] is what the [select] on
    [ctx.Done()] and [c.stop] sees before each of them. *)
Fixpoint reap_sessions {S} (c : SessionReaperCron S) (close : Scope -> GoM S unit) (stopped : S -> bool)
    (scopes : list Scope) (s : S) : S :=
  match scopes with
  | [] => s
  | scope :: rest =>
      if stopped s then s
      else
        let '(s1, r) := close scope s in
        reap_sessions c close stopped rest (match r with Fail err => rp_onError c err s1 | Ok _ => s1 end)
  end.

Definition reaper_runOnce {S} (c : SessionReaperCron S) (now : time) (stopped : S -> bool) (s : S) : S :=
  match rp_listIdle c, rp_close c with
  | Some listIdle, Some close =>
      let cutoff := now - rp_idleTTL c in
      let '(s1, r) := listIdle cutoff s in
      match r with
      | Fail err => rp_onError c err s1
      | Ok scopes => reap_sessions c close stopped scopes s1
      end
  | _, _ => s
  end.

(** ** The hard-delete collector *)
Record HardDeleteGCCron (S : Type) := mkHardDeleteGCCron {
  gc_purge : option (time -> GoM S Z);
  gc_retention : duration;
  gc_interval : duration;
  gc_onError : goerror -> S -> S;
  gc_onPurge : Z -> S -> S
}.
Arguments gc_purge {S}.
Arguments gc_retention {S}.
Arguments gc_interval {S}.
Arguments gc_onError {S}.
Arguments gc_onPurge {S}.

Definition NewHardDeleteGCCron {S} (purge : option (time -> GoM S Z)) (retention interval : duration)
    (onError : option (goerror -> S -> S)) (onPurge : option (Z -> S -> S)) : HardDeleteGCCron S :=
  mkHardDeleteGCCron S purge (or_default retention (30 * 24 * hour)) (or_default interval hour)
    (default (fun _ s => s) onError) (default (fun _ s => s) onPurge).

Definition gc_runOnce {S} (c : HardDeleteGCCron S) (now : time) (s : S) : S :=
  match gc_purge c with
  | None => s
  | Some purge =>
      let cutoff := now - gc_retention c in
      let '(s1, r) := purge cutoff s in
      match r with
      | Fail err => gc_onError c err s1
      | Ok deleted => if 0 <? deleted then gc_onPurge c deleted s1 else s1
      end
  end.

(** ** The storage gauges *)
Record StorageRow := mkStorageRow { sto_TenantID : string; sto_MemoryBytes : Z; sto_VectorBytes : Z }.

Record StorageMetricsSink (S : Type) := mkStorageMetricsSink {
  SetMemoryStorageBytes : string -> Z -> S -> S;
  SetVectorStorageBytes : string -> Z -> S -> S;
  sink_AddStorageCronFailure : S -> S
}.
Arguments SetMemoryStorageBytes {S}.
Arguments SetVectorStorageBytes {S}.
Arguments sink_AddStorageCronFailure {S}.

Definition storage_interval (configured : duration) : duration := or_default configured (5 * minute).

(** [a.memory += row.MemoryBytes; a.vector += row.VectorBytes] *)
Definition aggregate_row (byBucket : gmap string (Z * Z)) (row : StorageRow) : gmap string (Z * Z) :=
  let bucket := tenantBucket (sto_TenantID row) in
  let a := default (0, 0) (byBucket !! bucket) in
  <[bucket := (wrapu64 (a.1 + sto_MemoryBytes row), wrapu64 (a.2 + sto_VectorBytes row))]> byBucket.

Definition aggregate_rows (rows : list StorageRow) : gmap string (Z * Z) := foldl aggregate_row ∅ rows.

Definition publish_bucket {S} (sink : StorageMetricsSink S) (s : S) (entry : string * (Z * Z)) : S :=
  SetVectorStorageBytes sink entry.1 entry.2.2 (SetMemoryStorageBytes sink entry.1 entry.2.1 s).

(** [iter] is the order in which Go visits [byBucket]. *)
Definition storage_runOnce {S} (sink : StorageMetricsSink S) (query : result goerror (list StorageRow))
    (iter : gmap string (Z * Z) -> list (string * (Z * Z))) (s : S) : S :=
  match query with
  | Fail _ => sink_AddStorageCronFailure sink s
  | Ok rows => foldl (publish_bucket sink) s (iter (aggregate_rows rows))
  end.

(** [*observability.Metrics] as the sink. *)
Definition metrics_storage_sink : StorageMetricsSink Metrics :=
  mkStorageMetricsSink Metrics (setBucket memoryStorageBytes) (setBucket vectorStorageBytes) AddStorageCronFailure.

(** ** The loop and [Stop]

    The three crons share [Run] and [Stop].  A tick is two events, so that a
    stop can be seen in the middle of one; [Stop] looks at the channel before
    it closes it, so that two callers can interleave there. *)
Inductive loop_phase := LoopNew | LoopWaits | LoopTicks | LoopDone.
Inductive stop_pc := StopEnter | StopSawOpen | StopWaiting | StopBack (finished : bool).

Record cron := mkCron {
  cr_phase : loop_phase;
  cr_stop : bool;              (* [c.stop] is closed *)
  cr_cancelled : bool;         (* [ctx] of [Run] is done *)
  cr_panicked : bool;          (* [close] of a closed channel *)
  cr_ticks : nat;
  cr_stoppers : list stop_pc
}.

Inductive cron_event :=
| CrRun | CrTick | CrTickEnds | CrLeave | CrCancel
| CrStop (i : nat)             (* stopper [i] runs up to its next synchronization *)
| CrGiveUp (i : nat).          (* the context of stopper [i] ends *)

Definition new_cron (stoppers : nat) : cron := mkCron LoopNew false false false 0 (replicate stoppers StopEnter).

Definition set_phase (p : loop_phase) (ticks : nat) (c : cron) : cron :=
  mkCron p (cr_stop c) (cr_cancelled c) (cr_panicked c) ticks (cr_stoppers c).
Definition set_stoppers (i : nat) (pc : stop_pc) (c : cron) : cron :=
  mkCron (cr_phase c) (cr_stop c) (cr_cancelled c) (cr_panicked c) (cr_ticks c) (<[i := pc]> (cr_stoppers c)).

(** [Run] returns at once when a required function is missing. *)
Definition cron_step (configured : bool) (ev : cron_event) (c : cron) : option cron :=
  match ev with
  | CrRun => match cr_phase c with
             | LoopNew => Some (set_phase (if configured then LoopWaits else LoopDone) (cr_ticks c) c)
             | _ => None end
  | CrTick => match cr_phase c with LoopWaits => Some (set_phase LoopTicks (S (cr_ticks c)) c) | _ => None end
  | CrTickEnds => match cr_phase c with LoopTicks => Some (set_phase LoopWaits (cr_ticks c) c) | _ => None end
  | CrLeave => match cr_phase c with
               | LoopWaits => if cr_stop c || cr_cancelled c then Some (set_phase LoopDone (cr_ticks c) c) else None
               | _ => None end
  | CrCancel => Some (mkCron (cr_phase c) (cr_stop c) true (cr_panicked c) (cr_ticks c) (cr_stoppers c))
  | CrStop i =>
      match cr_stoppers c !! i with
      | Some StopEnter => Some (set_stoppers i (if cr_stop c then StopWaiting else StopSawOpen) c)
      | Some StopSawOpen =>
          Some (set_stoppers i StopWaiting
            (mkCron (cr_phase c) true (cr_cancelled c) (cr_panicked c || cr_stop c) (cr_ticks c) (cr_stoppers c)))
      | Some StopWaiting =>
          match cr_phase c with LoopDone => Some (set_stoppers i (StopBack true) c) | _ => None end
      | _ => None
      end
  | CrGiveUp i =>
      match cr_stoppers c !! i with Some StopWaiting => Some (set_stoppers i (StopBack false) c) | _ => None end
  end.

(** The required functions of each of the three. *)
Definition is_set {A} (o : option A) : bool := match o with Some _ => true | None => false end.
Definition reaper_step {S} (c : SessionReaperCron S) : cron_event -> cron -> option cron :=
  cron_step (is_set (rp_listIdle c) && is_set (rp_close c)).
Definition gc_step {S} (c : HardDeleteGCCron S) : cron_event -> cron -> option cron :=
  cron_step (is_set (gc_purge c)).
Definition storage_step {S Q} (query : option Q) (sink : option (StorageMetricsSink S)) : cron_event -> cron -> option cron :=
  cron_step (is_set query && is_set sink).

Definition run_cron (configured : bool) (evs : list cron_event) (c : cron) : option cron :=
  foldl (fun o ev => o ≫= cron_step configured ev) (Some c) evs.

(** ** Reaping, over the service *)
Definition idle_scope (scope : Scope) : bool := negb (bool_decide (SessionID scope = ""%string)).

Lemma reap_scope scope :
  idle_scope scope = true ->
  session_scope scope (mkScopePayload "" "" "" "") (SessionID scope) = scope.
Proof.
  destruct scope as [t u p sid]. unfold idle_scope, session_scope. cbn. intros H. rewrite H.
  unfold with_SessionID, mergeScope, MergeAuthoritativeScope. cbn.
  by repeat case_bool_decide; subst.
Qed.

Section reaping.
Context {E T V : Type} (clock : nat -> time) (s : Service E T V)
  (view : T -> Scope -> option SessionState) (rnd : time -> time)
  {L : SessionStoreLaws (sessionStore s) view rnd}.
Local Abbreviation State := (St E T V * list goerror)%type.

(** The service as the reaper calls it; [OnError] collects what it is told. *)
Definition reap_close (scope : Scope) : GoM State unit :=
  fun st => let '(s1, r) := ReapIdleSession clock s scope st.1 in ((s1, st.2), r).
Definition collect_error (err : goerror) (st : State) : State := (st.1, (st.2 ++ [err])%list).

Definition service_reaper (listIdle : time -> GoM State (list Scope)) (ttl interval : duration) : SessionReaperCron State :=
  NewSessionReaperCron (Some listIdle) (Some reap_close) ttl interval (Some collect_error).

(** The registry holds the session as closed. *)
Definition known_closed (scope : Scope) (st : State) : Prop :=
  exists state, (st_sessions st.1).2 !! sessionScopeKey scope = Some state /\ is_closed state = true.

(** The invariant of the tick, and its progress: closed sessions stay closed
    and reported errors stay reported. *)
Definition reap_inv (st : State) : Prop := closed_true view (st_sessions st.1).1 (st_sessions st.1).2.
Definition reap_more (st st' : State) : Prop :=
  (forall scope, clean_scope scope = true -> known_closed scope st -> known_closed scope st') /\
  st.2 `prefix_of` st'.2.

#[export] Instance reap_more_preorder : PreOrder reap_more.
Proof.
  split; [by intros st; split|]. intros a b c [H1 P1] [H2 P2]. split; [by eauto|by etransitivity].
Qed.

(** One session of the tick. *)
Lemma reap_one scope st s1 r :
  clean_scope scope = true -> idle_scope scope = true -> reap_inv st ->
  reap_close scope st = (s1, r) ->
  let st' := match r with Fail err => collect_error err s1 | Ok _ => s1 end in
  reap_inv st' /\ reap_more st st' /\
  match r with Ok _ => known_closed scope st' | Fail err => st'.2 = (st.2 ++ [err])%list end.
Proof using L.
  intros Hc Hi Hinv. unfold reap_close. destruct st as [st errs]; cbn [fst snd] in *.
  destruct (ReapIdleSession clock s scope st) as [st1 r1] eqn:Er. intros [= <- <-].
  pose proof Er as Er'. unfold ReapIdleSession in Er'. rewrite run_bind in Er'.
  set (req := {| sc_Scope := mkScopePayload "" "" "" ""; sc_Mode := "expire_working" |}) in *.
  destruct (CloseSession clock s scope (SessionID scope) req st) as [st2 rc] eqn:Ecl.
  assert (st2 = st1) as -> by (destruct rc; by injection Er').
  assert (Hscope : session_scope scope (sc_Scope req) (SessionID scope) = scope) by (by apply reap_scope).
  pose proof (fp_CloseSession clock s (fun sc => clean_scope sc = true) (fun _ _ => True) any
    (closed_kept view) any any (F := sessions_footprint s view rnd) scope (SessionID scope) req) as Hk.
  rewrite Hscope in Hk. specialize (Hk Hc st). rewrite Ecl in Hk. destruct Hk as (_ & Hk & _).
  destruct (Hk Hinv) as [Hct Hfin].
  assert (Hkept : forall sc, clean_scope sc = true -> known_closed sc (st, errs) -> known_closed sc (st1, errs)).
  { intros sc Hsc (state & Hl & Hcl). exists state. split; [|done]. by apply Hfin. }
  destruct rc as [resp|err]; cbn in Er'; injection Er' as <-; cbn.
  - split_and!; [done|by split|].
    destruct (CloseSession_registers clock s view rnd scope (SessionID scope) req st st1 resp) as [_ Hreg];
      [by rewrite Hscope|done|done|]. rewrite Hscope in Hreg. exact Hreg.
  - split_and!; [done| |done].
    split; [|by eexists]. intros sc Hsc (state & Hl). exists state. by destruct (Hkept sc Hsc (ex_intro _ state Hl)) as (? & ? & ?); split; [apply Hfin; tauto|tauto].
Qed.

Lemma reap_sessions_keep c scopes st :
  rp_onError c = collect_error ->
  Forall (fun scope => clean_scope scope = true /\ idle_scope scope = true) scopes -> reap_inv st ->
  let st' := reap_sessions c reap_close (fun _ => false) scopes st in
  reap_inv st' /\ reap_more st st'.
Proof using L.
  intros Hon Hs. revert st. induction Hs as [|scope rest [Hc Hi] _ IH]; intros st Hinv; [done|].
  cbn. destruct (reap_close scope st) as [s1 r] eqn:Er.
  destruct (reap_one scope st s1 r Hc Hi Hinv Er) as (Hinv1 & Hm1 & _). rewrite Hon.
  destruct (IH _ Hinv1) as (Hinv2 & Hm2). split; [done|by etransitivity].
Qed.

Lemma reap_sessions_app {S} (c : SessionReaperCron S) close pre post st :
  reap_sessions c close (fun _ => false) (pre ++ post) st
  = reap_sessions c close (fun _ => false) post (reap_sessions c close (fun _ => false) pre st).
Proof.
  revert st. induction pre as [|scope pre IH]; intros st; [done|]. cbn. by destruct (close scope st).
Qed.

Lemma reap_sessions_handler {S} (c c' : SessionReaperCron S) close stopped scopes st :
  rp_onError c = rp_onError c' -> reap_sessions c close stopped scopes st = reap_sessions c' close stopped scopes st.
Proof.
  intros Hon. revert st. induction scopes as [|scope scopes IH]; intros st; [done|]. cbn.
  destruct (stopped st); [done|]. destruct (close scope st) as [s1 r]. by rewrite Hon, IH.
Qed.

(** The store holds the session as closed. *)
Definition stored_closed (scope : Scope) (st : State) : Prop :=
  exists state, view (st_sessions st.1).1 scope = Some state /\ is_closed state = true.

(** C34: A tick of the reaper over the service that nobody stops meanwhile,
    where the closed sessions of the registry's cache are closed in the store.
    A failed listing is reported and touches nothing.  Otherwise every session
    listed (with a session id and a scope free of "|") is settled in its turn:
    when its own close, on what the earlier ones have left, succeeds, it ends
    up closed in the store and in the cache; when that fails, its error is
    reported next, and the sessions after it are closed all the same.  No
    session that was known closed is reopened. *)
Theorem reaper_settles_idle_sessions listIdle ttl interval now st :
  reap_inv st ->
  let cutoff := now - or_default ttl (30 * minute) in
  let tick list := reaper_runOnce (service_reaper list ttl interval) now (fun _ => false) st in
  let st' := tick listIdle in
  (forall err, listIdle cutoff st = (st, Fail err) -> st' = (st.1, st.2 ++ [err])%list) /\
  (forall scopes, listIdle cutoff st = (st, Ok scopes) ->
     Forall (fun scope => clean_scope scope = true /\ SessionID scope <> ""%string) scopes ->
     (forall pre scope post, scopes = (pre ++ scope :: post)%list ->
        let mid := tick (fun _ st => (st, Ok pre)) in
        match (ReapIdleSession clock s scope mid.1).2 with
        | Ok _ => known_closed scope st' /\ stored_closed scope st'
        | Fail err => (mid.2 ++ [err])%list `prefix_of` st'.2
        end) /\
     (forall scope, clean_scope scope = true -> known_closed scope st -> known_closed scope st')).
Proof using L.
  intros Hinv cutoff tick st'. subst st' tick. unfold reaper_runOnce, service_reaper, NewSessionReaperCron. cbn.
  fold cutoff. split; [by intros err ->|]. intros scopes -> Hs.
  set (c := mkSessionReaperCron _ _ _ _ _ _).
  assert (Hs' : Forall (fun scope => clean_scope scope = true /\ idle_scope scope = true) scopes).
  { eapply Forall_impl; [exact Hs|]. intros scope [Hc Hi]. split; [done|].
    unfold idle_scope. by rewrite bool_decide_eq_false_2. }
  split; [|exact (proj1 (proj2 (reap_sessions_keep c scopes st eq_refl Hs' Hinv)))].
  intros pre scope post ->. apply Forall_app in Hs' as [Hpre [[Hc Hi] Hpost]%Forall_cons].
  cbv zeta.
  match goal with |- context [reap_sessions ?d reap_close (fun _ => false) pre st] =>
    rewrite (reap_sessions_handler d c reap_close (fun _ => false) pre st eq_refl) end.
  set (mid := reap_sessions c reap_close (fun _ => false) pre st).
  pose proof (reap_sessions_keep c pre st eq_refl Hpre Hinv) as [Hmid _]. fold mid in Hmid.
  rewrite reap_sessions_app. fold mid. cbn [reap_sessions].
  destruct (reap_close scope mid) as [s1 r] eqn:Er.
  assert (Hr : (ReapIdleSession clock s scope mid.1).2 = r)
    by (unfold reap_close in Er; by destruct (ReapIdleSession clock s scope mid.1); injection Er).
  destruct (reap_one scope mid s1 r Hc Hi Hmid Er) as (Hinv1 & _ & Hone). rewrite Hr.
  change (rp_onError c) with collect_error. set (st1 := match r with Ok _ => s1 | Fail err => collect_error err s1 end) in *.
  destruct (reap_sessions_keep c post st1 eq_refl Hpost Hinv1) as [Hinv' [Hk Hp]].
  destruct r as [u|err]; [|by rewrite <-Hone].
  assert (Hknown := Hk scope Hc Hone). split; [done|]. destruct Hknown as (state & Hl & Hcl).
  exists state. split; [by apply Hinv'|done].
Qed.
End reaping.

Definition alice_tab2 : Scope := mkScope "acme" "alice" "p" "s2".

Lemma reaper_settles_idle_sessions_witness :
  let st0 := (ref_start, []) in
  let listIdle := fun (cutoff : time) st => (st, Ok [alice; alice_tab2]) in
  let st' := reaper_runOnce (service_reaper ref_clock (ref_service false) listIdle 0 0) (90 * minute)
               (fun _ => false) st0 in
  known_closed alice_tab2 st' /\ stored_closed mem_view alice_tab2 st' /\ st'.2 = [].
Proof.
  cut (forall A B C : Prop, A /\ B -> C -> A /\ B /\ C); [intros Hand; apply Hand; [|vm_compute; reflexivity]|tauto].
  destruct (reaper_settles_idle_sessions ref_clock (ref_service false) mem_view id
    (fun (cutoff : time) st => (st, Ok [alice; alice_tab2])) 0 0 (90 * minute) (ref_start, [])) as [_ H].
  - intros sc st _ Hl. cbn in Hl. by rewrite lookup_empty in Hl.
  - destruct (H [alice; alice_tab2]) as [Hall _]; [reflexivity|repeat constructor; discriminate|].
    specialize (Hall [alice] alice_tab2 [] eq_refl). cbv zeta in Hall.
    destruct (ReapIdleSession _ _ _ _).2 as [u|err] eqn:Er; [exact Hall|].
    apply (f_equal is_ok) in Er. vm_compute in Er. discriminate Er.
Defined.

(** ** The gauges after a storage tick *)
Definition in_storage_bucket (key : string) (row : StorageRow) : bool := bool_decide (tenantBucket (sto_TenantID row) = key).
Definition bucket_bytes (bytes : StorageRow -> Z) (key : string) (rows : list StorageRow) : Z :=
  sum_Z (map (fun row => if in_storage_bucket key row then bytes row else 0) rows).

Lemma bucket_bytes_snoc bytes key rows row :
  bucket_bytes bytes key (rows ++ [row])
  = bucket_bytes bytes key rows + if in_storage_bucket key row then bytes row else 0.
Proof. unfold bucket_bytes. rewrite map_app, sum_Z_app. unfold sum_Z. cbn. lia. Qed.

Lemma bucket_bytes_none bytes key rows :
  existsb (in_storage_bucket key) rows = false -> bucket_bytes bytes key rows = 0.
Proof.
  unfold bucket_bytes. induction rows as [|r rows IH]; [done|]. cbn. intros [Er Ex]%orb_false_iff.
  unfold sum_Z in *. cbn. by rewrite Er, (IH Ex).
Qed.

Lemma aggregate_row_lookup m row key :
  aggregate_row m row !! key =
  if in_storage_bucket key row
  then let a := default (0, 0) (m !! key) in Some (wrapu64 (a.1 + sto_MemoryBytes row), wrapu64 (a.2 + sto_VectorBytes row))
  else m !! key.
Proof.
  unfold aggregate_row, in_storage_bucket. cbv zeta. case_bool_decide as Hk.
  - rewrite Hk. by rewrite lookup_insert_eq.
  - by rewrite lookup_insert_ne.
Qed.

Lemma aggregate_lookup rows key :
  aggregate_rows rows !! key =
  if existsb (in_storage_bucket key) rows
  then Some (wrapu64 (bucket_bytes sto_MemoryBytes key rows), wrapu64 (bucket_bytes sto_VectorBytes key rows))
  else None.
Proof.
  unfold aggregate_rows. induction rows as [|row rows IH] using rev_ind; [done|].
  rewrite foldl_app, existsb_app, !bucket_bytes_snoc. cbn [foldl existsb].
  rewrite aggregate_row_lookup, orb_false_r, IH. clear IH.
  destruct (in_storage_bucket key row); [|by rewrite orb_false_r, !Z.add_0_r].
  rewrite orb_true_r. destruct (existsb (in_storage_bucket key) rows) eqn:Ex; cbn [default from_option fst snd id].
  - by rewrite !wrapu64_add_l.
  - by rewrite !bucket_bytes_none.
Qed.

Lemma families_setBucket f k v m g key :
  families (setBucket f k v m) g !! key = if decide (g = f /\ key = k) then Some v else families m g !! key.
Proof.
  unfold setBucket. cbn. destruct (decide (g = f)) as [->|Hg].
  - destruct (decide (key = k)) as [->|Hk].
    + rewrite decide_True by done. by rewrite lookup_insert_eq.
    + rewrite decide_False by tauto. by rewrite lookup_insert_ne.
  - by rewrite decide_False by tauto.
Qed.

(** Publishing a list of distinct buckets. *)
Lemma publish_gauges l m :
  NoDup l.*1 ->
  let m' := foldl (publish_bucket metrics_storage_sink) m l in
  counters m' = counters m /\
  (forall f key, families m' f !! key =
     if decide (f = memoryStorageBytes) then (fst <$> (list_to_map l : gmap string (Z * Z)) !! key) ∪ families m f !! key
     else if decide (f = vectorStorageBytes) then (snd <$> (list_to_map l : gmap string (Z * Z)) !! key) ∪ families m f !! key
     else families m f !! key).
Proof.
  intros Hnd m'. subst m'. induction l as [|[k [mb vb]] l IH] using rev_ind.
  { split; [done|]. intros f key. cbn [foldl list_to_map foldr]. rewrite lookup_empty.
    repeat case_decide; by destruct (families m f !! key). }
  rewrite fmap_app in Hnd. apply NoDup_app in Hnd as (Hnd & Hfresh & _).
  assert (Hk : k ∉ l.*1) by (intros Hin; apply (Hfresh _ Hin); apply list_elem_of_singleton; done).
  destruct (IH Hnd) as [Hc Hf]. rewrite foldl_app, list_to_map_snoc by done. cbn [foldl].
  split; [exact Hc|]. intros f key. unfold publish_bucket. cbn [fst snd metrics_storage_sink SetVectorStorageBytes SetMemoryStorageBytes].
  rewrite !families_setBucket, Hf. destruct (decide (key = k)) as [->|Hne].
  - rewrite lookup_insert_eq.
    destruct (decide (f = memoryStorageBytes)) as [->|Nm]; [|destruct (decide (f = vectorStorageBytes)) as [->|Nv]];
      repeat first [rewrite decide_True by done|rewrite decide_False by (intros [? ?]; done)|rewrite decide_False by done];
      by destruct (families m _ !! k).
  - rewrite lookup_insert_ne by done.
    rewrite !(decide_False (P := _ /\ key = k)) by tauto. done.
Qed.

Lemma storage_tick_values iter m rows :
  (forall agg, iter agg ≡ₚ map_to_list agg) ->
  let m' := storage_runOnce metrics_storage_sink (Ok rows) iter m in
  (forall key,
     let present := existsb (in_storage_bucket key) rows in
     bucket_value m' memoryStorageBytes key
       = (if present then wrapu64 (bucket_bytes sto_MemoryBytes key rows) else bucket_value m memoryStorageBytes key) /\
     bucket_value m' vectorStorageBytes key
       = (if present then wrapu64 (bucket_bytes sto_VectorBytes key rows) else bucket_value m vectorStorageBytes key)) /\
  counters m' = counters m /\
  (forall f key, f <> memoryStorageBytes -> f <> vectorStorageBytes -> bucket_value m' f key = bucket_value m f key).
Proof.
  intros Hiter m'. subst m'. cbn [storage_runOnce].
  set (agg := aggregate_rows rows).
  assert (Hnd : NoDup (iter agg).*1) by (rewrite Hiter; apply NoDup_fst_map_to_list).
  assert (Hagg : list_to_map (iter agg) = agg)
    by (by rewrite (list_to_map_proper _ _ Hnd (Hiter agg)), list_to_map_to_list).
  destruct (publish_gauges (iter agg) m Hnd) as [Hc Hf]. rewrite Hagg in Hf.
  split_and!; [|exact Hc|].
  - intros key. unfold bucket_value. rewrite !Hf, !decide_True by done.
    rewrite decide_False by done. unfold agg. rewrite aggregate_lookup.
    destruct (existsb _ rows); split; by destruct (families m _ !! key).
  - intros f key H1 H2. unfold bucket_value. by rewrite Hf, !decide_False.
Qed.

(** After a successful storage tick the two gauges of a tenant bucket are
    the sums, modulo [2^64], of the rows that fall in it, however the rows
    are split over tenants and in whatever order Go visits the aggregate; a
    bucket without rows keeps its old gauge, and nothing else changes.  After a
    failed query only the failure counter moves. *)
Theorem storage_tick_gauges iter m :
  (forall agg, iter agg ≡ₚ map_to_list agg) ->
  (forall err, storage_runOnce metrics_storage_sink (Fail err) iter m = add_counter storageCronFailures 1 m) /\
  (forall rows,
     let m' := storage_runOnce metrics_storage_sink (Ok rows) iter m in
     (forall key,
        let present := existsb (in_storage_bucket key) rows in
        bucket_value m' memoryStorageBytes key
          = (if present then wrapu64 (bucket_bytes sto_MemoryBytes key rows) else bucket_value m memoryStorageBytes key) /\
        bucket_value m' vectorStorageBytes key
          = (if present then wrapu64 (bucket_bytes sto_VectorBytes key rows) else bucket_value m vectorStorageBytes key)) /\
     counters m' = counters m /\
     (forall f key, f <> memoryStorageBytes -> f <> vectorStorageBytes -> bucket_value m' f key = bucket_value m f key)).
Proof. intros Hiter. split; [done|]. intros rows. by apply storage_tick_values. Qed.

Lemma storage_tick_gauges_witness :
  let rows := [mkStorageRow "acme" 100 0; mkStorageRow "globex" 7 0; mkStorageRow "acme" 23 0] in
  let m' := storage_runOnce metrics_storage_sink (Ok rows) map_to_list NewMetrics in
  bucket_value m' memoryStorageBytes (tenantBucket "acme") = 123.
Proof.
  cbv zeta.
  destruct (storage_tick_gauges map_to_list NewMetrics (fun _ => reflexivity _)) as [_ H].
  destruct (H [mkStorageRow "acme" 100 0; mkStorageRow "globex" 7 0; mkStorageRow "acme" 23 0]) as [Hk _].
  rewrite (proj1 (Hk (tenantBucket "acme"))). vm_compute. reflexivity.
Defined.

(** ** The loop *)
Lemma run_cron_snoc configured evs ev c :
  run_cron configured (evs ++ [ev]) c = run_cron configured evs c ≫= cron_step configured ev.
Proof. unfold run_cron. by rewrite foldl_app. Qed.

Definition cron_inv (c : cron) : Prop :=
  (forall i, cr_stoppers c !! i = Some (StopBack true) -> cr_phase c = LoopDone) /\
  (length (cr_stoppers c) = 1%nat ->
     cr_panicked c = false /\
     (forall i, cr_stoppers c !! i = Some StopEnter \/ cr_stoppers c !! i = Some StopSawOpen -> cr_stop c = false)).

Lemma cron_inv_phase c p ticks : cr_phase c <> LoopDone -> cron_inv c -> cron_inv (set_phase p ticks c).
Proof. intros Hp [H1 H2]. split; cbn; [|exact H2]. intros i Hi. by apply H1 in Hi. Qed.

Lemma cron_inv_stopper c i pc old :
  cron_inv c -> cr_stoppers c !! i = Some old ->
  (pc = StopBack true -> cr_phase c = LoopDone) ->
  (pc = StopEnter \/ pc = StopSawOpen -> cr_stop c = false) -> cron_inv (set_stoppers i pc c).
Proof.
  intros [H1 H2] Hi Hb Hp. split; cbn.
  - intros j. destruct (decide (i = j)) as [->|Hne]; [|rewrite list_lookup_insert_ne by done; apply H1].
    rewrite list_lookup_insert_eq by (by eapply lookup_lt_Some). intros [= ->]. by apply Hb.
  - rewrite length_insert. intros Hl. destruct (H2 Hl) as [Hpan Hs]. split; [done|]. intros j.
    destruct (decide (i = j)) as [->|Hne]; [|rewrite list_lookup_insert_ne by done; apply Hs].
    rewrite list_lookup_insert_eq by (by eapply lookup_lt_Some).
    intros [[= ->]|[= ->]]; auto.
Qed.

Lemma cron_inv_close c i :
  cron_inv c -> cr_stoppers c !! i = Some StopSawOpen ->
  cron_inv (set_stoppers i StopWaiting
    (mkCron (cr_phase c) true (cr_cancelled c) (cr_panicked c || cr_stop c) (cr_ticks c) (cr_stoppers c))).
Proof.
  intros [H1 H2] Hi. split; cbn.
  - intros j. destruct (decide (i = j)) as [->|Hne]; [|rewrite list_lookup_insert_ne by done; apply H1].
    rewrite list_lookup_insert_eq by (by eapply lookup_lt_Some). done.
  - rewrite length_insert. intros Hl. destruct (H2 Hl) as [-> Hs]. rewrite (Hs i) by auto. split; [done|].
    intros j Hj. exfalso. pose proof (lookup_lt_Some _ _ _ Hi) as Hil.
    assert (j < length (cr_stoppers c))%nat as Hjl.
    { destruct Hj as [Hj|Hj]; apply lookup_lt_Some in Hj; by rewrite length_insert in Hj. }
    assert (i = j) as -> by lia. rewrite list_lookup_insert_eq in Hj by done. by destruct Hj.
Qed.

Lemma cron_inv_step configured ev c c' : cron_inv c -> cron_step configured ev c = Some c' -> cron_inv c'.
Proof.
  intros I. unfold cron_step.
  destruct ev as [| | | | |i|i].
  1,2,3,4: destruct (cr_phase c) eqn:Ep; try done; try (destruct (cr_stop c || cr_cancelled c); [|done]);
    intros [= <-]; apply cron_inv_phase; by rewrite ?Ep.
  - intros [= <-]. exact I.
  - destruct (cr_stoppers c !! i) as [[]|] eqn:Ei; try done.
    + intros [= <-]. eapply cron_inv_stopper; [done|exact Ei|by destruct (cr_stop c)|].
      by destruct (cr_stop c); [intros [?|?]|].
    + intros [= <-]. by apply cron_inv_close.
    + destruct (cr_phase c) eqn:Ep; try done. intros [= <-].
      eapply cron_inv_stopper; [done|exact Ei|done|by intros [?|?]].
  - destruct (cr_stoppers c !! i) as [[]|] eqn:Ei; try done. intros [= <-].
    eapply cron_inv_stopper; [done|exact Ei|done|by intros [?|?]].
Qed.

Lemma cron_inv_run configured evs n c : run_cron configured evs (new_cron n) = Some c -> cron_inv c.
Proof.
  revert c. induction evs as [|ev evs IH] using rev_ind; intros c Hr.
  - injection Hr as <-. split; cbn.
    + intros i Hi. by apply lookup_replicate in Hi as [? _].
    + done.
  - rewrite run_cron_snoc in Hr. apply bind_Some in Hr as (c1 & H1 & Hs). by eapply cron_inv_step; eauto.
Qed.

Lemma loop_done_stays configured evs c c' :
  cr_phase c = LoopDone -> run_cron configured evs c = Some c' ->
  cr_phase c' = LoopDone /\ cr_ticks c' = cr_ticks c.
Proof.
  intros Hp. revert c'. induction evs as [|ev evs IH] using rev_ind; intros c' Hr; [by injection Hr as <-|].
  rewrite run_cron_snoc in Hr. apply bind_Some in Hr as (c1 & H1 & Hs). destruct (IH _ H1) as [Hp1 Ht1].
  revert Hs. unfold cron_step. rewrite Hp1.
  destruct ev as [| | | | |i|i]; try done; try (by intros [= <-]);
    destruct (cr_stoppers c1 !! i) as [[]|]; try done; intros [= <-]; done.
Qed.

Lemma stoppers_length configured evs n c :
  run_cron configured evs (new_cron n) = Some c -> length (cr_stoppers c) = n.
Proof.
  revert c. induction evs as [|ev evs IH] using rev_ind; intros c Hr.
  - injection Hr as <-. apply length_replicate.
  - rewrite run_cron_snoc in Hr. apply bind_Some in Hr as (c1 & H1 & Hs). rewrite <-(IH _ H1).
    revert Hs. unfold cron_step.
    destruct ev as [| | | | |i|i]; try (destruct (cr_phase c1); try destruct (cr_stop c1 || cr_cancelled c1); try done; by intros [= <-]);
      try (by intros [= <-]);
      destruct (cr_stoppers c1 !! i) as [[]|]; try done; try (destruct (cr_phase c1); try done);
      intros [= <-]; cbn; by rewrite length_insert.
Qed.

(** C35: When [Stop] of a cron comes back because [Run] has returned, no tick is
    running and none will ever run again, so that what the tick uses can be
    closed; and a single caller of [Stop] never closes the channel twice,
    whatever the loop and the contexts do. *)
Theorem cron_stop_is_final configured evs n c :
  run_cron configured evs (new_cron n) = Some c ->
  (forall i, cr_stoppers c !! i = Some (StopBack true) ->
     cr_phase c = LoopDone /\
     forall evs' c', run_cron configured evs' c = Some c' -> cr_phase c' = LoopDone /\ cr_ticks c' = cr_ticks c) /\
  (n = 1%nat -> cr_panicked c = false).
Proof.
  intros Hr. destruct (cron_inv_run _ _ _ _ Hr) as [H1 H2]. split.
  - intros i Hi. pose proof (H1 i Hi) as Hp. split; [done|]. intros evs' c'. by apply loop_done_stays.
  - intros ->. by apply H2, (stoppers_length configured evs).
Qed.

Definition stop_run : list cron_event := [CrRun; CrTick; CrStop 0; CrStop 0; CrTickEnds; CrLeave; CrStop 0].

Lemma cron_stop_is_final_witness :
  some_and (run_cron true stop_run (new_cron 1)) (fun c => cr_phase c = LoopDone /\ cr_panicked c = false).
Proof.
  apply some_and_intro; [vm_compute; reflexivity|]. intros c Hc.
  destruct (cron_stop_is_final true stop_run 1 c Hc) as [H Hp]. split; [|by apply Hp].
  refine (proj1 (H 0%nat _)).
  assert (E : option_map (fun c => cr_stoppers c !! 0%nat) (run_cron true stop_run (new_cron 1)) = Some (Some (StopBack true)))
    by (vm_compute; reflexivity).
  rewrite Hc in E. by injection E.
Defined.

(** Two callers of [Stop] can both see the channel open and both close it. *)
Lemma concurrent_stops_panic :
  option_map cr_panicked (run_cron true [CrRun; CrStop 0; CrStop 1; CrStop 0; CrStop 1] (new_cron 2)) = Some true.
Proof. vm_compute. reflexivity. Qed.
Close Scope Z_scope.
