(* ===== verification/Config.v ===== *)
(** * Configuration: [internal/config/config.go]

    [LoadFromEnv] over an arbitrary environment, with the parsers of the
    standard library it calls.  The texts of parse errors leave out the quoted
    input. *)
From Stdlib Require Import Ascii.
From S2P Require Import Prelude GoStrings GoFloat HttpApi RecallCache TraceSink.
Open Scope Z_scope.

#[export] Instance result_ret : MRet (result goerror) := fun A a => Ok a.
#[export] Instance result_bind : MBind (result goerror) := fun A B f r =>
  match r with Ok a => f a | Fail e => Fail e end.

Lemma result_bind_ok {A B} (f : A -> result goerror B) r b :
  (r ≫= f) = Ok b -> exists a, r = Ok a /\ f a = Ok b.
Proof. destruct r as [a|e]; cbn; [eauto|done]. Qed.

(** ** [strconv] *)
Definition is_digit (c : ascii) : bool := in_range 48 57 c.
Definition digit_val (c : ascii) : Z := byte_val c - 48.

Definition ParseBool (s : string) : result goerror bool :=
  if bool_decide (s ∈ ["1"; "t"; "T"; "TRUE"; "true"; "True"]%string) then Ok true
  else if bool_decide (s ∈ ["0"; "f"; "F"; "FALSE"; "false"; "False"]%string) then Ok false
  else Fail (ErrText "strconv.ParseBool: invalid syntax").

(** Decimal digits only; [None] is a syntax error. *)
Fixpoint digits_value (s : string) (acc : Z) : option Z :=
  match s with
  | EmptyString => Some acc
  | String c rest => if is_digit c then digits_value rest (acc * 10 + digit_val c) else None
  end.

Definition ParseUint (s : string) : result goerror Z :=
  match s with
  | EmptyString => Fail (ErrText "strconv.ParseUint: invalid syntax")
  | _ => match digits_value s 0 with
         | None => Fail (ErrText "strconv.ParseUint: invalid syntax")
         | Some n => if n <? two64 then Ok n else Fail (ErrText "strconv.ParseUint: value out of range")
         end
  end.

(** The optional sign of [Atoi] and [ParseDuration]: the sign and the rest. *)
Definition take_sign (s : string) : bool * string :=
  match s with
  | String c rest => if Ascii.eqb c "-" then (true, rest) else if Ascii.eqb c "+" then (false, rest) else (false, s)
  | EmptyString => (false, s)
  end.

Definition Atoi (s : string) : result goerror Z :=
  let '(neg, ds) := take_sign s in
  match ds with
  | EmptyString => Fail (ErrText "strconv.Atoi: invalid syntax")
  | _ => match digits_value ds 0 with
         | None => Fail (ErrText "strconv.Atoi: invalid syntax")
         | Some n => let v := if neg then - n else n in
                     if (min_int64 <=? v) && (v <=? max_int64) then Ok v
                     else Fail (ErrText "strconv.Atoi: value out of range")
         end
  end.

(** ** [time.ParseDuration] *)
Definition two63 : Z := 9223372036854775808.

(** [leadingInt]: [None] is its overflow. *)
Fixpoint leadingInt (s : string) (x : Z) : option (Z * string) :=
  match s with
  | String c rest =>
      if is_digit c then
        if two63 / 10 <? x then None
        else let x' := x * 10 + digit_val c in
             if two63 <? x' then None else leadingInt rest x'
      else Some (x, s)
  | EmptyString => Some (x, s)
  end.

Fixpoint leadingFraction (s : string) (x : Z) (scale : float64) (overflow : bool) : Z * float64 * string :=
  match s with
  | String c rest =>
      if is_digit c then
        if overflow then leadingFraction rest x scale true
        else if max_int64 / 10 <? x then leadingFraction rest x scale true
        else let y := x * 10 + digit_val c in
             if two63 <? y then leadingFraction rest x scale true
             else leadingFraction rest y (SFmul 53 1024 scale (f_of_Z 10)) false
      else (x, scale, s)
  | EmptyString => (x, scale, s)
  end.

(** [uint64(x)] of a non-negative float: truncation. *)
Definition f_trunc (x : float64) : Z :=
  match x with
  | S754_finite false m e => if 0 <=? e then Z.shiftl (Zpos m) e else Z.shiftr (Zpos m) (- e)
  | _ => 0
  end.

(** The unit: the bytes up to the next digit or period. *)
Fixpoint take_unit (s : string) : string * string :=
  match s with
  | String c rest => if is_digit c || Ascii.eqb c "." then (EmptyString, s)
                     else let '(u, r) := take_unit rest in (String c u, r)
  | EmptyString => (EmptyString, s)
  end.

Definition byte (n : nat) : string := String (Ascii.ascii_of_nat n) EmptyString.
(** Both spellings of micro are two bytes of UTF-8. *)
Definition unitMap (u : string) : option Z :=
  if bool_decide (u = "ns"%string) then Some 1
  else if bool_decide (u = "us"%string) then Some 1000
  else if bool_decide (u = (byte 194 +:+ byte 181 +:+ "s")%string) then Some 1000
  else if bool_decide (u = (byte 206 +:+ byte 188 +:+ "s")%string) then Some 1000
  else if bool_decide (u = "ms"%string) then Some millisecond
  else if bool_decide (u = "s"%string) then Some second
  else if bool_decide (u = "m"%string) then Some minute
  else if bool_decide (u = "h"%string) then Some hour
  else None.

Definition invalidDuration : goerror := ErrText "time: invalid duration".

(** One [<number><unit>] group: its value in nanoseconds and the rest. *)
Definition duration_group (s : string) : result goerror (Z * string) :=
  match s with
  | EmptyString => Fail invalidDuration
  | String c0 _ =>
      if negb (is_digit c0 || Ascii.eqb c0 ".") then Fail invalidDuration
      else match leadingInt s 0 with
      | None => Fail invalidDuration
      | Some (v, s1) =>
          let pre := negb (Nat.eqb (String.length s) (String.length s1)) in
          let '(f, scale, s2, post) :=
            match s1 with
            | String c rest =>
                if Ascii.eqb c "." then
                  let '(f, scale, r) := leadingFraction rest 0 f_one false in
                  (f, scale, r, negb (Nat.eqb (String.length rest) (String.length r)))
                else (0, f_one, s1, false)
            | EmptyString => (0, f_one, s1, false)
            end in
          if negb pre && negb post then Fail invalidDuration
          else
            let '(u, s3) := take_unit s2 in
            if bool_decide (u = EmptyString) then Fail (ErrText "time: missing unit in duration")
            else match unitMap u with
            | None => Fail (ErrText "time: unknown unit in duration")
            | Some unit =>
                if two63 / unit <? v then Fail invalidDuration
                else
                  let v := v * unit in
                  let v' := if 0 <? f
                            then v + f_trunc (SFmul 53 1024 (f_of_Z f) (f_div (f_of_Z unit) scale))
                            else v in
                  if (0 <? f) && (two63 <? v') then Fail invalidDuration else Ok (v', s3)
            end
      end
  end.

(** The loop over the groups; a group consumes at least one byte, so the
    length of the text is enough fuel. *)
Fixpoint duration_groups (fuel : nat) (s : string) (d : Z) : result goerror Z :=
  match s, fuel with
  | EmptyString, _ => Ok d
  | _, O => Fail invalidDuration
  | _, S fuel =>
      match duration_group s with
      | Fail e => Fail e
      | Ok (v, rest) =>
          let d := wrapu64 (d + v) in
          if two63 <? d then Fail invalidDuration else duration_groups fuel rest d
      end
  end.

Definition ParseDuration (s : string) : result goerror duration :=
  let '(neg, s1) := take_sign s in
  if bool_decide (s1 = "0"%string) then Ok 0
  else if bool_decide (s1 = EmptyString) then Fail invalidDuration
  else match duration_groups (String.length s1) s1 0 with
       | Fail e => Fail e
       | Ok d => if neg then Ok (- d) else if max_int64 <? d then Fail invalidDuration else Ok d
       end.

Example ParseDuration_examples :
  ParseDuration "1h30m" = Ok (90 * minute) /\ ParseDuration "1.5s" = Ok (1500 * millisecond) /\
  ParseDuration "-2ms" = Ok (-2 * millisecond) /\ ParseDuration "10" = Fail (ErrText "time: missing unit in duration").
Proof. vm_compute. repeat split. Qed.

(** ** The configuration *)
Record Config := mkConfig {
  cf_ListenAddr : string;
  cf_PostgresURL : string;
  cf_ReadOnly : bool;
  cf_SessionIdleTTL : duration;
  cf_RecallMode : string;
  cf_VectorEnabled : bool;
  cf_VectorTable : string;
  cf_VectorDimension : Z;
  cf_VectorNamespace : string;
  cf_VectorIndex : string;
  cf_OutboxPollInterval : duration;
  cf_OutboxBatchSize : Z;
  cf_EmbeddingCostMicrosPerToken : Z;
  cf_TraceSinkBufferSize : Z;
  cf_TraceSinkBatchSize : Z;
  cf_TraceSinkShutdownTimeout : duration;
  cf_StorageMetricsInterval : duration;
  cf_SessionReaperEnabled : bool;
  cf_SessionReaperInterval : duration;
  cf_HardDeleteGCEnabled : bool;
  cf_HardDeleteRetention : duration;
  cf_HardDeleteGCInterval : duration;
  cf_TraceRetentionEnabled : bool;
  cf_RelayLeaseTTL : duration;
  cf_RelayMaxAttempts : Z;
  cf_RelayBatchSize : Z
}.

Section load.
Context (getenv : string -> string).

(** [if v := os.Getenv(name); v != "" { ... }], by the type of the setting. *)
Definition env_string (name dflt : string) : string :=
  let v := getenv name in if bool_decide (v = EmptyString) then dflt else v.

Definition parse_error (name : string) (err : goerror) : goerror := ErrWrap ("parse " +:+ name) err.

Definition env_bool (name : string) (dflt : bool) : result goerror bool :=
  let v := getenv name in
  if bool_decide (v = EmptyString) then Ok dflt
  else match ParseBool v with Ok b => Ok b | Fail err => Fail (parse_error name err) end.

(** The parsers of the settings that must be positive. *)
Definition env_positive (parse : string -> result goerror Z) (name : string) (dflt : Z) : result goerror Z :=
  let v := getenv name in
  if bool_decide (v = EmptyString) then Ok dflt
  else match parse v with
       | Fail err => Fail (parse_error name err)
       | Ok n => if n <=? 0 then Fail (ErrText (name +:+ " must be > 0")) else Ok n
       end.
Definition env_duration : string -> duration -> result goerror duration := env_positive ParseDuration.
Definition env_int : string -> Z -> result goerror Z := env_positive Atoi.

Definition env_uint (name : string) (dflt : Z) : result goerror Z :=
  let v := getenv name in
  if bool_decide (v = EmptyString) then Ok dflt
  else match ParseUint v with Ok n => Ok n | Fail err => Fail (parse_error name err) end.

Definition env_choice (name dflt : string) (choices : list string) (msg : string) : result goerror string :=
  let v := getenv name in
  if bool_decide (v = EmptyString) then Ok dflt
  else if bool_decide (v ∈ choices) then Ok v else Fail (ErrText (name +:+ msg)).

Definition gateway_env (suffix : string) : string := "LLM_AGENT_MEMORY_GATEWAY_" +:+ suffix.

Definition recall_modes : list string := ["lexical"; "hybrid"]%string.
Definition vector_indexes : list string := ["none"; "ivfflat"; "hnsw"]%string.

Definition LoadFromEnv : result goerror Config :=
  let pgURL := getenv "LLM_AGENT_MEMORY_PG_URL" in
  let listenAddr := env_string (gateway_env "ADDR") ":8080" in
  if bool_decide (pgURL = EmptyString) then Fail (ErrText "LLM_AGENT_MEMORY_PG_URL is required")
  else
    readOnly ← env_bool (gateway_env "READ_ONLY") false;
    sessionIdleTTL ← env_duration (gateway_env "SESSION_IDLE_TTL") (30 * minute);
    recallMode ← env_choice (gateway_env "RECALL_MODE") "lexical" recall_modes " must be lexical or hybrid";
    vectorEnabled ← env_bool (gateway_env "VECTOR_ENABLED") false;
    let vectorTable := env_string (gateway_env "VECTOR_TABLE") "memory_gateway_vectors" in
    vectorDimension ← env_int (gateway_env "VECTOR_DIMENSION") 32;
    let vectorNamespace := env_string (gateway_env "VECTOR_NAMESPACE") "" in
    vectorIndex ← env_choice (gateway_env "VECTOR_INDEX") "none" vector_indexes " must be none, ivfflat, or hnsw";
    outboxPoll ← env_duration (gateway_env "OUTBOX_POLL_INTERVAL") second;
    outboxBatch ← env_int (gateway_env "OUTBOX_BATCH_SIZE") 100;
    cost ← env_uint (gateway_env "EMBED_COST_MICROS") 0;
    traceBuffer ← env_int (gateway_env "TRACE_BUFFER") 1024;
    traceBatch ← env_int (gateway_env "TRACE_BATCH") 50;
    traceShutdown ← env_duration (gateway_env "TRACE_SHUTDOWN") (5 * second);
    storageInterval ← env_duration (gateway_env "STORAGE_INTERVAL") (5 * minute);
    reaperEnabled ← env_bool (gateway_env "SESSION_REAPER_ENABLED") true;
    reaperInterval ← env_duration (gateway_env "SESSION_REAPER_INTERVAL") (5 * minute);
    gcEnabled ← env_bool (gateway_env "HARD_DELETE_GC_ENABLED") false;
    gcRetention ← env_duration (gateway_env "HARD_DELETE_RETENTION") (30 * 24 * hour);
    gcInterval ← env_duration (gateway_env "HARD_DELETE_GC_INTERVAL") hour;
    traceRetention ← env_bool (gateway_env "TRACE_RETENTION") false;
    leaseTTL ← env_duration (gateway_env "RELAY_LEASE_TTL") (180 * second);
    maxAttempts ← env_int (gateway_env "RELAY_MAX_ATTEMPTS") 5;
    relayBatch ← env_int (gateway_env "RELAY_BATCH_SIZE") 100;
    mret (mkConfig listenAddr pgURL readOnly sessionIdleTTL recallMode vectorEnabled vectorTable
            vectorDimension vectorNamespace vectorIndex outboxPoll outboxBatch cost traceBuffer traceBatch
            traceShutdown storageInterval reaperEnabled reaperInterval gcEnabled gcRetention gcInterval
            traceRetention leaseTTL maxAttempts relayBatch).
End load.

(** ** What a loaded configuration guarantees *)
Lemma leadingInt_spec s x v rest :
  0 <= x -> leadingInt s x = Some (v, rest) -> 0 <= v /\ (String.length rest <= String.length s)%nat.
Proof.
  revert x. induction s as [|c s IH]; intros x Hx; cbn; [by intros [= <- <-]|].
  destruct (is_digit c) eqn:Hd; [|by intros [= <- <-]].
  destruct (two63 / 10 <? x); [done|]. destruct (two63 <? _); [done|].
  intros H. apply IH in H; [split; [tauto|lia]|]. unfold is_digit, in_range, digit_val in *. lia.
Qed.

Lemma leadingFraction_rest s x scale o f sc rest :
  leadingFraction s x scale o = (f, sc, rest) -> (String.length rest <= String.length s)%nat.
Proof.
  revert x scale o. induction s as [|c s IH]; intros x scale o; cbn; [by intros [= _ _ <-]|].
  destruct (is_digit c); [|intros [= _ _ <-]; cbn; lia].
  destruct o; [intros H%IH; lia|]. destruct (_ <? x); [intros H%IH; lia|].
  destruct (_ <? _); intros H%IH; lia.
Qed.

Lemma take_unit_rest s u rest :
  take_unit s = (u, rest) -> (String.length s = String.length u + String.length rest)%nat.
Proof.
  revert u. induction s as [|c s IH]; intros u; cbn; [by intros [= <- <-]|].
  destruct (is_digit c || Ascii.eqb c "."); [by intros [= <- <-]|].
  destruct (take_unit s) as [u' r'] eqn:E. intros [= <- <-]. cbn. by rewrite (IH u').
Qed.

Lemma duration_group_spec s v rest :
  duration_group s = Ok (v, rest) -> (String.length rest < String.length s)%nat.
Proof.
  unfold duration_group. destruct s as [|c0 s]; [done|]. destruct (negb _); [done|].
  destruct (leadingInt (String c0 s) 0) as [[v0 s1]|] eqn:El; [|done].
  apply leadingInt_spec in El as [Hv Hl1]; [|done].
  assert (Hfrac : forall f sc s2 post,
    match s1 with
    | String c r => if Ascii.eqb c "." then let '(f, scale, r') := leadingFraction r 0 f_one false in
                      (f, scale, r', negb (Nat.eqb (String.length r) (String.length r')))
                    else (0, f_one, s1, false)
    | EmptyString => (0, f_one, s1, false) end = (f, sc, s2, post) -> (String.length s2 <= String.length s1)%nat).
  { intros f sc s2 post. destruct s1 as [|c r]; [by intros [= _ _ <- _]|].
    destruct (Ascii.eqb c "."); [|by intros [= _ _ <- _]].
    destruct (leadingFraction r 0 f_one false) as [[f' sc'] r'] eqn:Ef. intros [= _ _ <- _].
    apply leadingFraction_rest in Ef. cbn. lia. }
  destruct (match s1 with | EmptyString => _ | String _ _ => _ end) as [[[f sc] s2] post] eqn:Em.
  specialize (Hfrac _ _ _ _ eq_refl). destruct (negb _ && negb post); [done|].
  destruct (take_unit s2) as [u s3] eqn:Eu. apply take_unit_rest in Eu.
  case_bool_decide as Hu; [done|]. destruct (unitMap u); [|done]. destruct (_ <? v0); [done|].
  destruct (_ && _); [done|]. intros [= _ <-].
  assert (0 < String.length u)%nat by (destruct u; cbn; [done|lia]). lia.
Qed.

(** The fuel of [ParseDuration] is enough. *)
Lemma duration_groups_fuel n m s d :
  (String.length s <= n)%nat -> (String.length s <= m)%nat -> duration_groups n s d = duration_groups m s d.
Proof.
  revert m s d. induction n as [|n IH]; intros m s d Hn Hm.
  - destruct s; cbn in Hn; [by destruct m|lia].
  - destruct s as [|c s]; [by destruct m|]. destruct m as [|m]; [cbn in Hm; lia|]. cbn [duration_groups].
    destruct (duration_group (String c s)) as [[v rest]|] eqn:Eg; [|done].
    apply duration_group_spec in Eg. destruct (two63 <? _); [done|]. apply IH; cbn in *; lia.
Qed.

Lemma duration_groups_nonneg fuel s d n : 0 <= d -> duration_groups fuel s d = Ok n -> 0 <= n.
Proof.
  revert s d. induction fuel as [|fuel IH]; intros s d Hd; destruct s; cbn [duration_groups]; try done; try by intros [= <-].
  destruct (duration_group _) as [[v rest]|] eqn:Eg; [|done]. cbv zeta.
  destruct (_ <? _); [done|]. apply IH. apply wrapu64_range.
Qed.

Lemma ParseDuration_max s n : ParseDuration s = Ok n -> n <= max_int64.
Proof.
  unfold ParseDuration. destruct (take_sign s) as [neg s1]. repeat case_bool_decide; try done; [by intros [= <-]|].
  destruct (duration_groups _ s1 0) as [d|] eqn:E; [|done]. apply duration_groups_nonneg in E; [|done].
  destruct neg; [intros [= <-]; unfold max_int64; lia|].
  destruct (Z.ltb_spec max_int64 d); [done|]. by intros [= <-].
Qed.

Lemma Atoi_max s n : Atoi s = Ok n -> n <= max_int64.
Proof.
  unfold Atoi. destruct (take_sign s) as [neg ds]. destruct ds; [done|]. destruct (digits_value _ _) as [v|]; [|done].
  destruct (_ && _) eqn:E; [|done]. intros [= <-]. lia.
Qed.

(** A positive setting is its default, or what its parser read. *)
Definition setting_read (getenv : string -> string) (parse : string -> result goerror Z) (name : string) (dflt n : Z) : Prop :=
  (getenv name = EmptyString /\ n = dflt \/ getenv name <> EmptyString /\ parse (getenv name) = Ok n) /\
  0 < n <= max_int64.

Lemma env_positive_read getenv parse name dflt n :
  (forall s n, parse s = Ok n -> n <= max_int64) -> 0 < dflt <= max_int64 ->
  env_positive getenv parse name dflt = Ok n -> setting_read getenv parse name dflt n.
Proof.
  intros Hmax Hd. unfold env_positive, setting_read. case_bool_decide as E; [intros [= <-]; auto|].
  destruct (parse (getenv name)) as [v|] eqn:Ep; [|done]. destruct (Z.leb_spec v 0); [done|].
  intros [= <-]. pose proof (Hmax _ _ Ep). auto with lia.
Qed.

Lemma env_duration_read getenv name dflt n :
  env_duration getenv name dflt = Ok n -> 0 < dflt <= max_int64 -> setting_read getenv ParseDuration name dflt n.
Proof. intros E Hd. exact (env_positive_read _ _ _ _ _ ParseDuration_max Hd E). Qed.

Lemma env_int_read getenv name dflt n :
  env_int getenv name dflt = Ok n -> 0 < dflt <= max_int64 -> setting_read getenv Atoi name dflt n.
Proof. intros E Hd. exact (env_positive_read _ _ _ _ _ Atoi_max Hd E). Qed.

Lemma env_choice_read getenv name dflt choices msg v :
  env_choice getenv name dflt choices msg = Ok v ->
  v = (if bool_decide (getenv name = EmptyString) then dflt else getenv name) /\ (dflt ∈ choices -> v ∈ choices).
Proof. unfold env_choice. repeat case_bool_decide; try done; by intros [= <-]. Qed.

Lemma env_bool_read getenv name dflt b :
  env_bool getenv name dflt = Ok b ->
  getenv name = EmptyString /\ b = dflt \/ getenv name <> EmptyString /\ ParseBool (getenv name) = Ok b.
Proof.
  unfold env_bool. case_bool_decide; [intros [= <-]; auto|]. destruct (ParseBool _); [|done]. intros [= <-]. auto.
Qed.

(** The documented variables: name, default and field. *)
Definition duration_settings : list (string * duration * (Config -> duration)) :=
  [("SESSION_IDLE_TTL"%string, 30 * minute, cf_SessionIdleTTL);
   ("OUTBOX_POLL_INTERVAL"%string, second, cf_OutboxPollInterval);
   ("TRACE_SHUTDOWN"%string, 5 * second, cf_TraceSinkShutdownTimeout);
   ("STORAGE_INTERVAL"%string, 5 * minute, cf_StorageMetricsInterval);
   ("SESSION_REAPER_INTERVAL"%string, 5 * minute, cf_SessionReaperInterval);
   ("HARD_DELETE_RETENTION"%string, 720 * hour, cf_HardDeleteRetention);
   ("HARD_DELETE_GC_INTERVAL"%string, hour, cf_HardDeleteGCInterval);
   ("RELAY_LEASE_TTL"%string, 180 * second, cf_RelayLeaseTTL)].
Definition size_settings : list (string * Z * (Config -> Z)) :=
  [("VECTOR_DIMENSION"%string, 32, cf_VectorDimension); ("OUTBOX_BATCH_SIZE"%string, 100, cf_OutboxBatchSize);
   ("TRACE_BUFFER"%string, 1024, cf_TraceSinkBufferSize); ("TRACE_BATCH"%string, 50, cf_TraceSinkBatchSize);
   ("RELAY_MAX_ATTEMPTS"%string, 5, cf_RelayMaxAttempts); ("RELAY_BATCH_SIZE"%string, 100, cf_RelayBatchSize)].
Definition bool_settings : list (string * bool * (Config -> bool)) :=
  [("READ_ONLY"%string, false, cf_ReadOnly); ("VECTOR_ENABLED"%string, false, cf_VectorEnabled);
   ("SESSION_REAPER_ENABLED"%string, true, cf_SessionReaperEnabled);
   ("HARD_DELETE_GC_ENABLED"%string, false, cf_HardDeleteGCEnabled);
   ("TRACE_RETENTION"%string, false, cf_TraceRetentionEnabled)].

(** C36: Whatever the environment, a configuration that loads has the database
    URL set, every interval, timeout and size is what its own variable says (or
    the documented default), and is positive and within [int64], which is what
    a ticker asks of its interval; the switches are what their variables say,
    the irreversible collector off by default; and the recall mode and the
    vector index are among the known ones.  Nothing bounds the sizes below the
    end of [int64]. *)
Theorem LoadFromEnv_settings getenv cfg :
  LoadFromEnv getenv = Ok cfg ->
  cf_PostgresURL cfg = getenv "LLM_AGENT_MEMORY_PG_URL" /\ cf_PostgresURL cfg <> EmptyString /\
  Forall (fun p => setting_read getenv ParseDuration (gateway_env p.1.1) p.1.2 (p.2 cfg)) duration_settings /\
  Forall (fun p => setting_read getenv Atoi (gateway_env p.1.1) p.1.2 (p.2 cfg)) size_settings /\
  Forall (fun p => getenv (gateway_env p.1.1) = EmptyString /\ p.2 cfg = p.1.2 \/
                   getenv (gateway_env p.1.1) <> EmptyString /\ ParseBool (getenv (gateway_env p.1.1)) = Ok (p.2 cfg))
    bool_settings /\
  cf_RecallMode cfg ∈ recall_modes /\ cf_VectorIndex cfg ∈ vector_indexes.
Proof.
  unfold LoadFromEnv. case_bool_decide as Hpg; [done|]. intros H.
  repeat (apply result_bind_ok in H as (? & ? & H)). injection H as <-.
  split; [done|]. split; [exact Hpg|].
  repeat match goal with
  | E : env_duration _ _ _ = Ok _ |- _ => apply env_duration_read in E; [|split; [reflexivity|discriminate]]
  | E : env_int _ _ _ = Ok _ |- _ => apply env_int_read in E; [|split; [reflexivity|discriminate]]
  | E : env_bool _ _ _ = Ok _ |- _ => apply env_bool_read in E
  | E : env_choice _ _ _ _ _ = Ok _ |- _ => apply env_choice_read in E as [_ E]
  end.
  unfold duration_settings, size_settings, bool_settings.
  repeat match goal with |- _ /\ _ => apply conj end.
  1,2,3: repeat (apply Forall_cons_2; [assumption|]); apply Forall_nil_2.
  all: match goal with E : _ -> ?v ∈ ?l |- _ _ ∈ ?l => apply E; vm_compute; by constructor end.
Qed.

Definition production_env (name : string) : string :=
  if bool_decide (name = "LLM_AGENT_MEMORY_PG_URL"%string) then "postgres://db/memory"
  else if bool_decide (name = gateway_env "TRACE_BATCH") then "200"
  else if bool_decide (name = gateway_env "HARD_DELETE_GC_ENABLED") then "true"
  else if bool_decide (name = gateway_env "SESSION_IDLE_TTL") then "1h15m" else "".

Lemma LoadFromEnv_settings_witness :
  match LoadFromEnv production_env with
  | Ok cfg => Forall (fun p => setting_read production_env ParseDuration (gateway_env p.1.1) p.1.2 (p.2 cfg)) duration_settings /\
              cf_SessionIdleTTL cfg = 75 * minute /\ cf_HardDeleteGCEnabled cfg = true
  | Fail _ => False
  end.
Proof.
  destruct (LoadFromEnv production_env) as [cfg|err] eqn:E.
  - pose proof (LoadFromEnv_settings production_env cfg E) as (_ & _ & Hd & _). split; [exact Hd|].
    assert (E' : result_map (fun c => (cf_SessionIdleTTL c, cf_HardDeleteGCEnabled c)) (LoadFromEnv production_env)
      = Ok (75 * minute, true)) by (vm_compute; reflexivity).
    rewrite E in E'. cbn in E'. injection E' as -> ->. split; reflexivity.
  - assert (E' : is_ok (LoadFromEnv production_env) = true) by (vm_compute; reflexivity).
    rewrite E in E'. discriminate E'.
Defined.
Close Scope Z_scope.
