(* ===== verification/Transport.v ===== *)
(** * The HTTP surface: [internal/transport]

    Routing, the request-id middleware, the checks every handler makes before
    it calls the service, and the answers.  The decoders of the bodies are an
    argument here, which [HttpWire] gives; the mux's treatment of paths is in
    [GoPath]. *)
From Stdlib Require Import Ascii.
From S2P Require Import Prelude GoStrings GoFloat HttpApi Authz ScopeKeys GoPath Contract RecallCache Sessions ScopeVersions RecallSelection HybridRecall Service ServiceFootprint ServiceCalls RefWorld ServiceRuns.
Open Scope Z_scope.

(** [rq_Header] is [http.Header.Get]; [rq_Path] is [URL.EscapedPath()], the path
    as it was sent. *)
Record Request := mkRequest {
  rq_Method : string;
  rq_Path : string;
  rq_Header : string -> string;
  rq_Body : string
}.

(** The recall answer is encoded with the trace its pointer denotes. *)
Inductive payload :=
| PRecall (hits : list RecallHitResponse) (trace : option RecallTraceResponse)
| PReply (r : reply)
| PError (e : ErrorBody)
| PText (msg : string)          (* the text answers of the mux *)
| PRedirect (location : string) (* its page for a path it has cleaned *)
| PEmpty.

Record Response := mkResponse {
  rs_Status : Z;
  rs_RequestID : string;               (* X-Request-Id *)
  rs_MemoryVersion : option string;    (* X-Memory-Version *)
  rs_ConsistencyLevel : option string; (* X-Consistency-Level *)
  rs_Body : payload
}.

(** What the libraries give.  [json.Decoder] with [DisallowUnknownFields]: the
    value or the text of the error, for each request type, and whether more
    input follows. *)
Record Decoders := mkDecoders {
  dec_Recall : string -> result string RecallUnifiedRequest;
  dec_Write : string -> result string WriteMemoryRequest;
  dec_Patch : string -> result string PatchMemoryRequest;
  dec_Pin : string -> result string PinMemoryRequest;
  dec_Disable : string -> result string DisableMemoryRequest;
  dec_Delete : string -> result string DeleteMemoryRequest;
  dec_Close : string -> result string SessionCloseRequest;
  dec_Heartbeat : string -> result string SessionHeartbeatRequest;
  dec_More : string -> bool;
  (** The status [ServeMux] redirects with: 301 up to Go 1.25, 307 from 1.26. *)
  mux_redirect : Z
}.

(** ** Routing: the patterns [NewHandler] registers *)
Inductive endpoint :=
| EpRecall | EpWrite
| EpPatch (id : string) | EpPin (id : string) | EpUnpin (id : string) | EpDisable (id : string)
| EpEnable (id : string) | EpDelete (id : string) | EpGet (id : string)
| EpClose (sid : string) | EpHeartbeat (sid : string).

(** The identifier in the path, when the pattern has one, is its argument. *)
Definition handlers : list (string * string * (string -> endpoint)) := [
  ("POST", "/memory/recall/unified", fun _ => EpRecall);
  ("POST", "/memory/write", fun _ => EpWrite);
  ("PATCH", "/memory/items/{memory_id}", EpPatch);
  ("POST", "/memory/items/{memory_id}/pin", EpPin);
  ("POST", "/memory/items/{memory_id}/unpin", EpUnpin);
  ("POST", "/memory/items/{memory_id}/disable", EpDisable);
  ("POST", "/memory/items/{memory_id}/enable", EpEnable);
  ("DELETE", "/memory/items/{memory_id}", EpDelete);
  ("GET", "/memory/items/{memory_id}", EpGet);
  ("POST", "/memory/sessions/{session_id}/close", EpClose);
  ("POST", "/memory/sessions/{session_id}/heartbeat", EpHeartbeat)
]%string.

(** The patterns whose path matches, with their methods.  No two of the patterns
    overlap, so the mux's preference for the more specific one has nothing to
    decide. *)
Definition route_path (path : string) : list (string * endpoint) :=
  omap (fun h => ids ← match_path h.1.2 path; Some (h.1.1, h.2 (hd EmptyString ids))) handlers.

Definition route (method path : string) : option endpoint :=
  snd <$> List.find (fun p => match_method p.1 method) (route_path path).

(** ** Middleware *)
Definition newRequestID (nanos seq : Z) : string := "req_" +:+ fmt_d nanos +:+ "_" +:+ fmt_d seq.

Definition EnsureJSONRequest (r : Request) : result goerror unit :=
  if bool_decide (rq_Method r ∈ ["POST"; "PATCH"; "DELETE"]%string)
     && negb (bool_decide (rq_Header r "Content-Type" = "application/json"%string))
  then Fail (ErrBadRequest "Content-Type must be application/json" []) else Ok tt.

Definition memory_version_header (version : Z) : option string :=
  if version <=? 0 then None else Some (fmt_d version).
Definition consistency_level_header (level : string) : option string :=
  if bool_decide (level = ""%string) then None else Some level.

Section transport.
Context {E T V : Type} (clock : nat -> time)
  (write_digest : Scope -> WriteRecordPayload -> string)
  (patch_digest : Scope -> string -> Z -> PatchMemoryFields -> string)
  (NormalizeRecordKind : string -> result goerror string)
  (s : Service E T V) (json : Decoders).
Abbreviation S := (St E T V).

Definition decodeJSON {A} (decode : string -> result string A) (r : Request) : result goerror A :=
  match decode (rq_Body r) with
  | Fail cause => Fail (ErrBadRequest "invalid JSON payload" [("cause"%string, VStr cause)])
  | Ok v => if dec_More json (rq_Body r)
            then Fail (ErrBadRequest "invalid JSON payload"
                         [("cause"%string, VStr "multiple JSON values are not allowed")])
            else Ok v
  end.

Definition error_response (rid : string) (err : goerror) : Response :=
  let '(status, body) := WriteError rid err in mkResponse status rid None None (PError body).

Definition ok_response (rid : string) (version level : option string) (body : payload) : Response :=
  mkResponse 200 rid version level body.

(** The checks shared by the handlers that take a body: content type, scope
    headers, then the body. *)
Definition with_request {A} (decode : string -> result string A) (rid : string) (r : Request)
    (serve : Scope -> A -> S -> S * Response) (st : S) : S * Response :=
  match EnsureJSONRequest r with
  | Fail err => (st, error_response rid err)
  | Ok _ =>
      match readAuthoritativeScope (rq_Header r) with
      | Fail err => (st, error_response rid err)
      | Ok authScope =>
          match decodeJSON decode r with
          | Fail err => (st, error_response rid err)
          | Ok req => serve authScope req st
          end
      end
  end.

(** The service call and the answer to it. *)
Definition answer {A} (rid : string) (call : GoM S A) (render : A -> S -> Response) (st : S) : S * Response :=
  let '(st', res) := call st in
  match res with
  | Fail err => (st', error_response rid err)
  | Ok resp => (st', render resp st')
  end.

Definition recall_level (req : RecallUnifiedRequest) (trace : option RecallTraceResponse) : string :=
  let level := match trace with
               | Some t => if bool_decide (tr_ConsistencyLevel t = ""%string) then rr_ConsistencyLevel req
                           else tr_ConsistencyLevel t
               | None => rr_ConsistencyLevel req
               end in
  if bool_decide (level = ""%string) then "eventual"%string else level.

Definition handleRecallUnified (rid : string) (r : Request) : S -> S * Response :=
  with_request (dec_Recall json) rid r (fun authScope req =>
    answer rid (RecallUnified clock s authScope req) (fun resp st =>
      let trace := ru_Trace resp ≫= fun a => st_heap st !! a in
      ok_response rid None (consistency_level_header (recall_level req trace)) (PRecall (ru_Hits resp) trace))).

Definition handleWriteMemory (rid : string) (r : Request) : S -> S * Response :=
  with_request (dec_Write json) rid r (fun authScope req =>
    answer rid (WriteMemory clock write_digest NormalizeRecordKind s authScope req) (fun resp _ =>
      ok_response rid (memory_version_header (wm_Version resp)) None (PReply (RepWrite resp)))).

Definition handlePatchMemory (rid id : string) (r : Request) : S -> S * Response :=
  with_request (dec_Patch json) rid r (fun authScope req =>
    answer rid (PatchMemory clock patch_digest s authScope id req) (fun resp _ =>
      ok_response rid (memory_version_header (pm_Version resp)) None (PReply (RepPatch resp)))).

Definition handlePinMemory (rid id : string) (r : Request) : S -> S * Response :=
  with_request (dec_Pin json) rid r (fun authScope req =>
    answer rid (PinMemory clock s authScope id req) (fun resp _ =>
      ok_response rid (memory_version_header (pn_Version resp)) None (PReply (RepPin resp)))).

Definition handleUnpinMemory (rid id : string) (r : Request) : S -> S * Response :=
  with_request (dec_Pin json) rid r (fun authScope req =>
    answer rid (UnpinMemory s authScope id req) (fun resp _ =>
      ok_response rid (memory_version_header (pn_Version resp)) None (PReply (RepPin resp)))).

Definition handleDisableMemory (rid id : string) (r : Request) : S -> S * Response :=
  with_request (dec_Disable json) rid r (fun authScope req =>
    answer rid (DisableMemory clock s authScope id req) (fun resp _ =>
      ok_response rid (memory_version_header (ds_Version resp)) None (PReply (RepDisable resp)))).

Definition handleEnableMemory (rid id : string) (r : Request) : S -> S * Response :=
  with_request (dec_Disable json) rid r (fun authScope req =>
    answer rid (EnableMemory s authScope id req) (fun resp _ =>
      ok_response rid (memory_version_header (ds_Version resp)) None (PReply (RepDisable resp)))).

Definition handleDeleteMemory (rid id : string) (r : Request) : S -> S * Response :=
  with_request (dec_Delete json) rid r (fun authScope req =>
    answer rid (DeleteMemory clock s authScope id req) (fun resp _ =>
      ok_response rid (memory_version_header (dl_Version resp))
        (consistency_level_header (del_ConsistencyLevel req)) (PReply (RepDelete resp)))).

Definition handleCloseSession (rid sid : string) (r : Request) : S -> S * Response :=
  with_request (dec_Close json) rid r (fun authScope req =>
    answer rid (CloseSession clock s authScope sid req) (fun resp _ =>
      ok_response rid None None (PReply (RepClose resp)))).

Definition handleHeartbeatSession (rid sid : string) (r : Request) : S -> S * Response :=
  with_request (dec_Heartbeat json) rid r (fun authScope req =>
    answer rid (HeartbeatSession clock s authScope sid req) (fun resp _ =>
      ok_response rid None None (PReply (RepHeartbeat resp)))).

(** The read has no body, and no content-type check. *)
Definition handleGetMemoryItem (rid id : string) (r : Request) (st : S) : S * Response :=
  match readAuthoritativeScope (rq_Header r) with
  | Fail err => (st, error_response rid err)
  | Ok authScope =>
      answer rid (GetMemoryItem s authScope id) (fun resp _ =>
        ok_response rid (memory_version_header (gi_Version resp)) None (PReply (RepGet resp))) st
  end.

Definition dispatch (ep : endpoint) (rid : string) (r : Request) : S -> S * Response :=
  match ep with
  | EpRecall => handleRecallUnified rid r
  | EpWrite => handleWriteMemory rid r
  | EpPatch id => handlePatchMemory rid id r
  | EpPin id => handlePinMemory rid id r
  | EpUnpin id => handleUnpinMemory rid id r
  | EpDisable id => handleDisableMemory rid id r
  | EpEnable id => handleEnableMemory rid id r
  | EpDelete id => handleDeleteMemory rid id r
  | EpGet id => handleGetMemoryItem rid id r
  | EpClose sid => handleCloseSession rid sid r
  | EpHeartbeat sid => handleHeartbeatSession rid sid r
  end.

(** Only the path of a [CONNECT] is not cleaned. *)
Definition mux_path (r : Request) : string :=
  if bool_decide (rq_Method r = "CONNECT"%string) then rq_Path r else cleanPath (rq_Path r).

(** [ServeMux.ServeHTTP]: a redirect to the clean path, or the handler of the
    pattern that matches, or its own 405 and 404. *)
Definition serve_mux (rid : string) (r : Request) (st : S) : S * Response :=
  if bool_decide (rq_Path r = "*"%string) then (st, mkResponse 400 rid None None PEmpty)
  else
    let path := mux_path r in
    if negb (bool_decide (path = rq_Path r))
    then (st, mkResponse (mux_redirect json) rid None None (PRedirect path))
    else match route (rq_Method r) path with
         | Some ep => dispatch ep rid r st
         | None => match route_path path with
                   | [] => (st, mkResponse 404 rid None None (PText "404 page not found"))
                   | _ => (st, mkResponse 405 rid None None (PText "Method Not Allowed"))
                   end
         end.

(** The state is the service's and the process-wide counter, [nanos] the
    clock when an id is made; [next] is given the id through the context. *)
Definition withRequestID (next : string -> Request -> S -> S * Response) (nanos : Z) (r : Request)
    (w : S * Z) : (S * Z) * Response :=
  let given := rq_Header r "X-Request-Id" in
  let '(rid, seq) := if bool_decide (given = ""%string)
                     then let seq := wrapu64 (w.2 + 1) in (newRequestID nanos seq, seq)
                     else (given, w.2) in
  let '(st', resp) := next rid r w.1 in
  ((st', seq), resp).

Definition handle_http : Z -> Request -> S * Z -> (S * Z) * Response := withRequestID serve_mux.
End transport.

(** ** Routing, specified *)

(** The table of the README, on the segments of a path. *)
Inductive routed (method path : string) : endpoint -> Prop :=
| routed_recall :
    method = "POST"%string -> path_segments path = Some ["memory"; "recall"; "unified"]%string ->
    routed method path EpRecall
| routed_write :
    method = "POST"%string -> path_segments path = Some ["memory"; "write"]%string -> routed method path EpWrite
| routed_patch id :
    method = "PATCH"%string -> path_segments path = Some ["memory"; "items"; id]%string ->
    routed method path (EpPatch id)
| routed_pin id :
    method = "POST"%string -> path_segments path = Some ["memory"; "items"; id; "pin"]%string ->
    routed method path (EpPin id)
| routed_unpin id :
    method = "POST"%string -> path_segments path = Some ["memory"; "items"; id; "unpin"]%string ->
    routed method path (EpUnpin id)
| routed_disable id :
    method = "POST"%string -> path_segments path = Some ["memory"; "items"; id; "disable"]%string ->
    routed method path (EpDisable id)
| routed_enable id :
    method = "POST"%string -> path_segments path = Some ["memory"; "items"; id; "enable"]%string ->
    routed method path (EpEnable id)
| routed_delete id :
    method = "DELETE"%string -> path_segments path = Some ["memory"; "items"; id]%string ->
    routed method path (EpDelete id)
| routed_get id :
    method = "GET"%string \/ method = "HEAD"%string -> path_segments path = Some ["memory"; "items"; id]%string ->
    routed method path (EpGet id)
| routed_close id :
    method = "POST"%string -> path_segments path = Some ["memory"; "sessions"; id; "close"]%string ->
    routed method path (EpClose id)
| routed_heartbeat id :
    method = "POST"%string -> path_segments path = Some ["memory"; "sessions"; id; "heartbeat"]%string ->
    routed method path (EpHeartbeat id).

Lemma match_method_eq pat method :
  match_method pat method = true -> method = pat \/ pat = "GET"%string /\ method = "HEAD"%string.
Proof.
  unfold match_method. rewrite orb_true_iff, andb_true_iff, !bool_decide_eq_true. intuition.
Qed.

Lemma route_path_elem path method ep :
  (method, ep) ∈ route_path path -> routed method path ep.
Proof.
  intros H. unfold route_path in H. apply list_elem_of_omap in H as ([[m pat] mk] & Hin & H).
  unfold match_path in H. cbn [fst snd] in H. apply bind_Some in H as (ids & H & E). injection E as <- <-.
  apply bind_Some in H as (segs & Hsegs & H).
  repeat (apply elem_of_cons in Hin as [E|Hin]; [injection E as -> -> ->|]); [..|by apply elem_of_nil in Hin];
    match type of H with match_segments ?p _ = _ => let v := eval vm_compute in p in change p with v in H end;
    match_inv H; cbn [hd];
    [ apply routed_recall | apply routed_write | apply routed_patch | apply routed_pin | apply routed_unpin
    | apply routed_disable | apply routed_enable | apply routed_delete | apply routed_get; [left|]
    | apply routed_close | apply routed_heartbeat ]; done.
Qed.

Lemma route_routed method path ep : route method path = Some ep <-> routed method path ep.
Proof.
  unfold route. split.
  - intros H. apply fmap_Some in H as ([m e] & Hf & ->). apply find_some in Hf as [Hin Hm].
    apply list_elem_of_In, route_path_elem in Hin. cbn in Hm. apply match_method_eq in Hm as [->|[-> ->]]; [done|].
    inversion Hin as [| | | | | | | |id _ Hs| |]; try done. apply routed_get; [by right|done].
  - unfold route_path, match_path. intros []; try (destruct H as [H|H]); subst method;
      match goal with H : path_segments path = _ |- _ => rewrite H end; reflexivity.
Qed.

(** 405 is for a path that another method has. *)
Lemma route_path_nil path : route_path path = [] <-> forall method ep, ~ routed method path ep.
Proof.
  split.
  - intros Hn method ep H. apply route_routed in H. unfold route in H. by rewrite Hn in H.
  - intros H. destruct (route_path path) as [|[m e] l] eqn:E; [done|]. exfalso. apply (H m e).
    apply route_path_elem. rewrite E. by left.
Qed.

(** ** What a request amounts to *)
Section requests.
Context {E T V : Type} (clock : nat -> time)
  (write_digest : Scope -> WriteRecordPayload -> string)
  (patch_digest : Scope -> string -> Z -> PatchMemoryFields -> string)
  (NormalizeRecordKind : string -> result goerror string)
  (s : Service E T V) (json : Decoders).
Abbreviation S := (St E T V).
Local Abbreviation run := (run_call clock write_digest patch_digest NormalizeRecordKind s).
Local Abbreviation serve := (handle_http clock write_digest patch_digest NormalizeRecordKind s json).

(** The call an accepted request makes, or the error it is turned away with. *)
Definition admit_body {A} (decode : string -> result string A) (r : Request) (c : Scope -> A -> call) : result goerror call :=
  match EnsureJSONRequest r, readAuthoritativeScope (rq_Header r), decodeJSON json decode r with
  | Fail err, _, _ => Fail err
  | Ok _, Fail err, _ => Fail err
  | Ok _, Ok _, Fail err => Fail err
  | Ok _, Ok authScope, Ok req => Ok (c authScope req)
  end.

Definition accept_call (ep : endpoint) (r : Request) : result goerror call :=
  match ep with
  | EpRecall => admit_body (dec_Recall json) r CallRecall
  | EpWrite => admit_body (dec_Write json) r CallWrite
  | EpPatch id => admit_body (dec_Patch json) r (fun a => CallPatch a id)
  | EpPin id => admit_body (dec_Pin json) r (fun a => CallPin a id)
  | EpUnpin id => admit_body (dec_Pin json) r (fun a => CallUnpin a id)
  | EpDisable id => admit_body (dec_Disable json) r (fun a => CallDisable a id)
  | EpEnable id => admit_body (dec_Disable json) r (fun a => CallEnable a id)
  | EpDelete id => admit_body (dec_Delete json) r (fun a => CallDelete a id)
  | EpGet id => result_map (fun a => CallGet a id) (readAuthoritativeScope (rq_Header r))
  | EpClose sid => admit_body (dec_Close json) r (fun a => CallClose a sid)
  | EpHeartbeat sid => admit_body (dec_Heartbeat json) r (fun a => CallHeartbeat a sid)
  end.

(** The version a mutation or a read reports, which goes in the header. *)
Definition reply_version (r : reply) : Z :=
  match r with
  | RepWrite w => wm_Version w
  | RepPatch p => pm_Version p
  | RepPin p => pn_Version p
  | RepDisable d => ds_Version d
  | RepDelete d => dl_Version d
  | RepGet g => gi_Version g
  | _ => 0
  end.

(** The answer to a call. *)
Definition answers (rid : string) (out : result goerror reply) (resp : Response) : Prop :=
  match out with
  | Fail err => resp = error_response rid err
  | Ok rep =>
      rs_Status resp = 200 /\ rs_RequestID resp = rid /\
      rs_MemoryVersion resp = memory_version_header (reply_version rep) /\
      match rep with
      | RepRecall ru => exists trace, rs_Body resp = PRecall (ru_Hits ru) trace /\
                          exists level, rs_ConsistencyLevel resp = Some level
      | _ => rs_Body resp = PReply rep
      end
  end.

Lemma admit_body_cases {A} (decode : string -> result string A) rid r (serve : Scope -> A -> S -> S * Response) c st :
  match admit_body decode r c with
  | Fail err => with_request json decode rid r serve st = (st, error_response rid err)
  | Ok _ => exists a req, readAuthoritativeScope (rq_Header r) = Ok a /\ admit_body decode r c = Ok (c a req) /\
                          with_request json decode rid r serve st = serve a req st
  end.
Proof.
  unfold admit_body, with_request. destruct (EnsureJSONRequest r) as [[]|]; [|done].
  destruct (readAuthoritativeScope _) as [a|]; [|done]. destruct (decodeJSON json decode r) as [req|]; [|done]. eauto.
Qed.

Lemma answer_reply {A} (f : A -> reply) rid (m : GoM S A) (render : A -> S -> Response) st :
  (forall a st', answers rid (Ok (f a)) (render a st')) ->
  (answer rid m render st).1 = (reply_with f m st).1 /\
  answers rid (reply_with f m st).2 (answer rid m render st).2.
Proof.
  intros Hr. unfold answer, reply_with. rewrite run_bind. destruct (m st) as [st' [a|err]]; cbn; [|done].
  split; [done|]. apply Hr.
Qed.

Lemma recall_level_some req trace : consistency_level_header (recall_level req trace) = Some (recall_level req trace).
Proof. unfold consistency_level_header, recall_level. by repeat case_bool_decide. Qed.

Lemma handler_case {A B} (decode : string -> result string A) rid r (c : Scope -> A -> call) (f : B -> reply)
    (m : Scope -> A -> GoM S B) (render : Scope -> A -> B -> S -> Response) st :
  (forall a req, run (c a req) = reply_with f (m a req)) ->
  (forall a req, call_auth (c a req) = a) ->
  (forall a req b st', answers rid (Ok (f b)) (render a req b st')) ->
  let '(st', resp) := with_request json decode rid r (fun a req => answer rid (m a req) (render a req)) st in
  match admit_body decode r c with
  | Fail err => st' = st /\ resp = error_response rid err
  | Ok c => readAuthoritativeScope (rq_Header r) = Ok (call_auth c) /\
            st' = (run c st).1 /\ answers rid (run c st).2 resp
  end.
Proof.
  intros Hrun Hauth Hr.
  pose proof (admit_body_cases decode rid r (fun a req => answer rid (m a req) (render a req)) c st) as H.
  destruct (admit_body decode r c) as [c0|err]; [|by rewrite H].
  destruct H as (a & req & Ha & [= ->] & ->). rewrite Hrun, Hauth.
  destruct (answer_reply f rid (m a req) (render a req) st) as [H1 H2]; [done|].
  by destruct (answer _ _ _ _).
Qed.

(** Every handler refuses the request without touching the service, or makes
    the one call of [accept_call] with the scope of the headers. *)
Lemma dispatch_cases ep rid r st :
  let '(st', resp) := dispatch clock write_digest patch_digest NormalizeRecordKind s json ep rid r st in
  match accept_call ep r with
  | Fail err => st' = st /\ resp = error_response rid err
  | Ok c => readAuthoritativeScope (rq_Header r) = Ok (call_auth c) /\
            st' = (run c st).1 /\ answers rid (run c st).2 resp
  end.
Proof.
  destruct ep; cbn [dispatch accept_call].
  9: { unfold handleGetMemoryItem. destruct (readAuthoritativeScope _) as [a|err] eqn:Ea; cbn [result_map]; [|done].
       destruct (answer_reply RepGet rid (GetMemoryItem s a id)
         (fun resp _ => ok_response rid (memory_version_header (gi_Version resp)) None (PReply (RepGet resp))) st)
         as [H1 H2]; [done|]. destruct (answer _ _ _ _) as [st' resp]. done. }
  all: first [ apply (handler_case _ rid r _ RepRecall) | apply (handler_case _ rid r _ RepWrite)
             | apply (handler_case _ rid r _ RepPatch) | apply (handler_case _ rid r _ RepPin)
             | apply (handler_case _ rid r _ RepDisable) | apply (handler_case _ rid r _ RepDelete)
             | apply (handler_case _ rid r _ RepClose) | apply (handler_case _ rid r _ RepHeartbeat) ]; try done.
  intros a req b st'. cbn. split_and!; [done..|]. eexists. split; [done|].
  rewrite recall_level_some. by eexists.
Qed.

Lemma admit_status ep r err : accept_call ep r = Fail err -> StatusCode err ∈ [400; 401].
Proof.
  assert (Hscope : forall e, readAuthoritativeScope (rq_Header r) = Fail e -> StatusCode e = 401).
  { intros e. unfold readAuthoritativeScope, ScopeFromHeaders. destruct (_ || _); [|done]. cbn. by intros [= <-]. }
  assert (Hbody : forall A (decode : string -> result string A) c, admit_body decode r c = Fail err -> StatusCode err ∈ [400; 401]).
  { intros A decode c. unfold admit_body. destruct (EnsureJSONRequest r) as [u|e] eqn:Ej.
    - destruct (readAuthoritativeScope _) as [a|e] eqn:Ea.
      + unfold decodeJSON. destruct (decode (rq_Body r)) as [v|cause]; [destruct (dec_More json _)|]; try done;
          intros [= <-]; by left.
      + intros [= <-]. rewrite (Hscope _ eq_refl). right. by left.
    - unfold EnsureJSONRequest in Ej. destruct (_ && _); [|done]. injection Ej as <-. intros [= <-]. by left. }
  destruct ep; cbn [accept_call]; try apply Hbody.
  destruct (readAuthoritativeScope _) as [a|e] eqn:Ea; cbn; [done|]. intros [= <-].
  rewrite (Hscope _ eq_refl). right. by left.
Qed.

Lemma handle_http_unfold nanos r w :
  let given := rq_Header r "X-Request-Id" in
  let rid := if bool_decide (given = ""%string) then newRequestID nanos (wrapu64 (w.2 + 1)) else given in
  let seq := if bool_decide (given = ""%string) then wrapu64 (w.2 + 1) else w.2 in
  serve nanos r w =
  let '(st', resp) := serve_mux clock write_digest patch_digest NormalizeRecordKind s json rid r w.1 in
  ((st', seq), resp).
Proof. cbv zeta. unfold handle_http, withRequestID. by case_bool_decide. Qed.

Lemma dispatch_request_id ep rid r st :
  rs_RequestID (dispatch clock write_digest patch_digest NormalizeRecordKind s json ep rid r st).2 = rid.
Proof.
  pose proof (dispatch_cases ep rid r st) as H. destruct (dispatch _ _ _ _ _ _ _ _ _ _) as [st' resp]. cbn.
  destruct (accept_call ep r) as [c|err]; [|by destruct H as [_ ->]]. destruct H as (_ & _ & H).
  unfold answers in H. destruct (run c st).2 as [rep|err]; [tauto|by rewrite H].
Qed.

(** What the mux does with a request. *)
Inductive muxed (rid : string) (r : Request) (st : S) : S * Response -> Prop :=
| muxed_star :
    rq_Path r = "*"%string -> muxed rid r st (st, mkResponse 400 rid None None PEmpty)
| muxed_unclean :
    rq_Path r <> "*"%string -> mux_path r <> rq_Path r ->
    muxed rid r st (st, mkResponse (mux_redirect json) rid None None (PRedirect (mux_path r)))
| muxed_nowhere status msg :
    rq_Path r <> "*"%string -> mux_path r = rq_Path r -> route (rq_Method r) (rq_Path r) = None ->
    status = (if bool_decide (route_path (rq_Path r) = []) then 404 else 405) ->
    muxed rid r st (st, mkResponse status rid None None (PText msg))
| muxed_handled ep :
    rq_Path r <> "*"%string -> mux_path r = rq_Path r -> route (rq_Method r) (rq_Path r) = Some ep ->
    muxed rid r st (dispatch clock write_digest patch_digest NormalizeRecordKind s json ep rid r st).

Lemma serve_mux_cases rid r st :
  muxed rid r st (serve_mux clock write_digest patch_digest NormalizeRecordKind s json rid r st).
Proof.
  unfold serve_mux. case_bool_decide; [by apply muxed_star|]. cbv zeta.
  destruct (bool_decide_reflect (mux_path r = rq_Path r)) as [Hp|Hp]; cbn [negb]; [|by apply muxed_unclean].
  rewrite Hp. destruct (route (rq_Method r) (rq_Path r)) as [ep|] eqn:Er; [by apply muxed_handled|].
  destruct (route_path (rq_Path r)) as [|p l] eqn:Ep; apply muxed_nowhere; try done; by rewrite Ep.
Qed.

Lemma serve_mux_request_id rid r st :
  rs_RequestID (serve_mux clock write_digest patch_digest NormalizeRecordKind s json rid r st).2 = rid.
Proof. destruct (serve_mux_cases rid r st); [done..|apply dispatch_request_id]. Qed.

(** *** What the handlers promise *)

(** A body of the right type, and nothing behind it. *)
Definition body_call (ep : endpoint) (body : string) : option (Scope -> call) :=
  let one {A} (decode : string -> result string A) (c : Scope -> A -> call) :=
    match decode body with
    | Ok req => if dec_More json body then None else Some (fun auth => c auth req)
    | Fail _ => None
    end in
  match ep with
  | EpRecall => one (dec_Recall json) CallRecall
  | EpWrite => one (dec_Write json) CallWrite
  | EpPatch id => one (dec_Patch json) (fun a => CallPatch a id)
  | EpPin id => one (dec_Pin json) (fun a => CallPin a id)
  | EpUnpin id => one (dec_Pin json) (fun a => CallUnpin a id)
  | EpDisable id => one (dec_Disable json) (fun a => CallDisable a id)
  | EpEnable id => one (dec_Disable json) (fun a => CallEnable a id)
  | EpDelete id => one (dec_Delete json) (fun a => CallDelete a id)
  | EpGet id => Some (fun a => CallGet a id)
  | EpClose sid => one (dec_Close json) (fun a => CallClose a sid)
  | EpHeartbeat sid => one (dec_Heartbeat json) (fun a => CallHeartbeat a sid)
  end.

(** Every endpoint but the read wants the content type. *)
Definition typed_ok (ep : endpoint) (r : Request) : Prop :=
  (exists id, ep = EpGet id) \/ rq_Header r "Content-Type" = "application/json"%string.

(** The scope of the headers, when tenant and user are there. *)
Definition scope_missing (r : Request) : Prop :=
  TrimSpace (rq_Header r "X-Tenant-Id") = ""%string \/ TrimSpace (rq_Header r "X-User-Id") = ""%string.
Definition scope_of (r : Request) : Scope :=
  mkScope (TrimSpace (rq_Header r "X-Tenant-Id")) (TrimSpace (rq_Header r "X-User-Id"))
    (TrimSpace (rq_Header r "X-Project-Id")) (TrimSpace (rq_Header r "X-Session-Id")).

Lemma scope_of_headers r :
  (scope_missing r /\ exists e, readAuthoritativeScope (rq_Header r) = Fail e /\ StatusCode e = 401) \/
  (~ scope_missing r /\ readAuthoritativeScope (rq_Header r) = Ok (scope_of r)).
Proof.
  unfold readAuthoritativeScope, ScopeFromHeaders, scope_missing, scope_of. cbn [TenantID UserID].
  repeat case_bool_decide; cbn; [left; eauto..|right]. split; [tauto|done].
Qed.

(** What becomes of a routed request: [inl] is the status it is refused with. *)
Inductive admitted (ep : endpoint) (r : Request) : Z + call -> Prop :=
| refused_type : ~ typed_ok ep r -> admitted ep r (inl 400)
| refused_scope : typed_ok ep r -> scope_missing r -> admitted ep r (inl 401)
| refused_body : typed_ok ep r -> ~ scope_missing r -> body_call ep (rq_Body r) = None -> admitted ep r (inl 400)
| admitted_call mk :
    typed_ok ep r -> ~ scope_missing r -> body_call ep (rq_Body r) = Some mk ->
    admitted ep r (inr (mk (scope_of r))).

Lemma admit_body_admitted {A} (decode : string -> result string A) r (c : Scope -> A -> call) :
  rq_Method r ∈ ["POST"; "PATCH"; "DELETE"]%string ->
  match admit_body decode r c with
  | Ok c' => rq_Header r "Content-Type" = "application/json"%string /\ ~ scope_missing r /\
      exists req, decode (rq_Body r) = Ok req /\ dec_More json (rq_Body r) = false /\ c' = c (scope_of r) req
  | Fail e =>
      (rq_Header r "Content-Type" <> "application/json"%string /\ StatusCode e = 400) \/
      (rq_Header r "Content-Type" = "application/json"%string /\ scope_missing r /\ StatusCode e = 401) \/
      (rq_Header r "Content-Type" = "application/json"%string /\ ~ scope_missing r /\ StatusCode e = 400 /\
       forall req, decode (rq_Body r) = Ok req -> dec_More json (rq_Body r) = true)
  end.
Proof.
  intros Hm. unfold admit_body, EnsureJSONRequest. rewrite (bool_decide_eq_true_2 _ Hm). cbn [andb].
  destruct (bool_decide_reflect (rq_Header r "Content-Type" = "application/json"%string)) as [Hc|Hc]; cbn [negb].
  2: { left. done. }
  destruct (scope_of_headers r) as [(Hs & e & -> & He)|(Hs & ->)]; [right; left; done|].
  unfold decodeJSON. destruct (decode (rq_Body r)) as [req|cause]; [destruct (dec_More json (rq_Body r)) eqn:Ed|].
  - right. right. split_and!; done.
  - split_and!; [done..|]. eauto.
  - right. right. split_and!; done.
Qed.

Lemma accept_admitted ep r :
  routed (rq_Method r) (rq_Path r) ep ->
  admitted ep r (match accept_call ep r with Ok c => inr c | Fail e => inl (StatusCode e) end).
Proof.
  clear s clock write_digest patch_digest NormalizeRecordKind.
  intros Hr.
  assert (Hbody : forall A (decode : string -> result string A) (c : Scope -> A -> call),
    rq_Method r ∈ ["POST"; "PATCH"; "DELETE"]%string -> (forall id, ep <> EpGet id) ->
    accept_call ep r = admit_body decode r c ->
    body_call ep (rq_Body r) = match decode (rq_Body r) with
      | Ok req => if dec_More json (rq_Body r) then None else Some (fun auth => c auth req)
      | Fail _ => None end ->
    admitted ep r (match accept_call ep r with Ok c => inr c | Fail e => inl (StatusCode e) end)).
  { intros A decode c Hm Hg -> Hb. pose proof (admit_body_admitted decode r c Hm) as H.
    destruct (admit_body decode r c) as [c'|e].
    - destruct H as (Hc & Hs & req & Hd & Hmore & ->). apply (admitted_call ep r (fun auth => c auth req));
        [by right|done|]. by rewrite Hb, Hd, Hmore.
    - destruct H as [[Hc ->]|[(Hc & Hs & ->)|(Hc & Hs & -> & Hd)]].
      + apply refused_type. intros [[id Eg]|Ec]; [by eapply Hg|done].
      + apply refused_scope; [by right|done].
      + apply refused_body; [by right|done|]. rewrite Hb. destruct (decode (rq_Body r)) as [req|]; [|done].
        by rewrite (Hd req eq_refl). }
  destruct Hr as [Hm|Hm|id Hm|id Hm|id Hm|id Hm|id Hm|id Hm|id Hm|id Hm|id Hm];
    try (eapply Hbody; [rewrite Hm; set_solver|done|reflexivity|reflexivity]).
  cbn [accept_call]. destruct (scope_of_headers r) as [(Hs & e & -> & He)|(Hs & ->)]; cbn [result_map].
  - rewrite He. apply refused_scope; [left; eauto|done].
  - apply (admitted_call (EpGet id) r (fun a => CallGet a id)); [left; eauto|done..].
Qed.

End requests.

(** ** Statuses *)
Definition http_statuses : list Z := [200; 400; 401; 403; 404; 405; 409; 500; 503].

Lemma StatusCode_range err : StatusCode err ∈ [400; 401; 403; 404; 409; 500; 503].
Proof.
  unfold StatusCode. destruct (errors_As_gateway err) as [g|]; [|set_solver].
  repeat case_match; set_solver.
Qed.

(** ** Generated request ids *)
Fixpoint after_char (c : ascii) (t : string) : string :=
  match t with
  | EmptyString => EmptyString
  | String d rest => if Ascii.eqb d c then rest else after_char c rest
  end.

Lemma after_char_app c a b : free_of c a = true -> after_char c (a +:+ String c b) = b.
Proof.
  induction a as [|d a IH].
  { intros _. rewrite str_app_nil. cbn [after_char]. by rewrite Ascii.eqb_refl. }
  rewrite str_app_cons. cbn [after_char free_of]. rewrite andb_true_iff, negb_true_iff. intros [-> Ha]. by apply IH.
Qed.

Lemma newRequestID_seq nanos nanos' seq seq' :
  newRequestID nanos seq = newRequestID nanos' seq' -> seq = seq'.
Proof.
  intros H. apply fmt_d_inj.
  assert (Hcut : forall n q, after_char "_" (after_char "_" (newRequestID n q)) = fmt_d q).
  { intros n q. change (newRequestID n q) with ("req" +:+ String "_" (fmt_d n +:+ String "_" (fmt_d q)))%string.
    rewrite after_char_app by done. apply after_char_app. by apply free_of_fmt_d. }
  by rewrite <-(Hcut nanos), <-(Hcut nanos'), H.
Qed.

(** C37: Whatever the request and the state, the status is one of nine, or the
    redirect of a path that is not clean; and a body that reports an error
    carries the request id of the answer and goes with an error status, never
    with 200. *)
Theorem http_status_closed {E T V} clock write_digest patch_digest kind (s : Service E T V) json nanos r w :
  let resp := (handle_http clock write_digest patch_digest kind s json nanos r w).2 in
  (rs_Status resp ∈ http_statuses \/
   rs_Status resp = mux_redirect json /\ rs_Body resp = PRedirect (cleanPath (rq_Path r)) /\
   cleanPath (rq_Path r) <> rq_Path r) /\
  (forall e, rs_Body resp = PError e -> eb_RequestID e = rs_RequestID resp /\ 400 <= rs_Status resp).
Proof.
  assert (Herr : forall rid err, rs_Status (error_response rid err) ∈ http_statuses /\
    (forall e, rs_Body (error_response rid err) = PError e ->
       eb_RequestID e = rs_RequestID (error_response rid err) /\ 400 <= rs_Status (error_response rid err))).
  { intros rid err. pose proof (StatusCode_range err) as Hr. cbn. split.
    - revert Hr. unfold http_statuses. rewrite !elem_of_cons. tauto.
    - intros e [= <-]. split; [done|]. rewrite !elem_of_cons, elem_of_nil in Hr. lia. }
  cbv zeta. rewrite handle_http_unfold. cbv zeta. generalize (if bool_decide (rq_Header r "X-Request-Id" = ""%string)
    then newRequestID nanos (wrapu64 (w.2 + 1)) else rq_Header r "X-Request-Id") as rid. intros rid.
  pose proof (serve_mux_cases clock write_digest patch_digest kind s json rid r w.1) as H.
  destruct (serve_mux _ _ _ _ _ _ _ _ _) as [st' resp]. cbn [snd].
  inversion H as [Hs|Hs Hp|status msg Hs Hp Hr Hst|ep Hs Hp Hr Ed]; subst; cbn [rs_Status rs_Body].
  - split; [left; clear; set_solver|done].
  - split; [right|done]. unfold mux_path in *. by case_bool_decide.
  - split; [left; case_bool_decide; clear; set_solver|done].
  - pose proof (dispatch_cases clock write_digest patch_digest kind s json ep rid r w.1) as Hd. rewrite Ed in Hd.
    destruct (accept_call json ep r) as [c|err]; [|destruct Hd as [_ ->]; split; [left|]; apply Herr].
    destruct Hd as (_ & _ & Hd). unfold answers in Hd.
    destruct (run_call _ _ _ _ s c w.1).2 as [rep|err]; [|rewrite Hd; split; [left|]; apply Herr].
    destruct Hd as (-> & _ & _ & Hb). split; [left; by left|].
    intros e He. destruct rep; [destruct Hb as (? & Hb & _)|..]; congruence.
Qed.

(** Two requests that bring no id of their own get different ids as long as
    the process counter has not come round, even at the same instant. *)
Theorem generated_request_ids_differ {E T V} clock write_digest patch_digest kind (s : Service E T V) json
    nanos nanos' r r' w w' :
  rq_Header r "X-Request-Id" = ""%string -> rq_Header r' "X-Request-Id" = ""%string ->
  0 <= w.2 < two64 -> 0 <= w'.2 < two64 -> w.2 <> w'.2 ->
  rs_RequestID (handle_http clock write_digest patch_digest kind s json nanos r w).2
  <> rs_RequestID (handle_http clock write_digest patch_digest kind s json nanos' r' w').2.
Proof.
  intros Hr Hr' Hw Hw' Hne. rewrite !handle_http_unfold. cbv zeta. rewrite Hr, Hr'. cbn [bool_decide].
  rewrite !bool_decide_eq_true_2 by done.
  pose proof (serve_mux_request_id clock write_digest patch_digest kind s json) as Hid.
  pose proof (Hid (newRequestID nanos (wrapu64 (w.2 + 1))) r w.1) as H1.
  pose proof (Hid (newRequestID nanos' (wrapu64 (w'.2 + 1))) r' w'.1) as H2.
  destruct (serve_mux _ _ _ _ _ _ _ r _) as [? resp], (serve_mux _ _ _ _ _ _ _ r' _) as [? resp']. cbn in *.
  rewrite H1, H2. intros Eid%newRequestID_seq. unfold wrapu64, two64 in *. apply Hne.
  destruct (decide (w.2 + 1 = 18446744073709551616)) as [E1|], (decide (w'.2 + 1 = 18446744073709551616)) as [E2|]; [lia| | |].
  - rewrite E1, Z.mod_same, Z.mod_small in Eid by lia. lia.
  - rewrite E2, Z.mod_same, Z.mod_small in Eid by lia. lia.
  - rewrite !Z.mod_small in Eid by lia. lia.
Qed.

Definition headers_of (u t ct : string) (name : string) : string :=
  if bool_decide (name = "X-Tenant-Id"%string) then t
  else if bool_decide (name = "X-User-Id"%string) then u
  else if bool_decide (name = "Content-Type"%string) then ct else "".

Definition ref_json : Decoders := mkDecoders
  (fun _ => Ok (recall_req "" 0)) (fun body => Ok (write_req body)) (fun _ => Fail "unexpected end of JSON input"%string)
  (fun _ => Ok (pin_req 1)) (fun _ => Fail "unexpected end of JSON input"%string)
  (fun _ => Fail "unexpected end of JSON input"%string) (fun _ => Ok close_req) (fun _ => Ok heartbeat_req) (fun _ => false) 307.

Definition ref_serve := handle_http ref_clock ref_write_digest ref_patch_digest ref_kind (ref_service false) ref_json.
Definition post_write : Request :=
  mkRequest "POST" "/memory/write" (headers_of "alice" "acme" "application/json") "likes green tea".

Lemma generated_request_ids_differ_witness :
  rs_RequestID (ref_serve 5 post_write (ref_start, 0)).2 <> rs_RequestID (ref_serve 5 post_write (ref_start, 1)).2.
Proof.
  apply (generated_request_ids_differ ref_clock ref_write_digest ref_patch_digest ref_kind (ref_service false) ref_json
           5 5 post_write post_write (ref_start, 0) (ref_start, 1)); cbn; unfold two64; try lia; reflexivity.
Defined.

(** A write, one without scope headers, one with a bad method. *)
Example ref_requests :
  let answer r := let resp := (ref_serve 5 r (ref_start, 0)).2 in (rs_Status resp, rs_MemoryVersion resp) in
  answer post_write = (200, Some "1"%string) /\
  answer (mkRequest "POST" "/memory/write" (headers_of "" "acme" "application/json") "x") = (401, None) /\
  answer (mkRequest "POST" "/memory/write" (headers_of "alice" "acme" "text/plain") "x") = (400, None) /\
  answer (mkRequest "GET" "/memory/write" (headers_of "alice" "acme" "application/json") "x") = (405, None) /\
  answer (mkRequest "POST" "//memory/write" (headers_of "alice" "acme" "application/json") "x") = (307, None) /\
  answer (mkRequest "GET" "/memory/items/" (headers_of "alice" "acme" "application/json") "") = (404, None) /\
  answer (mkRequest "GET" "/memory/items/.." (headers_of "alice" "acme" "application/json") "") = (307, None) /\
  answer (mkRequest "GET" "/memory/items/m1" (headers_of "" "acme" "") "") = (401, None).
Proof. vm_compute. repeat split. Qed.
Close Scope Z_scope.
