(* ===== verification/HttpWire.v ===== *)
(** * HTTP down to the bytes of the bodies: [decodeJSON] and [writeJSON] of
      [transport/router.go], [WriteError] of [httpapi/errors.go]

    The decoders of [Transport] are those of [Wire], and every answer gets its
    text.  Only the wording of decoding errors is a parameter. *)
From S2P Require Import Prelude GoStrings GoFloat GoSort GoStrconv Json Struct HttpApi Authz Wire GoPath Contract RecallCache Sessions ScopeVersions RecallSelection HybridRecall Service ServiceCalls RefWorld Transport.
Open Scope Z_scope.

(** ** Requests *)
Section decoders.
(** [err.Error()] of a failed [Decode] into a type. *)
Context (cause : ty -> string -> string).

Definition decode_body (A : Type) `{Wire A} (body : string) : result string A :=
  match Decode A body with
  | Some (a, _) => Ok a
  | None => Fail (cause (code A) body)
  end.

Definition go_decoders : Decoders := mkDecoders
  (decode_body RecallUnifiedRequest) (decode_body WriteMemoryRequest) (decode_body PatchMemoryRequest)
  (decode_body PinMemoryRequest) (decode_body DisableMemoryRequest) (decode_body DeleteMemoryRequest)
  (decode_body SessionCloseRequest) (decode_body SessionHeartbeatRequest) More
  307.   (* go.mod asks for Go 1.26 *)
End decoders.

(** ** Answers *)
Section answers.
(** The text of an instant, of a duration and of an error, and the page that
    goes with a redirect. *)
Context (text : value -> string) (page : string -> string).

Definition value_json (v : value) : option json :=
  match v with
  | VStr s => Some (JStr s)
  | VInt z => Some (JNum (int_number z))
  | VBool b => Some (JBool b)
  | VFloat f => JNum <$> float_number f
  | VTime _ | VDuration _ | VErrText _ => Some (JStr (text v))
  end.

(** A map is written in the order of its keys. *)
Definition details_json (details : list (string * value)) : option (list (string * json)) :=
  all_some (fun m => (fun j => (m.1, j)) <$> value_json m.2) (SliceStable (fun a b => str_ltb a.1 b.1) details).

Definition error_json (e : ErrorBody) : option json :=
  ds ← details_json (eb_Details e);
  Some (JObj [("error"%string, JObj
    ([("code"%string, JStr (eb_Code e)); ("message"%string, JStr (eb_Message e));
      ("request_id"%string, JStr (eb_RequestID e)); ("retryable"%string, JBool (eb_Retryable e))]
     ++ match ds with [] => [] | _ => [("details"%string, JObj ds)] end))]).

(** The reply of a call; a recall is answered through [PRecall] below, which
    carries the trace the request asked for. *)
Definition reply_text (r : reply) : string :=
  match r with
  | RepRecall r => Encode (ru_Hits r, @None RecallTraceResponse)
  | RepWrite r => Encode r
  | RepPatch r => Encode r
  | RepPin r => Encode r
  | RepDisable r => Encode r
  | RepDelete r => Encode r
  | RepClose r => Encode r
  | RepHeartbeat r => Encode r
  | RepGet r => Encode r
  | RepReap => EmptyString
  end.

(** The body that goes over the wire. *)
Definition body_text (p : payload) : string :=
  match p with
  | PRecall hits trace => Encode (hits, trace)
  | PReply r => reply_text r
  | PError e => match error_json e with Some j => print j newline | None => EmptyString end
  | PText msg => msg +:+ newline
  | PRedirect location => page location
  | PEmpty => EmptyString
  end.
End answers.

(** ** The requests a client sends *)

(** Method, segments of the path, and JSON body of a call; [ReapIdleSession] has
    none. *)
Definition call_route (c : call) : option (string * list string) :=
  match c with
  | CallRecall _ _ => Some ("POST", ["memory"; "recall"; "unified"])
  | CallWrite _ _ => Some ("POST", ["memory"; "write"])
  | CallPatch _ id _ => Some ("PATCH", ["memory"; "items"; id])
  | CallPin _ id _ => Some ("POST", ["memory"; "items"; id; "pin"])
  | CallUnpin _ id _ => Some ("POST", ["memory"; "items"; id; "unpin"])
  | CallDisable _ id _ => Some ("POST", ["memory"; "items"; id; "disable"])
  | CallEnable _ id _ => Some ("POST", ["memory"; "items"; id; "enable"])
  | CallDelete _ id _ => Some ("DELETE", ["memory"; "items"; id])
  | CallClose _ sid _ => Some ("POST", ["memory"; "sessions"; sid; "close"])
  | CallHeartbeat _ sid _ => Some ("POST", ["memory"; "sessions"; sid; "heartbeat"])
  | CallGet _ id => Some ("GET", ["memory"; "items"; id])
  | CallReap _ => None
  end%string.

Definition call_body (c : call) : option string :=
  match c with
  | CallRecall _ r => Marshal r
  | CallWrite _ r => Marshal r
  | CallPatch _ _ r => Marshal r
  | CallPin _ _ r | CallUnpin _ _ r => Marshal r
  | CallDisable _ _ r | CallEnable _ _ r => Marshal r
  | CallDelete _ _ r => Marshal r
  | CallClose _ _ r => Marshal r
  | CallHeartbeat _ _ r => Marshal r
  | CallGet _ _ => Some EmptyString
  | CallReap _ => None
  end.

(** The request with the headers [h] and with [tail] after its body; the
    identifier in the path is escaped. *)
Definition posted (h : string -> string) (c : call) (tail : string) : option Request :=
  '(method, segs) ← call_route c;
  body ← call_body c;
  Some (mkRequest method (path_of (map escape segs)) h (body +:+ tail)).

(** The identifier of the path, if there is one, is not empty: no path has an
    empty segment that the mux would match. *)
Definition addressable (c : call) : Prop :=
  match call_route c with Some (_, segs) => Forall (fun seg => seg <> EmptyString) segs | None => False end.

Definition call_well_formed (c : call) : Prop :=
  match c with
  | CallRecall _ r => well_formed r
  | CallWrite _ r => well_formed r
  | CallPatch _ _ r => well_formed r
  | CallPin _ _ r | CallUnpin _ _ r => well_formed r
  | CallDisable _ _ r | CallEnable _ _ r => well_formed r
  | CallDelete _ _ r => well_formed r
  | CallClose _ _ r => well_formed r
  | CallHeartbeat _ _ r => well_formed r
  | CallGet _ _ => True
  | CallReap _ => False
  end.

(** The sign of a zero importance gets lost. *)
Definition normal_call (c : call) : call :=
  match c with
  | CallWrite a r => CallWrite a (mkWriteMemoryRequest (wr_IdempotencyKey r) (wr_Scope r) (plain_record (wr_Record r)))
  | c => c
  end.

(** ** Proofs *)
Lemma More_Decode {A} `{Wire A} body (a : A) rest : Decode A body = Some (a, rest) -> More body = more rest.
Proof.
  unfold Decode, More. intros Hd. apply bind_Some in Hd as ([j r] & -> & Hd).
  apply bind_Some in Hd as (v & _ & Hd). by injection Hd as _ <-.
Qed.

Section wire.
Context {E T V : Type} (clock : nat -> time)
  (write_digest : Scope -> WriteRecordPayload -> string)
  (patch_digest : Scope -> string -> Z -> PatchMemoryFields -> string)
  (NormalizeRecordKind : string -> result goerror string)
  (s : Service E T V) (cause : ty -> string -> string).
Abbreviation S := (St E T V).
Local Abbreviation json := (go_decoders cause).
Local Abbreviation run := (run_call clock write_digest patch_digest NormalizeRecordKind s).
Local Abbreviation serve := (handle_http clock write_digest patch_digest NormalizeRecordKind s json).

(** A body written by [Marshal] gets through. *)
Lemma admit_posted {A} `{WireLaws A} (a : A) raw method path h tail auth (c : Scope -> A -> call) :
  well_formed a -> Marshal a = Some raw -> more tail = false ->
  h "Content-Type"%string = "application/json"%string -> readAuthoritativeScope h = Ok auth ->
  admit_body json (decode_body cause A) (mkRequest method path h (raw +:+ tail)) c = Ok (c auth (normal a)).
Proof.
  intros Hw Hm Ht Hct Ha. destruct (Decode_Marshal a Hw) as (raw' & Hm' & Hd). rewrite Hm in Hm'. injection Hm' as <-.
  unfold admit_body, EnsureJSONRequest, decodeJSON, decode_body. cbn [rq_Method rq_Header rq_Body].
  rewrite Hct, Ha, (bool_decide_eq_true_2 ("application/json"%string = _)), andb_false_r by done. rewrite Hd. cbn [dec_More go_decoders].
  by rewrite (More_Decode _ _ _ (Hd tail)), Ht.
Qed.

(** A body that gets through was well formed. *)
Lemma admitted_well_formed {A} `{WireLaws A} r (c : Scope -> A -> call) c' :
  (forall auth a, call_well_formed (c auth a) <-> well_formed a) ->
  admit_body json (decode_body cause A) r c = Ok c' -> call_well_formed c'.
Proof.
  intros Hc. unfold admit_body, decodeJSON, decode_body. destruct (EnsureJSONRequest r); [|done].
  destruct (readAuthoritativeScope _); [|done]. destruct (Decode A (rq_Body r)) as [[req rest]|] eqn:E0; [|done].
  destruct (dec_More _ _); [done|]. intros [= <-]. apply Hc. by eapply Decode_well_formed.
Qed.

Lemma accepted_well_formed ep r c : accept_call json ep r = Ok c -> call_well_formed c.
Proof.
  destruct ep; cbn [accept_call go_decoders dec_Recall dec_Write dec_Patch dec_Pin dec_Disable dec_Delete dec_Close dec_Heartbeat];
    try (by apply admitted_well_formed).
  destruct (readAuthoritativeScope _); cbn; [|done]. by intros [= <-].
Qed.

(** The route of a call is the endpoint that makes it. *)
Definition call_endpoint (c : call) : endpoint :=
  match c with
  | CallRecall _ _ => EpRecall
  | CallWrite _ _ => EpWrite
  | CallPatch _ id _ => EpPatch id
  | CallPin _ id _ => EpPin id
  | CallUnpin _ id _ => EpUnpin id
  | CallDisable _ id _ => EpDisable id
  | CallEnable _ id _ => EpEnable id
  | CallDelete _ id _ => EpDelete id
  | CallClose _ sid _ => EpClose sid
  | CallHeartbeat _ sid _ => EpHeartbeat sid
  | CallGet _ id => EpGet id
  | CallReap _ => EpRecall
  end.

Lemma call_routed c method segs path :
  call_route c = Some (method, segs) -> path_segments path = Some segs -> routed method path (call_endpoint c).
Proof using Type.
  destruct c; cbn; try done; intros [= <- <-] Hp; econstructor; first [reflexivity|by left|eassumption].
Qed.

Lemma posted_routed c method segs :
  call_route c = Some (method, segs) -> Forall (fun seg => seg <> EmptyString) segs ->
  let path := path_of (map escape segs) in
  path <> "*"%string /\ cleanPath path = path /\ route method path = Some (call_endpoint c).
Proof using Type.
  intros Hr Hs path. assert (Hne : segs <> []) by (destruct c; cbn in Hr; try done; by injection Hr as _ <-).
  destruct (path_of_segments segs Hne Hs) as [Hseg Hclean].
  split_and!; [done|done|]. apply route_routed. by eapply call_routed.
Qed.

Lemma posted_accepted h c tail :
  call_well_formed c -> addressable c -> readAuthoritativeScope h = Ok (call_auth c) ->
  h "Content-Type"%string = "application/json"%string -> more tail = false ->
  exists r, posted h c tail = Some r /\ rq_Header r = h /\ rq_Path r <> "*"%string /\
    cleanPath (rq_Path r) = rq_Path r /\ route (rq_Method r) (rq_Path r) = Some (call_endpoint c) /\
    accept_call json (call_endpoint c) r = Ok (normal_call c).
Proof.
  intros Hw Had Ha Hct Ht. unfold addressable in Had.
  destruct (call_route c) as [[method segs]|] eqn:Er; [|done].
  destruct (posted_routed c method segs Er Had) as (H1 & H2 & H3).
  assert (Hbody : exists body, call_body c = Some body /\
    accept_call json (call_endpoint c) (mkRequest method (path_of (map escape segs)) h (body +:+ tail))
      = Ok (normal_call c)).
  2: { destruct Hbody as (body & Hb & Hacc). unfold posted. rewrite Er. cbn [mbind option_bind]. rewrite Hb.
       eexists. split; [reflexivity|]. done. }
  clear H1 H2 H3 Had.
  destruct c as [a r|a r|a id r|a id r|a id r|a id r|a id r|a id r|a id r|a id r|a|a id];
    cbn [call_well_formed] in Hw; try done;
    try (destruct (Decode_Marshal r Hw) as (raw & Hm & _); exists raw; split; [exact Hm|];
         cbn [accept_call call_endpoint go_decoders dec_Recall dec_Write dec_Patch dec_Pin dec_Disable dec_Delete dec_Close dec_Heartbeat];
         rewrite (admit_posted r raw _ _ h tail _ _ Hw Hm Ht Hct Ha); cbn [call_auth normal_call];
         by rewrite ?normal_recall, ?normal_write, ?normal_patch, ?normal_pin, ?normal_disable, ?normal_delete, ?normal_close, ?normal_heartbeat).
  exists EmptyString. split; [done|]. cbn [accept_call call_endpoint rq_Header]. by rewrite Ha.
Qed.

(** C13: Whatever bytes a client sends, a call that reaches the service has the
    scope of the headers and a well-formed request: every string of it is UTF-8,
    every integer has 64 bits and every float is finite; otherwise the service
    is not touched. *)
Theorem accepted_calls_well_formed nanos r w :
  let '((st', _), resp) := serve nanos r w in
  st' = w.1 /\ rs_Status resp <> 200 \/
  exists c, call_well_formed c /\ readAuthoritativeScope (rq_Header r) = Ok (call_auth c) /\
    st' = (run c w.1).1 /\ answers (rs_RequestID resp) (run c w.1).2 resp.
Proof.
  rewrite handle_http_unfold. cbv zeta. set (rid := if bool_decide (rq_Header r "X-Request-Id" = ""%string) then _ else _).
  pose proof (serve_mux_cases clock write_digest patch_digest NormalizeRecordKind s json rid r w.1) as H.
  pose proof (serve_mux_request_id clock write_digest patch_digest NormalizeRecordKind s json rid r w.1) as Hid.
  destruct (serve_mux _ _ _ _ _ _ _ _ _) as [st' resp]. cbn [snd] in Hid. rewrite Hid.
  inversion H as [Hs|Hs Hp|status msg Hs Hp Hr Hst|ep Hs Hp Hr Ed]; subst; cbn [rs_Status]; try (by left).
  - left. split; [done|]. by case_bool_decide.
  - pose proof (dispatch_cases clock write_digest patch_digest NormalizeRecordKind s json ep rid r w.1) as Hd.
    rewrite Ed in Hd. destruct (accept_call json ep r) as [c|err] eqn:Ea.
    + right. exists c. destruct Hd as (H1 & H2 & H3). split_and!; [by eapply accepted_well_formed|done..].
    + left. destruct Hd as [-> ->]. split; [done|]. apply admit_status in Ea. cbn. intros E200.
      rewrite E200 in Ea. rewrite !elem_of_cons, elem_of_nil in Ea. lia.
Qed.

End wire.

(** ** A client of the reference world *)
Definition json_serve (cause : ty -> string -> string) :=
  handle_http ref_clock (write_request_digest (fun raw => raw)) (patch_request_digest (fun raw => raw)) ref_kind
    (ref_service false) (go_decoders cause).
Definition ref_headers : string -> string := headers_of "alice" "acme" "application/json".
Definition write_call : call := CallWrite (mkScope "acme" "alice" "" "") wire_write.
Definition ref_cause (t : ty) (body : string) : string := "invalid".


(** An identifier that is a dot arrives. *)
Example dot_is_served :
  rs_Status (json_serve ref_cause 5 (default post_write (posted ref_headers (CallGet (mkScope "acme" "alice" "" "") ".") EmptyString)) (ref_start, 0)).2 = 404 /\
  rs_Status (json_serve ref_cause 5 (mkRequest "GET" "/memory/items/." ref_headers "") (ref_start, 0)).2 = 307.
Proof. vm_compute. split; reflexivity. Qed.

(** The bytes of a write and of its answer, and of a refusal. *)
Example write_over_the_wire :
  let go body := body_text (fun _ => EmptyString) (fun _ => EmptyString) (rs_Body (json_serve ref_cause 5
                   (mkRequest "POST" "/memory/write" ref_headers body) (ref_start, 0)).2) in
  go ("{" +:+ q "idempotency_key" +:+ ":" +:+ q "k" +:+ "," +:+ q "scope" +:+ ":{}," +:+ q "record" +:+ ":{" +:+ q "kind" +:+ ":" +:+ q "semantic"
      +:+ "," +:+ q "Content" +:+ ":" +:+ q "tea" +:+ "}}")
    = ("{" +:+ q "memory" +:+ ":{" +:+ q "memory_id" +:+ ":" +:+ q "m1" +:+ "," +:+ q "version" +:+ ":1,"
       +:+ q "status" +:+ ":" +:+ q "saved" +:+ "}}" +:+ newline) /\
  go "{} {}" = ("{" +:+ q "error" +:+ ":{" +:+ q "code" +:+ ":" +:+ q "bad_request" +:+ "," +:+ q "message" +:+ ":"
       +:+ q "invalid JSON payload" +:+ "," +:+ q "request_id" +:+ ":" +:+ q "req_5_1" +:+ "," +:+ q "retryable" +:+ ":false,"
       +:+ q "details" +:+ ":{" +:+ q "cause" +:+ ":" +:+ q "multiple JSON values are not allowed" +:+ "}}}" +:+ newline).
Proof. vm_compute. split; reflexivity. Qed.

(** A stray bracket after the value is not taken for a second value. *)
Example trailing_bracket_accepted :
  rs_Status (json_serve ref_cause 5 (mkRequest "POST" "/memory/recall/unified" ref_headers ("{" +:+ q "query" +:+ ":" +:+ q "tea" +:+ "} ]")) (ref_start, 0)).2
    = 200.
Proof. vm_compute. reflexivity. Qed.
Close Scope Z_scope.
