(* ===== verification/RelayWorker.v ===== *)
(** * The outbox relay worker: [startOutboxRelayWorker] in
      [cmd/memory-gateway/main.go]

    One goroutine runs the relay, then waits for its context or its ticker;
    the returned stop function, which any number of goroutines may call,
    cancels the context and waits for the goroutine under a [sync.Once].  Each
    moment is a step; the relay itself ([RunOnce]) belongs to another module
    and is only seen to return. *)
From S2P Require Import Prelude HttpApi.
Open Scope Z_scope.

(** ** The worker *)
Inductive worker_phase := WorkerNew | WorkerRuns | WorkerSelects | WorkerDone.
#[export] Instance worker_phase_eq_dec : EqDecision worker_phase.
Proof. solve_decision. Defined.

(** A caller of the stop function: outside, inside [once.Do] before and after
    [cancel()], waiting for another caller's [once.Do], and returned. *)
Inductive stop_call := StopCalls | StopInside | StopWaits | StopBlocked | StopReturned.
#[export] Instance stop_call_eq_dec : EqDecision stop_call.
Proof. solve_decision. Defined.
Inductive once_state := OnceFree | OnceTaken | OnceOver.

(** What the worker logs. *)
Inductive log_line :=
| RelayFailed (err : goerror)
| RelayTick (published failed : Z).

Record relay_worker := mkRelayWorker {
  wk_phase : worker_phase;
  wk_cancelled : bool;
  wk_tick : bool;              (* the ticker's channel holds one tick *)
  wk_once : once_state;
  wk_stops : list stop_call;
  wk_runs : nat;               (* calls of [RunOnce] that have begun *)
  wk_log : list log_line
}.

Definition new_worker (stops : nat) : relay_worker :=
  mkRelayWorker WorkerNew false false OnceFree (replicate stops StopCalls) 0 [].

(** The two [if logger != nil && ...] of a tick. *)
Definition tick_log (published failed : Z) (err : option goerror) : list log_line :=
  match err with
  | Some err => if errors_Is err ContextCanceled then [] else [RelayFailed err]
  | None => []
  end ++ (if (0 <? published) || (0 <? failed) then [RelayTick published failed] else []).

(** The events: the goroutine starts, [RunOnce] returns, the [select] takes
    [ctx.Done()] or the tick, and a caller of the stop function goes on; the
    ticker fires and the parent context ends by themselves. *)
Inductive worker_event :=
| WkStart
| WkRunEnds (published failed : Z) (err : option goerror)
| WkLeave
| WkTake
| WkStop (i : nat)
| WkFire
| WkParent.

Definition set_worker (p : worker_phase) (tick : bool) (runs : nat) (log : list log_line) (w : relay_worker) : relay_worker :=
  mkRelayWorker p (wk_cancelled w) tick (wk_once w) (wk_stops w) runs log.
Definition set_stop (i : nat) (pc : stop_call) (once : once_state) (cancelled : bool) (w : relay_worker) : relay_worker :=
  mkRelayWorker (wk_phase w) cancelled (wk_tick w) once (<[i := pc]> (wk_stops w)) (wk_runs w) (wk_log w).

Definition stop_step (i : nat) (w : relay_worker) : option relay_worker :=
  match wk_stops w !! i with
  | Some StopCalls =>
      match wk_once w with
      | OnceFree => Some (set_stop i StopInside OnceTaken (wk_cancelled w) w)
      | OnceTaken => Some (set_stop i StopBlocked OnceTaken (wk_cancelled w) w)
      | OnceOver => Some (set_stop i StopReturned OnceOver (wk_cancelled w) w)
      end
  | Some StopInside => Some (set_stop i StopWaits (wk_once w) true w)
  | Some StopWaits =>
      match wk_phase w with
      | WorkerDone => Some (set_stop i StopReturned OnceOver (wk_cancelled w) w)
      | _ => None
      end
  | Some StopBlocked =>
      match wk_once w with
      | OnceOver => Some (set_stop i StopReturned OnceOver (wk_cancelled w) w)
      | _ => None
      end
  | Some StopReturned | None => None
  end.

Definition worker_step (ev : worker_event) (w : relay_worker) : option relay_worker :=
  match ev, wk_phase w with
  | WkStart, WorkerNew => Some (set_worker WorkerRuns (wk_tick w) (S (wk_runs w)) (wk_log w) w)
  | WkRunEnds published failed err, WorkerRuns =>
      Some (set_worker WorkerSelects (wk_tick w) (wk_runs w) (wk_log w ++ tick_log published failed err) w)
  | WkLeave, WorkerSelects =>
      if wk_cancelled w then Some (set_worker WorkerDone (wk_tick w) (wk_runs w) (wk_log w) w) else None
  | WkTake, WorkerSelects =>
      if wk_tick w then Some (set_worker WorkerRuns false (S (wk_runs w)) (wk_log w) w) else None
  | WkStop i, _ => stop_step i w
  | WkFire, (WorkerRuns | WorkerSelects) => Some (set_worker (wk_phase w) true (wk_runs w) (wk_log w) w)
  | WkParent, _ => Some (mkRelayWorker (wk_phase w) true (wk_tick w) (wk_once w) (wk_stops w) (wk_runs w) (wk_log w))
  | _, _ => None
  end.

Definition run_worker (evs : list worker_event) (w : relay_worker) : option relay_worker :=
  foldl (fun w ev => w ≫= worker_step ev) (Some w) evs.

(** A nil runner starts nothing, and its stop function returns at once. *)
Definition startOutboxRelayWorker (runner : bool) (stops : nat) : option relay_worker :=
  if runner then Some (new_worker stops) else None.

(** ** Invariant *)

(** Some caller is inside [once.Do]. *)
Definition inside (pc : stop_call) : bool := match pc with StopInside | StopWaits => true | _ => false end.

(** What holds of one caller, when [holder] is the one inside. *)
Definition stop_ok (w : relay_worker) (holder : option nat) (i : nat) (pc : stop_call) : Prop :=
  (inside pc = true <-> holder = Some i) /\
  (pc = StopWaits -> wk_cancelled w = true) /\
  (pc = StopBlocked -> wk_once w <> OnceFree) /\
  (pc = StopReturned -> wk_once w = OnceOver).

Record worker_inv (w : relay_worker) (holder : option nat) : Prop := {
  wi_stops i pc : wk_stops w !! i = Some pc -> stop_ok w holder i pc;
  wi_taken : wk_once w = OnceTaken <-> is_Some holder;
  wi_holder h : holder = Some h -> is_Some (wk_stops w !! h);
  wi_over : wk_once w = OnceOver -> wk_phase w = WorkerDone
}.

Lemma worker_inv_new n : worker_inv (new_worker n) None.
Proof.
  split; cbn.
  - intros i pc Hi. apply lookup_replicate in Hi as [-> _]. by repeat split.
  - split; [done|by intros []].
  - done.
  - done.
Qed.

(** A step of the goroutine, the ticker or the parent. *)
Lemma worker_inv_loop w w' holder :
  worker_inv w holder -> wk_stops w' = wk_stops w -> wk_once w' = wk_once w ->
  (wk_cancelled w = true -> wk_cancelled w' = true) ->
  (wk_phase w = WorkerDone -> wk_phase w' = WorkerDone) -> worker_inv w' holder.
Proof.
  intros [H1 H2 H3 H4] Hs Ho Hc Hp. split; rewrite ?Hs, ?Ho; auto.
  intros i pc Hi. destruct (H1 i pc Hi) as (A & B & C & D). unfold stop_ok. rewrite Ho. auto.
Qed.

(** A caller [i] moves to [pc] and becomes, stays or ceases to be the holder. *)
Lemma worker_inv_stop w i old pc once cancelled holder holder' :
  worker_inv w holder -> wk_stops w !! i = Some old ->
  (wk_cancelled w = true -> cancelled = true) ->
  (once = wk_once w \/ wk_once w = OnceFree /\ once = OnceTaken \/ wk_once w = OnceTaken /\ once = OnceOver) ->
  (inside pc = true <-> holder' = Some i) ->
  (forall j, j <> i -> holder' = Some j <-> holder = Some j) ->
  (once = OnceTaken <-> is_Some holder') ->
  (pc = StopWaits -> cancelled = true) -> (pc = StopBlocked -> once <> OnceFree) -> (pc = StopReturned -> once = OnceOver) ->
  (once = OnceOver -> wk_phase w = WorkerDone) ->
  worker_inv (set_stop i pc once cancelled w) holder'.
Proof.
  intros [H1 H2 H3 H4] Hi Hc Ho Hin Hj Ht Hw Hb Hr Hd.
  pose proof (lookup_lt_Some _ _ _ Hi) as Hlt. split; cbn; [| done | |done].
  - intros j pcj Hjl. destruct (decide (i = j)) as [->|Hne].
    + rewrite list_lookup_insert_eq in Hjl by done. injection Hjl as <-. by repeat split; try apply Hin; auto.
    + rewrite list_lookup_insert_ne in Hjl by done. destruct (H1 j pcj Hjl) as (A & B & C & D).
      unfold stop_ok. cbn. rewrite (Hj j) by done. split_and!; [done|auto| |].
      * intros Hp. specialize (C Hp). destruct Ho as [->|[[? ->]|[? ->]]]; done.
      * intros Hp. specialize (D Hp). destruct Ho as [->|[[? ?]|[? ?]]]; congruence.
  - intros h Hh. destruct (decide (h = i)) as [->|Hne]; [by rewrite list_lookup_insert_eq|].
    rewrite list_lookup_insert_ne by done. apply H3. by apply (Hj h).
Qed.

Lemma worker_inv_step ev w w' holder :
  worker_inv w holder -> worker_step ev w = Some w' -> exists holder', worker_inv w' holder'.
Proof.
  intros I. destruct ev as [|p f err| | |i| |]; cbn [worker_step].
  1,2,3,4,6: destruct (wk_phase w) eqn:Ep; try done; try (destruct (wk_cancelled w) eqn:?; [|done]);
    try (destruct (wk_tick w); [|done]); intros [= <-]; exists holder; apply (worker_inv_loop w); cbn; auto; congruence.
  2: intros [= <-]; exists holder; by apply (worker_inv_loop w).
  unfold stop_step. destruct (wk_stops w !! i) as [pc|] eqn:Ei; [|done]. pose proof I as [H1 H2 H3 H4].
  destruct (H1 i pc Ei) as (A & B & C & D).
  destruct pc; try done.
  - destruct (wk_once w) eqn:Eo; intros [= <-].
    + exists (Some i). eapply worker_inv_stop; try done; rewrite ?Eo; auto.
      * intros j Hj. split; [intros [= ->]; done|intros ->]. exfalso.
        assert (OnceFree = OnceTaken) as ?; [by apply H2; eexists|done].
    + exists holder. eapply worker_inv_stop; try done; rewrite ?Eo; auto.
    + exists holder. eapply worker_inv_stop; try done; rewrite ?Eo; auto.
  - intros [= <-]. exists holder. eapply worker_inv_stop; try done; auto.
  - destruct (wk_phase w) eqn:Ep; try done. intros [= <-]. exists None.
    assert (holder = Some i) as -> by by apply A.
    assert (wk_once w = OnceTaken) as Eo by (apply H2; by eexists).
    eapply worker_inv_stop; try done; rewrite ?Eo; auto.
    + intros j Hj. split; [done|]. intros [= ->]. done.
  - destruct (wk_once w) eqn:Eo; try done. intros [= <-].
    exists holder. eapply worker_inv_stop; try done; rewrite ?Eo; auto.
Qed.

Lemma run_worker_snoc evs ev w : run_worker (evs ++ [ev]) w = run_worker evs w ≫= worker_step ev.
Proof. unfold run_worker. by rewrite foldl_app. Qed.

Lemma worker_inv_run evs n w : run_worker evs (new_worker n) = Some w -> exists holder, worker_inv w holder.
Proof.
  revert w. induction evs as [|ev evs IH] using rev_ind; intros w Hr.
  - injection Hr as <-. exists None. apply worker_inv_new.
  - rewrite run_worker_snoc in Hr. apply bind_Some in Hr as (w1 & H1 & Hs).
    destruct (IH _ H1) as [holder I]. by eapply worker_inv_step.
Qed.

(** ** Stop is final and returns *)

(** What is left to do without further ticks. *)
Definition stop_cost (pc : stop_call) : nat :=
  match pc with StopCalls => 3 | StopInside => 2 | StopWaits | StopBlocked => 1 | StopReturned => 0 end.
Definition worker_measure (w : relay_worker) : nat :=
  match wk_phase w with
  | WorkerNew => 3 | WorkerRuns => 2 | WorkerSelects => 1 | WorkerDone => 0
  end + (match wk_phase w with WorkerDone => 0 | _ => if wk_tick w then 2 else 0 end)
  + sum_list (map stop_cost (wk_stops w)).

(** The steps of the worker and of its stop function, as opposed to those of
    the clock and of the parent. *)
Definition own_event (ev : worker_event) : bool := match ev with WkFire | WkParent => false | _ => true end.

Lemma sum_list_insert l i (old new : stop_call) :
  l !! i = Some old -> (sum_list (map stop_cost (<[i := new]> l)) + stop_cost old
                        = sum_list (map stop_cost l) + stop_cost new)%nat.
Proof.
  revert i. induction l as [|pc l IH]; intros [|i] Hi; try done.
  - injection Hi as ->. cbn. lia.
  - specialize (IH i Hi). change (<[S i := new]> (pc :: l)) with (pc :: <[i := new]> l).
    cbn [map sum_list sum_list_with]. lia.
Qed.

Lemma worker_step_cost ev w w' :
  own_event ev = true -> worker_step ev w = Some w' -> (worker_measure w' < worker_measure w)%nat.
Proof.
  destruct ev as [|p f err| | |i| |]; try done; intros _; cbn [worker_step].
  1,2,3,4: destruct (wk_phase w) eqn:Ep; try done; try (destruct (wk_cancelled w); [|done]);
    destruct (wk_tick w) eqn:Et; try done; intros [= <-]; unfold worker_measure; cbn; rewrite Ep, ?Et; lia.
  unfold stop_step. destruct (wk_stops w !! i) as [pc|] eqn:Ei; [|done].
  assert (H : forall new once c, (stop_cost new < stop_cost pc)%nat ->
            (worker_measure (set_stop i new once c w) < worker_measure w)%nat).
  { intros new once c Hc. unfold worker_measure, set_stop. cbn.
    pose proof (sum_list_insert _ _ _ new Ei). lia. }
  destruct pc; try done; try destruct (wk_once w); try destruct (wk_phase w); try done;
    intros [= <-]; apply H; cbn; lia.
Qed.

(** While some caller has not returned and somebody called, the worker or a
    caller can go on. *)
Lemma worker_progress w holder i pc :
  worker_inv w holder -> wk_stops w !! i = Some pc -> pc <> StopReturned ->
  exists ev w', own_event ev = true /\ worker_step ev w = Some w'.
Proof.
  intros [H1 H2 H3 H4] Hi Hpc.
  assert (Hgo : wk_cancelled w = true -> wk_phase w <> WorkerDone ->
                exists ev w', own_event ev = true /\ worker_step ev w = Some w').
  { intros Hc Hd. destruct (wk_phase w) eqn:Ep; try done.
    - exists WkStart. eexists. cbn. rewrite Ep. done.
    - exists (WkRunEnds 0 0 None). eexists. cbn. rewrite Ep. done.
    - exists WkLeave. eexists. cbn. rewrite Ep, Hc. done. }
  assert (Hstop : forall j, is_Some (stop_step j w) -> exists ev w', own_event ev = true /\ worker_step ev w = Some w')
    by (intros j [w' Hw]; by exists (WkStop j), w').
  assert (Hwait : forall j, wk_stops w !! j = Some StopWaits -> exists ev w', own_event ev = true /\ worker_step ev w = Some w').
  { intros j Hj. destruct (decide (wk_phase w = WorkerDone)) as [Hd|Hd].
    - apply (Hstop j). unfold stop_step. rewrite Hj, Hd. by eexists.
    - apply Hgo; [|done]. by apply (H1 j _ Hj). }
  destruct (H1 i pc Hi) as (A & B & C & D). destruct pc; try done.
  - apply (Hstop i). unfold stop_step. rewrite Hi. destruct (wk_once w); by eexists.
  - apply (Hstop i). unfold stop_step. rewrite Hi. by eexists.
  - by apply (Hwait i).
  - destruct (wk_once w) eqn:Eo; [by destruct (C eq_refl)| |].
    + destruct (proj1 H2 eq_refl) as [h Hh]. destruct (H3 h Hh) as [pch Hpch].
      destruct (H1 h pch Hpch) as (A' & _). destruct pch; try (by apply A' in Hh).
      * apply (Hstop h). unfold stop_step. rewrite Hpch. by eexists.
      * by apply (Hwait h).
    + apply (Hstop i). unfold stop_step. rewrite Hi, Eo. by eexists.
Qed.

Lemma worker_done_stays evs w w' :
  wk_phase w = WorkerDone -> run_worker evs w = Some w' -> wk_phase w' = WorkerDone /\ wk_runs w' = wk_runs w.
Proof.
  intros Hp. revert w'. induction evs as [|ev evs IH] using rev_ind; intros w' Hr; [by injection Hr as <-|].
  rewrite run_worker_snoc in Hr. apply bind_Some in Hr as (w1 & H1 & Hs). destruct (IH _ H1) as [Hp1 Hr1].
  destruct ev as [|p f err| | |i| |]; cbn in Hs; rewrite ?Hp1 in Hs; try done; [|by injection Hs as <-].
  unfold stop_step in Hs. rewrite Hp1 in Hs.
  destruct (wk_stops w1 !! i) as [[]|]; try done; try destruct (wk_once w1); try done; by injection Hs as <-.
Qed.

Lemma own_steps_bounded evs w w' :
  forallb own_event evs = true -> run_worker evs w = Some w' -> (length evs + worker_measure w' <= worker_measure w)%nat.
Proof.
  revert w'. induction evs as [|ev evs IH] using rev_ind; intros w' Ho Hr; [by injection Hr as <-|].
  rewrite forallb_app, andb_true_iff in Ho. destruct Ho as [Ho1 Ho2]. cbn in Ho2. rewrite andb_true_r in Ho2.
  rewrite run_worker_snoc in Hr. apply bind_Some in Hr as (w1 & H1 & Hs).
  specialize (IH _ Ho1 H1). pose proof (worker_step_cost _ _ _ Ho2 Hs). rewrite length_app. cbn. lia.
Qed.

(** C18: However many goroutines call the stop function of the relay worker, at
    whatever moment: a call that has returned leaves no relay run in progress
    and none will begin; a call that has not returned can always go on; and
    while the ticker is silent, worker and callers together make at most
    [worker_measure] further steps, so that every call returns (the relay's own
    [RunOnce] returning). *)
Theorem relay_stop_returns evs n w :
  run_worker evs (new_worker n) = Some w ->
  (forall i, wk_stops w !! i = Some StopReturned ->
     wk_phase w = WorkerDone /\
     forall evs' w', run_worker evs' w = Some w' -> wk_phase w' = WorkerDone /\ wk_runs w' = wk_runs w) /\
  (forall evs' w', forallb own_event evs' = true -> run_worker evs' w = Some w' ->
     (length evs' <= worker_measure w)%nat /\
     ((forall ev, own_event ev = true -> worker_step ev w' = None) ->
      Forall (fun pc => pc = StopReturned) (wk_stops w'))).
Proof.
  intros Hr. destruct (worker_inv_run _ _ _ Hr) as [holder I]. split.
  - intros i Hi. destruct I as [H1 H2 H3 H4]. destruct (H1 i _ Hi) as (_ & _ & _ & D).
    pose proof (H4 (D eq_refl)) as Hp. split; [done|]. intros evs' w'. by apply worker_done_stays.
  - intros evs' w' Ho Hr'. split; [pose proof (own_steps_bounded _ _ _ Ho Hr'); lia|]. intros Hstuck.
    assert (Hr2 : run_worker (evs ++ evs') (new_worker n) = Some w').
    { unfold run_worker in *. by rewrite foldl_app, Hr. }
    destruct (worker_inv_run _ _ _ Hr2) as [holder' I']. apply Forall_lookup. intros i pc Hi.
    destruct (decide (pc = StopReturned)) as [|Hne]; [done|]. exfalso.
    destruct (worker_progress _ _ _ _ I' Hi Hne) as (ev & w2 & He & Hs). by rewrite (Hstuck ev He) in Hs.
Qed.

(** Two callers; the second arrives while the first is waiting. *)
Definition two_stops : list worker_event :=
  [WkStart; WkStop 0; WkFire; WkStop 1; WkStop 0; WkRunEnds 3 0 None; WkTake;
   WkRunEnds 0 0 (Some (ErrSentinel ContextCanceled)); WkLeave; WkStop 0].

Lemma relay_stop_returns_witness :
  some_and (run_worker two_stops (new_worker 2)) (fun w =>
    wk_log w = [RelayTick 3 0] /\
    (forall evs' w', run_worker evs' w = Some w' -> wk_phase w' = WorkerDone /\ wk_runs w' = 2%nat) /\
    (length [WkStop 1] <= worker_measure w)%nat).
Proof.
  apply some_and_intro; [vm_compute; reflexivity|]. intros w Hw.
  destruct (relay_stop_returns two_stops 2 w Hw) as [Hf Ht].
  assert (E : (fun w => (wk_log w, wk_stops w !! 0%nat, wk_runs w)) <$> run_worker two_stops (new_worker 2)
              = Some ([RelayTick 3 0], Some StopReturned, 2%nat)) by (vm_compute; reflexivity).
  rewrite Hw in E. injection E as Hl Hs Hr. split; [done|]. split.
  - intros evs' w' H. rewrite <-Hr. exact (proj2 (Hf 0%nat Hs) evs' w' H).
  - destruct (Ht [WkStop 1] (default w (run_worker [WkStop 1] w)) eq_refl) as [Hlen _]; [|exact Hlen].
    assert (Ew : run_worker (two_stops ++ [WkStop 1]) (new_worker 2) = run_worker [WkStop 1] w)
      by (unfold run_worker in *; by rewrite foldl_app, Hw).
    rewrite <-Ew. vm_compute. reflexivity.
Defined.
Close Scope Z_scope.
