(* ===== verification/Lexical.v ===== *)
(** * The lexical candidate query: [service/postgres_recall_store.go]

    The statement of [PostgresLexicalCandidateSource] over the record table:
    its [WHERE] clause with [ILIKE], its score, its [ORDER BY] and its
    [LIMIT].  What Postgres takes from its locale, the lower case of a
    character and the order of texts, is a parameter. *)
From S2P Require Import Prelude GoStrings GoFloat GoSort HttpApi Authz Contract RecallSelection HybridRecall Vector.
Open Scope Z_scope.

(** ** [LIKE] patterns *)
Inductive like_token := LikeAny | LikeOne | LikeChar (r : Z).

Definition percent : Z := 37.
Definition underscore : Z := 95.
Definition backslash : Z := 92.
Definition is_wild (r : Z) : bool := (r =? percent) || (r =? underscore) || (r =? backslash).

(** [None]: the pattern ends with the escape character (SQLSTATE 22025). *)
Fixpoint like_tokens (p : list Z) : option (list like_token) :=
  match p with
  | [] => Some []
  | r :: p' =>
      if r =? backslash then
        match p' with
        | [] => None
        | c :: p'' => cons (LikeChar c) <$> like_tokens p''
        end
      else cons (if r =? percent then LikeAny else if r =? underscore then LikeOne else LikeChar r) <$> like_tokens p'
  end.

Fixpoint like (p : list like_token) (s : list Z) : bool :=
  match p with
  | [] => bool_decide (s = [])
  | LikeAny :: p' =>
      (fix any (s : list Z) : bool :=
         like p' s || match s with [] => false | _ :: s' => any s' end) s
  | LikeOne :: p' => match s with [] => false | _ :: s' => like p' s' end
  | LikeChar r :: p' => match s with [] => false | c :: s' => (r =? c) && like p' s' end
  end.

(** ** The table *)
Record memory_row := mkMemoryRow {
  mr_memory_id : string;
  mr_tenant_id : string;
  mr_user_id : string;
  mr_project_id : option string;
  mr_session_id : option string;
  mr_source : string;
  mr_category : string;
  mr_content : string;
  mr_tags : list string;
  mr_importance : float64;
  mr_pinned : bool;
  mr_disabled : bool;
  mr_deleted : bool;
  mr_updated_at : time
}.

(** A text parameter Postgres accepts: valid UTF-8 without NUL. *)
Definition text_ok (s : string) : bool := utf8_valid s && forallb (fun r => negb (r =? 0)) (runes s).

(** [($3 = '' OR project_id = $3 OR project_id IS NULL)] *)
Definition in_part (arg : string) (col : option string) : bool :=
  bool_decide (arg = ""%string) || bool_decide (col = Some arg) || bool_decide (col = None).

Section query.
(** [lower] is the locale's lower case of a character, [text_ltb] the order of
    texts in the database's collation. *)
Context (lower : Z -> Z) (text_ltb : string -> string -> bool).

Definition ilike (s : string) (tokens : list like_token) : bool := like tokens (map lower (runes s)).

Definition row_matches (pattern : string) (tokens : list like_token) (r : memory_row) : bool :=
  bool_decide (pattern = "%%"%string)
  || ilike (mr_content r) tokens
  || ilike (mr_category r) tokens
  || existsb (fun tag => ilike tag tokens) (mr_tags r).

Definition row_visible (tenantID userID projectID sessionID : string) (r : memory_row) : bool :=
  bool_decide (mr_tenant_id r = tenantID) && bool_decide (mr_user_id r = userID)
  && negb (mr_deleted r) && negb (mr_disabled r)
  && in_part projectID (mr_project_id r) && in_part sessionID (mr_session_id r).

Definition row_score (r : memory_row) : float64 :=
  f_add (f_of_Z ((if mr_pinned r then 1000 else 0)
                 + (if bool_decide (mr_source r = "user_saved"%string) then 100 else 0)))
        (mr_importance r).

(** Descending order of [float8]: NaN comes first. *)
Definition pg_gtb (x y : float64) : bool :=
  if is_nan_f x then negb (is_nan_f y) else if is_nan_f y then false else f_gtb x y.

(** [ORDER BY 2 DESC, updated_at DESC, memory_id ASC] *)
Definition row_before (a b : memory_row) : bool :=
  if pg_gtb (row_score a) (row_score b) || pg_gtb (row_score b) (row_score a)
  then pg_gtb (row_score a) (row_score b)
  else if negb (mr_updated_at a =? mr_updated_at b) then mr_updated_at b <? mr_updated_at a
  else text_ltb (mr_memory_id a) (mr_memory_id b).

Definition lexical_rows (table : list memory_row) (tenantID userID projectID sessionID pattern : string)
    (limit : Z) : result goerror (list (string * float64)) :=
  if negb (forallb text_ok [tenantID; userID; projectID; sessionID; pattern]) then Fail (ErrText "22021") else
  match like_tokens (map lower (runes pattern)) with
  | None => Fail (ErrText "22025")
  | Some tokens =>
      let found := List.filter (fun r => row_visible tenantID userID projectID sessionID r
                                         && row_matches pattern tokens r) table in
      Ok (map (fun r => (mr_memory_id r, row_score r)) (take (Z.to_nat limit) (SliceStable row_before found)))
  end.

(** The source over a database whose record table is [table_of]. *)
Definition lexical_source {E} (table_of : E -> list memory_row) : RecallCandidateSource E :=
  RecallCandidates_lexical (Some (fun tenantID userID projectID sessionID pattern limit e =>
    (e, result_map (fun rows => (rows, RowsDone))
          (lexical_rows (table_of e) tenantID userID projectID sessionID pattern limit)))).
End query.

(** ** Proofs *)

(** [needle] occurs in [hay]. *)
Definition occurs_in (needle hay : list Z) : Prop := exists a b, hay = (a ++ needle ++ b)%list.

Lemma like_any p s : like (LikeAny :: p) s = true <-> exists a b, s = (a ++ b)%list /\ like p b = true.
Proof.
  induction s as [|c s IH].
  - cbn. rewrite orb_false_r. split; [by exists [], []|]. intros (a & b & Hab & Hl).
    symmetry in Hab. apply app_nil in Hab as [-> ->]. done.
  - change (like (LikeAny :: p) (c :: s)) with (like p (c :: s) || like (LikeAny :: p) s).
    rewrite orb_true_iff, IH. split.
    + intros [H|(a & b & -> & H)]; [by exists [], (c :: s)|by exists (c :: a), b].
    + intros (a & b & Hab & H). destruct a as [|c' a]; cbn in Hab; [left; congruence|].
      injection Hab as _ ->. right. by exists a, b.
Qed.

Lemma like_chars q p s : like (map LikeChar q ++ p) s = true <-> exists b, s = (q ++ b)%list /\ like p b = true.
Proof.
  revert s. induction q as [|r q IH]; intros s; cbn.
  - split; [by exists s|by intros (b & -> & H)].
  - destruct s as [|c s]; [split; [done|by intros (b & ? & _)]|]. rewrite andb_true_iff, Z.eqb_eq, IH. split.
    + intros (-> & b & -> & H). by exists b.
    + intros (b & [= -> ->] & H). split; [done|]. by exists b.
Qed.

Lemma like_contains q s : like (LikeAny :: map LikeChar q ++ [LikeAny]) s = true <-> occurs_in q s.
Proof.
  rewrite like_any. unfold occurs_in. split.
  - intros (a & b & -> & H). apply like_chars in H as (b' & -> & _). by exists a, b'.
  - intros (a & b & ->). exists a, (q ++ b)%list. split; [done|]. apply like_chars. exists b. split; [done|].
    apply like_any. exists b, []. by rewrite app_nil_r.
Qed.

Lemma like_tokens_plain q p :
  Forall (fun r => is_wild r = false) q -> like_tokens (q ++ p) = app (map LikeChar q) <$> like_tokens p.
Proof.
  induction 1 as [|r q Hr _ IH]; cbn [app map]; [by destruct (like_tokens p)|].
  unfold is_wild in Hr. rewrite !orb_false_iff in Hr. destruct Hr as [[H1 H2] H3].
  cbn [like_tokens]. rewrite H3, H1, H2, IH. by destruct (like_tokens p).
Qed.

Lemma like_tokens_pattern q :
  Forall (fun r => is_wild r = false) q ->
  like_tokens (percent :: q ++ [percent]) = Some (LikeAny :: map LikeChar q ++ [LikeAny]).
Proof.
  intros H. change (cons LikeAny <$> like_tokens (q ++ [percent]) = Some (LikeAny :: map LikeChar q ++ [LikeAny])).
  by rewrite like_tokens_plain.
Qed.

(** The pattern always ends with [%], so it never ends with an escape. *)
Lemma like_tokens_ends p : is_Some (like_tokens (p ++ [percent])).
Proof.
  remember (length p) as n eqn:Hn. revert p Hn. induction n as [n IH] using lt_wf_ind. intros p ->.
  destruct p as [|r p]; [by eexists|]. cbn [app like_tokens].
  destruct (r =? backslash).
  - destruct p as [|c p]; [by eexists|]. cbn [app].
    destruct (IH (length p)) with (p := p) as [ts ->]; [cbn; lia|done|]. by eexists.
  - destruct (IH (length p)) with (p := p) as [ts ->]; [cbn; lia|done|]. by eexists.
Qed.

Lemma pg_gtb_weak : StrictWeak pg_gtb (fun _ => True).
Proof.
  pose proof (StrictWeak_gtb (fun x : float64 => x) not_nan (fun _ H => H)) as W.
  unfold pg_gtb, not_nan in *. split.
  - intros a b _ _. destruct (is_nan_f a) eqn:Ea, (is_nan_f b) eqn:Eb; cbn; try done. by apply W.
  - intros a b c _ _ _. destruct (is_nan_f a) eqn:Ea, (is_nan_f b) eqn:Eb, (is_nan_f c) eqn:Ec; cbn; try done.
    by apply W.
  - intros a b c _ _ _. destruct (is_nan_f a) eqn:Ea, (is_nan_f b) eqn:Eb, (is_nan_f c) eqn:Ec; cbn; try done.
    by apply W.
Qed.

Section lexical.
Context (lower : Z -> Z) (text_ltb : string -> string -> bool).
Context {TO : StrictWeak text_ltb (fun _ => True)}.
Context {E : Type} (table_of : E -> list memory_row).
Abbreviation source := (lexical_source lower text_ltb table_of).
Abbreviation before := (row_before text_ltb).

#[export] Instance row_before_weak : StrictWeak before (fun _ => True).
Proof using TO.
  apply (StrictWeak_lex (fun a b => pg_gtb (row_score a) (row_score b) || pg_gtb (row_score b) (row_score a))
           (fun a b => pg_gtb (row_score a) (row_score b))
           (lex_less (fun a b => negb (mr_updated_at a =? mr_updated_at b))
              (fun a b => mr_updated_at b <? mr_updated_at a)
              (fun a b => text_ltb (mr_memory_id a) (mr_memory_id b)))); [| |done].
  - pose proof pg_gtb_weak as W. split; intros *; [apply W|apply W|apply W]; done.
  - apply StrictWeak_lex.
    + split; intros *; intros; lia.
    + split; intros *; [apply TO|apply TO|apply TO]; done.
    + intros a b _ _. lia.
Qed.

(** The characters of a trimmed query none of which is a wildcard once in
    lower case. *)
Definition plain_query (q : string) : Prop := Forall (fun r => is_wild r = false) (map lower (runes q)).

(** A row matches a query: it is empty, or occurs, up to case, in the content,
    the category or a tag. *)
Definition mentions (q : string) (r : memory_row) : Prop :=
  q = ""%string \/
  exists text, text ∈ mr_content r :: mr_category r :: mr_tags r /\
    occurs_in (map lower (runes q)) (map lower (runes text)).

(** Who may see a row: its tenant and user, unless it is deleted or disabled;
    a project or session of the row hides it from every other one the scope
    names. *)
Definition visible_to (scope : Scope) (r : memory_row) : Prop :=
  mr_tenant_id r = TenantID scope /\ mr_user_id r = UserID scope /\
  mr_deleted r = false /\ mr_disabled r = false /\
  (ProjectID scope = ""%string \/ mr_project_id r = Some (ProjectID scope) \/ mr_project_id r = None) /\
  (SessionID scope = ""%string \/ mr_session_id r = Some (SessionID scope) \/ mr_session_id r = None).

Lemma in_part_spec arg col : in_part arg col = true <-> arg = ""%string \/ col = Some arg \/ col = None.
Proof. unfold in_part. rewrite !orb_true_iff, !bool_decide_eq_true. tauto. Qed.

Lemma row_visible_spec scope r :
  row_visible (TenantID scope) (UserID scope) (ProjectID scope) (SessionID scope) r = true <-> visible_to scope r.
Proof.
  unfold row_visible, visible_to. rewrite !andb_true_iff, !in_part_spec, !bool_decide_eq_true, !negb_true_iff. tauto.
Qed.

Lemma pattern_runes q :
  utf8_valid q = true -> runes ("%" +:+ q +:+ "%") = (percent :: runes q ++ [percent])%list.
Proof. intros H. change (percent :: runes (q +:+ "%") = (percent :: runes q ++ [percent])%list). by rewrite runes_app. Qed.

Lemma text_ok_pattern q : text_ok q = true -> text_ok ("%" +:+ q +:+ "%") = true.
Proof.
  unfold text_ok. rewrite !andb_true_iff. intros [Hv Hn]. rewrite pattern_runes by done. split.
  - change (utf8_valid (q +:+ "%") = true). by rewrite utf8_valid_app.
  - cbn. rewrite forallb_app, Hn. done.
Qed.

Lemma row_matches_plain q r ts :
  lower percent = percent -> text_ok q = true -> plain_query q -> q <> ""%string ->
  like_tokens (map lower (runes ("%" +:+ q +:+ "%"))) = Some ts ->
  row_matches lower ("%" +:+ q +:+ "%") ts r = true <-> mentions q r.
Proof.
  intros Hl Hok Hp Hq. unfold text_ok in Hok. apply andb_true_iff in Hok as [Hv _].
  rewrite pattern_runes by done. cbn [map]. rewrite map_app. cbn [map]. rewrite Hl.
  rewrite like_tokens_pattern by done. intros Hts. injection Hts as <-.
  assert (Hi : forall text, ilike lower text (LikeAny :: map LikeChar (map lower (runes q)) ++ [LikeAny]) = true
                            <-> occurs_in (map lower (runes q)) (map lower (runes text)))
    by (intros; apply like_contains).
  unfold row_matches, mentions. rewrite !orb_true_iff, !Hi, bool_decide_eq_true, existsb_exists. split.
  - intros [[[Hpat|H]|H]|(tag & Ht & H)].
    + exfalso. destruct q as [|c q]; [done|]. destruct q; discriminate Hpat.
    + right. eexists. split; [apply list_elem_of_here|done].
    + right. eexists. split; [apply list_elem_of_further, list_elem_of_here|done].
    + right. exists tag. split; [|by apply Hi]. do 2 apply list_elem_of_further. by apply list_elem_of_In.
  - intros [?|(text & Hin & H)]; [done|]. rewrite !elem_of_cons in Hin.
    destruct Hin as [->|[->|Hin]]; [by left; left; right|by left; right|].
    right. exists text. split; [by apply list_elem_of_In|by apply Hi].
Qed.

(** The score of a row, and which of two rows comes first: the higher score
    (a NaN counts as the highest), then the more recently updated, then the
    one whose identifier is not after the other's in the database's order. *)
Definition score_of (r : memory_row) : float64 :=
  f_add (f_of_Z (match mr_pinned r, decide (mr_source r = "user_saved"%string) with
                 | true, left _ => 1100
                 | true, right _ => 1000
                 | false, left _ => 100
                 | false, right _ => 0
                 end)) (mr_importance r).
Definition score_above (x y : float64) : Prop :=
  is_nan_f x = true /\ is_nan_f y = false \/ is_nan_f x = false /\ is_nan_f y = false /\ f_gtb x y = true.
Definition comes_first (a b : memory_row) : Prop :=
  score_above (score_of a) (score_of b) \/
  ~ score_above (score_of b) (score_of a) /\
    (mr_updated_at b < mr_updated_at a \/
     mr_updated_at a = mr_updated_at b /\ text_ltb (mr_memory_id b) (mr_memory_id a) = false).

Lemma list_filter_sublist {A} (p : A -> bool) l : List.filter p l `sublist_of` l.
Proof. induction l as [|a l IH]; cbn; [done|]. destruct (p a); by constructor. Qed.

Lemma score_of_row r : score_of r = row_score r.
Proof. unfold score_of, row_score. by destruct (mr_pinned r); case_bool_decide as H; destruct (decide _). Qed.

Lemma pg_gtb_above x y : pg_gtb x y = true <-> score_above x y.
Proof.
  unfold pg_gtb, score_above. destruct (is_nan_f x), (is_nan_f y); cbn; intuition discriminate.
Qed.

Lemma not_after_first a b : not_after before a b -> comes_first a b.
Proof.
  unfold not_after, row_before, comes_first. rewrite !score_of_row, <-!pg_gtb_above.
  destruct (pg_gtb (row_score a) (row_score b)) eqn:Eab; [by left|]. rewrite orb_false_r.
  destruct (pg_gtb (row_score b) (row_score a)) eqn:Eba; [done|]. intros H. right. split; [done|].
  destruct (Z.eqb_spec (mr_updated_at b) (mr_updated_at a)); cbn in H; [by right|left; lia].
Qed.

(** C17: For parameters that are valid text (UTF-8 without NUL) and a trimmed
    query none of whose characters is a wildcard of [LIKE] (percent,
    underscore, backslash), also in lower case, in a locale whose lower case
    leaves the percent sign alone and whose order of texts is a strict weak
    one: the lexical source, over a database that answers, reads the table once
    and changes nothing.  Its candidates are the first [topK] (8 when none is
    asked for) of the rows the scope may see that mention the query, ranked by
    score (1000 if pinned, 100 if saved by the user, and the importance), then
    the most recently updated, then by identifier; without any it is not
    found. *)
Theorem lexical_recall_exact scope query topK e :
  lower percent = percent ->
  forallb text_ok [TenantID scope; UserID scope; ProjectID scope; SessionID scope; TrimSpace query] = true ->
  plain_query (TrimSpace query) ->
  let k := if topK <=? 0 then 8 else topK in
  exists found ranked,
    (forall r, r ∈ found <-> r ∈ table_of e /\ visible_to scope r /\ mentions (TrimSpace query) r) /\
    found `sublist_of` table_of e /\ ranked ≡ₚ found /\ StronglySorted comes_first ranked /\
    source scope query topK e =
      (e, if bool_decide (found = []) then Fail (ErrSentinel PgNotFound)
          else Ok (map (fun r => mkRecallCandidate (mr_memory_id r) (score_of r)) (take (Z.to_nat k) ranked))).
Proof using TO.
  intros Hl Hok Hp k. cbn [forallb] in Hok. rewrite !andb_true_iff in Hok.
  destruct Hok as (Ht & Hu & Hpr & Hs & Hq & _).
  set (pattern := lexicalPattern query).
  assert (Hpat : text_ok pattern = true).
  { unfold pattern, lexicalPattern. case_bool_decide; [done|by apply text_ok_pattern]. }
  assert (Htok : exists ts, like_tokens (map lower (runes pattern)) = Some ts /\
            forall r, row_matches lower pattern ts r = true <-> mentions (TrimSpace query) r).
  { unfold pattern, lexicalPattern. case_bool_decide as Hq0.
    - change (map lower (runes "%")) with [lower percent]. rewrite Hl. exists [LikeAny]. split; [done|]. intros r. rewrite Hq0. split; [by left|]. intros _.
      unfold row_matches. rewrite !orb_true_iff. left. left. right. apply like_any.
      exists (map lower (runes (mr_content r))), []. by rewrite app_nil_r.
    - rewrite pattern_runes by (unfold text_ok in Hq; by apply andb_true_iff in Hq as [? _]).
      cbn [map]. rewrite map_app. cbn [map]. rewrite Hl, like_tokens_pattern by done.
      eexists. split; [done|]. intros r. apply row_matches_plain; try done.
      rewrite pattern_runes by (unfold text_ok in Hq; by apply andb_true_iff in Hq as [? _]).
      cbn [map]. rewrite map_app. cbn [map]. by rewrite Hl, like_tokens_pattern. }
  destruct Htok as (ts & Hts & Hmatch).
  set (found := List.filter (fun r => row_visible (TenantID scope) (UserID scope) (ProjectID scope) (SessionID scope) r
                                      && row_matches lower pattern ts r) (table_of e)).
  exists found, (SliceStable before found). split_and!.
  - intros r. unfold found. rewrite !list_elem_of_In, filter_In, andb_true_iff. by rewrite Hmatch, row_visible_spec.
  - apply list_filter_sublist.
  - apply SliceStable_perm.
  - eapply StronglySorted_weaken; [intros a b _ _; apply not_after_first|].
    apply (SliceStable_sorted before (fun _ => True)). by apply Forall_true.
  - unfold lexical_source, RecallCandidates_lexical. rewrite run_bind. unfold attempt. cbn [fst snd].
    fold pattern. unfold lexical_rows. cbn [forallb]. rewrite Ht, Hu, Hpr, Hs, Hpat, Hts. fold found.
    change (if topK <=? 0 then 8 else topK) with k. cbn -[take SliceStable bool_decide].
    rewrite map_map. setoid_rewrite score_of_row. clearbody found.
    assert (Hnil : map (fun r => (mr_memory_id r, row_score r)) (take (Z.to_nat k) (SliceStable before found)) = [] <-> found = []).
    { pose proof (SliceStable_length before found) as Hlen. split; [|intros ->; cbn; by rewrite take_nil].
      destruct found as [|r rest]; [done|]. destruct (SliceStable before (r :: rest)) as [|r' rest']; [done|].
      intros Hm. exfalso. destruct (Z.to_nat k) as [|n] eqn:Hn; [|done]. revert Hn. unfold k. case_match; lia. }
    destruct (decide (found = [])) as [Hf|Hf].
    + by rewrite bool_decide_eq_true_2, bool_decide_eq_true_2 by (by rewrite ?Hnil).
    + by rewrite bool_decide_eq_false_2, bool_decide_eq_false_2 by (by rewrite ?Hnil).
Qed.
End lexical.

(** ASCII lower case and byte order, and a table of three notes. *)
Definition ascii_lower (r : Z) : Z := if (65 <=? r) && (r <=? 90) then r + 32 else r.
Definition note (id content : string) (project : option string) (pinned : bool) (at_ : time) : memory_row :=
  mkMemoryRow id "acme" "alice" project None "agent_inferred" "note" content ["drinks"%string] f_half pinned false false at_.
Definition notes : list memory_row :=
  [note "m1" "likes green tea" None false 10; note "m2" "Tea at five" (Some "p"%string) false 20;
   note "m3" "coffee" None true 30].

#[export] Instance str_ltb_weak : StrictWeak str_ltb (fun _ => True).
Proof. apply (StrictWeak_str (fun s => s) (fun _ => True)). Qed.

Definition tea_scope : Scope := mkScope "acme" "alice" "p" "s1".

Lemma lexical_recall_exact_witness :
  result_map (map cand_MemoryID) (lexical_source ascii_lower str_ltb (fun t => t) tea_scope " TEA " 0 notes).2
    = Ok ["m2"%string; "m1"%string] /\
  exists found ranked,
    (forall r, r ∈ found <-> r ∈ notes /\
       visible_to tea_scope r /\ mentions ascii_lower (TrimSpace " TEA ") r) /\
    ranked ≡ₚ found /\ StronglySorted (comes_first str_ltb) ranked.
Proof.
  split; [vm_compute; reflexivity|].
  destruct (lexical_recall_exact ascii_lower str_ltb (fun t => t) tea_scope " TEA " 0 notes)
    as (found & ranked & Hin & _ & Hperm & Hsort & _); [reflexivity|vm_compute; reflexivity| |].
  { unfold plain_query. change (map ascii_lower (runes (TrimSpace " TEA "))) with [116; 101; 97]. by repeat constructor. }
  exists found, ranked. split; [exact Hin|]. split; [exact Hperm|exact Hsort].
Defined.

(** An empty query asks for every visible row, although the statement's own
    test for it, [$5 = '%%'], fails on the pattern the code sends. *)
Example empty_query_pattern : lexicalPattern "  " = "%"%string.
Proof. reflexivity. Qed.

(** The wildcards of a query are not escaped: an underscore matches any
    character and a trailing backslash asks for a literal [%]. *)
Example wildcards_unescaped :
  result_map (map fst) (lexical_rows ascii_lower str_ltb notes "acme" "alice" "p" "s1" (lexicalPattern "t_a") 8)
    = Ok ["m2"%string; "m1"%string] /\
  result_map (map fst) (lexical_rows ascii_lower str_ltb notes "acme" "alice" "p" "s1" (lexicalPattern "tea\") 8) = Ok [].
Proof. vm_compute. split; reflexivity. Qed.
Close Scope Z_scope.
