(* ===== verification/Migrations.v ===== *)
(** * Schema migrations: [service/postgres_migrator.go]

    The DDL statements of [gatewayMigrationStatements] act on a schema, a map
    from table names to columns and primary keys.  A statement is atomic; the
    connection may fail before it runs or after it has committed.  The file
    ends with what the stores of the gateway need of the schema. *)
From S2P Require Import Prelude HttpApi Contract Sessions.

(** ** Schemas *)
Inductive sql_type := TEXT | TIMESTAMPTZ | BIGINT.

#[export] Instance sql_type_eq_dec : EqDecision sql_type.
Proof. solve_decision. Defined.

Record column := mkColumn {
  col_name : string;
  col_type : sql_type;
  col_not_null : bool;
  col_default : option string
}.

Record table := mkTable { tb_columns : list column; tb_key : list string }.

Abbreviation schema := (gmap string table).

Definition find_column (name : string) (t : table) : option column :=
  find (fun c => bool_decide (col_name c = name)) (tb_columns t).

Definition add_column (c : column) (t : table) : table :=
  match find_column (col_name c) t with
  | Some _ => t
  | None => mkTable (tb_columns t ++ [c]) (tb_key t)
  end.

Definition make_nullable (name : string) (c : column) : column :=
  if bool_decide (col_name c = name) then mkColumn (col_name c) (col_type c) false (col_default c) else c.
Definition drop_not_null (name : string) (t : table) : table :=
  mkTable (map (make_nullable name) (tb_columns t)) (tb_key t).

(** [CREATE TABLE IF NOT EXISTS], [ALTER TABLE ... ADD COLUMN IF NOT EXISTS]
    and [ALTER TABLE ... ALTER COLUMN ... DROP NOT NULL]. *)
Inductive statement :=
| CreateTable (name : string) (t : table)
| AddColumn (name : string) (c : column)
| DropNotNull (name : string) (c : string).

(** The SQLSTATE of the refusals: undefined table, undefined column, and a
    column of the primary key. *)
Definition apply_statement (stmt : statement) (sch : schema) : result goerror schema :=
  match stmt with
  | CreateTable name t =>
      match sch !! name with Some _ => Ok sch | None => Ok (<[name := t]> sch) end
  | AddColumn name c =>
      match sch !! name with
      | Some t => Ok (<[name := add_column c t]> sch)
      | None => Fail (ErrText "42P01")
      end
  | DropNotNull name c =>
      match sch !! name with
      | Some t =>
          if negb (bool_decide (is_Some (find_column c t))) then Fail (ErrText "42703")
          else if bool_decide (c ∈ tb_key t) then Fail (ErrText "42P16")
          else Ok (<[name := drop_not_null c t]> sch)
      | None => Fail (ErrText "42P01")
      end
  end.

(** ** The migrator *)
Record database := mkDatabase { db_schema : schema; db_faults : list fault }.

Definition exec (stmt : statement) : GoM database unit :=
  fun db =>
    let rest := tail (db_faults db) in
    match head (db_faults db), apply_statement stmt (db_schema db) with
    | Some (FaultBefore msg), _ => (mkDatabase (db_schema db) rest, Fail (ErrText msg))
    | Some (FaultAfter msg), Ok sch => (mkDatabase sch rest, Fail (ErrText msg))
    | _, Ok sch => (mkDatabase sch rest, Ok tt)
    | _, Fail err => (mkDatabase (db_schema db) rest, Fail err)
    end.

Definition session_table : string := "memory_gateway_session".
Definition scope_version_table : string := "memory_gateway_scope_version".
Definition scope_key : list string := ["tenant_id"; "user_id"; "project_id"; "session_id"].

Definition not_null_text (name : string) : column := mkColumn name TEXT true None.
Definition defaulted_text (name : string) : column := mkColumn name TEXT true (Some EmptyString).
Definition nullable_time (name : string) : column := mkColumn name TIMESTAMPTZ false None.

Definition new_session_table : table :=
  mkTable [not_null_text "tenant_id"; not_null_text "user_id"; defaulted_text "project_id";
           not_null_text "session_id"; not_null_text "status"; not_null_text "mode";
           nullable_time "closed_at"; nullable_time "last_heartbeat_at"] scope_key.
Definition new_scope_version_table : table :=
  mkTable [not_null_text "tenant_id"; not_null_text "user_id"; defaulted_text "project_id";
           defaulted_text "session_id"; mkColumn "version" BIGINT true None] scope_key.

Definition gatewayMigrationStatements : list statement :=
  [ CreateTable session_table new_session_table;
    AddColumn session_table (nullable_time "last_heartbeat_at");
    DropNotNull session_table "closed_at";
    CreateTable scope_version_table new_scope_version_table ].

Fixpoint run_statements (stmts : list statement) : GoM database unit :=
  match stmts with
  | [] => mret tt
  | stmt :: rest =>
      r ← attempt (exec stmt);
      match r with
      | Ok _ => run_statements rest
      | Fail err => throw (ErrWrap "memory-gateway/service: migrate gateway schema" err)
      end
  end.

Definition Migrate (pool_ok : bool) : GoM database unit :=
  if negb pool_ok then throw pool_required else run_statements gatewayMigrationStatements.

(** [runMigrations]: a nil migrator does nothing. *)
Definition runMigrations (migrator : option (GoM database unit)) : GoM database unit :=
  match migrator with None => mret tt | Some migrate => migrate end.

(** ** What the stores need of the schema

    A query names the columns it reads, with the type it reads them at, and
    for an insert the columns it writes (and whether it may write NULL) and
    its [ON CONFLICT] target. *)
Record store_query := mkStoreQuery {
  sq_table : string;
  sq_reads : list (string * sql_type);
  sq_writes : list (string * sql_type * bool);
  sq_conflict : option (list string)
}.

Definition scope_columns : list (string * sql_type) := map (fun c => (c, TEXT)) scope_key.
Definition write_scope : list (string * sql_type * bool) := map (fun c => (c, TEXT, false)) scope_key.
Definition session_columns : list (string * sql_type) :=
  scope_columns ++ [("status", TEXT); ("mode", TEXT); ("closed_at", TIMESTAMPTZ); ("last_heartbeat_at", TIMESTAMPTZ)].

Definition load_session_query : store_query := mkStoreQuery session_table session_columns [] None.
Definition save_closed_query : store_query :=
  mkStoreQuery session_table session_columns
    (write_scope ++ [("status", TEXT, false); ("mode", TEXT, false); ("closed_at", TIMESTAMPTZ, false);
                     ("last_heartbeat_at", TIMESTAMPTZ, true)]) (Some scope_key).
Definition save_heartbeat_query : store_query :=
  mkStoreQuery session_table session_columns
    (write_scope ++ [("status", TEXT, false); ("mode", TEXT, false); ("closed_at", TIMESTAMPTZ, true);
                     ("last_heartbeat_at", TIMESTAMPTZ, false)]) (Some scope_key).
Definition current_version_query : store_query :=
  mkStoreQuery scope_version_table (scope_columns ++ [("version", BIGINT)]) [] None.
Definition bump_version_query : store_query :=
  mkStoreQuery scope_version_table [("version", BIGINT)] (write_scope ++ [("version", BIGINT, false)]) (Some scope_key).
Definition store_queries : list store_query :=
  [load_session_query; save_closed_query; save_heartbeat_query; current_version_query; bump_version_query].

Definition column_at (t : table) (name : string) (ty : sql_type) : bool :=
  match find_column name t with Some c => bool_decide (col_type c = ty) | None => false end.
Definition accepts (t : table) (w : string * sql_type * bool) : bool :=
  column_at t w.1.1 w.1.2 &&
  match find_column w.1.1 t with Some c => negb (w.2 && col_not_null c) | None => false end.
(** A column an insert leaves out must have a default or allow NULL. *)
Definition optional_column (written : list string) (c : column) : bool :=
  bool_decide (col_name c ∈ written) || negb (col_not_null c) || bool_decide (is_Some (col_default c)).

Definition well_typed (sch : schema) (q : store_query) : bool :=
  match sch !! sq_table q with
  | None => false
  | Some t =>
      forallb (fun r => column_at t r.1 r.2) (sq_reads q) &&
      forallb (accepts t) (sq_writes q) &&
      match sq_conflict q with
      | None => true
      | Some target => bool_decide (target = tb_key t) &&
          forallb (optional_column (map (fun w => w.1.1) (sq_writes q))) (tb_columns t)
      end
  end.

(** ** Proofs *)

(** A table some earlier version of the gateway may have left: the column
    [last_heartbeat_at] can be missing and [closed_at] can be NOT NULL. *)
Definition old_session_table (t : table) : Prop :=
  tb_key t = scope_key /\
  Forall (fun name => column_at t name TEXT = true) (scope_key ++ ["status"; "mode"]) /\
  column_at t "closed_at" TIMESTAMPTZ = true /\
  match find_column "last_heartbeat_at" t with
  | None => True
  | Some c => col_type c = TIMESTAMPTZ /\ col_not_null c = false
  end /\
  Forall (fun c => optional_column (scope_key ++ ["status"; "mode"; "closed_at"]) c = true) (tb_columns t).

Definition old_scope_version_table (t : table) : Prop :=
  tb_key t = scope_key /\
  Forall (fun name => column_at t name TEXT = true) scope_key /\
  column_at t "version" BIGINT = true /\
  Forall (fun c => optional_column (scope_key ++ ["version"]) c = true) (tb_columns t).

Definition upgradable (sch : schema) : Prop :=
  (forall t, sch !! session_table = Some t -> old_session_table t) /\
  (forall t, sch !! scope_version_table = Some t -> old_scope_version_table t).

Definition upgrade_session (t : table) : table :=
  drop_not_null "closed_at" (add_column (nullable_time "last_heartbeat_at") t).
Definition migrated (sch : schema) : schema :=
  <[session_table := upgrade_session (default new_session_table (sch !! session_table))]>
    (<[scope_version_table := default new_scope_version_table (sch !! scope_version_table)]> sch).

Lemma find_snoc {A} (f : A -> bool) l x :
  find f (l ++ [x]) = match find f l with Some y => Some y | None => if f x then Some x else None end.
Proof. induction l as [|y l IH]; cbn; [done|]. by destruct (f y). Qed.

Lemma find_map {A} (f : A -> bool) (g : A -> A) l :
  (forall x, f (g x) = f x) -> find f (map g l) = g <$> find f l.
Proof. intros H. induction l as [|y l IH]; cbn; [done|]. rewrite H. by destruct (f y). Qed.

Lemma find_column_drop name n t :
  find_column name (drop_not_null n t) = make_nullable n <$> find_column name t.
Proof. apply find_map. intros c. unfold make_nullable. by destruct (bool_decide (col_name c = n)). Qed.

Lemma find_column_add name c t :
  find_column name (add_column c t) =
  match find_column name t with
  | Some c' => Some c'
  | None => if bool_decide (col_name c = name) then Some c else None
  end.
Proof.
  unfold add_column. destruct (find_column (col_name c) t) as [c'|] eqn:E.
  - destruct (find_column name t) eqn:E'; [done|]. destruct (bool_decide_reflect (col_name c = name)); [|done].
    congruence.
  - unfold find_column. cbn [tb_columns]. by rewrite find_snoc.
Qed.

Lemma find_column_upgrade name t :
  find_column name (upgrade_session t) =
  make_nullable "closed_at" <$>
  match find_column name t with
  | Some c => Some c
  | None => if bool_decide ("last_heartbeat_at"%string = name) then Some (nullable_time "last_heartbeat_at") else None
  end.
Proof. unfold upgrade_session. by rewrite find_column_drop, find_column_add. Qed.

(** Each step of the upgrade is absorbed by the whole. *)
Lemma upgrade_session_add t :
  upgrade_session (add_column (nullable_time "last_heartbeat_at") t) = upgrade_session t.
Proof.
  unfold upgrade_session. f_equal. unfold add_column at 1. rewrite find_column_add.
  rewrite bool_decide_eq_true_2 by done. by destruct (find_column _ t).
Qed.

Lemma make_nullable_idem n c : make_nullable n (make_nullable n c) = make_nullable n c.
Proof.
  unfold make_nullable. destruct (decide (col_name c = n)) as [Hc|Hc].
  - rewrite (bool_decide_eq_true_2 (col_name c = _)) by done. cbn [col_name]. by rewrite bool_decide_eq_true_2.
  - rewrite (bool_decide_eq_false_2 (col_name c = _)) by done. by rewrite bool_decide_eq_false_2.
Qed.

Lemma drop_not_null_idem n t : drop_not_null n (drop_not_null n t) = drop_not_null n t.
Proof.
  unfold drop_not_null. cbn [tb_columns tb_key]. f_equal. rewrite map_map. apply map_ext, make_nullable_idem.
Qed.

Lemma upgrade_session_drop t : upgrade_session (drop_not_null "closed_at" t) = upgrade_session t.
Proof.
  unfold upgrade_session, add_column. rewrite find_column_drop.
  destruct (find_column _ t); cbn [fmap option_fmap option_map]; [apply drop_not_null_idem|].
  unfold drop_not_null. cbn [tb_columns tb_key]. f_equal. rewrite !map_app, map_map. f_equal.
  apply map_ext, make_nullable_idem.
Qed.

Lemma optional_nullable written n c :
  optional_column written c = true -> optional_column written (make_nullable n c) = true.
Proof.
  unfold make_nullable. destruct (bool_decide (col_name c = n)); [|done]. unfold optional_column. cbn.
  by rewrite orb_true_r.
Qed.

Lemma column_at_drop t n name ty : column_at (drop_not_null n t) name ty = column_at t name ty.
Proof.
  unfold column_at. rewrite find_column_drop. destruct (find_column name t) as [c|]; [|done]. cbn.
  unfold make_nullable. by destruct (bool_decide (col_name c = n)).
Qed.

Lemma column_at_add t c name ty : column_at t name ty = true -> column_at (add_column c t) name ty = true.
Proof. unfold column_at. rewrite find_column_add. by destruct (find_column name t). Qed.

Lemma old_session_add t :
  old_session_table t -> old_session_table (add_column (nullable_time "last_heartbeat_at") t).
Proof.
  intros (Hk & Ht & Hc & Hl & Ho). split_and!.
  - unfold add_column. by destruct (find_column _ t).
  - eapply Forall_impl; [exact Ht|]. intros. by apply column_at_add.
  - by apply column_at_add.
  - rewrite find_column_add. by destruct (find_column "last_heartbeat_at" t).
  - unfold add_column. destruct (find_column _ t); [done|]. apply Forall_app. split; [done|by repeat constructor].
Qed.

Lemma old_session_drop t : old_session_table t -> old_session_table (drop_not_null "closed_at" t).
Proof.
  intros (Hk & Ht & Hc & Hl & Ho). split_and!; [done| |by rewrite column_at_drop| |].
  - eapply Forall_impl; [exact Ht|]. intros. by rewrite column_at_drop.
  - rewrite find_column_drop. destruct (find_column "last_heartbeat_at" t) as [c|]; [|done].
    destruct Hl. unfold fmap, option_fmap, option_map, make_nullable. by destruct (bool_decide (col_name c = _)).
  - apply Forall_fmap. eapply Forall_impl; [exact Ho|]. intros. by apply optional_nullable.
Qed.

Lemma old_session_new : old_session_table new_session_table.
Proof. split_and!; repeat constructor. Qed.
Lemma old_scope_version_new : old_scope_version_table new_scope_version_table.
Proof. split_and!; repeat constructor. Qed.

(** ** Runs *)
Fixpoint apply_statements (stmts : list statement) (sch : schema) : result goerror schema :=
  match stmts with
  | [] => Ok sch
  | stmt :: rest =>
      match apply_statement stmt sch with Ok sch' => apply_statements rest sch' | Fail err => Fail err end
  end.

(** Whatever the connection does, a run has applied a prefix of the
    statements, all of them if it answers with success. *)
Lemma run_statements_prefix stmts db db' r :
  run_statements stmts db = (db', r) ->
  exists pre post, stmts = (pre ++ post)%list /\ apply_statements pre (db_schema db) = Ok (db_schema db') /\
    (r = Ok tt -> post = []).
Proof.
  revert db. induction stmts as [|stmt rest IH]; intros db.
  - intros [= <- <-]. by exists [], [].
  - cbn [run_statements]. rewrite run_bind. unfold attempt, exec.
    destruct (head (db_faults db)) as [[| |]|]; destruct (apply_statement stmt (db_schema db)) as [sch|err] eqn:Ea; cbn.
    all: try (intros [= <- <-]; exists [], (stmt :: rest); split_and!; done).
    all: try (intros [= <- <-]; exists [stmt], rest; split_and!; cbn; rewrite ?Ea; done).
    all: intros Hr; destruct (IH _ Hr) as (pre & post & -> & Hp & Hok); exists (stmt :: pre), post;
         split_and!; [done|cbn; by rewrite Ea|done].
Qed.

Lemma run_statements_faultless stmts sch sch' :
  apply_statements stmts sch = Ok sch' ->
  run_statements stmts (mkDatabase sch []) = (mkDatabase sch' [], Ok tt).
Proof.
  revert sch. induction stmts as [|stmt rest IH]; intros sch; [by intros [= <-]|].
  cbn [run_statements apply_statements]. rewrite run_bind. unfold attempt, exec. cbn.
  destruct (apply_statement stmt sch) as [sch1|]; [|done]. cbn. apply IH.
Qed.

Lemma migrated_other sch name :
  name <> session_table -> name <> scope_version_table -> migrated sch !! name = sch !! name.
Proof. intros H1 H2. unfold migrated. by rewrite !lookup_insert_ne by done. Qed.

(** [migrated] only depends on what the upgrade makes of the two tables. *)
Lemma migrated_ext sch sch' :
  upgrade_session (default new_session_table (sch' !! session_table))
    = upgrade_session (default new_session_table (sch !! session_table)) ->
  default new_scope_version_table (sch' !! scope_version_table)
    = default new_scope_version_table (sch !! scope_version_table) ->
  (forall name, name <> session_table -> name <> scope_version_table -> sch' !! name = sch !! name) ->
  migrated sch' = migrated sch.
Proof.
  intros H1 H2 H3. apply map_eq. intros name. unfold migrated. rewrite H1, H2.
  destruct (decide (name = session_table)) as [->|Hn]; [by rewrite !lookup_insert_eq|].
  rewrite !(lookup_insert_ne _ session_table) by done.
  destruct (decide (name = scope_version_table)) as [->|Hm]; [by rewrite !lookup_insert_eq|].
  rewrite !lookup_insert_ne by done. by apply H3.
Qed.

(** A statement of the migration keeps what the migration leads to. *)
Definition on_the_way (sch sch' : schema) : Prop := upgradable sch' /\ migrated sch' = migrated sch.

Lemma session_step sch t t' :
  upgradable sch -> default new_session_table (sch !! session_table) = t ->
  old_session_table t' -> upgrade_session t' = upgrade_session t -> on_the_way sch (<[session_table := t']> sch).
Proof.
  intros [Hs Hv] Ht Ho Hu. split.
  - split; intros t0.
    + rewrite lookup_insert_eq. by intros [= <-].
    + rewrite lookup_insert_ne by done. apply Hv.
  - apply migrated_ext; [by rewrite lookup_insert_eq; cbn; rewrite Ht| |].
    + by rewrite lookup_insert_ne.
    + intros. by rewrite lookup_insert_ne.
Qed.

(** One statement after another: the session table is created, completed and
    relaxed, then the version table is created. *)
Lemma apply_step sch sch1 stmt :
  upgradable sch -> stmt ∈ gatewayMigrationStatements ->
  apply_statement stmt sch = Ok sch1 -> on_the_way sch sch1.
Proof.
  intros U Hin. pose proof U as [Us Uv].
  assert (Hnew : default new_session_table (sch !! session_table) = default new_session_table (sch !! session_table)) by done.
  unfold gatewayMigrationStatements in Hin. rewrite !elem_of_cons, elem_of_nil in Hin.
  destruct Hin as [->|[->|[->|[->|[]]]]]; cbn [apply_statement].
  - destruct (sch !! session_table) as [t|] eqn:E; intros [= <-]; [done|].
    eapply session_step; [done|by rewrite E|apply old_session_new|done].
  - destruct (sch !! session_table) as [t|] eqn:E; intros [= <-].
    eapply session_step; [done|by rewrite E|by apply old_session_add, Us|apply upgrade_session_add].
  - destruct (sch !! session_table) as [t|] eqn:E; [|done].
    destruct (negb _); [done|]. destruct (bool_decide _); [done|]. intros [= <-].
    eapply session_step; [done|by rewrite E|by apply old_session_drop, Us|apply upgrade_session_drop].
  - destruct (sch !! scope_version_table) as [t|] eqn:E; intros [= <-]; [done|]. split.
    + split; intros t0; [rewrite lookup_insert_ne by done; apply Us|].
      rewrite lookup_insert_eq. intros [= <-]. apply old_scope_version_new.
    + apply migrated_ext; [by rewrite lookup_insert_ne|by rewrite lookup_insert_eq, E|].
      intros. by rewrite lookup_insert_ne.
Qed.

Lemma apply_prefix pre sch sch1 :
  upgradable sch -> (forall stmt, stmt ∈ pre -> stmt ∈ gatewayMigrationStatements) ->
  apply_statements pre sch = Ok sch1 -> on_the_way sch sch1.
Proof.
  revert sch. induction pre as [|stmt pre IH]; intros sch U Hin; [by intros [= <-]|].
  cbn [apply_statements]. destruct (apply_statement stmt sch) as [sch'|] eqn:E; [|done].
  destruct (apply_step sch sch' stmt U (Hin _ (list_elem_of_here _ _)) E) as [U' E']. intros Hp.
  destruct (IH sch' U' (fun s Hs => Hin s (list_elem_of_further _ _ _ Hs)) Hp) as [U2 E2]. split; [done|congruence].
Qed.

Lemma apply_all sch : upgradable sch -> apply_statements gatewayMigrationStatements sch = Ok (migrated sch).
Proof.
  intros U. cbn [apply_statements gatewayMigrationStatements apply_statement].
  set (t := default new_session_table (sch !! session_table)).
  assert (Ht : old_session_table t).
  { unfold t. destruct (sch !! session_table) eqn:E; [by apply U|apply old_session_new]. }
  assert (Hsch : match sch !! session_table with Some _ => @Ok goerror _ sch
                 | None => Ok (<[session_table := new_session_table]> sch) end = Ok (<[session_table := t]> sch)).
  { unfold t. destruct (sch !! session_table) eqn:E; [|done]. cbn. by rewrite insert_id. }
  rewrite Hsch, lookup_insert_eq, insert_insert_eq, lookup_insert_eq.
  pose proof (old_session_add _ Ht) as (Hk & _ & Hc & _).
  set (t1 := add_column (nullable_time "last_heartbeat_at") t) in *.
  assert (is_Some (find_column "closed_at" t1)) as Hs.
  { unfold column_at in Hc. by destruct (find_column "closed_at" t1). }
  rewrite (bool_decide_eq_true_2 _ Hs). cbn [negb]. rewrite Hk, bool_decide_eq_false_2.
  2: { unfold scope_key. rewrite !elem_of_cons, elem_of_nil. by intros [|[|[|[|]]]]. }
  rewrite insert_insert_eq, lookup_insert_ne by done. unfold migrated. fold t.
  change (drop_not_null "closed_at" t1) with (upgrade_session t).
  destruct (sch !! scope_version_table) as [v|] eqn:Ev; cbn [default from_option].
  - f_equal. f_equal. by rewrite insert_id.
  - f_equal. by rewrite insert_insert_ne.
Qed.

(** Any number of migrations, each with the faults of its connection. *)
Definition migration_runs (runs : list (list fault)) (sch : schema) : schema :=
  foldl (fun sch faults => db_schema (Migrate true (mkDatabase sch faults)).1) sch runs.

Lemma Migrate_on_the_way sch faults :
  upgradable sch -> on_the_way sch (db_schema (Migrate true (mkDatabase sch faults)).1).
Proof.
  intros U. destruct (Migrate true (mkDatabase sch faults)) as [db r] eqn:E.
  destruct (run_statements_prefix _ _ _ _ E) as (pre & post & Heq & Hp & _).
  eapply apply_prefix; [done| |exact Hp]. rewrite Heq. intros. apply elem_of_app. by left.
Qed.

Lemma migration_runs_on_the_way runs sch : upgradable sch -> on_the_way sch (migration_runs runs sch).
Proof.
  revert sch. induction runs as [|faults runs IH]; intros sch U; [done|]. cbn.
  destruct (Migrate_on_the_way sch faults U) as [U' E]. destruct (IH _ U') as [U2 E2]. split; [done|by etrans].
Qed.

Lemma column_at_upgrade t name ty : column_at t name ty = true -> column_at (upgrade_session t) name ty = true.
Proof. intros H. unfold upgrade_session. rewrite column_at_drop. by apply column_at_add. Qed.

Lemma accepts_not_null t name ty : column_at t name ty = true -> accepts t (name, ty, false) = true.
Proof. intros H. unfold accepts. cbn. rewrite H. unfold column_at in H. by destruct (find_column name t). Qed.

Lemma accepts_null t name ty c :
  find_column name t = Some c -> col_type c = ty -> col_not_null c = false -> accepts t (name, ty, true) = true.
Proof. intros H1 H2 H3. unfold accepts, column_at. cbn. by rewrite H1, H3, bool_decide_eq_true_2. Qed.

Lemma optional_column_mono l l' c : l ⊆ l' -> optional_column l c = true -> optional_column l' c = true.
Proof.
  intros Hl. unfold optional_column. rewrite !orb_true_iff, !bool_decide_eq_true. intuition.
Qed.

Lemma upgraded_session t :
  old_session_table t -> let t' := upgrade_session t in
  tb_key t' = scope_key /\
  Forall (fun r => column_at t' r.1 r.2 = true) session_columns /\
  accepts t' ("closed_at"%string, TIMESTAMPTZ, true) = true /\
  accepts t' ("last_heartbeat_at"%string, TIMESTAMPTZ, true) = true /\
  Forall (fun c => optional_column (scope_key ++ ["status"; "mode"; "closed_at"; "last_heartbeat_at"]) c = true) (tb_columns t').
Proof.
  intros Ho t'.
  assert (old_session_table t') as (Hk & Ht & Hc & Hl & Hopt) by exact (old_session_drop _ (old_session_add _ Ho)).
  assert (Hh : exists c, find_column "last_heartbeat_at" t' = Some c).
  { unfold t'. rewrite find_column_upgrade. rewrite bool_decide_eq_true_2 by done.
    by destruct (find_column _ t); eexists. }
  destruct Hh as [h Hh]. rewrite Hh in Hl. destruct Hl as [Hht Hhn].
  split_and!; [done| | | |].
  - repeat (apply Forall_app in Ht as [? ?]).
    unfold session_columns, scope_columns. apply Forall_app. split.
    + apply Forall_fmap. exact H.
    + decompose_Forall_hyps. repeat constructor; cbn; [done..|].
      unfold column_at. by rewrite Hh, bool_decide_eq_true_2.
  - unfold t' in *. unfold column_at in Hc. rewrite find_column_upgrade in Hc.
    destruct (find_column "closed_at" t) as [c|] eqn:E; [|done]. cbn in Hc. apply bool_decide_eq_true in Hc.
    eapply accepts_null; [by rewrite find_column_upgrade, E|done|].
    unfold make_nullable in Hc |- *. apply find_some in E as [_ E]. by rewrite E.
  - by eapply accepts_null.
  - eapply Forall_impl; [exact Hopt|]. intros c. apply optional_column_mono.
    intros x. rewrite !elem_of_app, !elem_of_cons. tauto.
Qed.

Lemma well_typed_intro sch q t :
  sch !! sq_table q = Some t ->
  Forall (fun r => column_at t r.1 r.2 = true) (sq_reads q) ->
  Forall (fun w => accepts t w = true) (sq_writes q) ->
  (forall target, sq_conflict q = Some target -> target = tb_key t /\
     Forall (fun c => optional_column (map (fun w => w.1.1) (sq_writes q)) c = true) (tb_columns t)) ->
  well_typed sch q = true.
Proof.
  intros Ht Hr Hw Hc. unfold well_typed. rewrite Ht, !andb_true_iff, !forallb_forall. split_and!.
  - intros x Hx. by apply (proj1 (List.Forall_forall _ _) Hr).
  - intros x Hx. by apply (proj1 (List.Forall_forall _ _) Hw).
  - destruct (sq_conflict q) as [target|]; [|done]. destruct (Hc target eq_refl) as [-> Ho].
    rewrite bool_decide_eq_true_2 by done. apply forallb_forall. by apply List.Forall_forall.
Qed.

Lemma session_well_typed sch q :
  upgradable sch -> q ∈ [load_session_query; save_closed_query; save_heartbeat_query] ->
  well_typed (migrated sch) q = true.
Proof.
  intros [Us _] Hq. set (t := default new_session_table (sch !! session_table)).
  assert (Ht : migrated sch !! session_table = Some (upgrade_session t)) by apply lookup_insert_eq.
  assert (old_session_table t) as Ho.
  { unfold t. destruct (sch !! session_table) eqn:E; [by apply Us|apply old_session_new]. }
  destruct (upgraded_session t Ho) as (Hk & Hr & Hc & Hl & Hopt).
  assert (Hcol : forall name ty, (name, ty) ∈ session_columns -> accepts (upgrade_session t) (name, ty, false) = true)
    by (intros name ty Hn; apply accepts_not_null; exact (proj1 (Forall_forall _ _) Hr (name, ty) Hn)).
  rewrite !elem_of_cons, elem_of_nil in Hq.
  destruct Hq as [->|[->|[->|[]]]]; (eapply well_typed_intro; [exact Ht|exact Hr| |]); cbn [sq_conflict load_session_query save_closed_query save_heartbeat_query];
    try done; try (intros ? [= <-]; split; [done|exact Hopt]).
  all: repeat (apply Forall_cons; split); try done; apply Hcol; set_solver.
Qed.

Lemma version_well_typed sch q :
  upgradable sch -> q ∈ [current_version_query; bump_version_query] -> well_typed (migrated sch) q = true.
Proof.
  intros [_ Uv] Hq. set (v := default new_scope_version_table (sch !! scope_version_table)).
  assert (Hv : migrated sch !! scope_version_table = Some v).
  { unfold migrated. rewrite lookup_insert_ne by done. apply lookup_insert_eq. }
  assert (old_scope_version_table v) as (Vk & Vs & Vv & Vo).
  { unfold v. destruct (sch !! scope_version_table) eqn:E; [by apply Uv|apply old_scope_version_new]. }
  unfold scope_key in Vs. decompose_Forall_hyps.
  rewrite !elem_of_cons, elem_of_nil in Hq.
  destruct Hq as [->|[->|[]]]; (eapply well_typed_intro; [exact Hv| | |]); cbn [sq_conflict current_version_query bump_version_query];
    try done; try (intros ? [= <-]; split; [done|exact Vo]);
    repeat (apply Forall_cons; split); try done; by apply accepts_not_null.
Qed.

(** C19: However many migrations were cut short, by failures before or after a
    statement, a migration that answers with success leaves the schema that an
    uninterrupted one would have made of the original; the next run changes
    nothing and succeeds on a sound connection; tables of others are kept; and
    every statement of the session and version stores is well typed on the
    result, down to NULL-ability, column defaults and conflict targets.  The
    original may be empty or left by an earlier version. *)
Theorem Migrate_resumable sch runs faults db :
  upgradable sch ->
  Migrate true (mkDatabase (migration_runs runs sch) faults) = (db, Ok tt) ->
  db_schema db = migrated sch /\
  Migrate true (mkDatabase (migrated sch) []) = (mkDatabase (migrated sch) [], Ok tt) /\
  (forall name, name <> session_table -> name <> scope_version_table -> db_schema db !! name = sch !! name) /\
  Forall (fun q => well_typed (db_schema db) q = true) store_queries.
Proof.
  intros U Hm. destruct (migration_runs_on_the_way runs sch U) as [U1 E1].
  destruct (run_statements_prefix _ _ _ _ Hm) as (pre & post & Heq & Hp & Hok).
  rewrite (Hok eq_refl), app_nil_r in Heq. subst pre. cbn in Hp.
  change (apply_statements gatewayMigrationStatements (migration_runs runs sch) = Ok (db_schema db)) in Hp.
  rewrite apply_all, E1 in Hp by done. injection Hp as <-.
  destruct (apply_prefix gatewayMigrationStatements sch (migrated sch) U) as [U2 E2]; [done|by apply apply_all|].
  split_and!; [done| |by intros; apply migrated_other|].
  - apply run_statements_faultless. by rewrite apply_all, E2.
  - apply Forall_forall. intros q Hq. unfold store_queries in Hq.
    change (q ∈ [load_session_query; save_closed_query; save_heartbeat_query] ++ [current_version_query; bump_version_query]) in Hq.
    apply elem_of_app in Hq as [Hq|Hq]; [by apply session_well_typed|by apply version_well_typed].
Qed.

(** An early deployment: no heartbeat column, [closed_at] mandatory. *)
Definition first_session_table : table :=
  mkTable [not_null_text "tenant_id"; not_null_text "user_id"; defaulted_text "project_id";
           not_null_text "session_id"; not_null_text "status"; not_null_text "mode";
           mkColumn "closed_at" TIMESTAMPTZ true None] scope_key.
Definition first_schema : schema := {[ session_table := first_session_table ]}.

Lemma Migrate_resumable_witness :
  well_typed first_schema save_heartbeat_query = false /\
  ok_and (Migrate true (mkDatabase (migration_runs [[NoFault; FaultAfter "conn reset"]; [FaultBefore "conn reset"]] first_schema) [])) (fun db _ =>
    db_schema db = migrated first_schema /\ well_typed (db_schema db) save_heartbeat_query = true).
Proof.
  split; [vm_compute; reflexivity|].
  apply ok_and_intro; [vm_compute; reflexivity|]. intros db [] E.
  assert (U : upgradable first_schema).
  { split; intros t Ht; [|done]. injection Ht as <-. split_and!; repeat constructor. }
  destruct (Migrate_resumable first_schema _ _ db U E) as (H1 & _ & _ & H2). split; [done|].
  exact (proj1 (Forall_forall _ _) H2 save_heartbeat_query (list_elem_of_further _ _ _ (list_elem_of_further _ _ _ (list_elem_of_here _ _)))).
Defined.
