(* ===== verification/Wiring.v ===== *)
(** * Wiring: [cmd/memory-gateway/main.go]

    The SQL closures that [main] hands to the background jobs, over the record
    table they query; the trace insert and its positional parameters; the
    choice of recall sources; and the order in which [buildHandler] acquires
    its resources and gives them back. *)
From S2P Require Import Prelude GoStrings GoFloat GoSort HttpApi Authz ScopeKeys Contract RecallCache Sessions ScopeVersions RecallSelection HybridRecall Service SessionCloser Vector Outbox Metrics TraceSink Crons Config.
Open Scope Z_scope.

(** ** The record table

    The columns of [memory_record] that the queries read; [project_id] and
    [session_id] can be NULL. *)
Record record_row := mkRecordRow {
  row_tenant : string;
  row_user : string;
  row_project : option string;
  row_session : option string;
  row_kind : string;
  row_content : string;
  row_deleted : bool;
  row_disabled : bool;
  row_created_at : time;
  row_updated_at : time;
  row_last_access_at : option time;
  row_deleted_at : option time
}.

(** *** Rows

    [storageQueryRows]: what [Scan] answers for each row that [Next] gives, and
    what [Err] answers in the end. *)
Record storageQueryRows (A : Type) := mkStorageQueryRows {
  qr_scans : list (result goerror A);
  qr_err : option goerror
}.
Arguments mkStorageQueryRows {A}.
Arguments qr_scans {A}.
Arguments qr_err {A}.

(** The loop [for rows.Next()] and the [return out, rows.Err()] behind it. *)
Fixpoint scan_rows {A B} (f : A -> B) (scans : list (result goerror A)) (err : option goerror)
    : result goerror (list B) :=
  match scans with
  | [] => match err with Some e => Fail e | None => Ok [] end
  | Fail e :: _ => Fail e
  | Ok a :: rest => result_map (cons (f a)) (scan_rows f rest err)
  end.

Definition query_all {E A B} (f : A -> B) (query : GoM E (storageQueryRows A)) : GoM E (list B) :=
  rows ← query;
  match scan_rows f (qr_scans rows) (qr_err rows) with
  | Ok out => mret out
  | Fail err => throw err
  end.

(** A statement over the state [E], and how its execution goes: it is answered
    in full, refused, or stops at a row or between two of them. *)
Inductive sql_fault :=
| NoFault
| QueryFails (err : goerror)
| ScanFails (n : nat) (err : goerror)
| IterFails (n : nat) (err : goerror).

Definition select_rows {E A} (fault : sql_fault) (statement : E -> list A) : GoM E (storageQueryRows A) :=
  fun e => (e, match fault with
    | NoFault => Ok (mkStorageQueryRows (map Ok (statement e)) None)
    | QueryFails err => Fail err
    | ScanFails n err => Ok (mkStorageQueryRows (map Ok (take n (statement e)) ++ [Fail err])%list None)
    | IterFails n err => Ok (mkStorageQueryRows (map Ok (take n (statement e))) (Some err))
    end).

(** *** [buildIdleSessionsQuery]

    [kind] is [RecordKindWorking]; the query belongs to Postgres. *)
Definition buildIdleSessionsQuery {E} (query : string -> time -> GoM E (storageQueryRows Scope)) (kind : string)
    (cutoff : time) : GoM E (list Scope) :=
  query_all id (query kind cutoff).

Definition row_activity (r : record_row) : time :=
  Z.max (Z.max (row_created_at r) (row_updated_at r)) (default (row_created_at r) (row_last_access_at r)).

(** The [WHERE] clause; NULL and the empty session are both excluded. *)
Definition live_working (kind : string) (r : record_row) : bool :=
  bool_decide (row_kind r = kind) && negb (row_deleted r) && negb (row_disabled r)
  && negb (bool_decide (default ""%string (row_session r) = ""%string)).

(** The [GROUP BY] columns; NULL is a group of its own. *)
Definition session_group (r : record_row) : string * string * option string * option string :=
  (row_tenant r, row_user r, row_project r, row_session r).

Definition group_scope (g : string * string * option string * option string) : Scope :=
  let '(t, u, p, sid) := g in mkScope t u (default ""%string p) (default ""%string sid).

Definition group_rows (kind : string) (table : list record_row) g : list record_row :=
  List.filter (fun r => live_working kind r && bool_decide (session_group r = g)) table.

(** [HAVING MAX(...) < $2] *)
Definition group_idle (kind : string) (table : list record_row) (cutoff : time) g : bool :=
  forallb (fun r => row_activity r <? cutoff) (group_rows kind table g).

Definition idle_groups (kind : string) (table : list record_row) (cutoff : time) :=
  List.filter (group_idle kind table cutoff)
    (remove_dups (map session_group (List.filter (live_working kind) table))).

(** The statement of [buildIdleSessionsQuery]. *)
Definition idle_statement (kind : string) (cutoff : time) (table : list record_row) : list Scope :=
  map group_scope (idle_groups kind table cutoff).

(** *** [buildPurgeSoftDeleted]

    [exec] answers with the number of rows the statement affected. *)
Definition buildPurgeSoftDeleted {E} (exec : time -> GoM E Z) (cutoff : time) : GoM E Z :=
  rowsAffected ← exec cutoff; mret rowsAffected.

(** Its [WHERE] clause. *)
Definition purgeable (cutoff : time) (r : record_row) : bool :=
  row_deleted r && match row_deleted_at r with Some t => t <? cutoff | None => false end.

(** A statement that deletes rows: all of them go, or none, and the caller may
    see an error in both cases. *)
Inductive exec_fault := ExecOk | ExecFails (committed : bool) (err : goerror).

Definition exec_delete {E} (fault : exec_fault) (get : E -> list record_row) (set : list record_row -> E -> E)
    (doomed : record_row -> bool) : GoM E Z :=
  fun e =>
    let kept := List.filter (fun r => negb (doomed r)) (get e) in
    match fault with
    | ExecOk => (set kept e, Ok (Z.of_nat (length (List.filter doomed (get e)))))
    | ExecFails true err => (set kept e, Fail err)
    | ExecFails false err => (e, Fail err)
    end.

(** *** [buildStorageMetricsQuery]: content bytes per tenant, tombstones included *)
Definition octets (r : record_row) : Z := Z.of_nat (String.length (row_content r)).
Definition tenant_bytes (table : list record_row) (tenant : string) : Z :=
  sum_Z (map (fun r => if decide (row_tenant r = tenant) then octets r else 0) table).

Definition storage_statement (table : list record_row) : list (string * Z) :=
  map (fun t => (t, tenant_bytes table t)) (remove_dups (map row_tenant table)).

Definition storage_row (row : string * Z) : StorageRow :=
  mkStorageRow row.1 (if row.2 <? 0 then 0 else row.2) 0.

Definition buildStorageMetricsQuery {E} (query : GoM E (storageQueryRows (string * Z))) : GoM E (list StorageRow) :=
  query_all storage_row query.

(** ** [buildTraceInsertFunc] *)
Inductive sql_arg :=
| ArgText (s : string)
| ArgInt (z : Z)
| ArgTime (t : time)
| ArgJSON (raw : string)
| ArgNull.

Definition nullIfEmpty (s : string) : sql_arg := if bool_decide (s = ""%string) then ArgNull else ArgText s.

Definition colsPerRow : Z := 9.

Section trace_insert.
Context (marshal : gmap string value -> result goerror string) (now : time).

Definition payload_arg (p : gmap string value) : result goerror sql_arg :=
  if bool_decide (p = ∅) then Ok ArgNull else
  match marshal p with
  | Ok raw => Ok (ArgJSON raw)
  | Fail err => Fail (ErrWrap "marshal trace payload" err)
  end.

Definition row_args (row : TraceRow) : result goerror (list sql_arg) :=
  match payload_arg (tr_Payload row) with
  | Fail err => Fail err
  | Ok payload => Ok
      [ArgText (tr_TenantID row); nullIfEmpty (tr_RequestID row); ArgText (tr_Stage row); ArgText (tr_Reason row);
       nullIfEmpty (tr_MemoryID row); if tr_Version row =? 0 then ArgNull else ArgInt (tr_Version row);
       ArgTime (if tr_EmittedAt row =? 0 then now else tr_EmittedAt row); ArgText (tr_Emitter row); payload]
  end.

(** The [i]-th group of placeholders, by their numbers. *)
Definition row_placeholders (i : nat) : list Z :=
  let base := Z.of_nat i * colsPerRow + 1 in
  [base; base + 1; base + 2; base + 3; base + 4; base + 5; base + 6; base + 7; base + 8].

(** The loop over the rows: placeholders and arguments. *)
Fixpoint insert_rows (i : nat) (rows : list TraceRow) : result goerror (list (list Z) * list sql_arg) :=
  match rows with
  | [] => Ok ([], [])
  | row :: rest =>
      match row_args row with
      | Fail err => Fail err
      | Ok args => match insert_rows (Datatypes.S i) rest with
                   | Fail err => Fail err
                   | Ok (ps, more) => Ok (row_placeholders i :: ps, args ++ more)%list
                   end
      end
  end.

Definition placeholder_text (ps : list Z) : string :=
  ("(" +:+ String.concat ", " (map (fun n => "$" +:+ fmt_d n) ps) +:+ ")")%string.

(** [None] when there is nothing to insert; else the statement and its
    arguments, or the error that stops the call. *)
Definition buildTraceInsert (table : string) (rows : list TraceRow) : option (result goerror (string * list sql_arg)) :=
  match rows with
  | [] => None
  | _ => Some (match insert_rows 0 rows with
         | Fail err => Fail err
         | Ok (ps, args) => Ok
             (("INSERT INTO " +:+ table
               +:+ " (tenant_id, request_id, stage, reason, memory_id, version, emitted_at, emitter, payload) VALUES "
               +:+ String.concat ", " (map placeholder_text ps))%string, args)
         end)
  end.
End trace_insert.

(** ** Recall sources *)
Definition buildRecallBackend {E} (hydrator : option (RecallRecordHydrator E)) (mode : string)
    (lexical vector : RecallCandidateSource E) : HybridRecaller E :=
  if bool_decide (mode = "hybrid"%string) then NewHybridRecaller hydrator [Some lexical; Some vector]
  else NewHybridRecaller hydrator [Some lexical].

(** [multiOutboxObserver] *)
Definition multiOutboxObserver {E} (observers : list (option (OutboxProjectionObservation -> E -> E)))
    (obs : OutboxProjectionObservation) (e : E) : E :=
  foldl (fun e o => match o with Some observe => observe obs e | None => e end) e observers.

(** ** [buildHandler]: resources and cleanup *)
Inductive resource :=
| RPool | RTraceSink | RStorageCron | RVectorPool | RReaper | RHardDeleteGC | RRelay | RRelayWorker.
#[export] Instance resource_eq_dec : EqDecision resource.
Proof. solve_decision. Defined.

(** Which of the fallible steps succeed. *)
Record step_results := mkStepResults {
  ok_pool : bool;
  ok_migrate : bool;
  ok_store : bool;
  ok_vector_pool : bool;
  ok_vector_store : bool;
  ok_vector_migrate : bool;
  ok_service : bool;
  ok_relay : bool
}.

(** What happened to the resources, and the cleanup the caller is given. *)
Inductive action := Acquire (r : resource) | Release (r : resource).
Record build_result := mkBuildResult {
  br_actions : list action;
  br_cleanup : option (list resource)   (* in the order it runs *)
}.

(** Every exit after the first resources runs [cleanupFns] from its end. *)
Definition run_cleanup (cleanupFns : list resource) : list resource := rev cleanupFns.

Definition fail_with (acts : list action) (cleanupFns : list resource) : build_result :=
  mkBuildResult (acts ++ map Release (run_cleanup cleanupFns)) None.

(** [buildVectorCandidateSource]: its actions and, when it succeeds, whether
    there is a pool to close. *)
Definition build_vector (cfg : Config) (o : step_results) : list action * option (option resource) :=
  if negb (cf_VectorEnabled cfg) then ([], Some None)
  else if negb (ok_vector_pool o) then ([], None)
  else if negb (ok_vector_store o) then ([Acquire RVectorPool; Release RVectorPool], None)
  else if negb (ok_vector_migrate o) then ([Acquire RVectorPool; Release RVectorPool], None)
  else ([Acquire RVectorPool], Some (Some RVectorPool)).

Definition build_relay (cfg : Config) (o : step_results) (acts : list action) (cleanupFns : list resource) : build_result :=
  if negb (cf_VectorEnabled cfg) then mkBuildResult acts (Some (run_cleanup cleanupFns))
  else if negb (ok_relay o) then fail_with acts cleanupFns
  else mkBuildResult (acts ++ [Acquire RRelay; Acquire RRelayWorker])
         (Some (run_cleanup (cleanupFns ++ [RRelay; RRelayWorker])%list)).

Definition build_jobs (cfg : Config) (o : step_results) (acts : list action) (cleanupFns : list resource) : build_result :=
  let jobs := ((if cf_SessionReaperEnabled cfg then [RReaper] else [])
               ++ (if cf_HardDeleteGCEnabled cfg then [RHardDeleteGC] else []))%list in
  build_relay cfg o (acts ++ map Acquire jobs) (cleanupFns ++ jobs).

Definition buildHandler (cfg : Config) (o : step_results) : build_result :=
  if negb (ok_pool o) then mkBuildResult [] None
  else if negb (ok_migrate o) then mkBuildResult [Acquire RPool; Release RPool] None
  else if negb (ok_store o) then mkBuildResult [Acquire RPool; Release RPool] None
  else
    let cleanupFns := [RPool; RTraceSink; RStorageCron] in
    let '(vacts, vector) := build_vector cfg o in
    let acts := (map Acquire cleanupFns ++ vacts)%list in
    match vector with
    | None => fail_with acts cleanupFns
    | Some vectorCleanup =>
        let cleanupFns := (cleanupFns ++ option_list vectorCleanup)%list in
        if negb (ok_service o) then fail_with acts cleanupFns
        else build_jobs cfg o acts cleanupFns
    end.

(** ** Resources are given back *)
Definition acquired (acts : list action) : list resource :=
  omap (fun a => match a with Acquire r => Some r | Release _ => None end) acts.
Definition released (acts : list action) : list resource :=
  omap (fun a => match a with Release r => Some r | Acquire _ => None end) acts.

(** What is acquired is given back, once. *)
Definition balanced (r : build_result) : Prop :=
  let acq := acquired (br_actions r) in
  NoDup acq /\
  match br_cleanup r with
  | None => released (br_actions r) ≡ₚ acq /\ (acq <> [] -> last (released (br_actions r)) = Some RPool)
  | Some cleanup =>
      released (br_actions r) = [] /\ cleanup ≡ₚ acq /\ last cleanup = Some RPool /\
      (RRelay ∈ cleanup -> take 2 cleanup = [RRelayWorker; RRelay])
  end.

#[export] Instance balanced_dec r : Decision (balanced r).
Proof. unfold balanced. destruct (br_cleanup r); apply _. Defined.

(** Whichever step of [buildHandler] fails, everything acquired until then
    is released, each resource once and the main pool last (the jobs that
    follow the last failing step included); when it succeeds nothing has been
    released and the cleanup it returns gives back everything, the relay
    worker first, then the relay's leases, and the main pool last. *)
Theorem buildHandler_releases_everything cfg o : balanced (buildHandler cfg o).
Proof.
  apply (bool_decide_eq_true (balanced _)). unfold buildHandler, build_vector, build_jobs, build_relay.
  destruct (ok_pool o); [|reflexivity]. destruct (ok_migrate o); [|reflexivity].
  destruct (ok_store o); [|reflexivity]. destruct (cf_VectorEnabled cfg).
  - destruct (ok_vector_pool o); [|reflexivity]. destruct (ok_vector_store o); [|reflexivity].
    destruct (ok_vector_migrate o); [|reflexivity]. destruct (ok_service o); [|reflexivity].
    destruct (cf_SessionReaperEnabled cfg), (cf_HardDeleteGCEnabled cfg), (ok_relay o); vm_compute; reflexivity.
  - destruct (ok_service o); [|reflexivity].
    destruct (cf_SessionReaperEnabled cfg), (cf_HardDeleteGCEnabled cfg); vm_compute; reflexivity.
Qed.

(** ** The trace insert binds the rows *)
Section binding.
Context (marshal : gmap string value -> result goerror string) (now : time).

Lemma row_args_length row cols : row_args marshal now row = Ok cols -> length cols = 9%nat.
Proof. unfold row_args. destruct (payload_arg _ _); [|done]. by intros [= <-]. Qed.

Lemma insert_rows_spec k rows ps args :
  insert_rows marshal now k rows = Ok (ps, args) ->
  length args = (9 * length rows)%nat /\ ps = map row_placeholders (seq k (length rows)) /\
  forall i row, rows !! i = Some row ->
    exists cols, row_args marshal now row = Ok cols /\ forall j, (j < 9)%nat -> args !! (9 * i + j)%nat = cols !! j.
Proof.
  revert k ps args. induction rows as [|row rows IH]; intros k ps args; cbn [insert_rows].
  { by intros [= <- <-]. }
  destruct (row_args marshal now row) as [cols|] eqn:Ec; [|done].
  destruct (insert_rows marshal now (S k) rows) as [[ps' more]|] eqn:Er; [|done].
  intros [= <- <-]. destruct (IH _ _ _ Er) as (Hlen & -> & Hrows).
  pose proof (row_args_length _ _ Ec) as Hc. split_and!.
  - rewrite length_app, Hlen, Hc. cbn. lia.
  - done.
  - intros [|i] r Hr; cbn in Hr.
    + injection Hr as <-. exists cols. split; [done|]. intros j Hj. rewrite lookup_app_l by lia. f_equal; lia.
    + destruct (Hrows _ _ Hr) as (cs & Hcs & Hj). exists cs. split; [done|]. intros j Hlt.
      rewrite lookup_app_r by lia. rewrite <-Hj by done. f_equal. lia.
Qed.

(** The argument a placeholder stands for: [$1] is the first. *)
Definition bound_arg (args : list sql_arg) (n : Z) : option sql_arg := args !! Z.to_nat (n - 1).

Lemma bound_row args i cols :
  length cols = 9%nat -> (forall j, (j < 9)%nat -> args !! (9 * i + j)%nat = cols !! j) ->
  map (bound_arg args) (row_placeholders i) = map Some cols.
Proof.
  intros Hc Hj.
  assert (Hb : forall j n, (j < 9)%nat -> n = Z.of_nat j ->
    bound_arg args (Z.of_nat i * colsPerRow + 1 + n) = cols !! j).
  { intros j n Hlt ->. unfold bound_arg, colsPerRow. rewrite <-Hj by done. f_equal. lia. }
  destruct cols as [|c0 [|c1 [|c2 [|c3 [|c4 [|c5 [|c6 [|c7 [|c8 [|]]]]]]]]]]; try done.
  pose proof (Hb 0%nat 0 ltac:(lia) eq_refl) as H0. rewrite Z.add_0_r in H0.
  unfold row_placeholders. cbn [map]. rewrite H0.
  pose proof (Hb 1%nat 1 ltac:(lia) eq_refl) as H1. pose proof (Hb 2%nat 2 ltac:(lia) eq_refl) as H2. pose proof (Hb 3%nat 3 ltac:(lia) eq_refl) as H3.
  pose proof (Hb 4%nat 4 ltac:(lia) eq_refl) as H4. pose proof (Hb 5%nat 5 ltac:(lia) eq_refl) as H5. pose proof (Hb 6%nat 6 ltac:(lia) eq_refl) as H6.
  pose proof (Hb 7%nat 7 ltac:(lia) eq_refl) as H7. pose proof (Hb 8%nat 8 ltac:(lia) eq_refl) as H8.
  by rewrite H1, H2, H3, H4, H5, H6, H7, H8.
Qed.

(** The trace insert writes each row as it is: a batch of [n] rows becomes
    one statement with [n] groups of nine placeholders and [9 * n] arguments,
    and the placeholders of the [i]-th group denote the nine columns of the
    [i]-th row in the order of the column list, empty identifiers and a zero
    version as NULL; an empty batch is not sent. *)
Theorem trace_insert_binds_rows table rows :
  (rows = [] <-> buildTraceInsert marshal now table rows = None) /\
  forall sql args, buildTraceInsert marshal now table rows = Some (Ok (sql, args)) ->
    exists groups,
      sql = ("INSERT INTO " +:+ table
             +:+ " (tenant_id, request_id, stage, reason, memory_id, version, emitted_at, emitter, payload) VALUES "
             +:+ String.concat ", " (map placeholder_text groups))%string /\
      length groups = length rows /\ length args = (9 * length rows)%nat /\
      forall i row group, rows !! i = Some row -> groups !! i = Some group ->
        result_map (map Some) (row_args marshal now row) = Ok (map (bound_arg args) group).
Proof.
  unfold buildTraceInsert. split; [by destruct rows|]. intros sql args. destruct rows as [|r0 rows0]; [done|].
  remember (r0 :: rows0) as rows eqn:Erows. clear Erows. intros [= H].
  destruct (insert_rows marshal now 0 rows) as [[ps args0]|] eqn:Ei; [|done]. injection H as <- <-.
  destruct (insert_rows_spec _ _ _ _ Ei) as (Hlen & -> & Hrows). exists (map row_placeholders (seq 0 (length rows))).
  split_and!; [done|by rewrite length_map, length_seq|done|].
  intros i row group Hr Hg. destruct (Hrows _ _ Hr) as (cols & Hcols & Hj). rewrite Hcols. cbn. f_equal.
  change (map row_placeholders (seq 0 (length rows))) with (row_placeholders <$> seq 0 (length rows)) in Hg.
  rewrite list_lookup_fmap in Hg. rewrite lookup_seq_lt in Hg by (by eapply lookup_lt_Some). cbn in Hg. injection Hg as <-.
  symmetry. apply bound_row; [by eapply row_args_length|done].
Qed.
End binding.

Definition no_payload (p : gmap string value) : result goerror string := Ok "{}"%string.

Lemma trace_insert_binds_rows_witness :
  match buildTraceInsert no_payload 9 "memory_decision_trace" [row_of "m1"; row_of "m2"] with
  | Some (Ok (_, args)) =>
      length args = 18%nat /\
      result_map (map Some) (row_args no_payload 9 (row_of "m2")) = Ok (map (bound_arg args) (row_placeholders 1))
  | _ => False
  end.
Proof.
  destruct (trace_insert_binds_rows no_payload 9 "memory_decision_trace" [row_of "m1"; row_of "m2"]) as [_ H].
  destruct (buildTraceInsert no_payload 9 "memory_decision_trace" [row_of "m1"; row_of "m2"]) as [[[sql args]|err]|] eqn:E;
    [|discriminate E|discriminate E].
  destruct (H sql args eq_refl) as (groups & _ & _ & Hlen & _). split; [exact Hlen|].
  assert (Eargs : buildTraceInsert no_payload 9 "memory_decision_trace" [row_of "m1"; row_of "m2"] = Some (Ok (sql, args)))
    by exact E.
  vm_compute in E. injection E as _ <-. vm_compute. reflexivity.
Defined.

(** ** The queries, whatever happens to them *)
Lemma scan_rows_all {A B} (f : A -> B) l err :
  scan_rows f (map Ok l) err = match err with Some e => Fail e | None => Ok (map f l) end.
Proof. induction l as [|a l IH]; cbn; [done|]. rewrite IH. by destruct err. Qed.

Lemma scan_rows_stop {A B} (f : A -> B) l e err : scan_rows f (map Ok l ++ [Fail e]) err = Fail e.
Proof. induction l as [|a l IH]; cbn; [done|]. by rewrite IH. Qed.

Lemma query_all_run {E A B} (f : A -> B) fault (statement : E -> list A) e :
  query_all f (select_rows fault statement) e =
  (e, match fault with
      | NoFault => Ok (map f (statement e))
      | QueryFails err | ScanFails _ err | IterFails _ err => Fail err
      end).
Proof.
  unfold query_all, select_rows. rewrite run_bind.
  destruct fault; cbn; rewrite ?scan_rows_all, ?scan_rows_stop; done.
Qed.

(** ** Idle sessions *)
Lemma elem_of_filter_list {A} (f : A -> bool) x l : x ∈ List.filter f l <-> x ∈ l /\ f x = true.
Proof.
  induction l as [|y l IH]; cbn; [rewrite !elem_of_nil; tauto|].
  destruct (f y) eqn:E; rewrite ?elem_of_cons, IH; split; intuition (subst; congruence || auto).
Qed.

Lemma idle_groups_spec kind table cutoff g :
  g ∈ idle_groups kind table cutoff <->
  (exists r, r ∈ table /\ live_working kind r = true /\ session_group r = g) /\
  (forall r, r ∈ table -> live_working kind r = true -> session_group r = g -> row_activity r < cutoff).
Proof.
  unfold idle_groups. rewrite elem_of_filter_list, elem_of_remove_dups, list_elem_of_fmap.
  unfold group_idle. rewrite forallb_forall.
  split.
  - intros [(r & -> & Hr) Hall]. apply elem_of_filter_list in Hr as [Hr Hl]. split; [by exists r|].
    intros r' Hr' Hl' Hg. specialize (Hall r'). rewrite Z.ltb_lt in Hall. apply Hall.
    apply list_elem_of_In, elem_of_filter_list. split; [done|]. rewrite Hl'. cbn. by apply bool_decide_eq_true.
  - intros [(r & Hr & Hl & Hg) Hall]. split; [exists r; split; [done|]; by apply elem_of_filter_list|].
    intros r' Hr'. apply list_elem_of_In, elem_of_filter_list in Hr' as [Hr' Hb].
    apply andb_true_iff in Hb as [Hl' Hg'%bool_decide_eq_true]. rewrite Z.ltb_lt. by apply Hall.
Qed.

Lemma idle_groups_nodup kind table cutoff : NoDup (idle_groups kind table cutoff).
Proof.
  unfold idle_groups. generalize (group_idle kind table cutoff) as f. intros f.
  pose proof (NoDup_remove_dups (map session_group (List.filter (live_working kind) table))) as Hnd.
  induction Hnd as [|x l Hx _ IH]; cbn; [constructor|]. destruct (f x); [|done].
  constructor; [|done]. by rewrite elem_of_filter_list; intros [? _].
Qed.

(** A live working record of a session, two records stored under the same
    columns of one, and a record nobody has created, written or read since. *)
Definition works_in_session (kind : string) (r : record_row) : Prop :=
  row_kind r = kind /\ row_deleted r = false /\ row_disabled r = false /\
  exists sid, row_session r = Some sid /\ sid <> ""%string.
Definition same_session (a b : record_row) : Prop :=
  row_tenant a = row_tenant b /\ row_user a = row_user b /\ row_project a = row_project b /\ row_session a = row_session b.
Definition untouched_since (cutoff : time) (r : record_row) : Prop :=
  row_created_at r < cutoff /\ row_updated_at r < cutoff /\ forall t, row_last_access_at r = Some t -> t < cutoff.
Definition scope_of_row (r : record_row) : Scope :=
  mkScope (row_tenant r) (row_user r) (default ""%string (row_project r)) (default ""%string (row_session r)).

Lemma live_working_spec kind r : live_working kind r = true <-> works_in_session kind r.
Proof.
  unfold live_working, works_in_session. rewrite !andb_true_iff, !negb_true_iff, bool_decide_eq_true, bool_decide_eq_false.
  destruct (row_session r) as [sid|]; cbn; split.
  - intros [[[H1 H2] H3] H4]. split_and!; eauto.
  - intros (H1 & H2 & H3 & ? & [= <-] & H4). tauto.
  - intros [_ H]. done.
  - by intros (_ & _ & _ & ? & ? & _).
Qed.

Lemma row_activity_spec cutoff r : row_activity r < cutoff <-> untouched_since cutoff r.
Proof.
  unfold row_activity, untouched_since. rewrite !Z.max_lub_lt_iff.
  destruct (row_last_access_at r) as [t|]; cbn; split.
  - intros [[H1 H2] H3]. split_and!; [done|done|]. by intros ? [= <-].
  - intros (H1 & H2 & H3). eauto.
  - intros [[H1 H2] H3]. done.
  - intros (H1 & H2 & H3). done.
Qed.

Lemma session_group_spec a b : session_group a = session_group b <-> same_session a b.
Proof.
  unfold session_group, same_session. split; [by intros [= -> -> -> ->]|by intros (-> & -> & -> & ->)].
Qed.

Lemma idle_statement_spec kind cutoff table scope :
  scope ∈ idle_statement kind cutoff table <->
  exists r, r ∈ table /\ works_in_session kind r /\ scope_of_row r = scope /\
    forall r', r' ∈ table -> works_in_session kind r' -> same_session r' r -> untouched_since cutoff r'.
Proof.
  unfold idle_statement. rewrite list_elem_of_fmap. setoid_rewrite idle_groups_spec.
  setoid_rewrite <-live_working_spec. setoid_rewrite <-row_activity_spec. setoid_rewrite <-session_group_spec. split.
  - intros (g & -> & (r & Hr & Hl & <-) & Hall). by exists r.
  - intros (r & Hr & Hl & <- & Hall). exists (session_group r). split; [done|]. split; [by exists r|done].
Qed.

(** C39: The reaper is told of exactly the idle sessions.  When the query is
    answered, a scope is listed if and only if it is the one of a live working
    record (not deleted, not disabled, with a session) none of whose fellows,
    the live working records under the same four columns, was created, updated
    or last read at the cutoff or later.  So a session that is being written
    or recalled is left alone, and each session is listed once, where the
    records of a session agree on how they store an empty project.  When the
    query, the scan of a row or the iteration fails, its error is answered and
    no session is listed. *)
Theorem idle_sessions_listed kind cutoff fault table :
  let run := buildIdleSessionsQuery (fun kind cutoff => select_rows fault (idle_statement kind cutoff)) kind cutoff table in
  match fault with
  | NoFault => exists scopes, run = (table, Ok scopes) /\
      (forall scope, scope ∈ scopes <->
         exists r, r ∈ table /\ works_in_session kind r /\ scope_of_row r = scope /\
           forall r', r' ∈ table -> works_in_session kind r' -> same_session r' r -> untouched_since cutoff r') /\
      ((forall a b, a ∈ table -> b ∈ table -> works_in_session kind a -> works_in_session kind b ->
          scope_of_row a = scope_of_row b -> same_session a b) ->
       NoDup scopes /\
       forall r, r ∈ table -> works_in_session kind r -> ~ untouched_since cutoff r -> scope_of_row r ∉ scopes)
  | QueryFails err | ScanFails _ err | IterFails _ err => run = (table, Fail err)
  end.
Proof.
  cbv zeta. unfold buildIdleSessionsQuery. rewrite query_all_run. destruct fault; [|done..].
  rewrite map_id. eexists. split; [done|]. split; [apply idle_statement_spec|]. intros Hagree. split.
  - unfold idle_statement. apply NoDup_fmap_2_strong; [|apply idle_groups_nodup].
    intros g g' Hg Hg' E. apply idle_groups_spec in Hg as [(a & Ha & Hla & <-) _].
    apply idle_groups_spec in Hg' as [(b & Hb & Hlb & <-) _]. apply session_group_spec, Hagree;
      [done|done|by apply live_working_spec..|exact E].
  - intros r Hr Hw Htouched Hin. apply idle_statement_spec in Hin as (r' & Hr' & Hw' & E & Hall).
    apply Htouched, Hall; [done|done|]. by apply Hagree.
Qed.

Definition work_row (sid : string) (project : option string) (at_ : time) : record_row :=
  mkRecordRow "acme" "alice" project (Some sid) "working" "note" false false at_ at_ None None.

Definition busy_table : list record_row :=
  [work_row "s1" (Some "p") 10; work_row "s1" (Some "p") 90; work_row "s2" (Some "p") 10].

Definition idle_query (table : list record_row) (cutoff : time) : result goerror (list Scope) :=
  (buildIdleSessionsQuery (fun kind cutoff => select_rows NoFault (idle_statement kind cutoff)) "working" cutoff table).2.

Example idle_query_runs : idle_query busy_table 50 = Ok [mkScope "acme" "alice" "p" "s2"].
Proof. vm_compute. reflexivity. Qed.

(** A query that breaks off after its first row lists nothing. *)
Example idle_query_breaks :
  (buildIdleSessionsQuery (fun kind cutoff => select_rows (IterFails 1 (ErrText "EOF")) (idle_statement kind cutoff))
     "working" 50 busy_table).2 = Fail (ErrText "EOF").
Proof. vm_compute. reflexivity. Qed.

(** With both spellings of an empty project in the table, an active session is
    listed on account of its other rows. *)
Lemma null_project_lists_active_session :
  idle_query [work_row "s1" None 10; work_row "s1" (Some ""%string) 90] 50 = Ok [mkScope "acme" "alice" "" "s1"].
Proof. vm_compute. reflexivity. Qed.

(** ** The hard-delete collector over the table *)
Record gc_state := mkGCState {
  gs_table : list record_row;
  gs_metrics : Metrics;
  gs_warnings : list goerror
}.

(** As [main] wires it: [OnPurge] counts the rows, [OnError] logs. *)
Definition table_gc (fault : exec_fault) (retention interval : duration) : HardDeleteGCCron gc_state :=
  NewHardDeleteGCCron
    (Some (buildPurgeSoftDeleted (fun cutoff =>
       exec_delete fault gs_table (fun rows st => mkGCState rows (gs_metrics st) (gs_warnings st)) (purgeable cutoff))))
    retention interval
    (Some (fun err st => mkGCState (gs_table st) (gs_metrics st) (gs_warnings st ++ [err])%list))
    (Some (fun n st => mkGCState (gs_table st) (AddMemoryHardDeleted n (gs_metrics st)) (gs_warnings st))).

Lemma filter_negb_idem {A} (f : A -> bool) l :
  List.filter f (List.filter (fun x => negb (f x)) l) = [].
Proof. induction l as [|x l IH]; [done|]. cbn. destruct (f x) eqn:E; cbn; [done|]. by rewrite E. Qed.

Lemma filter_filter_id {A} (f : A -> bool) l : List.filter f (List.filter f l) = List.filter f l.
Proof. induction l as [|x l IH]; [done|]. cbn. destruct (f x) eqn:E; cbn; [|done]. by rewrite E, IH. Qed.

(** A row that was soft-deleted before the cutoff. *)
Definition old_tombstone (cutoff : time) (r : record_row) : Prop :=
  row_deleted r = true /\ exists t, row_deleted_at r = Some t /\ t < cutoff.

Lemma purgeable_spec cutoff r : purgeable cutoff r = true <-> old_tombstone cutoff r.
Proof.
  unfold purgeable, old_tombstone. rewrite andb_true_iff. destruct (row_deleted_at r) as [t|]; [rewrite Z.ltb_lt|]; split.
  - intros [H1 H2]. eauto.
  - by intros (H1 & ? & [= <-] & H2).
  - by intros [_ ?].
  - by intros (_ & ? & ? & _).
Qed.

(** What the statement does to the table. *)
Definition purged (cutoff : time) (table table' : list record_row) (removed : list record_row) : Prop :=
  Forall (old_tombstone cutoff) removed /\ Forall (fun r => ~ old_tombstone cutoff r) table' /\
  table' `sublist_of` table /\ table ≡ₚ (removed ++ table')%list.

Lemma filter_purged cutoff table :
  purged cutoff table (List.filter (fun r => negb (purgeable cutoff r)) table) (List.filter (purgeable cutoff) table).
Proof.
  unfold purged. split_and!.
  - apply Forall_forall. intros r [_ Hr]%elem_of_filter_list. by apply purgeable_spec.
  - apply Forall_forall. intros r [_ Hr]%elem_of_filter_list. rewrite <-purgeable_spec. by apply negb_true_iff in Hr as ->.
  - induction table as [|r table IH]; cbn; [done|]. destruct (purgeable cutoff r); by constructor.
  - induction table as [|r table IH]; cbn; [done|]. destruct (purgeable cutoff r); cbn; [by constructor|].
    rewrite <-Permutation_middle. by constructor.
Qed.

(** C40: A tick of the collector.  When the statement is answered, the rows it
    removes are exactly those soft-deleted before [now] minus the retention
    (30 days when none is set); every other row stays in its place, live rows
    and fresh tombstones among them; the counter grows by the number removed;
    and a second tick at the same instant finds nothing to do.  When the
    statement fails its error is logged and nothing is counted, and the table
    is as it was, unless the delete had committed. *)
Theorem gc_tick_removes_old_tombstones fault retention interval now st :
  let cutoff := now - (if retention <=? 0 then 30 * 24 * hour else retention) in
  let tick := gc_runOnce (table_gc fault retention interval) now in
  match fault with
  | ExecOk => exists removed,
      purged cutoff (gs_table st) (gs_table (tick st)) removed /\
      counters (gs_metrics (tick st)) memoryHardDeleted
        = (if bool_decide (removed = []) then counters (gs_metrics st) memoryHardDeleted
           else wrapu64 (counters (gs_metrics st) memoryHardDeleted + Z.of_nat (length removed))) /\
      gs_warnings (tick st) = gs_warnings st /\ tick (tick st) = tick st
  | ExecFails committed err =>
      gs_metrics (tick st) = gs_metrics st /\ gs_warnings (tick st) = (gs_warnings st ++ [err])%list /\
      (if committed then exists removed, purged cutoff (gs_table st) (gs_table (tick st)) removed
       else gs_table (tick st) = gs_table st)
  end.
Proof.
  cbv zeta. change (if retention <=? 0 then 30 * 24 * hour else retention) with (or_default retention (30 * 24 * hour)).
  set (cutoff := now - or_default retention (30 * 24 * hour)). pose proof (filter_purged cutoff (gs_table st)) as Hp.
  destruct fault as [|[] err].
  2, 3: unfold gc_runOnce, table_gc, buildPurgeSoftDeleted; cbn; rewrite run_bind; cbn; fold cutoff; split_and!; eauto.
  assert (Hrun : forall st, gc_runOnce (table_gc ExecOk retention interval) now st =
    let n := Z.of_nat (length (List.filter (purgeable cutoff) (gs_table st))) in
    mkGCState (List.filter (fun r => negb (purgeable cutoff r)) (gs_table st))
      (if 0 <? n then AddMemoryHardDeleted n (gs_metrics st) else gs_metrics st) (gs_warnings st)).
  { intros st0. unfold gc_runOnce, table_gc, buildPurgeSoftDeleted. cbn. rewrite run_bind. cbn. fold cutoff. by destruct (0 <? _). }
  exists (List.filter (purgeable cutoff) (gs_table st)). rewrite !Hrun. cbn [gs_table gs_metrics gs_warnings].
  split_and!; [done| |done|].
  - destruct (List.filter (purgeable cutoff) (gs_table st)) as [|r rest] eqn:E; [done|].
    rewrite bool_decide_eq_false_2 by done. unfold AddMemoryHardDeleted, add_counter. cbn. done.
  - rewrite filter_negb_idem, (filter_filter_id (fun r => negb (purgeable cutoff r))). done.
Qed.

(** ** Storage bytes, from the table to the gauge *)
Lemma sum_pick (ks : list string) (k : string) (x : Z) :
  NoDup ks -> k ∈ ks -> sum_Z (map (fun k' => if decide (k = k') then x else 0) ks) = x.
Proof.
  intros Hnd. induction Hnd as [|k0 ks Hk0 Hnd IH]; [by intros ?%elem_of_nil|].
  rewrite elem_of_cons. cbn. unfold sum_Z in *. cbn. intros [->|Hin].
  - rewrite decide_True by done. enough (foldr Z.add 0 (map (fun k' => if decide (k0 = k') then x else 0) ks) = 0) by lia.
    clear IH Hnd. induction ks as [|k1 ks IH]; [done|]. rewrite not_elem_of_cons in Hk0. cbn.
    rewrite decide_False by tauto. rewrite IH; [done|tauto].
  - rewrite decide_False by (intros ->; done). rewrite IH by done. lia.
Qed.

Lemma sum_add {A} (f g : A -> Z) (l : list A) :
  sum_Z (map (fun x => f x + g x) l) = sum_Z (map f l) + sum_Z (map g l).
Proof. unfold sum_Z. induction l; cbn in *; lia. Qed.

(** Summing the groups is summing the rows. *)
Lemma grouped_sum (f : record_row -> Z) (ks : list string) (rows : list record_row) :
  NoDup ks -> (forall r, r ∈ rows -> row_tenant r ∈ ks) ->
  sum_Z (map (fun k => sum_Z (map (fun r => if decide (row_tenant r = k) then f r else 0) rows)) ks)
  = sum_Z (map f rows).
Proof.
  intros Hnd. induction rows as [|r rows IH]; intros Hks.
  - unfold sum_Z. cbn. clear. induction ks; cbn in *; lia.
  - change (sum_Z (map (fun k => (if decide (row_tenant r = k) then f r else 0)
      + sum_Z (map (fun r => if decide (row_tenant r = k) then f r else 0) rows)) ks) = f r + sum_Z (map f rows)).
    rewrite sum_add, sum_pick, IH; [done| |done|].
    + intros r' Hr'. apply Hks. by right.
    + apply Hks. by left.
Qed.

Definition bucket_octets (key : string) (table : list record_row) : Z :=
  sum_Z (map (fun r => if bool_decide (tenantBucket (row_tenant r) = key) then octets r else 0) table).

Lemma tenant_bytes_nonneg table t : 0 <= tenant_bytes table t.
Proof.
  unfold tenant_bytes. apply sum_Z_nonneg. apply Forall_forall. intros x (r & -> & _)%list_elem_of_fmap.
  unfold octets. destruct (decide _); lia.
Qed.

(** The rows of an answered query. *)
Definition storage_rows (table : list record_row) : list StorageRow := map storage_row (storage_statement table).

Lemma query_bucket_bytes key table :
  bucket_bytes sto_MemoryBytes key (storage_rows table) = bucket_octets key table.
Proof.
  unfold bucket_bytes, storage_rows, storage_statement, bucket_octets. rewrite !map_map.
  rewrite <-(grouped_sum (fun r => if bool_decide (tenantBucket (row_tenant r) = key) then octets r else 0)
               (remove_dups (map row_tenant table)) table).
  - f_equal. apply map_ext. intros t. unfold in_storage_bucket, storage_row. cbn.
    destruct (Z.ltb_spec (tenant_bytes table t) 0) as [Hneg|_]; [pose proof (tenant_bytes_nonneg table t); lia|].
    unfold tenant_bytes. case_bool_decide as Hb.
    + f_equal. apply map_ext. intros r. destruct (decide (row_tenant r = t)) as [->|]; [|done].
      by rewrite bool_decide_eq_true_2.
    + unfold sum_Z. clear -Hb. induction table as [|r rows IH]; [done|]. cbn. rewrite <-IH.
      destruct (decide (row_tenant r = t)) as [->|]; [|done]. by rewrite bool_decide_eq_false_2.
  - apply NoDup_remove_dups.
  - intros r Hr. apply elem_of_remove_dups, list_elem_of_fmap. by exists r.
Qed.

Lemma query_present key table :
  existsb (in_storage_bucket key) (storage_rows table)
  = existsb (fun r => bool_decide (tenantBucket (row_tenant r) = key)) table.
Proof.
  apply eq_true_iff_eq. rewrite !existsb_exists. unfold storage_rows, storage_statement. rewrite map_map. split.
  - intros (row & Hin & Hb). apply list_elem_of_In, list_elem_of_fmap in Hin as (t & -> & Ht).
    apply elem_of_remove_dups, list_elem_of_fmap in Ht as (r & -> & Hr). exists r. split; [by apply list_elem_of_In|done].
  - intros (r & Hin & Hb). exists (storage_row (row_tenant r, tenant_bytes table (row_tenant r))). split; [|done].
    apply list_elem_of_In, list_elem_of_fmap. exists (row_tenant r). split; [done|].
    apply elem_of_remove_dups, list_elem_of_fmap. exists r. split; [done|by apply list_elem_of_In].
Qed.

(** With the query of [main], the memory gauge of a tenant bucket is the
    number of content bytes of all the records stored for the bucket's
    tenants, soft-deleted ones included, modulo [2^64], and the vector gauge
    is zero; a bucket no record belongs to keeps its old values.  A query that
    fails counts as a failure of the job and moves no gauge. *)
Theorem storage_gauges_measure_table iter m fault table key :
  (forall agg, iter agg ≡ₚ map_to_list agg) ->
  let rows := (buildStorageMetricsQuery (select_rows fault storage_statement) table).2 in
  let m' := storage_runOnce metrics_storage_sink rows iter m in
  let present := existsb (fun r => bool_decide (tenantBucket (row_tenant r) = key)) table in
  match fault with
  | NoFault =>
      bucket_value m' memoryStorageBytes key
        = (if present then wrapu64 (bucket_octets key table) else bucket_value m memoryStorageBytes key) /\
      bucket_value m' vectorStorageBytes key = (if present then 0 else bucket_value m vectorStorageBytes key)
  | _ => m' = AddStorageCronFailure m
  end.
Proof.
  intros Hiter rows m' present. subst m' rows. unfold buildStorageMetricsQuery. rewrite query_all_run.
  destruct fault; [|done..]. cbn [snd]. change (map storage_row (storage_statement table)) with (storage_rows table).
  destruct (storage_tick_values iter m (storage_rows table) Hiter) as [H _].
  destruct (H key) as [Hm Hv]. rewrite Hm, Hv, query_present. fold present.
  destruct present; [|done]. rewrite query_bucket_bytes. split; [done|].
  replace (bucket_bytes sto_VectorBytes key (storage_rows table)) with 0; [done|].
  unfold bucket_bytes, storage_rows. rewrite map_map, (map_ext _ (fun _ => 0)).
  - unfold sum_Z. by induction (storage_statement table).
  - intros t. by destruct (in_storage_bucket _ _).
Qed.

Lemma storage_gauges_measure_table_witness :
  let rows := (buildStorageMetricsQuery (select_rows NoFault storage_statement) busy_table).2 in
  let m' := storage_runOnce metrics_storage_sink rows map_to_list NewMetrics in
  bucket_value m' memoryStorageBytes (tenantBucket "acme") = 12.
Proof.
  pose proof (storage_gauges_measure_table map_to_list NewMetrics NoFault busy_table (tenantBucket "acme")
                (fun _ => reflexivity _)) as [H _]. cbv zeta in H |- *. rewrite H. vm_compute. reflexivity.
Defined.
Close Scope Z_scope.
