(* ===== verification/Process.v ===== *)
(** * The process: [run] and [main] of [cmd/memory-gateway], the command
      [cmd/memory-gateway-migrate], and what [main.go] builds around the
      vector store and the logger

    The resources are those of [Wiring.buildHandler]; the listener and the
    logger are parameters. *)
From S2P Require Import Prelude GoStrings HttpApi Authz Contract HybridRecall Service Vector Outbox Config Wiring.
Open Scope Z_scope.

(** ** The logger: [slogTraceEmitter], [slogOutboxProjectionObserver]

    [info] writes a message with its attributes; a nil logger is [None]. *)
Section logger.
Context {E : Type} (info : option (string -> list (string * value) -> E -> E)).

(** [fields] is in the order Go visits the map. *)
Definition slogTraceEmitter : TraceEmitter E := fun stage fields e =>
  match info with
  | None => e
  | Some info => info "memory gateway trace" (("stage"%string, VStr stage) :: fields) e
  end.

Definition slogOutboxProjectionObserver : OutboxProjectionObserver E := fun obs e =>
  match info with
  | None => e
  | Some info =>
      info "memory gateway outbox projection"
        [("status"%string, VStr (op_Status obs)); ("event_type"%string, VStr (op_EventType obs));
         ("tenant_id"%string, VStr (op_TenantID obs)); ("memory_id"%string, VStr (op_MemoryID obs));
         ("event_version"%string, VInt (op_EventVersion obs));
         ("current_version"%string, VInt (op_CurrentVersion obs));
         ("reason"%string, VStr (op_Reason obs))] e
  end.
End logger.

(** ** The vector store *)
Inductive vector_index := VectorIndexNone | VectorIndexIVFFlat | VectorIndexHNSW.

Definition parseVectorIndex (index : string) : vector_index :=
  if bool_decide (index = "ivfflat"%string) then VectorIndexIVFFlat
  else if bool_decide (index = "hnsw"%string) then VectorIndexHNSW
  else VectorIndexNone.

Section vector.
Context {E Vec : Type}.
(** [NewHashEmbedder(dimension)], and the store the configuration opens. *)
Context (hash_embedder : Z -> Embedder E Vec) (open_store : string -> Z -> vector_index -> result goerror (ragStore E Vec)).

Inductive vector_source := NullSource | RagSource (s : ragClient E Vec).

Definition vector_client (cfg : Config) (store : option (ragStore E Vec)) (metrics : option (EmbeddingMetricsSink E)) : ragClient E Vec :=
  let client := NewRAGClient (Some (hash_embedder (cf_VectorDimension cfg))) store (cf_VectorNamespace cfg) in
  match metrics with
  | Some _ => SetEmbeddingMetrics client metrics (cf_EmbeddingCostMicrosPerToken cfg)
  | None => client
  end.

Definition buildVectorCandidateSource (cfg : Config) (metrics : option (EmbeddingMetricsSink E)) : result goerror vector_source :=
  if negb (cf_VectorEnabled cfg) then Ok NullSource
  else
    match open_store (cf_VectorTable cfg) (cf_VectorDimension cfg) (parseVectorIndex (cf_VectorIndex cfg)) with
    | Fail err => Fail err
    | Ok store => Ok (RagSource (vector_client cfg (Some store) metrics))
    end.

Definition buildVectorProjector (cfg : Config) (source : vector_source) (metrics : option (EmbeddingMetricsSink E)) : option (ragClient E Vec) :=
  if negb (cf_VectorEnabled cfg) then None
  else
    match source with
    | NullSource => None
    | RagSource s => Some (vector_client cfg (rg_store s) metrics)
    end.

(** The projector that [buildHandler] builds writes where the recall source
    reads: they have the same embedder, store, namespace, sink and rate. *)
Lemma projector_matches_source cfg metrics source :
  buildVectorCandidateSource cfg metrics = Ok source ->
  match source with
  | NullSource => cf_VectorEnabled cfg = false /\ buildVectorProjector cfg source metrics = None
  | RagSource s => cf_VectorEnabled cfg = true /\ buildVectorProjector cfg source metrics = Some s
  end.
Proof.
  unfold buildVectorCandidateSource, buildVectorProjector. destruct (cf_VectorEnabled cfg); cbn.
  - destruct (open_store _ _ _) as [store|]; [|done]. intros [= <-]. split; [done|].
    unfold vector_client. by destruct metrics.
  - by intros [= <-].
Qed.
End vector.

(** ** [run] and [main] *)
Section process.
(** [serve] is the error [ListenAndServe] comes back with, [build] the error
    of [buildHandler]. *)
Context (build serve : goerror).

Definition run (cfg : result goerror Config) (o : step_results) : list action * goerror :=
  match cfg with
  | Fail err => ([], err)
  | Ok cfg =>
      let b := buildHandler cfg o in
      match br_cleanup b with
      | None => (br_actions b, build)
      | Some cleanup => ((br_actions b ++ map Release cleanup)%list, serve)
      end
  end.

(** [main] logs the error, which [run] always has, and exits with 1. *)
Definition main (cfg : result goerror Config) (o : step_results) : list action * list goerror * Z :=
  let '(acts, err) := run cfg o in (acts, [err], 1).
End process.

(** The migration command: [log.Fatal] exits without running [defer]. *)
Definition migrate_main (dsn : string) (pool_ok migrate_ok : bool) : list action * Z :=
  if bool_decide (dsn = ""%string) then ([], 1)
  else if negb pool_ok then ([], 1)
  else if negb migrate_ok then ([Acquire RPool], 1)
  else ([Acquire RPool; Release RPool], 0).

Lemma released_app a b : released (a ++ b) = (released a ++ released b)%list.
Proof. apply omap_app. Qed.
Lemma acquired_app a b : acquired (a ++ b) = (acquired a ++ acquired b)%list.
Proof. apply omap_app. Qed.
Lemma released_map l : released (map Release l) = l.
Proof. unfold released. induction l as [|r l IH]; cbn; [done|]. by rewrite IH. Qed.
Lemma acquired_map l : acquired (map Release l) = [].
Proof. unfold acquired. induction l as [|r l IH]; cbn; done. Qed.

(** A failing [buildHandler] never got as far as the relay. *)
Lemma relay_only_at_the_end cfg o :
  br_cleanup (buildHandler cfg o) = None -> RRelay ∉ acquired (br_actions (buildHandler cfg o)).
Proof.
  assert (H : bool_decide (br_cleanup (buildHandler cfg o) = None -> RRelay ∉ acquired (br_actions (buildHandler cfg o))) = true);
    [|by apply bool_decide_eq_true in H].
  unfold buildHandler, build_vector, build_jobs, build_relay.
  destruct (ok_pool o); [|reflexivity]. destruct (ok_migrate o); [|reflexivity].
  destruct (ok_store o); [|reflexivity]. destruct (cf_VectorEnabled cfg).
  - destruct (ok_vector_pool o); [|reflexivity]. destruct (ok_vector_store o); [|reflexivity].
    destruct (ok_vector_migrate o); [|reflexivity]. destruct (ok_service o); [|reflexivity].
    destruct (cf_SessionReaperEnabled cfg), (cf_HardDeleteGCEnabled cfg), (ok_relay o); vm_compute; reflexivity.
  - destruct (ok_service o); [|reflexivity].
    destruct (cf_SessionReaperEnabled cfg), (cf_HardDeleteGCEnabled cfg); vm_compute; reflexivity.
Qed.

(** C38: However [run] ends (bad settings, any step of [buildHandler] failing,
    or the listener coming back), it has given back every resource it acquired,
    each exactly once, the main pool last; the relay worker is stopped first and
    its leases are released right after it. *)
Theorem run_releases_everything build serve cfg o :
  let acts := (run build serve cfg o).1 in
  NoDup (acquired acts) /\ released acts ≡ₚ acquired acts /\
  (acquired acts <> [] -> last (released acts) = Some RPool) /\
  (RRelay ∈ acquired acts -> take 2 (released acts) = [RRelayWorker; RRelay]).
Proof.
  unfold run. destruct cfg as [cfg|err].
  2: { cbn. split_and!; [constructor|done|done|]. intros H. by apply not_elem_of_nil in H. }
  destruct (buildHandler_releases_everything cfg o) as [Hnd Hb]. pose proof (relay_only_at_the_end cfg o) as Hrel.
  destruct (br_cleanup (buildHandler cfg o)) as [cleanup|] eqn:Ec; cbn [fst].
  - destruct Hb as (H0 & Hp & Hl & Hr).
    rewrite acquired_app, released_app, acquired_map, released_map, H0, app_nil_r. cbn. split_and!; [done|done|done|].
    intros H. apply Hr. by rewrite Hp.
  - destruct Hb as (Hp & Hl). split_and!; [done..|]. intros H. by destruct (Hrel eq_refl).
Qed.
Close Scope Z_scope.
