(* ===== verification/Findings.v ===== *)
(** * Behaviours that depart from what the code or its comments intend

    Each lemma exhibits one on the definitions of the development; the leak of
    cached recalls between scopes with separators is in [Isolation.v], the
    double close of a cron in [Crons.v], the uncounted late trace row and the
    batch stored twice in [TraceSink.v], the keyed patch whose key was not saved
    in [Mutations.v], the order-dependent reason in [TraceEmitter.v] and the split
    project groups in [Wiring.v]. *)
From S2P Require Import Prelude GoStrings GoFloat HttpApi Authz ScopeKeys Contract RecallCache Sessions SessionProps ScopeVersions RecallSelection HybridRecall Service ServiceCalls RefWorld Lifecycle SessionCloser.
Open Scope Z_scope.

(** A heartbeat stores an active row, whose [closed_at] is NULL, and reads it
    back into a [time.Time] that is not a pointer.  pgx refuses to scan NULL
    there ([null_time] is an error), so the heartbeat is committed and reported
    as failed, and so is every later read of the session. *)
Lemma postgres_heartbeat_unreadable err scope now rows :
  (forall row, rows !! scope = Some row -> row_is_closed row = false) ->
  let '(db, r) := pg_SaveHeartbeat true (Fail err) scope now (mkPgSessions rows []) in
  r = Fail (ErrWrap "memory-gateway/service: save heartbeat" err) /\
  pg_rows db !! scope = Some (mkSessionRow "active" "" None (Some (trunc_us now))) /\
  (err_is_exactly err NoRows = false ->
   (pg_LoadSessionState true (Fail err) scope db).2
     = Fail (ErrWrap "memory-gateway/service: load session state" err)).
Proof.
  intros Hopen. unfold pg_SaveHeartbeat, query_row_scan, pg_query, upsert_heartbeat. cbn.
  rewrite run_bind. unfold attempt. rewrite run_bind. cbn.
  assert (E : match rows !! scope with
    | Some r => if row_is_closed r then mkSessionRow (row_status r) (row_mode r) (row_closed_at r) (row_last_heartbeat_at r)
                else mkSessionRow "active" "" None (Some (trunc_us now))
    | None => mkSessionRow "active" "" None (Some (trunc_us now)) end
    = mkSessionRow "active" "" None (Some (trunc_us now))).
  { destruct (rows !! scope) as [row|] eqn:Er; [|done]. by rewrite (Hopen row eq_refl). }
  rewrite E. cbn. split_and!; [done|by rewrite lookup_insert_eq|].
  intros Hn. unfold pg_LoadSessionState, query_row_scan, pg_query. cbn. rewrite run_bind. unfold attempt. rewrite run_bind.
  cbn. rewrite lookup_insert_eq. cbn. by rewrite Hn.
Qed.

(** A consistency level that is none of the known ones is served from the
    cache whatever the age of the entry and the version of its scope. *)
Lemma unknown_level_never_expires c key level allow now version entry :
  level <> "bounded"%string -> level <> "eventual"%string -> c !! key = Some entry ->
  Lookup c key level allow now version = Some (ce_response entry, false).
Proof.
  intros Hb He Hc. unfold Lookup, cache_Get. rewrite Hc.
  by rewrite bool_decide_eq_false_2, bool_decide_eq_false_2.
Qed.

(** [UnpinMemory] and [EnableMemory] do not check the session: the record of a
    session that has been closed is still changed. *)
Lemma unpin_changes_closed_session :
  let st1 := run_calls ref_clock ref_write_digest ref_patch_digest ref_kind (ref_service false)
               [CallWrite alice (write_req "likes green tea"); CallPin alice "m1" (pin_req 1);
                CallClose alice "" close_req] ref_start in
  let r := UnpinMemory (ref_service false) alice "m1" (pin_req 2) st1 in
  is_ok (run_call ref_clock ref_write_digest ref_patch_digest ref_kind (ref_service false)
           (CallPin alice "m1" (pin_req 2)) st1).2 = false /\
  result_map (fun p => (pn_Version p, pn_Pinned p)) r.2 = Ok (3, false).
Proof.
  split; vm_compute; reflexivity.
Qed.

(** The trace of an answered recall is shared with the cache: the next hit
    rewrites what the first caller was given. *)
Definition debug_recall : RecallUnifiedRequest := mkRecallUnifiedRequest no_claim "tea" 8 0 0 "" false true.

Lemma returned_trace_is_overwritten :
  let st0 := run_calls ref_clock ref_write_digest ref_patch_digest ref_kind (ref_service false)
               [CallWrite alice (write_req "likes green tea")] ref_start in
  let '(st1, r1) := RecallUnified ref_clock (ref_service false) alice debug_recall st0 in
  let '(st2, r2) := RecallUnified ref_clock (ref_service false) alice debug_recall st1 in
  match r1 with
  | Ok resp => option_map tr_CacheLevel (ru_Trace resp ≫= fun a => st_heap st1 !! a) = Some "origin"%string /\
               option_map tr_CacheLevel (ru_Trace resp ≫= fun a => st_heap st2 !! a) = Some "l1_hit"%string
  | Fail _ => False
  end.
Proof. vm_compute. split; reflexivity. Qed.

(** A recall that finds nothing is answered without any observation. *)
Lemma empty_recall_unobserved :
  let '(st, r) := RecallUnified ref_clock (ref_service false) alice debug_recall ref_start in
  result_map ru_Hits r = Ok [] /\ w_log (st_ext st) = [].
Proof. vm_compute. split; reflexivity. Qed.
Close Scope Z_scope.
